(* ===== verification/_CoqProject ===== *)
-Q . S2P
Prelude.v
CInt.v
CStr.v
CFloat.v
Internal.v
Sys.v
Sample.v
Seccomp.v
Isolation.v
Ownership.v
Cgroup.v
Guards.v
Verdict.v
Compile.v
Run.v
Config.v
Engine.v
Sha256.v
Base64.v
Sha1.v
Filename.v
CArray.v
Query.v
JsonText.v
JsonRead.v
JsonSpec.v
JsonRefine.v
JsonGrammar.v
JsonWrite.v
JsonAccess.v
CNum.v
Trie.v
TrieSpec.v
HttpData.v
RuleTags.v
Router.v
RouterSpec.v
WebSocket.v
WebSocketFrames.v
WebSocketSpec.v
Multipart.v
HttpParser.v
HttpSteps.v
HttpBytes.v
HttpFeed.v
HttpTurns.v
HttpPieces.v
HttpCuts.v
HttpRead.v
HttpNames.v
RequestParser.v
HttpConnection.v
HttpReply.v
HttpKeeps.v
HttpLife.v
HttpServe.v
HttpCases.v
TaskTimer.v
