(* ===== verification/Prelude.v ===== *)
(** * The Deep-OJ judge engine, verified

    Deep-OJ judges programs submitted to an online judge.  Its services (API,
    scheduler, worker) are written in Go; what compiles and runs the untrusted
    programs is the judge engine, the C++ program of [src/core/worker]:
    one process per request, started by the Go worker with command-line
    options, that answers with one line of JSON on stdout.  This library models
    that engine whole and proves what makes it correct.

    ** The parts of the program and where they are modelled

    - [main.cpp], the command line, the modes (self test, cleanup, compile,
      run) and the JSON protocol: [Engine].  [main] is the whole function, cut
      at its modes; option parsing ([getopt_long]) and JSON printing
      (nlohmann::json) are the classes [Getopt] and [Json].
    - [config.cpp], the loader of the configuration: [Config]; yaml-cpp is the
      class [Yaml], instantiated by a tree of nodes in [Config.Tree].
    - [sandbox.cpp], the parent side: [Guards] (ProcessGuard, AutoCloseFd,
      DirectoryGuard), [Verdict] (exit-code tables, the marker of a failed
      exec, the decision on the wait status), [Compile] ([Sandbox::Sandbox],
      [Sandbox::Compile], [Sandbox::Cleanup]) and [Run] ([Sandbox::Run]).
    - [cgroup_manager.cpp], the cgroup v2 layer: [Cgroup].
    - [sandbox_isolation.cpp], the code of the cloned children: [Isolation]
      ([RunChildFn], [CompileChildFn], [SetupRootfs], [EnsureParentDir], the
      diagnostics).
    - [seccomp_rules.cpp], the system-call filters: [Seccomp]; libseccomp is the
      class [FilterSemantics].
    - [sandbox_internal.h], [sandbox.h], the shared data: [Internal].

    The repository also carries two header-only libraries under [include/] that
    no file of the engine includes.  Parts of them are modelled on their own,
    beside the engine: [Sha256] (picosha2.h, against FIPS 180-4), and of
    crow_all.h [Sha1], [Base64], [Filename] (the hash of the WebSocket
    handshake, base64, the sanitiser of file names), [Query] (query strings), the
    JSON library and the HTTP request parser, in several files:
    - [JsonText]: strings, escaped and unescaped in place;
    - [JsonRead]: [rvalue] and [json::load], the parser over its array;
    - [JsonSpec]: documents without an array, and a reader on lists;
    - [JsonRefine]: the parser computes that reader;
    - [JsonGrammar]: the reader, and so the parser, accepts a grammar, and the
      automaton for numbers the numbers of it;
    - [JsonWrite]: [wvalue] and [dump];
    - [JsonAccess]: the accessors of [rvalue], over classes for Boost and [std::sort];
    - [CNum]: [strtoll], [strtoull] and [strtod];
    - [Trie]: the search tree of the router, with its nodes as values;
    - [TrieSpec]: the routes of a tree, and what a search finds among them;
    - [RuleTags]: the tags of rules and the arguments of their handlers;
    - [Router]: rules, blueprints, responses, [validate] and [handle];
    - [RouterSpec]: a router answers as its list of rules says;
    - [WebSocket]: a connection as a state machine over asio's completions;
    - [WebSocketFrames]: the frames of RFC 6455 and the bytes of integers;
    - [WebSocketSpec]: messages received, frames written, use after deletion;
    - [Multipart]: multipart messages, read and written;
    - [HttpData]: [HTTPMethod], [http_errno], the states, the character classes
      and tables, [http_parser] with its bit-field widths, [parse_url_char];
    - [HttpParser]: [http_parser_execute], a definition per case of its switch
      and per loop, over a monad of its own whose outcomes are values, [return],
      [goto error] and being stuck (a null pointer difference, a failed
      assertion, an access outside the buffer);
    - [HttpSteps], [HttpBytes]: lemmas on the monad and on one byte;
    - [HttpFeed], [HttpTurns], [HttpPieces], [HttpCuts]: the parser as a fold
      over single bytes, the turns of its inner loops against that fold, and the
      two theorems on whole buffers;
    - [HttpRead], [HttpNames]: what the parser does with a written request, and
      which headers mean something to it;
    - [RequestParser]: [HTTPParser], whose callbacks put the request of the router
      together;
    - [HttpConnection]: [Connection] over the events of asio, with the parser, the
      application and the socket;
    - [HttpReply]: what a client reads of the bytes of a response;
    - [HttpKeeps], [HttpLife]: what callbacks preserve, the parser preserves, and so
      the invariant of a connection until its deletion;
    - [HttpServe]: written requests through a connection, to their responses;
    - [HttpCases]: whole runs of a connection, evaluated;
    - [TaskTimer]: the timer of the connections' deadlines.

    Below them are the files that model the language and the system ([CArray]
    holds the arrays of characters that Query, JSON and HTTP share): this
    prelude (strings as byte sequences, notations, tactics, hint databases),
    [CInt] (machine integers with their wrap-around, [std::stoi] and its family,
    [std::to_string]), [CFloat] (binary64 by the Standard Library's
    [SpecFloat]), [CStr] (C strings, [strncpy], [snprintf] into a bounded
    buffer, [std::filesystem::path] on strings; [CStr.Buffer] relates the string
    view to arrays of bytes), [Sys] and [Ownership].  [Sample] holds the
    concrete configuration and arguments of the witnesses.

    ** How code becomes definitions

    [Sys] is the effect discipline.  A piece of code that returns [A] is a
    [prog A]: a tree whose nodes are the system and library calls of the engine
    ([sys]), each with the type of its answer, and whose leaves are values or
    halts ([exit], exec, an exception, undefined behaviour, exhausted fuel).
    Undefined behaviour is explicit: a signed overflow, an index outside an
    array, an [int] conversion out of range end in [HUB].  A [kernel] answers
    each call from the calls before it; [run] interprets a program under a
    kernel and collects the trace of calls and answers, so that "the child is
    killed before it is waited for" is a statement on a list.  Everything is
    executable: the witnesses evaluate whole runs by [vm_compute].

    Exceptions: [throw], [try_catch]; destructors: [finally] and the scopes of
    [Guards], which run when the scope is left normally or by an exception (the
    engine's exceptions all have a handler or end the process; the model unwinds
    as under a handler).  Moves of guards are instances of the ownership
    discipline of [Ownership] ([Class Movable]), proved once: every resource
    acquired has one owner, was released or was given up.  Programs over
    [ProcessGuard]s refine it ([Guards.process_guards_released_once]).

    Proofs about programs use four predicates over [prog], each with rules for
    the monad's operations and a tactic or hint database: [wp] (a weakest
    precondition relative to an environment [env], a constraint on the answers),
    [calls] (every call satisfies a predicate, under every kernel), [yields] and
    [halting] (every value, every halt does).  [Isolation] adds [logs]: the
    successful confining calls are exactly a given list.

    ** What the theorems show

    - Confinement ([Isolation], [Seccomp]): a child that executes the program or
      the compiler has performed every confinement step, in order; otherwise it
      exits with a code that names the failure.  The filters decide exactly the
      listed calls.
    - Verdicts ([Verdict], [Run], [Engine]): the decision on every wait status;
      what a failure of the child is turned into; a program is accepted, and "OK"
      is printed, only on a clean exit within the limits.
    - Termination and resources ([Guards], [Compile], [Run], [Cgroup]): waiting
      ends, children are reaped, descriptors are closed, directories are removed
      or kept, guards release what they own once.
    - Confinement of the parent ([Compile]): request ids cannot leave the root
      directory; compilation touches only the request's directory.
    - Configuration and protocol ([Config], [Engine]): a loaded configuration is
      well formed and holds the file's values; stdout carries at most one line of
      JSON; the report's fields are complete and consistent; numbers round-trip.

    - Library headers: both hashes are those of FIPS 180-4 and may be fed in
      pieces; base64 round-trips; a sanitised file name is clean and cannot
      traverse directories.  The HTTP parser is never stuck on a buffer without
      NUL, whatever its callbacks do within their contract ([HttpCuts.http_safe]),
      and however a buffer is cut, callbacks that do not depend on the cuts see the
      same request ([HttpCuts.http_pieces], with the one exception the code has).  A query
      string is parsed in place without leaving its array, to what decoding each
      pair by itself gives; lookups find what was encoded.  A JSON text is parsed
      within its array, to the document the grammar derives or to an error
      ([JsonRefine.load_refines], [JsonGrammar.load_grammar]), and what is
      written is read back ([JsonWrite.dump_load]); keys are found among the
      members, however often the value was looked into ([JsonAccess.load_at_key]).
      The search tree finds the rule with the least index that matches the URL,
      with its parameters ([TrieSpec.trie_routes]), which reach the handler in
      order and by type ([RuleTags.handler_arguments]); a router of rules that can
      be told apart refines the list of them ([RouterSpec.router_dispatch]).  A web socket hands
      over the messages its frames make, where each frame's header is read whole
      ([WebSocketSpec.ws_messages]), what is sent
      is received ([WebSocketSpec.ws_end_to_end]), and no deleted connection is used
      before a close frame was sent ([WebSocketSpec.ws_alive]).  A multipart message
      is read back from its text ([Multipart.multipart_roundtrip]).  A request is
      read, from its bytes, to the request that the router is asked
      ([RequestParser.request_roundtrip]), in one buffer or in several
      ([RequestParser.feed_pieces]).  A server of routes answers the bytes of
      requests, each whole in one read and after the last was answered, with the bytes of the responses that the list of its rules gives
      ([HttpServe.routes_answered]; for any application,
      [HttpServe.requests_answered]), a client reads in them the status, the headers
      and the body ([HttpReply.reply_read]), no connection that
      writes one response at a time is used after its deletion
      ([HttpLife.connection_lives]), and its deadline comes ([TaskTimer.task_called]).

    Several theorems record what the code does where it does less than it
    means to: [Cgroup.KillAllProcesses_first_line], [Cgroup.enable_list_spec],
    [Run.realtime_mle_unreachable], [Isolation.cpu_soft_bounds],
    [Sha1.sha1_length_truncated], [Base64.base64decode_defined],
    [Query.strncmp_past_end], [Query.scan_past_end], [Query.pop_keeps_escaped],
    [Query.dict_prefix], [JsonWrite.moved_number], [JsonWrite.wide_double],
    [JsonWrite.odd_numbers], [RuleTags.compatible_counts], [TrieSpec.add_hangs],
    [Router.empty_parent], [RouterSpec.slash_twice], [Router.ended_twice], [WebSocketSpec.second_close],
    [WebSocketSpec.close_answered], [WebSocketSpec.closed_handlers],
    [WebSocketSpec.continuation_first], [WebSocketSpec.short_header],
    [Multipart.empty_hangs], [Multipart.no_boundary], [Multipart.no_name],
    [RequestParser.empty_values], [RequestParser.pipelined],
    [RequestParser.longer_name], [HttpCases.after_head], [HttpCases.head_body],
    [HttpCases.continue_lost], [HttpCases.upgrade_refused], [HttpCases.dropped],
    [HttpCases.answered_twice], [HttpCases.used_after], [HttpCases.ended_too_late], [HttpCases.stranded],
    [TaskTimer.cancelled_for_another].

    ** Environments and fuel

    Theorems that need no assumption hold for every kernel.  The others name
    theirs: [Guards.live] (waits are not interrupted, a blocking wait does not answer 0, the
    steady clock advances by the time slept), [Run.punctual] (live, and no jump
    of the clock by an hour), [Run.quiet_wnohang] (wait4 fills the usage only for
    a child it reports), [Sys.static_files], [Sys.static_stat],
    [Sys.streams_good] (files and streams answer consistently).  Each has a
    witness kernel.  Loops that are not structural take fuel; one unit per turn.
    [Compile_spec] needs one unit per 50 ms of the compile limit, [Run] one per
    10 ms of the time limit (plus the second the code adds); [extract_ints] gets
    the length of its text.  With that much fuel the theorems show that [HFuel]
    does not occur.  The loops of the HTTP parser get one unit per byte of the
    buffer and the label [reexecute] six per byte; [http_safe] shows that
    [NoFuel] does not occur.  The JSON parser gets four units per byte and four
    more: a byte is the first of at most four calls.

    ** What is not modelled

    The Go services, the SQL schema, the scripts and dashboards; of crow_all.h the
    server around the connections (threads, acceptors), middlewares, templates,
    cookies, static files, compression and TLS, and what a connection does after the
    first synchronous write of a body as long as the stream threshold
    ([HttpConnection.Streams]), none of which the engine uses; the effect of
    the system calls inside the kernel (a mount is an event, not a change of a
    file system); memory allocation failures; the interleaving of parent and
    child, which share nothing but the wait status and files, so that each is a
    program of its own under an arbitrary kernel. *)

From stdpp Require Export base numbers strings list pretty.
From Stdlib Require Export ZArith Lia Bool.
From Stdlib Require Strings.Ascii.
Export Stdlib.Strings.Ascii(ascii(..)).
Export (notations) Stdlib.Strings.Ascii.

(** ** Notations *)

Declare Scope oj_scope.
Delimit Scope oj_scope with oj.
#[global] Open Scope Z_scope.
#[global] Arguments String.append : simpl nomatch.

(** ** Hint databases and tactics *)

Create HintDb oj.
Create HintDb oj_str.
Create Rewrite HintDb oj_rw.

(** Case analysis on the scrutinee of the first [if] or [match] of the goal. *)
Ltac case_goal :=
  match goal with
  | |- context [if ?b then _ else _] => destruct b eqn:?
  | |- context [match ?x with _ => _ end] => destruct x eqn:?
  end.

(** Case analysis on the first [if] or [match] of a hypothesis. *)
Ltac case_hyp H :=
  match type of H with
  | context [if ?b then _ else _] => destruct b eqn:?
  | context [match ?x with _ => _ end] => destruct x eqn:?
  end.

(** Turn boolean comparisons of the context into propositions. *)
Ltac b2p :=
  repeat match goal with
  | H : (_ && _)%bool = true |- _ => apply andb_true_iff in H as [? ?]
  | H : (_ || _)%bool = false |- _ => apply orb_false_iff in H as [? ?]
  | H : negb _ = true |- _ => apply negb_true_iff in H
  | H : negb _ = false |- _ => apply negb_false_iff in H
  | H : (_ =? _) = true |- _ => apply Z.eqb_eq in H
  | H : (_ =? _) = false |- _ => apply Z.eqb_neq in H
  | H : (_ <? _) = true |- _ => apply Z.ltb_lt in H
  | H : (_ <? _) = false |- _ => apply Z.ltb_ge in H
  | H : (_ <=? _) = true |- _ => apply Z.leb_le in H
  | H : (_ <=? _) = false |- _ => apply Z.leb_gt in H
  end.

(** ** Strings as byte sequences

    A C++ [std::string] is a sequence of bytes; a C string is the part before
    the first NUL.  Both are Rocq [string]s here. *)

Fixpoint str_take (n : nat) (s : string) : string :=
  match n, s with
  | S n, String a s => String a (str_take n s)
  | _, _ => EmptyString
  end.

Fixpoint str_drop (n : nat) (s : string) : string :=
  match n, s with
  | S n, String _ s => str_drop n s
  | _, _ => s
  end.

Definition NUL : ascii := Ascii.zero.

(** What [s.c_str()] denotes: the bytes before the first NUL. *)
Fixpoint c_str (s : string) : string :=
  match s with
  | EmptyString => EmptyString
  | String a s => if Ascii.eqb a NUL then EmptyString else String a (c_str s)
  end.

Fixpoint str_forall (f : ascii -> bool) (s : string) : bool :=
  match s with
  | EmptyString => true
  | String a s => f a && str_forall f s
  end.

Definition no_nul (s : string) : bool :=
  str_forall (fun a => negb (Ascii.eqb a NUL)) s.

Definition str_empty (s : string) : bool :=
  match s with EmptyString => true | _ => false end.

(** [hay.find(needle) != npos]. *)
Fixpoint str_contains (needle hay : string) : bool :=
  String.prefix needle hay ||
  match hay with
  | EmptyString => false
  | String _ hay => str_contains needle hay
  end.

Definition slen (s : string) : Z := Z.of_nat (String.length s).

Definition chr (n : nat) : ascii := Ascii.ascii_of_nat n.
Definition newline : string := String (chr 10) EmptyString.

(** *** Lemmas on strings *)

Lemma str_app_nil_r s : s +:+ EmptyString = s.
Proof. induction s as [|a s IH]; [done|]. cbn. by rewrite IH. Qed.

Lemma str_app_assoc s1 s2 s3 : (s1 +:+ s2) +:+ s3 = s1 +:+ (s2 +:+ s3).
Proof. induction s1 as [|a s1 IH]; [done|]. cbn. by rewrite IH. Qed.

Lemma str_length_app s1 s2 :
  String.length (s1 +:+ s2) = (String.length s1 + String.length s2)%nat.
Proof. induction s1 as [|a s1 IH]; [done|]. cbn. by rewrite IH. Qed.

Lemma str_take_length n s :
  String.length (str_take n s) = Nat.min n (String.length s).
Proof. revert s. induction n as [|n IH]; intros [|a s]; cbn; auto. Qed.

Lemma str_take_all n s : (String.length s <= n)%nat -> str_take n s = s.
Proof.
  revert s. induction n as [|n IH]; intros [|a s]; cbn; intros H; auto; [lia|].
  rewrite IH; [done|lia].
Qed.

Lemma str_take_app_le n s1 s2 :
  (n <= String.length s1)%nat -> str_take n (s1 +:+ s2) = str_take n s1.
Proof.
  revert s1. induction n as [|n IH]; intros [|a s1]; cbn; intros H; auto; [lia|].
  rewrite IH; [done|lia].
Qed.

Lemma str_take_app_ge n s1 s2 :
  (String.length s1 <= n)%nat ->
  str_take n (s1 +:+ s2) = s1 +:+ str_take (n - String.length s1) s2.
Proof.
  revert s1. induction n as [|n IH]; intros [|a s1]; cbn; intros H; auto; [lia|].
  rewrite IH; [done|lia].
Qed.

Lemma str_drop_length n s :
  String.length (str_drop n s) = (String.length s - n)%nat.
Proof. revert s. induction n as [|n IH]; intros [|a s]; cbn; auto. Qed.

Lemma str_drop_app s1 s2 : str_drop (String.length s1) (s1 +:+ s2) = s2.
Proof. induction s1 as [|a s1 IH]; [done|]. cbn. done. Qed.

Lemma str_forall_app f s1 s2 :
  str_forall f (s1 +:+ s2) = str_forall f s1 && str_forall f s2.
Proof. induction s1 as [|a s1 IH]; [done|]. cbn. by rewrite IH, andb_assoc. Qed.

Lemma str_forall_take f n s : str_forall f s = true -> str_forall f (str_take n s) = true.
Proof.
  revert s. induction n as [|n IH]; intros [|a s]; cbn; auto.
  intros [-> H]%andb_true_iff. by apply IH.
Qed.

Lemma str_forall_mono (f g : ascii -> bool) s :
  (forall a, f a = true -> g a = true) ->
  str_forall f s = true -> str_forall g s = true.
Proof.
  intros Hfg. induction s as [|a s IH]; cbn; [done|].
  intros [Ha Hs]%andb_true_iff. by rewrite Hfg, IH.
Qed.

Lemma c_str_no_nul s : no_nul s = true -> c_str s = s.
Proof.
  unfold no_nul. induction s as [|a s IH]; cbn; [done|].
  destruct (Ascii.eqb a NUL); cbn; [done|]. intros H. by rewrite IH.
Qed.

Lemma no_nul_c_str s : no_nul (c_str s) = true.
Proof.
  unfold no_nul. induction s as [|a s IH]; cbn; [done|].
  destruct (Ascii.eqb a NUL) eqn:E; cbn; [done|]. by rewrite E, IH.
Qed.

Lemma prefix_app p s : String.prefix p (p +:+ s) = true.
Proof.
  induction p as [|a p IH]; [by destruct s|]. cbn.
  destruct (Ascii.ascii_dec a a); [done|congruence].
Qed.

Lemma prefix_spec p s : String.prefix p s = true -> exists r, s = p +:+ r.
Proof.
  revert s. induction p as [|a p IH]; intros s H; [by exists s|].
  destruct s as [|b s]; cbn in H; [done|].
  destruct (Ascii.ascii_dec a b) as [->|]; [|done].
  apply IH in H as [r ->]. by exists r.
Qed.

#[export] Hint Rewrite str_app_nil_r str_app_assoc str_length_app str_take_length
  str_drop_length str_forall_app : oj_rw.
#[export] Hint Resolve no_nul_c_str prefix_app str_forall_take : oj_str.

(** ** Lists *)

Lemma forallb_In {A} (f : A -> bool) (l : list A) x :
  forallb f l = true -> In x l -> f x = true.
Proof. rewrite forallb_forall. auto. Qed.
