(* ===== verification/CInt.v ===== *)
(** * Machine integers and the string-to-integer conversions of libstdc++

    [int], [long], [uint64_t] ... are [Z] with their ranges and wrap-around
    written out.  Signed arithmetic that the program performs without a range
    check is [chk_i32]/[chk_i64]: [None] stands for undefined behaviour.  The
    second half models [std::stoi], [std::stoll], [std::stoull] (on top of
    [strtol]) and [std::to_string], which the judge engine uses for its command
    line, its environment and the cgroup statistics. *)

From S2P Require Import Prelude.

(** ** Widths *)

Definition wrap_u (w z : Z) : Z := z mod 2 ^ w.
Definition wrap_s (w z : Z) : Z := (z + 2 ^ (w - 1)) mod 2 ^ w - 2 ^ (w - 1).

Definition to_i32 : Z -> Z := wrap_s 32.
Definition to_u32 : Z -> Z := wrap_u 32.
Definition to_u64 : Z -> Z := wrap_u 64.
Definition to_i64 : Z -> Z := wrap_s 64.

Definition INT_MIN : Z := -2147483648.
Definition INT_MAX : Z := 2147483647.
Definition LLONG_MIN : Z := -9223372036854775808.
Definition LLONG_MAX : Z := 9223372036854775807.
Definition ULLONG_MAX : Z := 18446744073709551615.

Definition is_i32 (z : Z) : bool := (INT_MIN <=? z) && (z <=? INT_MAX).
Definition is_i64 (z : Z) : bool := (LLONG_MIN <=? z) && (z <=? LLONG_MAX).
Definition is_u64 (z : Z) : bool := (0 <=? z) && (z <=? ULLONG_MAX).

(** Signed arithmetic: the value when it is representable. *)
Definition chk_i32 (z : Z) : option Z := if is_i32 z then Some z else None.
Definition chk_i64 (z : Z) : option Z := if is_i64 z then Some z else None.

(** ** Exceptions

    The C++ exceptions the engine can raise, by the standard class they belong
    to; [YamlException] and [JsonTypeError] are raised by the two libraries. *)

Inductive exn :=
  | InvalidArgument (what : string)
  | OutOfRange (what : string)
  | FilesystemError (what : string)
  | RuntimeError (what : string)
  | YamlException (what : string)
  | JsonTypeError (what : string).

#[global] Instance exn_eq_dec : EqDecision exn.
Proof. solve_decision. Defined.

(** [e.what()]. *)
Definition exn_what (e : exn) : string :=
  match e with
  | InvalidArgument w | OutOfRange w | FilesystemError w | RuntimeError w
  | YamlException w | JsonTypeError w => w
  end.

(** ** Reading decimal integers *)

Definition is_space (c : ascii) : bool :=
  let n := Ascii.nat_of_ascii c in
  ((Nat.leb 9 n && Nat.leb n 13) || Nat.eqb n 32)%bool.

Definition is_digit (c : ascii) : bool :=
  let n := Ascii.nat_of_ascii c in (Nat.leb 48 n && Nat.leb n 57)%bool.

Definition digit_val (c : ascii) : Z := Z.of_nat (Ascii.nat_of_ascii c) - 48.

Fixpoint skip_space (s : string) : string :=
  match s with
  | String c r => if is_space c then skip_space r else s
  | EmptyString => EmptyString
  end.

(** The value of the longest prefix of digits, after [acc]. *)
Fixpoint digits (s : string) (acc : Z) : Z :=
  match s with
  | String c r => if is_digit c then digits r (acc * 10 + digit_val c) else acc
  | EmptyString => acc
  end.

Definition starts_digit (s : string) : bool :=
  match s with String c _ => is_digit c | EmptyString => false end.

(** [strtol] in base 10 without the range check: [None] when no conversion
    could be performed. *)
Definition strtoz (s : string) : option Z :=
  let s := skip_space (c_str s) in
  let '(neg, s) :=
    match s with
    | String c r =>
        if Ascii.eqb c "-"%char then (true, r)
        else if Ascii.eqb c "+"%char then (false, r)
        else (false, s)
    | EmptyString => (false, s)
    end in
  if starts_digit s
  then Some (if neg : bool then - digits s 0 else digits s 0)
  else None.

Definition stoi (s : string) : Z + exn :=
  match strtoz s with
  | None => inr (InvalidArgument "stoi")
  | Some z => if is_i32 z then inl z else inr (OutOfRange "stoi")
  end.

Definition stoll (s : string) : Z + exn :=
  match strtoz s with
  | None => inr (InvalidArgument "stoll")
  | Some z => if is_i64 z then inl z else inr (OutOfRange "stoll")
  end.

(** [strtoull] accepts a minus sign and negates in the unsigned type. *)
Definition stoull (s : string) : Z + exn :=
  match strtoz s with
  | None => inr (InvalidArgument "stoull")
  | Some z => if Z.abs z <=? ULLONG_MAX then inl (to_u64 z) else inr (OutOfRange "stoull")
  end.

(** [std::to_string]. *)
Definition to_string (z : Z) : string := pretty z.

(** ** Lemmas: ranges *)

Lemma wrap_u_range w z : 0 <= w -> 0 <= wrap_u w z < 2 ^ w.
Proof. intros. apply Z.mod_pos_bound, Z.pow_pos_nonneg; lia. Qed.

Lemma to_u64_range z : 0 <= to_u64 z <= ULLONG_MAX.
Proof. pose proof (wrap_u_range 64 z ltac:(lia)) as H. unfold to_u64, ULLONG_MAX. lia. Qed.

Lemma to_u64_id z : 0 <= z <= ULLONG_MAX -> to_u64 z = z.
Proof. intros. apply Z.mod_small. unfold ULLONG_MAX in *. lia. Qed.

Lemma to_i32_range z : INT_MIN <= to_i32 z <= INT_MAX.
Proof.
  unfold to_i32, wrap_s, INT_MIN, INT_MAX.
  pose proof (Z.mod_pos_bound (z + 2 ^ (32 - 1)) (2 ^ 32) ltac:(lia)). lia.
Qed.

Lemma to_i32_id z : INT_MIN <= z <= INT_MAX -> to_i32 z = z.
Proof.
  unfold to_i32, wrap_s, INT_MIN, INT_MAX. intros.
  rewrite Z.mod_small; lia.
Qed.

Lemma chk_i32_Some z v : chk_i32 z = Some v <-> v = z /\ INT_MIN <= z <= INT_MAX.
Proof.
  unfold chk_i32, is_i32. split.
  - case_goal; [|done]. intros [= <-]. b2p. lia.
  - intros [-> ?]. by rewrite !(proj2 (Z.leb_le _ _)) by lia.
Qed.

Lemma chk_i32_in z : INT_MIN <= z <= INT_MAX -> chk_i32 z = Some z.
Proof. intros. by apply chk_i32_Some. Qed.

Lemma is_i64_spec z : is_i64 z = true <-> LLONG_MIN <= z <= LLONG_MAX.
Proof. unfold is_i64. rewrite andb_true_iff, !Z.leb_le. lia. Qed.

Lemma is_i32_spec z : is_i32 z = true <-> INT_MIN <= z <= INT_MAX.
Proof. unfold is_i32. rewrite andb_true_iff, !Z.leb_le. lia. Qed.

#[export] Hint Resolve to_u64_range to_i32_range : oj.

(** ** Lemmas: printing then reading *)

Lemma pretty_char_digit n :
  (n < 10)%N ->
  is_digit (pretty_N_char n) = true /\ digit_val (pretty_N_char n) = Z.of_N n.
Proof.
  intros Hn.
  assert (In n (map N.of_nat (seq 0 10))) as Hin.
  { rewrite in_map_iff. exists (N.to_nat n). rewrite in_seq. lia. }
  clear Hn. cbn in Hin. repeat destruct Hin as [<-|Hin]; done.
Qed.

Lemma digits_pretty_go n s : digits (pretty_N_go n s) 0 = digits s (Z.of_N n).
Proof.
  revert s. induction (N.lt_wf_0 n) as [n _ IH]; intros s.
  destruct (decide (n = 0)%N) as [->|Hn]; [by rewrite pretty_N_go_0|].
  rewrite pretty_N_go_step by lia.
  rewrite IH by (apply N.div_lt; lia).
  pose proof (N.mod_lt n 10 ltac:(done)) as Hm.
  destruct (pretty_char_digit _ Hm) as [Hd Hv].
  cbn [digits]. rewrite Hd, Hv. f_equal.
  rewrite N2Z.inj_div, N2Z.inj_mod. pose proof (Z.div_mod (Z.of_N n) 10). lia.
Qed.

Lemma starts_digit_pretty_go n s :
  starts_digit s = true \/ n <> 0%N -> starts_digit (pretty_N_go n s) = true.
Proof.
  revert s. induction (N.lt_wf_0 n) as [n _ IH]; intros s Hs.
  destruct (decide (n = 0)%N) as [->|Hn].
  { rewrite pretty_N_go_0. by destruct Hs. }
  rewrite pretty_N_go_step by lia.
  apply IH; [apply N.div_lt; lia|]. left. cbn.
  apply (pretty_char_digit (n mod 10)%N). by apply N.mod_lt.
Qed.

Lemma pretty_go_no_nul n s :
  no_nul s = true -> no_nul (pretty_N_go n s) = true.
Proof.
  revert s. induction (N.lt_wf_0 n) as [n _ IH]; intros s Hs.
  destruct (decide (n = 0)%N) as [->|Hn]; [by rewrite pretty_N_go_0|].
  rewrite pretty_N_go_step by lia.
  apply IH; [apply N.div_lt; lia|].
  pose proof (N.mod_lt n 10 ltac:(done)) as Hm.
  unfold no_nul in *. cbn [str_forall]. rewrite Hs, andb_true_r.
  unfold pretty_N_char. by repeat case_match.
Qed.

Lemma pretty_N_digits n :
  digits (pretty n) 0 = Z.of_N n /\ starts_digit (pretty n) = true /\
  no_nul (pretty n) = true.
Proof.
  unfold pretty, pretty_N. destruct (decide (n = 0)%N) as [->|Hn]; [done|].
  rewrite digits_pretty_go. split; [done|]. split.
  - apply starts_digit_pretty_go. by right.
  - by apply pretty_go_no_nul.
Qed.

Lemma starts_digit_not_special s :
  starts_digit s = true ->
  exists c r, s = String c r /\ is_space c = false /\
    Ascii.eqb c "-"%char = false /\ Ascii.eqb c "+"%char = false.
Proof.
  destruct s as [|c r]; [done|]. cbn. intros Hd. exists c, r. split; [done|].
  destruct c as [[] [] [] [] [] [] [] []]; cbn in *; try done.
Qed.

Lemma strtoz_digits s :
  no_nul s = true -> starts_digit s = true -> strtoz s = Some (digits s 0).
Proof.
  intros Hn Hd. unfold strtoz. rewrite c_str_no_nul by done.
  destruct (starts_digit_not_special _ Hd) as (c & r & -> & Hsp & Hm & Hp).
  cbn [skip_space]. rewrite Hsp, Hm, Hp. by rewrite Hd.
Qed.

Lemma strtoz_neg_digits s :
  no_nul s = true -> starts_digit s = true ->
  strtoz (String "-"%char s) = Some (- digits s 0).
Proof.
  intros Hn Hd. unfold strtoz.
  rewrite c_str_no_nul by (unfold no_nul in *; cbn; by rewrite Hn).
  cbn [skip_space]. change (is_space "-"%char) with false. cbn iota.
  change (Ascii.eqb "-"%char "-"%char) with true. cbn iota. by rewrite Hd.
Qed.

Lemma strtoz_to_string z : strtoz (to_string z) = Some z.
Proof.
  unfold to_string, pretty, pretty_Z. destruct z as [|p|p]; [done|..].
  - destruct (pretty_N_digits (N.pos p)) as (H1 & H2 & H3).
    unfold pretty, pretty_positive. rewrite strtoz_digits by done. by rewrite H1.
  - destruct (pretty_N_digits (N.pos p)) as (H1 & H2 & H3).
    unfold pretty, pretty_positive. cbn [String.append].
    rewrite strtoz_neg_digits by done. by rewrite H1.
Qed.

Lemma stoi_to_string z : is_i32 z = true -> stoi (to_string z) = inl z.
Proof. intros H. unfold stoi. by rewrite strtoz_to_string, H. Qed.

Lemma stoll_to_string z : is_i64 z = true -> stoll (to_string z) = inl z.
Proof. intros H. unfold stoll. by rewrite strtoz_to_string, H. Qed.

Lemma stoull_to_string z : 0 <= z <= ULLONG_MAX -> stoull (to_string z) = inl z.
Proof.
  intros H. unfold stoull. rewrite strtoz_to_string.
  rewrite (proj2 (Z.leb_le _ _)) by lia. by rewrite to_u64_id.
Qed.

Lemma stoll_range s z : stoll s = inl z -> is_i64 z = true.
Proof. unfold stoll. repeat case_goal; by intros [= <-]. Qed.
