(* ===== verification/CStr.v ===== *)
(** * C character arrays, [snprintf] and [std::filesystem::path]

    The engine passes paths between processes in fixed [char] arrays filled by
    [strncpy] and [snprintf], and edits them with [strrchr].  A zero-terminated
    array is represented by the C string it holds; [Buffer] justifies this
    against an array of bytes.  The last part models the three operations of
    [std::filesystem::path] (POSIX, libstdc++) that the engine uses: [operator/],
    [parent_path] and [string]. *)

From S2P Require Import Prelude.

(** ** Zero-terminated arrays as strings *)

(** The C string held by a [char[n+1]] after [strncpy(dst, s, n); dst[n] = 0]. *)
Definition strncpy_z (n : nat) (s : string) : string := str_take n (c_str s).

(** [snprintf(buf, size, ...)] where the arguments expand to [full]: the C
    string left in the buffer and the value returned. *)
Definition snprintf (size : Z) (full : string) : string * Z :=
  (str_take (Z.to_nat (size - 1)) full, slen full).

(** A message assembled by successive [snprintf(msg + n, sizeof(msg) - n, ...)]
    calls: the C string in the buffer and the running length [n]. *)
Record sbuf := SBuf { sb_text : string; sb_n : Z }.

(** One call, skipped when the buffer is already full ([n < (int)sizeof(msg)]). *)
Definition sb_append (size : Z) (piece : string) (b : sbuf) : sbuf :=
  if sb_n b <? size
  then SBuf (sb_text b +:+ fst (snprintf (size - sb_n b) piece)) (sb_n b + slen piece)
  else b.

(** [if (len >= sizeof(msg)) len = sizeof(msg) - 1;] *)
Definition sb_clip (size : Z) (b : sbuf) : Z :=
  if size <=? sb_n b then size - 1 else sb_n b.

Definition slash : ascii := "/"%char.

(** [strrchr(s, '/')]: what stands before and after the last slash. *)
Fixpoint rsplit (s : string) : option (string * string) :=
  match s with
  | EmptyString => None
  | String a r =>
      match rsplit r with
      | Some (p, q) => Some (String a p, q)
      | None => if Ascii.eqb a slash then Some (EmptyString, r) else None
      end
  end.

(** ** std::filesystem::path *)

Definition path_is_absolute (p : string) : bool :=
  match p with String a _ => Ascii.eqb a slash | EmptyString => false end.

Fixpoint ends_with_slash (p : string) : bool :=
  match p with
  | EmptyString => false
  | String a EmptyString => Ascii.eqb a slash
  | String _ r => ends_with_slash r
  end.

(** [operator/]. *)
Definition path_append (a b : string) : string :=
  if path_is_absolute b then b
  else if str_empty a || ends_with_slash a then a +:+ b
  else a +:+ String slash b.

Fixpoint rstrip_slash (s : string) : string :=
  match s with
  | EmptyString => EmptyString
  | String a r =>
      let r' := rstrip_slash r in
      if str_empty r' && Ascii.eqb a slash then EmptyString else String a r'
  end.

(** [parent_path()].  A path whose directory part is only slashes has parent
    ["/"]. *)
Definition parent_path (s : string) : string :=
  match rsplit s with
  | None => EmptyString
  | Some (p, _) =>
      let p' := rstrip_slash p in
      if str_empty p' then "/" else p'
  end.

(** [operator<<] on a path: quoted, with [\] before quotes and backslashes. *)
Fixpoint quote_escape (s : string) : string :=
  match s with
  | EmptyString => EmptyString
  | String a r =>
      if Ascii.eqb a (chr 34) || Ascii.eqb a (chr 92)
      then String (chr 92) (String a (quote_escape r))
      else String a (quote_escape r)
  end.

Definition quoted (s : string) : string :=
  String (chr 34) (quote_escape s +:+ String (chr 34) EmptyString).

(** ** Arrays of bytes *)

Module Buffer.

(** The bytes of a [char[n]]. *)
Definition buffer := list ascii.

Fixpoint of_string (s : string) : buffer :=
  match s with EmptyString => [] | String a s => a :: of_string s end.

(** The C string that starts at the first byte; [None] when no NUL is found
    inside the array (reading on would leave it). *)
Fixpoint cstring (b : buffer) : option string :=
  match b with
  | [] => None
  | a :: b =>
      if Ascii.eqb a NUL then Some EmptyString
      else match cstring b with Some s => Some (String a s) | None => None end
  end.

(** [strncpy(b, s, n)]: [n] bytes are written, the string's and then NULs. *)
Fixpoint strncpy (b : buffer) (s : string) (n : nat) : buffer :=
  match n, b with
  | S n, _ :: b =>
      match s with
      | String a s' =>
          if Ascii.eqb a NUL then NUL :: strncpy b EmptyString n
          else a :: strncpy b s' n
      | EmptyString => NUL :: strncpy b EmptyString n
      end
  | _, _ => b
  end.

(** [b[i] = 0]. *)
Definition put0 (b : buffer) (i : nat) : buffer := <[i := NUL]> b.

(** The idiom of the engine: [strncpy(b, s, n); b[n] = 0]. *)
Definition copy_z (b : buffer) (s : string) (n : nat) : buffer :=
  put0 (strncpy b s n) n.

Lemma strncpy_length b s n : length (strncpy b s n) = length b.
Proof.
  revert b s. induction n as [|n IH]; intros [|c b] s; cbn; [done..|].
  destruct s as [|a s]; cbn; [|destruct (Ascii.eqb a NUL)]; cbn; by rewrite IH.
Qed.

Lemma copy_z_spec b s n :
  (n < length b)%nat -> cstring (copy_z b s n) = Some (strncpy_z n s).
Proof.
  unfold copy_z, put0, strncpy_z. revert b s.
  induction n as [|n IH]; intros [|c b] s Hlen; cbn in Hlen; try lia; [done|].
  specialize (IH b).
  destruct s as [|a s]; cbn [strncpy c_str str_take]; [done|].
  destruct (Ascii.eqb a NUL) eqn:Ea; [done|].
  change (<[S n:=NUL]> (a :: strncpy b s n)) with (a :: <[n:=NUL]> (strncpy b s n)).
  cbn [cstring str_take]. rewrite Ea, IH by lia. done.
Qed.

End Buffer.

(** ** Lemmas: C strings *)

Lemma strncpy_z_length n s : (String.length (strncpy_z n s) <= n)%nat.
Proof. unfold strncpy_z. rewrite str_take_length. lia. Qed.

Lemma strncpy_z_no_nul n s : no_nul (strncpy_z n s) = true.
Proof. apply str_forall_take, no_nul_c_str. Qed.

Lemma strncpy_z_id n s :
  no_nul s = true -> (String.length s <= n)%nat -> strncpy_z n s = s.
Proof. intros H ?. unfold strncpy_z. rewrite c_str_no_nul by done. by apply str_take_all. Qed.

(** The text assembled so far is the [size - 1]-byte prefix of the full text. *)
Definition sb_holds (size : Z) (full : string) (b : sbuf) : Prop :=
  sb_text b = str_take (Z.to_nat (size - 1)) full /\ sb_n b = slen full /\ 0 < size.

Lemma sb_append_full size full piece b :
  sb_holds size full b -> slen full < size ->
  sb_holds size (full +:+ piece) (sb_append size piece b).
Proof.
  intros (Ht & Hn & Hs) Hlt. unfold sb_append, sb_holds, snprintf. rewrite Hn.
  rewrite (proj2 (Z.ltb_lt _ _)) by lia. cbn. rewrite Ht.
  unfold slen in *. rewrite str_length_app. split; [|lia].
  rewrite (str_take_all _ full) by lia.
  rewrite str_take_app_ge by lia. do 2 f_equal. lia.
Qed.

Lemma sb_append_truncated size full piece b :
  sb_holds size full b -> size <= slen full -> sb_append size piece b = b.
Proof.
  intros (Ht & Hn & Hs) Hlt. unfold sb_append. rewrite Hn.
  by rewrite (proj2 (Z.ltb_ge _ _)) by lia.
Qed.

(** Whatever the pieces, the buffer is never overrun and the clipped length is
    an index of it. *)
Lemma sb_append_text size full piece b :
  sb_holds size full b -> exists full',
    sb_holds size full' (sb_append size piece b) /\
    str_take (Z.to_nat (size - 1)) full' =
      str_take (Z.to_nat (size - 1)) (full +:+ piece).
Proof.
  intros H. destruct (Z.lt_ge_cases (slen full) size) as [Hlt|Hge].
  - exists (full +:+ piece). split; [by apply sb_append_full|done].
  - exists full. rewrite (sb_append_truncated size full) by done. split; [done|].
    symmetry. apply str_take_app_le. unfold slen in Hge. lia.
Qed.

Lemma sb_clip_range size full b :
  sb_holds size full b ->
  sb_clip size b = slen (str_take (Z.to_nat (size - 1)) full) /\
  0 <= sb_clip size b <= size - 1.
Proof.
  intros (Ht & Hn & Hs). unfold sb_clip, slen. rewrite Hn, str_take_length.
  unfold slen. destruct (size <=? Z.of_nat (String.length full)) eqn:E; b2p; lia.
Qed.

(** ** Lemmas: the last slash *)

Lemma rsplit_spec s p q :
  rsplit s = Some (p, q) ->
  s = p +:+ String slash q /\ str_forall (fun a => negb (Ascii.eqb a slash)) q = true.
Proof.
  revert p q. induction s as [|a s IH]; intros p q; cbn; [done|].
  destruct (rsplit s) as [[p' q']|] eqn:E.
  - intros [= <- <-]. destruct (IH p' q' eq_refl) as [-> Hq]. by split.
  - destruct (Ascii.eqb a slash) eqn:Ea; [|done]. intros [= <- <-].
    apply Ascii.eqb_eq in Ea as ->. split; [done|]. clear IH.
    induction s as [|b s IH]; [done|]. cbn in E |- *.
    destruct (rsplit s) as [[? ?]|]; [done|].
    destruct (Ascii.eqb b slash); [done|]. cbn. by apply IH.
Qed.

Lemma rsplit_None s :
  rsplit s = None <-> str_forall (fun a => negb (Ascii.eqb a slash)) s = true.
Proof.
  induction s as [|a s IH]; [done|]. cbn.
  destruct (rsplit s) as [[? ?]|].
  - split; [done|]. intros [_ H]%andb_true_iff. by apply IH in H.
  - rewrite (proj1 IH) by done. destruct (Ascii.eqb a slash); done.
Qed.

Lemma rsplit_app p q :
  str_forall (fun a => negb (Ascii.eqb a slash)) q = true ->
  rsplit (p +:+ String slash q) = Some (p, q).
Proof.
  intros Hq. induction p as [|a p IH]; cbn.
  - by rewrite (proj2 (rsplit_None q)).
  - by rewrite IH.
Qed.

(** Joining a directory and a plain file name, then taking the parent or the
    file name, gives the two back. *)
Definition plain_name (s : string) : bool :=
  negb (str_empty s) && str_forall (fun a => negb (Ascii.eqb a slash)) s.

Lemma plain_name_not_absolute s : plain_name s = true -> path_is_absolute s = false.
Proof.
  unfold plain_name. destruct s as [|a s]; cbn; [done|].
  by destruct (Ascii.eqb a slash).
Qed.

Lemma path_append_plain a b :
  plain_name b = true -> a <> EmptyString -> ends_with_slash a = false ->
  path_append a b = a +:+ String slash b.
Proof.
  intros Hb Ha Hs. unfold path_append. rewrite plain_name_not_absolute by done.
  rewrite Hs. by destruct a.
Qed.

Lemma rsplit_path_append a b :
  plain_name b = true -> a <> EmptyString -> ends_with_slash a = false ->
  rsplit (path_append a b) = Some (a, b).
Proof.
  intros Hb Ha Hs. rewrite path_append_plain by done.
  apply rsplit_app. unfold plain_name in Hb. by apply andb_true_iff in Hb as [_ ?].
Qed.

Lemma rstrip_slash_id s : ends_with_slash s = false -> rstrip_slash s = s.
Proof.
  induction s as [|a s IH]; [done|]. cbn. destruct s as [|b s].
  - cbn. by intros ->.
  - intros H. rewrite IH by done. done.
Qed.

Lemma parent_path_append a b :
  plain_name b = true -> a <> EmptyString -> ends_with_slash a = false ->
  parent_path (path_append a b) = a.
Proof.
  intros Hb Ha Hs. unfold parent_path. rewrite rsplit_path_append by done.
  rewrite rstrip_slash_id by done. by destruct a.
Qed.
