(* ===== verification/CFloat.v ===== *)
(** * IEEE 754 doubles

    The engine computes with [double] in four places: the CPU time it reports,
    the adaptive polling ratio, the "close to the memory limit" threshold and
    the cgroup CPU quota.  A double is the [spec_float] of the Standard Library
    with precision 53 and [emax] 1024, whose operations round to nearest even;
    every operation below evaluates. *)

From Stdlib Require Export SpecFloat.
From S2P Require Import Prelude CInt.

Definition b64 : Set := spec_float.

(** [(double)z]. *)
Definition b64_of_Z (z : Z) : b64 := binary_normalize 53 1024 z 0 false.
Definition b64_mul : b64 -> b64 -> b64 := SFmul 53 1024.
Definition b64_add : b64 -> b64 -> b64 := SFadd 53 1024.
Definition b64_div : b64 -> b64 -> b64 := SFdiv 53 1024.
Definition b64_gt (x y : b64) : bool := SFltb y x.

(** The literal [num/den]: the double nearest to the rational. *)
Definition b64_lit (num den : Z) : b64 := b64_div (b64_of_Z num) (b64_of_Z den).

(** [std::ceil], as an integer; [None] on infinities and NaN. *)
Definition b64_ceil (x : b64) : option Z :=
  match x with
  | S754_zero _ => Some 0
  | S754_finite s m e =>
      let v := cond_Zopp s (Zpos m) in
      Some (if 0 <=? e then v * 2 ^ e else - ((- v) / 2 ^ (- e)))
  | _ => None
  end.

(** [std::llround]: to nearest, halves away from zero. *)
Definition b64_llround (x : b64) : option Z :=
  match x with
  | S754_zero _ => Some 0
  | S754_finite s m e =>
      Some (cond_Zopp s
        (if 0 <=? e then Zpos m * 2 ^ e
         else (2 * Zpos m + 2 ^ (- e)) / 2 ^ (- e + 1)))
  | _ => None
  end.

Definition b64_zero : b64 := S754_zero false.
Definition b64_one : b64 := b64_of_Z 1.

#[global] Instance b64_eq_dec : EqDecision b64.
Proof. unfold b64. solve_decision. Defined.
