(* ===== verification/Internal.v ===== *)
(** * The data shared by the engine: sandbox.h and sandbox_internal.h

    Exit codes, the global configuration, the argument blocks handed to the two
    child processes and the results returned to the caller. *)

From S2P Require Import Prelude CInt CFloat.

(** ** Exit codes of the sandboxed children (sandbox_internal.h) *)

Inductive SandboxExitCode :=
  | EXIT_OK
  | ERR_OPEN_OUTPUT | ERR_DUP2 | ERR_EXEC_FAILED | ERR_CHDIR_FAILED
  | ERR_SETGID_FAILED | ERR_SETUID_FAILED
  | ERR_RLIMIT_CPU | ERR_RLIMIT_MEMORY | ERR_RLIMIT_STACK | ERR_RLIMIT_NPROC
  | ERR_RLIMIT_FSIZE
  | ERR_MOUNT_PRIVATE | ERR_MOUNT_BIND_SELF | ERR_MOUNT_BIND_LIB
  | ERR_REMOUNT_RO | ERR_PIVOT_ROOT | ERR_CHDIR_NEW_ROOT | ERR_UMOUNT_OLD
  | ERR_MOUNT_PROC | ERR_MKDIR_FAILED | ERR_SANDBOX_EXCEPTION | ERR_MOUNT_TMP.

Definition code_val (c : SandboxExitCode) : Z :=
  match c with
  | EXIT_OK => 0
  | ERR_OPEN_OUTPUT => 120
  | ERR_DUP2 => 121
  | ERR_EXEC_FAILED => 127
  | ERR_CHDIR_FAILED => 128
  | ERR_SETGID_FAILED => 129
  | ERR_SETUID_FAILED => 130
  | ERR_RLIMIT_CPU => 141
  | ERR_RLIMIT_MEMORY => 142
  | ERR_RLIMIT_STACK => 143
  | ERR_RLIMIT_NPROC => 144
  | ERR_RLIMIT_FSIZE => 145
  | ERR_MOUNT_PRIVATE => 190
  | ERR_MOUNT_BIND_SELF => 191
  | ERR_MOUNT_BIND_LIB => 192
  | ERR_REMOUNT_RO => 193
  | ERR_PIVOT_ROOT => 194
  | ERR_CHDIR_NEW_ROOT => 195
  | ERR_UMOUNT_OLD => 196
  | ERR_MOUNT_PROC => 197
  | ERR_MKDIR_FAILED => 198
  | ERR_SANDBOX_EXCEPTION => 199
  | ERR_MOUNT_TMP => 200
  end.

Coercion code_val : SandboxExitCode >-> Z.

#[global] Instance SandboxExitCode_eq_dec : EqDecision SandboxExitCode.
Proof. solve_decision. Defined.

Definition all_codes : list SandboxExitCode :=
  [EXIT_OK; ERR_OPEN_OUTPUT; ERR_DUP2; ERR_EXEC_FAILED; ERR_CHDIR_FAILED;
   ERR_SETGID_FAILED; ERR_SETUID_FAILED; ERR_RLIMIT_CPU; ERR_RLIMIT_MEMORY;
   ERR_RLIMIT_STACK; ERR_RLIMIT_NPROC; ERR_RLIMIT_FSIZE; ERR_MOUNT_PRIVATE;
   ERR_MOUNT_BIND_SELF; ERR_MOUNT_BIND_LIB; ERR_REMOUNT_RO; ERR_PIVOT_ROOT;
   ERR_CHDIR_NEW_ROOT; ERR_UMOUNT_OLD; ERR_MOUNT_PROC; ERR_MKDIR_FAILED;
   ERR_SANDBOX_EXCEPTION; ERR_MOUNT_TMP].

(** The enumerator a [switch (code)] on an [int] selects, if any. *)
Definition code_of (z : Z) : option SandboxExitCode :=
  List.find (fun c => z =? code_val c) all_codes.

(** ** Global configuration *)

(** The entries of [mount_dirs] and [mount_files] below [mount_count] and
    [mount_file_count] are the two lists; the others are never read. *)
Record GlobalConfig := mkGlobalConfig {
  workspace_root : string;
  compiler_path : string;
  mount_dirs : list string;
  mount_files : list string;
  compile_cpu_limit : Z;
  compile_real_limit : Z;
  compile_mem_limit : Z;
  max_output_size : Z;
  output_buffer_size : Z;
  run_tmpfs_size_mb : Z;
  compile_tmpfs_size_mb : Z;
  compile_log_max_bytes : Z;
  compile_max_errors : Z;
  run_uid : Z;
  run_gid : Z;
  cgroup_pids_limit : Z;
  cgroup_cpu_max_cores : b64;
  cgroup_io_read_bps : Z;
  cgroup_io_write_bps : Z
}.

(** Static storage, and what [memset] to zero leaves. *)
Definition zero_config : GlobalConfig :=
  {| workspace_root := ""; compiler_path := ""; mount_dirs := []; mount_files := [];
     compile_cpu_limit := 0; compile_real_limit := 0; compile_mem_limit := 0;
     max_output_size := 0; output_buffer_size := 0; run_tmpfs_size_mb := 0;
     compile_tmpfs_size_mb := 0; compile_log_max_bytes := 0; compile_max_errors := 0;
     run_uid := 0; run_gid := 0; cgroup_pids_limit := 0;
     cgroup_cpu_max_cores := b64_zero; cgroup_io_read_bps := 0; cgroup_io_write_bps := 0 |}.

(** ** Arguments of the child processes *)

Record RunChildArgs := mkRunChildArgs {
  rc_exe_path : string;
  rc_time_limit_ms : Z;
  rc_memory_limit_kb : Z;
  rc_output_limit_bytes : Z;
  rc_input_fd : Z;
  rc_output_fd : Z;
  rc_error_fd : Z
}.

Record CompileArgs := mkCompileArgs {
  ca_source_path : string;
  ca_exe_path : string;
  ca_log_path : string
}.

(** ** Results (sandbox.h) *)

Record CompileResult := mkCompileResult {
  cr_success : bool;
  cr_exe_path : string;
  cr_error_message : string
}.

Inductive SandboxStatus :=
  | OK | TIME_LIMIT_EXCEEDED | MEMORY_LIMIT_EXCEEDED | OUTPUT_LIMIT_EXCEEDED
  | RUNTIME_ERROR | SYSTEM_ERROR.

#[global] Instance SandboxStatus_eq_dec : EqDecision SandboxStatus.
Proof. solve_decision. Defined.

Record RunResult := mkRunResult {
  rr_status : SandboxStatus;
  rr_time_used : Z;
  rr_memory_used : Z;
  rr_exit_code : Z;
  rr_exit_signal : Z;
  rr_sandbox_error : string;
  rr_error_message : string
}.

(** The member initialisers of [RunResult] and [CompileResult]. *)
Definition RunResult0 : RunResult := mkRunResult OK 0 0 0 0 "" "".
Definition CompileResult0 : CompileResult := mkCompileResult false "" "".

(** ** Resource usage of a waited-for child ([struct rusage]) *)

Record rusage := mkRusage {
  ru_maxrss : Z;
  ru_utime_sec : Z; ru_utime_usec : Z;
  ru_stime_sec : Z; ru_stime_usec : Z
}.

Definition rusage0 : rusage := mkRusage 0 0 0 0 0.

(** ** Lemmas *)

Lemma code_of_val c : code_of (code_val c) = Some c.
Proof. by destruct c. Qed.

Lemma code_of_Some z c : code_of z = Some c -> z = code_val c.
Proof. unfold code_of. intros H. apply find_some in H as [_ H]. by apply Z.eqb_eq. Qed.

#[export] Instance code_val_inj : Inj (=) (=) code_val.
Proof. intros c d H. apply (f_equal code_of) in H. rewrite !code_of_val in H. congruence. Qed.
