(* ===== verification/Sys.v ===== *)
(** * Effects: system calls, histories and programs

    The engine is a sequence of system calls with early exits.  Here a program
    is a tree ([prog]): it returns, halts (process exit, [exec], uncaught
    exception, undefined behaviour, out of fuel) or performs a call and
    continues with the answer.  The answers come from a [kernel], a function of
    the whole history, so a theorem about every kernel covers every sequence of
    successes and failures.  [wp] computes the weakest precondition of a program
    against all the kernels an environment assumption admits; [run_wp] relates
    it to execution. *)

From S2P Require Import Prelude CInt CFloat Internal.

(** ** System calls *)

(** Calls that return an [int] and set [errno]. *)
Inductive icall :=
  | Open (path : string) (flags mode : Z)
  | Dup (fd : Z)
  | Dup2 (fd newfd : Z)
  | Close (fd : Z)
  | CloseRange (first : Z)
  | SysconfOpenMax
  | Write (fd : Z) (data : string)
  | Mount (src : option string) (target : string) (fstype : option string)
          (flags : Z) (data : option string)
  | Umount2 (target : string) (flags : Z)
  | PivotRoot (new_root put_old : string)
  | Chdir (path : string)
  | Mkdir (path : string) (mode : Z)
  | Rmdir (path : string)
  | Chmod (path : string) (mode : Z)
  | Chown (path : string) (uid gid : Z)
  | Access (path : string) (mode : Z)
  | Setrlimit (resource cur max : Z)
  | Setgroups (n : Z)
  | Setgid (gid : Z)
  | Setuid (uid : Z)
  | Prctl (option_ arg2 : Z)
  | Kill (pid sig : Z).

#[global] Instance icall_eq_dec : EqDecision icall.
Proof. solve_decision. Defined.

(** The entry points handed to [clone]. *)
Inductive child_entry :=
  | RunEntry (args : RunChildArgs)
  | CompileEntry (args : CompileArgs).

(** One libseccomp argument comparison ([SCMP_CMP]); the engine only uses
    [SCMP_CMP_MASKED_EQ]. *)
Record scmp_arg_cmp := MaskedEq { sc_arg : Z; sc_mask : Z; sc_datum : Z }.

(** The two filter actions in use. *)
Inductive scmp_action := SCMP_ACT_KILL | SCMP_ACT_ALLOW.

#[global] Instance scmp_action_eq_dec : EqDecision scmp_action.
Proof. solve_decision. Defined.

Inductive sys :=
  | SI (c : icall)
  | Clone (entry : child_entry) (flags : Z)
  | Wait (pid options : Z) (with_rusage : bool)
  | Exec (path : string) (argv : list string) (envp : option (list string))
  | GetIds
  | Getenv (name : string)
  | Now
  | SleepMs (ms : Z)
  | Usleep (us : Z)
  (* std::filesystem with an error_code *)
  | FsExists (path : string)
  | FsCreateDirectories (path : string)
  | FsRemove (path : string)
  | FsRemoveAll (path : string)
  | FsFileSize (path : string)
  | FsPermissions (path : string) (perms : Z)
  (* file streams *)
  | ReadStream (path : string)
  | WriteStream (path : string) (data : string)
  | Stat (path : string)
  | Statfs (path : string)
  (* libseccomp *)
  | SeccompInit (def : scmp_action)
  | SeccompRuleAdd (act : scmp_action) (syscall : string) (args : list scmp_arg_cmp)
  | SeccompLoad
  | SeccompRelease
  (* standard streams *)
  | Cout (text : string)
  | Cerr (text : string).

(** ** Answers *)

Record ires := IRes { rv : Z; errno : Z }.

(** [waitpid]/[wait4]: the out parameters are [None] when the kernel does not
    write them. *)
Record wres := WRes {
  w_pid : Z;
  w_errno : Z;
  w_status : option Z;
  w_usage : option rusage
}.

Record ids := Ids { id_uid : Z; id_gid : Z; id_euid : Z; id_egid : Z }.

(** A [std::filesystem] operation with an [error_code]: the value and the
    message of the error, if one was reported. *)
Record fsres (A : Type) := FsRes { fs_val : A; fs_ec : option string }.
Arguments FsRes {A} _ _.
Arguments fs_val {A} _.
Arguments fs_ec {A} _.

Inductive wstream := WOpenFailed | WBad | WGood.

(** [stat]: device numbers (major, minor) of the file; [statfs]: the magic. *)
Definition answer (s : sys) : Type :=
  match s with
  | SI _ => ires
  | Clone _ _ => ires
  | Wait _ _ _ => wres
  | Exec _ _ _ => option Z                (* [Some errno]: it returned *)
  | GetIds => ids
  | Getenv _ => option string
  | Now => Z                              (* nanoseconds *)
  | SleepMs _ | Usleep _ => unit
  | FsExists _ | FsCreateDirectories _ | FsRemove _ => fsres bool
  | FsRemoveAll _ | FsPermissions _ _ => fsres unit
  | FsFileSize _ => fsres Z
  | ReadStream _ => option string         (* [None]: the stream did not open *)
  | WriteStream _ _ => wstream
  | Stat _ => option (Z * Z)
  | Statfs _ => option Z
  | SeccompInit _ => bool
  | SeccompRuleAdd _ _ _ | SeccompLoad => Z
  | SeccompRelease | Cout _ | Cerr _ => unit
  end.

Record event := Ev { ev_sys : sys; ev_ans : answer ev_sys }.

(** Histories, newest event first. *)
Abbreviation trace := (list event).

(** ** Programs *)

Inductive halt :=
  | HExit (code : Z)                      (* [_exit], [exit] *)
  | HExec (path : string) (argv : list string) (envp : option (list string))
  | HThrow (e : exn)
  | HUB                                   (* undefined behaviour *)
  | HFuel.                                (* a loop ran out of fuel *)

Inductive prog (A : Type) : Type :=
  | Ret (a : A)
  | Halt (h : halt)
  | Vis (s : sys) (k : answer s -> prog A).
Arguments Ret {A} a.
Arguments Halt {A} h.
Arguments Vis {A} s k.

Fixpoint bind {A B} (p : prog A) (f : A -> prog B) : prog B :=
  match p with
  | Ret a => f a
  | Halt h => Halt h
  | Vis s k => Vis s (fun r => bind (k r) f)
  end.

Notation "x <- p ;; q" := (bind p (fun x => q))
  (at level 100, p at next level, right associativity) : oj_scope.
Notation "p ;; q" := (bind p (fun _ => q))
  (at level 100, right associativity) : oj_scope.
#[global] Open Scope oj_scope.

(** Perform one call. *)
Definition call (s : sys) : prog (answer s) := Vis s (fun r => Ret r).
Definition icall_ (c : icall) : prog ires := call (SI c).

Definition throw {A} (e : exn) : prog A := Halt (HThrow e).
Definition exit_ {A} (code : Z) : prog A := Halt (HExit code).
Definition cerr (s : string) : prog unit := call (Cerr s).

(** Undefined behaviour unless the value is defined. *)
Definition defined {A} (o : option A) : prog A :=
  match o with Some a => Ret a | None => Halt HUB end.

(** An in-bounds check of an array access. *)
Definition in_bounds (i size : Z) : prog unit :=
  if (0 <=? i) && (i <? size) then Ret tt else Halt HUB.

(** [if (call == -1) _exit(code);] and [if (call != 0) _exit(code);] *)
Definition or_exit (c : icall) (code : Z) : prog unit :=
  r <- icall_ c ;; if rv r =? -1 then exit_ code else Ret tt.
Definition zero_or_exit (c : icall) (code : Z) : prog unit :=
  r <- icall_ c ;; if rv r =? 0 then Ret tt else exit_ code.

(** Destructors: [d] runs when [p] returns and when an exception leaves it. *)
Fixpoint finally {A} (p : prog A) (d : prog unit) : prog A :=
  match p with
  | Ret a => d ;; Ret a
  | Halt (HThrow e) => d ;; throw e
  | Halt h => Halt h
  | Vis s k => Vis s (fun r => finally (k r) d)
  end.

(** [try { p } catch (...) { h }]. *)
Fixpoint try_catch {A} (p : prog A) (h : exn -> prog A) : prog A :=
  match p with
  | Ret a => Ret a
  | Halt (HThrow e) => h e
  | Halt x => Halt x
  | Vis s k => Vis s (fun r => try_catch (k r) h)
  end.

(** Run a program for each element of a list. *)
Fixpoint each {A} (f : A -> prog unit) (l : list A) : prog unit :=
  match l with
  | [] => Ret tt
  | x :: l => f x ;; each f l
  end.

(** ** Execution *)

Inductive outcome (A : Type) :=
  | OVal (a : A)
  | OHalt (h : halt).
Arguments OVal {A} a.
Arguments OHalt {A} h.

Definition kernel := trace -> forall s : sys, answer s.

Fixpoint run {A} (k : kernel) (p : prog A) (t : trace) : outcome A * trace :=
  match p with
  | Ret a => (OVal a, t)
  | Halt h => (OHalt h, t)
  | Vis s f => let r := k t s in run k (f r) (Ev s r :: t)
  end.

(** What a program does under a kernel, from an empty history. *)
Definition exec_outcome {A} (k : kernel) (p : prog A) : outcome A := fst (run k p []).
Definition exec_trace {A} (k : kernel) (p : prog A) : trace := snd (run k p []).

(** A kernel under which every call succeeds, files do not open, and children
    exit at once with status 0. *)
Definition happy : kernel := fun _ s =>
  match s as s0 return answer s0 with
  | SI _ => IRes 0 0
  | Clone _ _ => IRes 100 0
  | Wait _ _ _ => WRes 100 0 (Some 0) (Some rusage0)
  | Exec _ _ _ => None
  | GetIds => Ids 0 0 0 0
  | Getenv _ => None
  | Now => 0
  | SleepMs _ | Usleep _ => tt
  | FsExists _ | FsCreateDirectories _ | FsRemove _ => FsRes true None
  | FsRemoveAll _ | FsPermissions _ _ => FsRes tt None
  | FsFileSize _ => FsRes 0 None
  | ReadStream _ => None
  | WriteStream _ _ => WGood
  | Stat _ => Some (8, 0)
  | Statfs _ => None
  | SeccompInit _ => true
  | SeccompRuleAdd _ _ _ | SeccompLoad => 0
  | SeccompRelease | Cout _ | Cerr _ => tt
  end.

(** ** Weakest preconditions *)

(** An environment assumption: the answers admitted after a history. *)
Definition env := trace -> forall s : sys, answer s -> Prop.
Definition any_env : env := fun _ _ _ => True.
Definition respects (k : kernel) (K : env) : Prop := forall t s, K t s (k t s).

(** The contents of files do not change while the program reads them. *)
Definition static_files (files : string -> option string) : env := fun _ s =>
  match s return answer s -> Prop with
  | ReadStream p => fun r => r = files p
  | _ => fun _ => True
  end.

(** Files can be opened for writing and accept the data. *)
Definition streams_good : env := fun _ s =>
  match s return answer s -> Prop with
  | WriteStream _ _ => fun r => r = WGood
  | _ => fun _ => True
  end.

(** [statfs] and [exists] answer from fixed tables. *)
Definition static_stat (stat : string -> option Z) (ex : string -> fsres bool) : env := fun _ s =>
  match s return answer s -> Prop with
  | Statfs p => fun r => r = stat p
  | FsExists p => fun r => r = ex p
  | _ => fun _ => True
  end.

Fixpoint wp {A} (K : env) (p : prog A) (Q : outcome A -> trace -> Prop) (t : trace) : Prop :=
  match p with
  | Ret a => Q (OVal a) t
  | Halt h => Q (OHalt h) t
  | Vis s f => forall r, K t s r -> wp K (f r) Q (Ev s r :: t)
  end.

(** ** The C library's message tables *)

Class Libc := {
  strerror : Z -> string;
  strsignal : Z -> string;
  fmt_double : b64 -> string              (* [std::cerr << x] *)
}.

(** ** Constants of the system interface (Linux, x86-64) *)

Definition EINTR : Z := 4.
Definition EBUSY : Z := 16.
Definition EEXIST : Z := 17.
Definition ENAMETOOLONG : Z := 36.
Definition STDIN_FILENO : Z := 0.
Definition STDOUT_FILENO : Z := 1.
Definition STDERR_FILENO : Z := 2.
Definition O_RDONLY : Z := 0.
Definition O_WRONLY : Z := 1.
Definition O_RDWR : Z := 2.
Definition O_CREAT : Z := 64.
Definition O_TRUNC : Z := 512.
Definition O_CLOEXEC : Z := 524288.
Definition F_OK : Z := 0.
Definition X_OK : Z := 1.
Definition SIGABRT : Z := 6.
Definition SIGKILL : Z := 9.
Definition SIGSEGV : Z := 11.
Definition SIGCHLD : Z := 17.
Definition SIGXCPU : Z := 24.
Definition SIGXFSZ : Z := 25.

(** ** Selecting events *)

(** The int-returning calls of a history that did not return -1, oldest first,
    among those [sel] selects. *)
Definition ok_icall (sel : icall -> bool) (e : event) : option icall :=
  match e with
  | Ev (SI c) r => if sel c && negb (rv r =? -1) then Some c else None
  | _ => None
  end.

(** What an observer sees of a history, oldest first. *)
Definition log_of {B} (f : event -> option B) (t : trace) : list B := rev (omap f t).
Arguments log_of : simpl never.

Definition ok_log (sel : icall -> bool) : trace -> list icall := log_of (ok_icall sel).
Arguments ok_log : simpl never.

(** The signals a history sent. *)
Definition kills : trace -> list (Z * Z) :=
  log_of (fun e => match e with Ev (SI (Kill pid sig)) _ => Some (pid, sig) | _ => None end).

(** The files it wrote, with their contents. *)
Definition writes : trace -> list (string * string) :=
  log_of (fun e => match e with Ev (WriteStream p d) _ => Some (p, d) | _ => None end).

(** The paths it removed, one by one or with their contents. *)
Definition removals : trace -> list string :=
  log_of (fun e => match e with
                   | Ev (FsRemove p) _ | Ev (FsRemoveAll p) _ => Some p
                   | _ => None
                   end).

(** The descriptors a history opened and closed, oldest first. *)
Definition opened : trace -> list Z :=
  log_of (fun e => match e with
                   | Ev (SI (Open _ _ _)) r | Ev (SI (Dup _)) r =>
                       if rv r <? 0 then None else Some (rv r)
                   | _ => None
                   end).
Definition closed : trace -> list Z :=
  log_of (fun e => match e with Ev (SI (Close fd)) _ => Some fd | _ => None end).

(** ** Lemmas *)

Lemma wp_mono {A} K (p : prog A) (Q R : outcome A -> trace -> Prop) t :
  (forall o t', Q o t' -> R o t') -> wp K p Q t -> wp K p R t.
Proof. intros HQR. revert t. induction p as [a|h|s f IH]; intros t; cbn; eauto. Qed.

Lemma wp_true {A} K (p : prog A) t : wp K p (fun _ _ => True) t.
Proof. revert t. induction p as [a|h|s f IH]; intros t; cbn; eauto. Qed.

Lemma wp_and {A} K (p : prog A) (Q R : outcome A -> trace -> Prop) t :
  wp K p Q t -> wp K p R t -> wp K p (fun o t' => Q o t' /\ R o t') t.
Proof. revert t. induction p as [a|h|s f IH]; intros t; cbn; eauto. Qed.

Lemma wp_bind {A B} K (p : prog A) (f : A -> prog B) Q t :
  wp K p (fun o t' => match o with
                      | OVal a => wp K (f a) Q t'
                      | OHalt h => Q (OHalt h) t'
                      end) t ->
  wp K (bind p f) Q t.
Proof. revert t. induction p as [a|h|s k IH]; intros t; cbn; eauto. Qed.

Lemma wp_unbind {A B} K (p : prog A) (f : A -> prog B) Q t :
  wp K (bind p f) Q t ->
  wp K p (fun o t' => match o with
                      | OVal a => wp K (f a) Q t'
                      | OHalt h => Q (OHalt h) t'
                      end) t.
Proof. revert t. induction p as [a|h|s k IH]; intros t; cbn; eauto. Qed.

(** When only the value returned matters, the first part can be skipped. *)
Lemma wp_skip {A B} K (p : prog A) (f : A -> prog B) (Q : outcome B -> trace -> Prop) t :
  (forall h t', Q (OHalt h) t') -> (forall a t', wp K (f a) Q t') -> wp K (bind p f) Q t.
Proof.
  intros Hh Hf. apply wp_bind. eapply wp_mono; [|apply wp_true].
  intros [a|h] t' _; auto.
Qed.

Lemma wp_finally {A} K (p : prog A) (d : prog unit) Q t :
  wp K p (fun o t' =>
    match o with
    | OVal a => wp K (d ;; Ret a) Q t'
    | OHalt (HThrow e) => wp K (d ;; throw e) Q t'
    | OHalt h => Q (OHalt h) t'
    end) t ->
  wp K (finally p d) Q t.
Proof.
  revert t. induction p as [a|h|s k IH]; intros t; cbn; eauto.
  destruct h; auto.
Qed.

Lemma wp_try {A} K (p : prog A) (h : exn -> prog A) Q t :
  wp K p (fun o t' =>
    match o with
    | OHalt (HThrow e) => wp K (h e) Q t'
    | o => Q o t'
    end) t ->
  wp K (try_catch p h) Q t.
Proof.
  revert t. induction p as [a|x|s k IH]; intros t; cbn; eauto.
  destruct x; auto.
Qed.

(** A bind that returns: its first part does. *)
Lemma run_bind_value {A B} k (p : prog A) (f : A -> prog B) b t :
  fst (run k (bind p f) t) = OVal b -> exists a, fst (run k p t) = OVal a /\ run k (bind p f) t = run k (f a) (snd (run k p t)).
Proof. revert t. induction p as [a|h|s g IH]; intros t H; cbn in *; [by exists a|done|by apply IH]. Qed.

Lemma run_wp {A} K k (p : prog A) Q t :
  respects k K -> wp K p Q t -> Q (fst (run k p t)) (snd (run k p t)).
Proof.
  intros Hk. revert t. induction p as [a|h|s f IH]; intros t; cbn; auto.
Qed.

Lemma respects_any k : respects k any_env.
Proof. done. Qed.

(** The usual way to a theorem about every kernel. *)
Lemma run_any {A} k (p : prog A) Q t o t' :
  run k p t = (o, t') -> wp any_env p Q t -> Q o t'.
Proof.
  intros Hr Hw. pose proof (run_wp _ k p Q t (respects_any k) Hw) as H.
  by rewrite Hr in H.
Qed.

Lemma wp_each {A} K (f : A -> prog unit) (l : list A)
    (I : list A -> trace -> Prop) (E : halt -> trace -> Prop) t :
  I l t ->
  (forall x l' t', I (x :: l') t' ->
    wp K (f x) (fun o t'' => match o with OVal _ => I l' t'' | OHalt h => E h t'' end) t') ->
  wp K (each f l) (fun o t' => match o with OVal _ => I [] t' | OHalt h => E h t' end) t.
Proof.
  intros Hi Hstep. revert t Hi. induction l as [|x l IH]; intros t Hi; cbn; [done|].
  apply wp_bind. eapply wp_mono; [|by apply Hstep].
  intros [u|h] t' H; [by apply IH|done].
Qed.

Lemma log_of_cons {B} (f : event -> option B) e t :
  log_of f (e :: t) = log_of f t ++ (match f e with Some c => [c] | None => [] end).
Proof. unfold log_of. cbn. destruct (f e); cbn; [done|]. by rewrite app_nil_r. Qed.

Lemma ok_log_cons sel e t :
  ok_log sel (e :: t) =
    ok_log sel t ++ (match ok_icall sel e with Some c => [c] | None => [] end).
Proof. apply log_of_cons. Qed.

Lemma wp_call (K : env) s (Q : outcome (answer s) -> trace -> Prop) t :
  (forall r, K t s r -> Q (OVal r) (Ev s r :: t)) -> wp K (call s) Q t.
Proof. auto. Qed.

Lemma wp_cerr K msg (Q : outcome unit -> trace -> Prop) t :
  Q (OVal tt) (Ev (Cerr msg) tt :: t) -> wp K (cerr msg) Q t.
Proof. intros H [] _. exact H. Qed.

Lemma kills_quiet e t :
  (match e with Ev (SI (Kill _ _)) _ => False | _ => True end) -> kills (e :: t) = kills t.
Proof.
  intros H. unfold kills. rewrite log_of_cons.
  destruct e as [s r]; destruct s; try by rewrite app_nil_r.
  by destruct c; try rewrite app_nil_r.
Qed.

Lemma removals_quiet e t :
  (match e with Ev (FsRemove _) _ | Ev (FsRemoveAll _) _ => False | _ => True end) ->
  removals (e :: t) = removals t.
Proof.
  intros H. unfold removals. rewrite log_of_cons.
  by destruct e as [s r]; destruct s; try rewrite app_nil_r.
Qed.

#[export] Hint Rewrite kills_quiet removals_quiet using exact I : oj_rw.

Lemma removals_FsRemove p r t : removals (Ev (FsRemove p) r :: t) = removals t ++ [p].
Proof. unfold removals. by rewrite log_of_cons. Qed.

Lemma writes_quiet e t :
  (match e with Ev (WriteStream _ _) _ => False | _ => True end) -> writes (e :: t) = writes t.
Proof.
  intros H. unfold writes. rewrite log_of_cons.
  by destruct e as [s r]; destruct s; try rewrite app_nil_r.
Qed.

Lemma writes_write p d r t : writes (Ev (WriteStream p d) r :: t) = writes t ++ [(p, d)].
Proof. unfold writes. by rewrite log_of_cons. Qed.

#[export] Hint Rewrite writes_quiet using exact I : oj_rw.
#[export] Hint Rewrite writes_write : oj_rw.

(** ** Programs that always return *)

(** No exit, exception, undefined behaviour or lack of fuel, whatever the
    kernel answers. *)
Definition returns {A} (p : prog A) : Prop :=
  forall K t, wp K p (fun o _ => exists a, o = OVal a) t.

Lemma returns_ret {A} (a : A) : returns (Ret a).
Proof. intros K t. by exists a. Qed.

Lemma returns_call s : returns (call s).
Proof. intros K t r _. by exists r. Qed.

Lemma returns_bind {A B} (p : prog A) (f : A -> prog B) :
  returns p -> (forall a, returns (f a)) -> returns (bind p f).
Proof.
  intros Hp Hf K t. apply wp_bind. eapply wp_mono; [|apply Hp].
  intros o t' [a ->]. apply Hf.
Qed.

Lemma returns_each {A} (f : A -> prog unit) l : (forall x, returns (f x)) -> returns (each f l).
Proof.
  intros Hf. induction l as [|x l IH]; cbn; [apply returns_ret|]. by apply returns_bind.
Qed.

(** Walk along a program made of calls, binds and branches. *)
Ltac returns :=
  repeat first
    [ apply returns_ret | apply returns_call
    | apply returns_bind; [|intros ?]
    | apply returns_each; intros ?
    | assumption
    | match goal with
      | |- returns (if ?b then _ else _) => destruct b
      | |- returns (match ?x with _ => _ end) => destruct x
      end ].

Lemma wp_returns {A} K (p : prog A) (Q : outcome A -> trace -> Prop) t :
  returns p -> (forall a t', Q (OVal a) t') -> wp K p Q t.
Proof. intros Hp HQ. eapply wp_mono; [|apply Hp]. intros o t' [a ->]. apply HQ. Qed.

(** ** Programs that only perform certain calls *)

Fixpoint calls {A} (P : sys -> Prop) (p : prog A) : Prop :=
  match p with
  | Ret _ | Halt _ => True
  | Vis s k => P s /\ forall r, calls P (k r)
  end.

Section Calls.
Context (P : sys -> Prop).

Lemma calls_call s : P s -> calls P (call s).
Proof. by split. Qed.

Lemma calls_bind {A B} (p : prog A) (f : A -> prog B) :
  calls P p -> (forall a, calls P (f a)) -> calls P (bind p f).
Proof. induction p as [a|h|s k IH]; cbn; intros Hp Hf; [done..|]. destruct Hp. auto. Qed.

Lemma calls_finally {A} (p : prog A) d : calls P p -> calls P d -> calls P (finally p d).
Proof.
  intros Hp Hd. induction p as [a|h|s k IH]; cbn in *.
  - by apply calls_bind.
  - destruct h; try done. by apply calls_bind.
  - destruct Hp. auto.
Qed.

Lemma calls_try {A} (p : prog A) h : calls P p -> (forall e, calls P (h e)) -> calls P (try_catch p h).
Proof.
  intros Hp Hh. induction p as [a|x|s k IH]; cbn in *; [done|destruct x; by try apply Hh|].
  destruct Hp. auto.
Qed.

Lemma calls_each {A} (f : A -> prog unit) l :
  (forall x, In x l -> calls P (f x)) -> calls P (each f l).
Proof.
  induction l as [|x l IH]; cbn; intros H; [done|]. apply calls_bind; [apply H; by left|].
  intros _. apply IH. intros y Hy. apply H. by right.
Qed.

Lemma calls_run {A} k (p : prog A) t :
  calls P p -> Forall (fun e => P (ev_sys e)) t ->
  Forall (fun e => P (ev_sys e)) (snd (run k p t)).
Proof.
  revert t. induction p as [a|h|s f IH]; intros t Hp Ht; cbn in *; [done..|].
  destruct Hp as [Hs Hf]. apply IH; [apply Hf|]. by constructor.
Qed.
End Calls.

Lemma calls_mono {A} (P Q : sys -> Prop) (p : prog A) :
  (forall s, P s -> Q s) -> calls P p -> calls Q p.
Proof. intros HPQ. induction p as [a|h|s k IH]; cbn; [done..|]. intros [? ?]. auto. Qed.

(** Every value a program can return satisfies [V]. *)
Fixpoint yields {A} (V : A -> Prop) (p : prog A) : Prop :=
  match p with
  | Ret a => V a
  | Halt _ => True
  | Vis s k => forall r, yields V (k r)
  end.

Lemma yields_true {A} (p : prog A) : yields (fun _ => True) p.
Proof. induction p; cbn; auto. Qed.

Lemma yields_bind {A B} (V : A -> Prop) (W : B -> Prop) (p : prog A) (f : A -> prog B) :
  yields V p -> (forall a, V a -> yields W (f a)) -> yields W (bind p f).
Proof. induction p as [a|h|s k IH]; cbn; auto. Qed.

(** A first part whose value does not matter. *)
Lemma yields_seq {A B} (W : B -> Prop) (p : prog A) (f : A -> prog B) :
  (forall a, yields W (f a)) -> yields W (bind p f).
Proof. intros H. eapply yields_bind; [apply yields_true|auto]. Qed.

Lemma yields_try {A} (V : A -> Prop) (p : prog A) h :
  yields V p -> (forall e, yields V (h e)) -> yields V (try_catch p h).
Proof. intros Hp Hh. induction p as [a|x|s k IH]; cbn in *; auto. destruct x; cbn; auto. Qed.

Lemma yields_finally {A} (V : A -> Prop) (p : prog A) d : yields V p -> yields V (finally p d).
Proof.
  induction p as [a|h|s k IH]; cbn; [intros H; by apply yields_seq| |auto].
  intros _. destruct h; try done. by apply yields_seq.
Qed.

Lemma yields_mono {A} (V W : A -> Prop) (p : prog A) :
  (forall a, V a -> W a) -> yields V p -> yields W p.
Proof. intros H. induction p; cbn; auto. Qed.

Lemma wp_yields {A} K (V : A -> Prop) (p : prog A) t :
  yields V p -> wp K p (fun o _ => forall a, o = OVal a -> V a) t.
Proof.
  revert t. induction p as [x|h|s f IH]; intros t Hp; cbn in *; auto.
  - by intros a [= <-].
  - done.
Qed.

Lemma yields_run {A} (V : A -> Prop) k (p : prog A) a :
  yields V p -> exec_outcome k p = OVal a -> V a.
Proof.
  unfold exec_outcome. generalize (@nil event). induction p as [x|h|s f IH]; cbn; intros t Hp Hr.
  - by injection Hr as <-.
  - done.
  - by eapply IH.
Qed.

Lemma calls_bind_yields {A B} P (V : A -> Prop) (p : prog A) (f : A -> prog B) :
  calls P p -> yields V p -> (forall a, V a -> calls P (f a)) -> calls P (bind p f).
Proof.
  induction p as [a|h|s k IH]; cbn; intros Hp Hv Hf; [auto|done|]. destruct Hp. auto.
Qed.

(** The calls a program adds to a history. *)
Lemma wp_calls {A} K (P : sys -> Prop) (p : prog A) t :
  calls P p ->
  wp K p (fun _ t' => exists evs, t' = evs ++ t /\ Forall (fun e => P (ev_sys e)) evs) t.
Proof.
  revert t. induction p as [a|h|s f IH]; intros t Hp; cbn in *; [by exists []..|].
  intros r _. destruct Hp as [Hs Hf]. eapply wp_mono; [|by apply IH].
  intros o t' (evs & -> & He). exists (evs ++ [Ev s r]). rewrite <- app_assoc. split; [done|].
  apply Forall_app. split; [done|]. by constructor.
Qed.

Lemma calls_true {A} (p : prog A) : calls (fun _ => True) p.
Proof. induction p; cbn; auto. Qed.

(** Histories only grow. *)
Lemma wp_grows {A} K (p : prog A) t : wp K p (fun _ t' => exists evs, t' = evs ++ t) t.
Proof.
  eapply wp_mono; [|exact (wp_calls K _ p t (calls_true p))].
  intros o t' (evs & -> & _). by exists evs.
Qed.

(** Every way a program can halt satisfies [E]. *)
Fixpoint halting {A} (E : halt -> Prop) (p : prog A) : Prop :=
  match p with
  | Ret _ => True
  | Halt h => E h
  | Vis s k => forall r, halting E (k r)
  end.

Section Halting.
Context (E : halt -> Prop).

Lemma halting_bind {A B} (p : prog A) (f : A -> prog B) :
  halting E p -> (forall a, halting E (f a)) -> halting E (bind p f).
Proof. induction p as [a|h|s k IH]; cbn; auto. Qed.

Lemma halting_bind_yields {A B} (V : A -> Prop) (p : prog A) (f : A -> prog B) :
  halting E p -> yields V p -> (forall a, V a -> halting E (f a)) -> halting E (bind p f).
Proof. induction p as [a|h|s k IH]; cbn; auto. Qed.

Lemma halting_call s : halting E (call s).
Proof. done. Qed.

Lemma halting_each {A} (f : A -> prog unit) l :
  (forall x, halting E (f x)) -> halting E (each f l).
Proof. intros Hf. induction l as [|x l IH]; cbn; [done|]. by apply halting_bind. Qed.

Lemma halting_finally {A} (p : prog A) d : halting E p -> halting E d -> halting E (finally p d).
Proof.
  intros Hp Hd. induction p as [a|h|s k IH]; cbn in *; [by apply halting_bind| |auto].
  destruct h; try done. by apply halting_bind.
Qed.

Lemma halting_try {A} (p : prog A) h :
  halting E p -> (forall e, halting E (h e)) -> halting E (try_catch p h).
Proof. intros Hp Hh. induction p as [a|x|s k IH]; cbn in *; auto. destruct x; auto. Qed.

(** A handler may rule exceptions out. *)
Lemma halting_try_catch {A} (F : halt -> Prop) (p : prog A) h :
  (forall x, F x -> E x \/ exists e, x = HThrow e) ->
  halting F p -> (forall e, halting E (h e)) -> halting E (try_catch p h).
Proof.
  intros HF Hp Hh. induction p as [a|x|s k IH]; cbn in *; [done| |auto].
  destruct (HF x Hp) as [He|[e ->]]; [|apply Hh]. destruct x; auto.
Qed.

Lemma halting_run {A} k (p : prog A) h : halting E p -> exec_outcome k p = OHalt h -> E h.
Proof.
  unfold exec_outcome. generalize (@nil event). induction p as [x|h'|s f IH]; cbn; intros t Hp Hr.
  - done.
  - by injection Hr as <-.
  - by eapply IH.
Qed.

Lemma wp_halting {A} K (p : prog A) (Q : outcome A -> trace -> Prop) t :
  halting E p ->
  (forall a evs, Q (OVal a) (evs ++ t)) -> (forall h evs, E h -> Q (OHalt h) (evs ++ t)) ->
  wp K p Q t.
Proof.
  revert t. induction p as [a|h|s f IH]; intros t Hp Ha Hh; cbn in *.
  - apply (Ha a []).
  - by apply (Hh h []).
  - intros r _. apply IH; [done| |]; intros x evs.
    + specialize (Ha x (evs ++ [Ev s r])). by rewrite <- app_assoc in Ha.
    + intros He. specialize (Hh x (evs ++ [Ev s r]) He). by rewrite <- app_assoc in Hh.
Qed.
End Halting.

Create HintDb halting.

(** Walk along a program for [halting]. *)
Ltac halting :=
  repeat first
    [ exact I
    | solve [auto 2 with halting]
    | apply halting_call
    | apply halting_bind; [|intros ?]
    | apply halting_finally
    | apply halting_try; [|intros ?]
    | apply halting_each; intros ?
    | match goal with
      | |- halting _ (if ?b then _ else _) => destruct b eqn:?
      | |- halting _ (match ?x with _ => _ end) => destruct x eqn:?
      end ].

(** Case analysis on a call, down to the [int]-returning ones. *)
Ltac case_sys s := destruct s; try match goal with c : icall |- _ => destruct c end.

Create HintDb calls.

(** Walk along a program; [auto with calls] closes the calls themselves and the
    operations already covered. *)
Ltac calls :=
  repeat first
    [ exact I
    | solve [auto 2 with calls]
    | apply calls_call; solve [cbn; auto with calls]
    | apply calls_bind; [|intros ?]
    | apply calls_finally
    | apply calls_try; [|intros ?]
    | apply calls_each; intros ? ?
    | match goal with
      | |- calls _ (if ?b then _ else _) => destruct b eqn:?
      | |- calls _ (match ?x with _ => _ end) => destruct x eqn:?
      end ].

(** ** Triples over the log of successful calls

    [logs sel p l V E]: whatever the kernel answers, [p] either returns a value
    in [V] after adding exactly the calls [l] to the selected log, or halts with
    a halt in [E].  The rules follow the shape of the code, so the proof that a
    whole child process performs its steps in order is a walk along it. *)

Definition logs (sel : icall -> bool) {A} (p : prog A) (l : list icall)
    (V : A -> Prop) (E : halt -> Prop) : Prop :=
  forall t, wp any_env p (fun o t' =>
    match o with
    | OVal a => V a /\ ok_log sel t' = ok_log sel t ++ l
    | OHalt h => E h
    end) t.

(** The program never returns. *)
Definition halts (sel : icall -> bool) {A} (p : prog A) (E : halt -> Prop) : Prop :=
  forall l, logs sel p l (fun _ => False) E.

Section Logs.
Context (sel : icall -> bool).

Lemma logs_ret {A} (a : A) (V : A -> Prop) E : V a -> logs sel (Ret a) [] V E.
Proof. intros H t. cbn. by rewrite app_nil_r. Qed.

Lemma logs_bind {A B} (p : prog A) (f : A -> prog B) l1 l2 V W E :
  logs sel p l1 V E -> (forall a, V a -> logs sel (f a) l2 W E) ->
  logs sel (bind p f) (l1 ++ l2) W E.
Proof.
  intros Hp Hf t. apply wp_bind. eapply wp_mono; [|apply Hp].
  intros [a|h] t' H; [|done]. destruct H as [Ha Hl].
  eapply wp_mono; [|by apply Hf].
  intros [b|h] t'' H; [|done]. destruct H as [Hb Hl']. split; [done|].
  by rewrite Hl', Hl, app_assoc.
Qed.

Lemma logs_bind_nil {A B} (p : prog A) (f : A -> prog B) l V W E :
  logs sel p [] V E -> (forall a, V a -> logs sel (f a) l W E) ->
  logs sel (bind p f) l W E.
Proof. apply (logs_bind p f [] l). Qed.

Lemma logs_mono {A} (p : prog A) l (V W : A -> Prop) (E F : halt -> Prop) :
  (forall a, V a -> W a) -> (forall h, E h -> F h) ->
  logs sel p l V E -> logs sel p l W F.
Proof.
  intros HV HE Hp t. eapply wp_mono; [|apply Hp].
  intros [a|h] t'; [|apply HE]. intros [? ?]; auto.
Qed.

Lemma logs_halts {A} (p : prog A) l V E : halts sel p E -> logs sel p l V E.
Proof. intros H. eapply logs_mono; [| |apply (H l)]; done. Qed.

Lemma halts_halt {A} h (E : halt -> Prop) : E h -> halts sel (@Halt A h) E.
Proof. intros H l t. done. Qed.

Lemma halts_bind {A B} (p : prog A) (f : A -> prog B) l V E :
  logs sel p l V E -> (forall a, V a -> halts sel (f a) E) -> halts sel (bind p f) E.
Proof.
  intros Hp Hf l' t. apply wp_bind. eapply wp_mono; [|apply Hp].
  intros [a|h] t' H; [|done]. destruct H as [Ha _].
  eapply wp_mono; [|apply (Hf a Ha l')]. by intros [b|h] t''; [intros []|].
Qed.

(** A call the log does not select. *)
Definition silent (s : sys) : bool :=
  match s with SI c => negb (sel c) | _ => true end.

Lemma logs_silent s E : silent s = true -> logs sel (call s) [] (fun _ => True) E.
Proof.
  intros Hs t. cbn. intros r _. split; [done|]. rewrite ok_log_cons, app_nil_r.
  destruct s; cbn in *; try by rewrite app_nil_r.
  apply negb_true_iff in Hs. rewrite Hs. by rewrite app_nil_r.
Qed.

Lemma logs_icall_silent c E : sel c = false -> logs sel (icall_ c) [] (fun _ => True) E.
Proof. intros H. apply logs_silent. cbn. by rewrite H. Qed.

Lemma logs_or_exit c code (E : halt -> Prop) :
  sel c = true -> E (HExit code) -> logs sel (or_exit c code) [c] (fun _ => True) E.
Proof.
  intros Hs He t. cbn. intros r _. destruct (rv r =? -1) eqn:Er; cbn; [done|].
  split; [done|]. rewrite ok_log_cons. cbn. by rewrite Hs, Er.
Qed.

Lemma logs_zero_or_exit c code (E : halt -> Prop) :
  sel c = true -> E (HExit code) -> logs sel (zero_or_exit c code) [c] (fun _ => True) E.
Proof.
  intros Hs He t. cbn. intros r _. destruct (rv r =? 0) eqn:Er; cbn; [|done].
  split; [done|]. rewrite ok_log_cons. cbn. rewrite Hs.
  apply Z.eqb_eq in Er. by rewrite Er.
Qed.

Lemma logs_each {A} (f : A -> prog unit) (g : A -> list icall) l E :
  (forall x, In x l -> logs sel (f x) (g x) (fun _ => True) E) ->
  logs sel (each f l) (concat (map g l)) (fun _ => True) E.
Proof.
  induction l as [|x l IH]; intros Hf; cbn; [by apply logs_ret|].
  eapply logs_bind; [apply Hf; by left|]. intros _ _. apply IH. intros y Hy.
  apply Hf. by right.
Qed.

Lemma logs_each_silent {A} (f : A -> prog unit) l E :
  (forall x, In x l -> logs sel (f x) [] (fun _ => True) E) ->
  logs sel (each f l) [] (fun _ => True) E.
Proof.
  intros Hf. replace ([] : list icall) with (concat (map (fun _ : A => @nil icall) l)).
  - by apply logs_each.
  - clear Hf. induction l; cbn; auto.
Qed.

Lemma logs_in_bounds i size E :
  0 <= i < size -> logs sel (in_bounds i size) [] (fun _ => True) E.
Proof.
  intros H. unfold in_bounds. rewrite (proj2 (Z.leb_le _ _)) by lia.
  rewrite (proj2 (Z.ltb_lt _ _)) by lia. by apply logs_ret.
Qed.

(** What a triple says of an execution. *)
Lemma logs_run {A} (p : prog A) l V E k o t :
  logs sel p l V E -> run k p [] = (o, t) ->
  match o with OVal a => V a /\ ok_log sel t = l | OHalt h => E h end.
Proof.
  intros Hp Hr. exact (run_any k p _ [] o t Hr (Hp [])).
Qed.

End Logs.

#[export] Hint Resolve logs_ret logs_or_exit logs_zero_or_exit logs_icall_silent
  logs_in_bounds logs_halts : oj.
