(* ===== verification/Sample.v ===== *)
(** * Sample data for the witnesses

    A configuration with the values of config.yaml, the argument blocks of one
    job and constant message tables, on which the witnesses of the theorems
    evaluate. *)

From S2P Require Import Prelude CInt CFloat Internal Sys.

#[export] Instance libc : Libc := 
  {| strerror := fun _ => "error"; strsignal := fun _ => "signal"; fmt_double := fun _ => "0" |}.

Definition config : GlobalConfig :=
  {| workspace_root := "/tmp/deep_oj"; compiler_path := "/usr/bin/g++";
     mount_dirs := ["/bin"; "/usr"]; mount_files := ["/etc/ld.so.cache"];
     compile_cpu_limit := 10; compile_real_limit := 20; compile_mem_limit := 2147483648;
     max_output_size := 10485760; output_buffer_size := 2097152;
     run_tmpfs_size_mb := 64; compile_tmpfs_size_mb := 128;
     compile_log_max_bytes := 16777216; compile_max_errors := 10;
     run_uid := 65534; run_gid := 65534; cgroup_pids_limit := 20;
     cgroup_cpu_max_cores := b64_one; cgroup_io_read_bps := 104857600;
     cgroup_io_write_bps := 104857600 |}.

Definition run_args : RunChildArgs :=
  {| rc_exe_path := "/tmp/deep_oj/job/main"; rc_time_limit_ms := 1000;
     rc_memory_limit_kb := 131072; rc_output_limit_bytes := 12582912;
     rc_input_fd := 4; rc_output_fd := 5; rc_error_fd := 6 |}.

Definition compile_args : CompileArgs :=
  {| ca_source_path := "/tmp/deep_oj/job/main.cpp"; ca_exe_path := "/tmp/deep_oj/job/main";
     ca_log_path := "/tmp/deep_oj/job/compile_error.log" |}.
