(* ===== verification/Seccomp.v ===== *)
(** * System call filters: seccomp_rules.cpp

    [LoadSeccompRules] installs the allow-list of the run phase,
    [LoadCompileSeccompRules] the deny-list of the compile phase; both call
    libseccomp step by step and leave the process with [ERR_SANDBOX_EXCEPTION]
    when a step fails.  What a loaded filter decides is libseccomp's and the
    kernel's business: [FilterSemantics] states the documented behaviour the
    engine relies on, and [first_match] is an instance of it. *)

From S2P Require Import Prelude CInt Internal Sys.

(** ** The two loaders *)

Record rule := Rule { r_act : scmp_action; r_sys : string; r_args : list scmp_arg_cmp }.

(** [if (seccomp_rule_add(...) != 0) { seccomp_release(ctx); _exit(...); }] *)
Definition add_rule (r : rule) : prog unit :=
  rc <- call (SeccompRuleAdd (r_act r) (r_sys r) (r_args r)) ;;
  if rc =? 0 then Ret tt
  else call SeccompRelease ;; exit_ ERR_SANDBOX_EXCEPTION.

(** [ALLOW_SYSCALL(name)] and [DENY_SYSCALL(name)]. *)
Definition ALLOW_SYSCALL (name : string) : rule := Rule SCMP_ACT_ALLOW name [].
Definition DENY_SYSCALL (name : string) : rule := Rule SCMP_ACT_KILL name [].

(** [SCMP_CMP(arg, SCMP_CMP_MASKED_EQ, O_WRONLY | O_RDWR, 0)]. *)
Definition read_only_open (arg : Z) : scmp_arg_cmp :=
  MaskedEq arg (Z.lor O_WRONLY O_RDWR) 0.

Definition run_rules : list rule :=
  [Rule SCMP_ACT_ALLOW "open" [read_only_open 1];
   Rule SCMP_ACT_ALLOW "openat" [read_only_open 2];
   Rule SCMP_ACT_ALLOW "execve" [];
   Rule SCMP_ACT_ALLOW "execveat" []] ++
  map ALLOW_SYSCALL
    ["read"; "write"; "close"; "fstat"; "lseek"; "brk"; "mmap"; "munmap"; "mprotect";
     "exit"; "exit_group"; "uname"; "access"; "readlink"; "gettimeofday";
     "clock_gettime"; "rt_sigaction"; "rt_sigprocmask"; "rt_sigreturn"; "sigaltstack";
     "getpid"; "getppid"; "gettid"; "getuid"; "geteuid"; "getgid"; "getegid"; "fcntl";
     "statx"; "statfs"; "fstatfs"; "ioctl"; "madvise"; "sched_getaffinity";
     "prlimit64"; "rseq"; "getrandom"; "futex"; "newfstatat"; "faccessat"; "pread64";
     "arch_prctl"; "set_tid_address"; "set_robust_list"].

Definition compile_rules : list rule :=
  map DENY_SYSCALL
    ["ptrace"; "mount"; "umount2"; "reboot"; "swapon"; "swapoff"; "kexec_load";
     "init_module"; "finit_module"; "delete_module"].

(** [seccomp_init], the rules, [seccomp_load], [seccomp_release]. *)
Definition load_filter (def : scmp_action) (rules : list rule) : prog unit :=
  ctx <- call (SeccompInit def) ;;
  if negb ctx then exit_ ERR_SANDBOX_EXCEPTION
  else
    each add_rule rules ;;
    rc <- call SeccompLoad ;;
    if rc =? 0 then call SeccompRelease
    else call SeccompRelease ;; exit_ ERR_SANDBOX_EXCEPTION.

Definition LoadSeccompRules (exe_path : string) : prog unit :=
  load_filter SCMP_ACT_KILL run_rules.

Definition LoadCompileSeccompRules : prog unit :=
  load_filter SCMP_ACT_ALLOW compile_rules.

(** The run phase is filtered unless JUDGE_RUN_SECCOMP_MODE is exactly "off". *)
Definition ShouldEnableRunSeccomp : prog bool :=
  mode <- call (Getenv "JUDGE_RUN_SECCOMP_MODE") ;;
  Ret (match mode with
       | None => true
       | Some m => if str_empty m then true else negb (bool_decide (m = "off"))
       end).

(** ** The filter a history has loaded *)

Record filter := Filter { f_default : scmp_action; f_rules : list rule }.

(** The context under construction and the filter in force, newest event first. *)
Fixpoint building (t : trace) : option filter :=
  match t with
  | [] => None
  | Ev (SeccompInit d) true :: _ => Some (Filter d [])
  | Ev (SeccompRuleAdd a s args) rc :: t =>
      match building t with
      | Some f => if (rc : Z) =? 0 then Some (Filter (f_default f) (f_rules f ++ [Rule a s args]))
                  else Some f
      | None => None
      end
  | Ev SeccompRelease _ :: _ => None
  | _ :: t => building t
  end.

Fixpoint loaded (t : trace) : option filter :=
  match t with
  | [] => None
  | Ev SeccompLoad rc :: t => if (rc : Z) =? 0 then building t else loaded t
  | _ :: t => loaded t
  end.

(** ** What a filter decides *)

Definition cmp_holds (args : list Z) (c : scmp_arg_cmp) : bool :=
  Z.land (nth (Z.to_nat (sc_arg c)) args 0) (sc_mask c) =? sc_datum c.

Definition rule_matches (name : string) (args : list Z) (r : rule) : bool :=
  bool_decide (r_sys r = name) && forallb (cmp_holds args) (r_args r).

(** libseccomp and the kernel: a call that matches no rule gets the default
    action; when every rule it matches carries the same action, it gets that
    one. *)
Class FilterSemantics := {
  decision : filter -> string -> list Z -> scmp_action;
  decision_default : forall f name args,
    existsb (rule_matches name args) (f_rules f) = false ->
    decision f name args = f_default f;
  decision_rule : forall f name args a,
    existsb (rule_matches name args) (f_rules f) = true ->
    (forall r, In r (f_rules f) -> rule_matches name args r = true -> r_act r = a) ->
    decision f name args = a
}.

(** The filter of the run phase and of the compile phase. *)
Definition run_filter : filter := Filter SCMP_ACT_KILL run_rules.
Definition compile_filter : filter := Filter SCMP_ACT_ALLOW compile_rules.

(** The access mode of [open] flags is read-only. *)
Definition read_only (flags : Z) : bool := Z.land flags 3 =? O_RDONLY.

(** ** An instance: the first matching rule *)

Definition first_match_decision (f : filter) (name : string) (args : list Z) : scmp_action :=
  match List.find (rule_matches name args) (f_rules f) with
  | Some r => r_act r
  | None => f_default f
  end.

#[export] Instance first_match : FilterSemantics.
Proof.
  refine {| decision := first_match_decision |}.
  - intros f name args H. unfold first_match_decision.
    destruct (List.find _ _) as [r|] eqn:E; [|done].
    apply find_some in E as [Hin Hm].
    assert (existsb (rule_matches name args) (f_rules f) = true) by (apply existsb_exists; eauto).
    congruence.
  - intros f name args a H Hall. unfold first_match_decision.
    destruct (List.find _ _) as [r|] eqn:E.
    + apply find_some in E as [Hin Hm]. by apply Hall.
    + apply existsb_exists in H as (r & Hin & Hm).
      pose proof (find_none _ _ E r Hin). congruence.
Defined.

(** ** What the loaders do *)

Lemma building_rules_app t f r rc :
  building t = Some f -> rc = 0 ->
  building (Ev (SeccompRuleAdd (r_act r) (r_sys r) (r_args r)) rc :: t) =
    Some (Filter (f_default f) (f_rules f ++ [r])).
Proof. intros H ->. cbn. rewrite H. by destruct r. Qed.

(** A loader returns with exactly its filter loaded, or leaves the process with
    [ERR_SANDBOX_EXCEPTION]; it does nothing else. *)
Lemma wp_load_filter K def rules t :
  wp K (load_filter def rules) (fun o t' =>
    match o with
    | OVal _ => loaded t' = Some (Filter def rules)
    | OHalt h => h = HExit ERR_SANDBOX_EXCEPTION
    end) t.
Proof.
  unfold load_filter. cbn. intros [] _; cbn; [|done].
  apply wp_bind. eapply wp_mono; [|eapply wp_each with
    (I := fun l t' => exists d, rules = d ++ l /\ building t' = Some (Filter def d))
    (E := fun h _ => h = HExit ERR_SANDBOX_EXCEPTION)].
  - intros [u|h] t' H; [|done]. destruct H as (d & -> & Hb). rewrite app_nil_r.
    cbn. intros rc _. destruct (rc =? 0) eqn:E; cbn; intros _ _; [|done].
    by rewrite E.
  - by exists [].
  - intros x l' t' (d & -> & Hb). cbn. intros rc _.
    destruct (rc =? 0) eqn:E; cbn; [|intros _ _; done].
    exists (d ++ [x]). split; [by rewrite <- app_assoc|].
    rewrite Hb, E. by destruct x.
Qed.

Lemma wp_ShouldEnable K (Q : outcome bool -> trace -> Prop) t :
  (forall b e, Q (OVal b) (e :: t)) -> wp K ShouldEnableRunSeccomp Q t.
Proof. intros H. cbn. intros r _. apply H. Qed.

(** ** What the filters decide *)

Definition plain_allowed : list string :=
  ["execve"; "execveat";
   "read"; "write"; "close"; "fstat"; "lseek"; "brk"; "mmap"; "munmap"; "mprotect";
   "exit"; "exit_group"; "uname"; "access"; "readlink"; "gettimeofday";
   "clock_gettime"; "rt_sigaction"; "rt_sigprocmask"; "rt_sigreturn"; "sigaltstack";
   "getpid"; "getppid"; "gettid"; "getuid"; "geteuid"; "getgid"; "getegid"; "fcntl";
   "statx"; "statfs"; "fstatfs"; "ioctl"; "madvise"; "sched_getaffinity";
   "prlimit64"; "rseq"; "getrandom"; "futex"; "newfstatat"; "faccessat"; "pread64";
   "arch_prctl"; "set_tid_address"; "set_robust_list"].

Definition compile_denied : list string :=
  ["ptrace"; "mount"; "umount2"; "reboot"; "swapon"; "swapoff"; "kexec_load";
   "init_module"; "finit_module"; "delete_module"].

Definition str_mem (name : string) (l : list string) : bool :=
  existsb (fun s => bool_decide (s = name)) l.

(** The calls the run phase may make. *)
Definition run_allows (name : string) (args : list Z) : bool :=
  (bool_decide ("open" = name) && read_only (nth 1 args 0)) ||
  (bool_decide ("openat" = name) && read_only (nth 2 args 0)) ||
  str_mem name plain_allowed.

Lemma existsb_plain (mk : string -> rule) name args l :
  (forall s, r_sys (mk s) = s /\ r_args (mk s) = []) ->
  existsb (rule_matches name args) (map mk l) = str_mem name l.
Proof.
  intros H. unfold str_mem. induction l as [|s l IH]; [done|]. cbn. rewrite IH. f_equal.
  unfold rule_matches. destruct (H s) as [-> ->]. cbn. by rewrite andb_true_r.
Qed.

Lemma existsb_run_rules name args :
  existsb (rule_matches name args) run_rules = run_allows name args.
Proof.
  unfold run_rules, run_allows. rewrite existsb_app.
  rewrite (existsb_plain ALLOW_SYSCALL) by done.
  change plain_allowed with (["execve"; "execveat"] ++ drop 2 plain_allowed).
  unfold str_mem at 2. rewrite existsb_app.
  change (existsb (fun s => bool_decide (s = name)) (drop 2 plain_allowed))
    with (str_mem name (drop 2 plain_allowed)).
  cbn. unfold rule_matches, cmp_holds, read_only. cbn.
  by rewrite !andb_true_r, !orb_false_r, !orb_assoc.
Qed.

Lemma run_rules_allow r : In r run_rules -> r_act r = SCMP_ACT_ALLOW.
Proof.
  intros H. assert (forallb (fun r => bool_decide (r_act r = SCMP_ACT_ALLOW)) run_rules = true)
    as Hall by reflexivity.
  pose proof (forallb_In _ _ _ Hall H) as Hd. by apply bool_decide_eq_true in Hd.
Qed.

Section Decisions.
Context {FS : FilterSemantics}.


Lemma compile_rules_kill r : In r compile_rules -> r_act r = SCMP_ACT_KILL.
Proof.
  intros H. assert (forallb (fun r => bool_decide (r_act r = SCMP_ACT_KILL)) compile_rules = true) as Hall by reflexivity.
  pose proof (forallb_In _ _ _ Hall H) as Hd. by apply bool_decide_eq_true in Hd.
Qed.

Lemma denied_not_allowed name args : run_allows name args = true -> str_mem name compile_denied = false.
Proof.
  intros H. apply not_true_iff_false. unfold str_mem. rewrite existsb_exists. intros (n & Hin & <-%bool_decide_eq_true).
  assert (Hall : forallb (fun n => negb (run_allows n args)) compile_denied = true) by reflexivity.
  pose proof (forallb_In _ _ _ Hall Hin) as Hf. apply negb_true_iff in Hf. congruence.
Qed.

(** C30: When [LoadCompileSeccompRules] returns, under any answers of libseccomp,
    the filter that its calls have built and loaded (read off the trace: the
    default action of [seccomp_init], the rules added, the load) kills the ten
    calls that trace, mount, reboot, swap, load modules or kernels, lets every
    other call through, and so never kills a call that the run phase may make; if
    it does not return, the process has left with [ERR_SANDBOX_EXCEPTION]. *)
Theorem compile_filter_decides k t o t' : run k LoadCompileSeccompRules t = (o, t') ->
  (o = OVal tt /\ exists f, loaded t' = Some f /\ forall name args,
     decision f name args = (if str_mem name compile_denied then SCMP_ACT_KILL else SCMP_ACT_ALLOW) /\
     (run_allows name args = true -> decision f name args = SCMP_ACT_ALLOW)) \/
  o = OHalt (HExit ERR_SANDBOX_EXCEPTION).
Proof.
  intros Hr. eapply run_any in Hr; [|apply wp_load_filter]. destruct o as [[]|h]; [left|right; by subst].
  split; [done|]. eexists. split; [exact Hr|]. intros name args.
  assert (Hex : existsb (rule_matches name args) compile_rules = str_mem name compile_denied)
    by (unfold compile_rules; by rewrite (existsb_plain DENY_SYSCALL)).
  assert (Hd : decision (Filter SCMP_ACT_ALLOW compile_rules) name args =
    (if str_mem name compile_denied then SCMP_ACT_KILL else SCMP_ACT_ALLOW)).
  { destruct (str_mem name compile_denied); [|by apply decision_default].
    apply decision_rule; [done|]. intros r Hin _. by apply compile_rules_kill. }
  split; [done|]. intros Ha. by rewrite Hd, (denied_not_allowed name args Ha).
Qed.

(** The calls the threat model names: process creation, tracing, mounts,
    sockets, killing, and opening a file for writing. *)
Definition forbidden_calls : list string :=
  ["fork"; "vfork"; "clone"; "clone3"; "ptrace"; "mount"; "umount2"; "pivot_root";
   "chroot"; "socket"; "connect"; "bind"; "kill"; "tkill"; "unlink"; "rename";
   "mkdir"; "chmod"; "chown"; "setuid"; "setgid"; "setns"; "unshare"; "prctl";
   "seccomp"; "bpf"; "init_module"; "reboot"].

Lemma forbidden_not_allowed name args :
  In name forbidden_calls -> run_allows name args = false.
Proof.
  intros H. assert (forallb (fun n => negb (run_allows n args)) forbidden_calls = true)
    as Hall by reflexivity.
  pose proof (forallb_In _ _ _ Hall H) as Hf. by apply negb_true_iff in Hf.
Qed.

End Decisions.

Lemma compile_filter_decides_witness : exists t', run happy LoadCompileSeccompRules [] = (OVal tt, t') /\
  ((OVal tt = OVal tt /\ exists f, loaded t' = Some f /\ forall name args,
     decision f name args = (if str_mem name compile_denied then SCMP_ACT_KILL else SCMP_ACT_ALLOW) /\
     (run_allows name args = true -> decision f name args = SCMP_ACT_ALLOW)) \/
   @OVal unit tt = OHalt (HExit ERR_SANDBOX_EXCEPTION)).
Proof.
  eexists. split; [vm_compute; reflexivity|]. eapply (compile_filter_decides happy [] (OVal tt)). vm_compute. reflexivity.
Defined.

(** A run-phase loader that returns has, whatever libseccomp answered on the
    way, put in force exactly the allow-list filter; the only other way out is
    the exit with [ERR_SANDBOX_EXCEPTION]. *)
Theorem LoadSeccompRules_installs k exe_path t o t' :
  run k (LoadSeccompRules exe_path) t = (o, t') ->
  (o = OVal tt /\ loaded t' = Some run_filter) \/
  o = OHalt (HExit ERR_SANDBOX_EXCEPTION).
Proof.
  intros Hr. eapply run_any in Hr; [|apply wp_load_filter].
  destruct o as [[]|h]; [by left|]. right. by subst.
Qed.

Lemma LoadSeccompRules_installs_witness :
  exists t', run happy (LoadSeccompRules "/main") [] = (OVal tt, t') /\
    ((OVal tt = OVal tt /\ loaded t' = Some run_filter) \/
     @OVal unit tt = OHalt (HExit ERR_SANDBOX_EXCEPTION)).
Proof.
  eexists. split; [vm_compute; reflexivity|].
  eapply (LoadSeccompRules_installs happy "/main" [] (OVal tt)).
  vm_compute. reflexivity.
Defined.
