(* ===== verification/Isolation.v ===== *)
(** * The two child processes: sandbox_isolation.cpp

    [RunChildFn] and [CompileChildFn] run in the cloned child: they redirect the
    standard streams, build a private root file system, drop limits and
    privileges, install the system call filter and [exec] the user's program or
    the compiler.  Every failed step leaves the process at once; the theorems
    at the end show that nothing is executed outside the complete confinement. *)

From S2P Require Import Prelude CInt CStr Internal Sys Sample Seccomp.

(** ** Constants *)

Definition MS_RDONLY : Z := 1.
Definition MS_NOSUID : Z := 2.
Definition MS_NODEV : Z := 4.
Definition MS_NOEXEC : Z := 8.
Definition MS_REMOUNT : Z := 32.
Definition MS_BIND : Z := 4096.
Definition MS_REC : Z := 16384.
Definition MS_PRIVATE : Z := 262144.
Definition MNT_DETACH : Z := 2.
Definition RLIMIT_CPU : Z := 0.
Definition RLIMIT_FSIZE : Z := 1.
Definition RLIMIT_STACK : Z := 3.
Definition RLIMIT_NPROC : Z := 6.
Definition RLIMIT_AS : Z := 9.
Definition RLIM_INFINITY : Z := ULLONG_MAX.
Definition PR_SET_NO_NEW_PRIVS : Z := 38.

(** Octal modes. *)
Definition m0755 : Z := 493.
Definition m0666 : Z := 438.
Definition m0644 : Z := 420.
Definition m0555 : Z := 365.
Definition m01777 : Z := 1023.

Section Isolation.
Context {LC : Libc}.

(** [g_runner_config], inherited across [clone]. *)
Context (g : GlobalConfig).

(** Whether the headers define [__NR_close_range]. *)
Context (have_close_range : bool).

(** ** Diagnostics *)

(** [ptr && *ptr]. *)
Definition nonempty_arg (s : option string) : bool :=
  match s with Some s => negb (str_empty s) | None => false end.

Definition or_dash (s : option string) : string := default "-" s.

(** The line assembled by [ExitSetupError] in its 1536-byte buffer. *)
Definition setup_error_text (code err : Z) (step work_dir : option string) (i : ids) : string :=
  "[sandbox][setup_rootfs] step=" +:+ or_dash step +:+ " code=" +:+ to_string code +:+
  " errno=" +:+ to_string err +:+ "(" +:+ strerror err +:+ ") uid=" +:+
  to_string (id_uid i) +:+ " gid=" +:+ to_string (id_gid i) +:+ " euid=" +:+
  to_string (id_euid i) +:+ " egid=" +:+ to_string (id_egid i) +:+ " work_dir=" +:+
  or_dash work_dir.

Definition append_if (size : Z) (lead : string) (s : option string) (b : sbuf) : sbuf :=
  if nonempty_arg s then sb_append size (lead +:+ default EmptyString s) b else b.

Definition setup_error_buf (text : string) (src target extra : option string) : sbuf :=
  let '(s, n) := snprintf 1536 text in
  append_if 1536 " " extra
    (append_if 1536 " target=" target
      (append_if 1536 " src=" src (SBuf s n))).

(** Terminate the assembled line and write it to stderr: [msg[len++] = '\n';
    write(STDERR_FILENO, msg, len)]. *)
Definition write_line (size : Z) (b : sbuf) : prog unit :=
  let len := sb_clip size b in
  in_bounds len size ;;
  icall_ (Write STDERR_FILENO (str_take (Z.to_nat len) (sb_text b) +:+ newline)) ;;
  Ret tt.

Definition ExitSetupError {A} (code : Z) (err : Z) (step : string) (work_dir : string)
    (src target : option string) : prog A :=
  i <- call GetIds ;;
  write_line 1536
    (setup_error_buf (setup_error_text code err (Some step) (Some work_dir) i) src target None) ;;
  exit_ code.

(** [if (call == -1) ExitSetupError(...)]. *)
Definition or_setup_error (c : icall) (code : Z) (step work_dir : string)
    (src target : option string) : prog unit :=
  r <- icall_ c ;;
  if rv r =? -1 then ExitSetupError code (errno r) step work_dir src target else Ret tt.

(** [if (mkdir(...) == -1 && errno != EEXIST) ...]: the directory may exist. *)
Definition or_exists (c : icall) (fail : Z -> prog unit) : prog unit :=
  r <- icall_ c ;;
  if (rv r =? -1) && negb (errno r =? EEXIST) then fail (errno r) else Ret tt.

(** ** EnsureParentDir *)

(** [tmp[i] == '\0' || tmp[i] == '/']. *)
Definition ends_component (tmp : string) (i : nat) : bool :=
  match String.get i tmp with None => true | Some c => Ascii.eqb c slash end.

(** One turn of the loop over [i]: both arrays have 512 bytes. *)
Definition ensure_step (tmp base : string) (i : nat) : prog unit :=
  in_bounds (Z.of_nat i) 512 ;;
  if ends_component tmp i
  then
    in_bounds (Z.of_nat i) 512 ;;
    let dirbuf := str_take i tmp in
    or_exists (Mkdir dirbuf m0755)
      (fun err => ExitSetupError ERR_MKDIR_FAILED err "mkdir_parent" base None (Some dirbuf))
  else Ret tt.

Definition EnsureParentDir (path base : string) : prog unit :=
  match rsplit (strncpy_z 511 path) with
  | None => Ret tt
  | Some (tmp, _) =>
      let base_len := String.length base in
      if Nat.eqb base_len 0 then Ret tt
      else if negb (String.prefix base tmp) then Ret tt
      else each (ensure_step tmp base)
             (seq (S base_len) (String.length tmp - base_len))
  end.

(** ** SetupRootfs *)

(** One entry of [mount_dirs]. *)
Definition mount_dir (work_dir src : string) : prog unit :=
  a <- icall_ (Access src F_OK) ;;
  if negb (rv a =? 0)
  then ExitSetupError ERR_MOUNT_BIND_LIB (errno a) "mount_dir_not_found" work_dir (Some src) None
  else
  let '(target, n) := snprintf 512 (work_dir +:+ src) in
  if 512 <=? n
  then ExitSetupError ERR_MKDIR_FAILED ENAMETOOLONG "mount_dir_target_too_long"
         work_dir (Some src) (Some target)
  else
  EnsureParentDir target work_dir ;;
  or_exists (Mkdir target m0755)
    (fun err => ExitSetupError ERR_MKDIR_FAILED err "mkdir_mount_dir" work_dir (Some src) (Some target)) ;;
  or_setup_error (Mount (Some src) target None (Z.lor MS_BIND MS_REC) None)
    ERR_MOUNT_BIND_LIB "mount_bind_dir" work_dir (Some src) (Some target) ;;
  or_setup_error
    (Mount (Some src) target None
       (Z.lor (Z.lor (Z.lor MS_BIND MS_REC) MS_RDONLY) MS_REMOUNT) None)
    ERR_REMOUNT_RO "mount_remount_dir_ro" work_dir (Some src) (Some target).

(** One entry of [mount_files]. *)
Definition mount_file (work_dir src : string) : prog unit :=
  a <- icall_ (Access src F_OK) ;;
  if negb (rv a =? 0)
  then ExitSetupError ERR_MOUNT_BIND_LIB (errno a) "mount_file_not_found" work_dir (Some src) None
  else
  let '(target, n) := snprintf 512 (work_dir +:+ src) in
  EnsureParentDir target work_dir ;;
  fd <- icall_ (Open target (Z.lor O_CREAT O_RDWR) m0666) ;;
  (if negb (rv fd =? -1) then icall_ (Close (rv fd)) ;; Ret tt
   else if negb (errno fd =? EEXIST)
   then ExitSetupError ERR_MKDIR_FAILED (errno fd) "touch_mount_file_target" work_dir
          (Some src) (Some target)
   else Ret tt) ;;
  or_setup_error (Mount (Some src) target None MS_BIND None)
    ERR_MOUNT_BIND_LIB "mount_bind_file" work_dir (Some src) (Some target) ;;
  or_setup_error
    (Mount (Some src) target None (Z.lor (Z.lor MS_BIND MS_REMOUNT) MS_RDONLY) None)
    ERR_REMOUNT_RO "mount_remount_file_ro" work_dir (Some src) (Some target).

(** Step 5: pivot into the work directory and detach the old root. *)
Definition pivot_into (work_dir : string) : prog unit :=
  let old_root := fst (snprintf 512 (work_dir +:+ "/old_root")) in
  or_exists (Mkdir old_root m0755)
    (fun err => ExitSetupError ERR_MKDIR_FAILED err "mkdir_old_root" work_dir None (Some old_root)) ;;
  or_setup_error (PivotRoot work_dir old_root)
    ERR_PIVOT_ROOT "pivot_root" work_dir (Some work_dir) (Some old_root) ;;
  or_setup_error (Chdir "/") ERR_CHDIR_NEW_ROOT "chdir_new_root" work_dir (Some "/") (Some "/") ;;
  or_setup_error (Umount2 "/old_root" MNT_DETACH)
    ERR_UMOUNT_OLD "umount_old_root" work_dir (Some "/old_root") None ;;
  icall_ (Rmdir "old_root") ;;
  Ret tt.

Definition SetupRootfs (work_dir : string) : prog unit :=
  or_setup_error (Mount None "/" None (Z.lor MS_PRIVATE MS_REC) None)
    ERR_MOUNT_PRIVATE "mount_private_root" work_dir (Some "/") (Some "/") ;;
  or_setup_error (Mount (Some work_dir) work_dir None (Z.lor MS_BIND MS_REC) None)
    ERR_MOUNT_BIND_SELF "mount_bind_self" work_dir (Some work_dir) (Some work_dir) ;;
  each (mount_dir work_dir) (mount_dirs g) ;;
  each (mount_file work_dir) (mount_files g) ;;
  pivot_into work_dir.

(** ** ExitRunExecError *)

Definition run_exec_text (err : Z) (exe_path : string) : string :=
  "[sandbox][run_exec_failed] errno=" +:+ to_string err +:+ "(" +:+ strerror err +:+
  ") exe=" +:+ exe_path.

Definition ExitRunExecError {A} (err : Z) (exe_path : string) : prog A :=
  let '(s, n) := snprintf 1024 (run_exec_text err exe_path) in
  write_line 1024 (SBuf s n) ;;
  exit_ ERR_EXEC_FAILED.

(** ** RunChildFn *)

(** Close every descriptor above 2. *)
Definition close_fds : prog unit :=
  ok <- (if have_close_range
         then r <- icall_ (CloseRange 3) ;; Ret (rv r =? 0)
         else Ret false) ;;
  if ok : bool then Ret tt
  else
    m <- icall_ SysconfOpenMax ;;
    let max_fd := to_i32 (rv m) in
    let max_fd := if max_fd <? 0 then 4096 else max_fd in
    let max_fd := if 65536 <? max_fd then 65536 else max_fd in
    each (fun fd => icall_ (Close (Z.of_nat fd)) ;; Ret tt)
      (seq 3 (Z.to_nat max_fd - 3)).

Definition redirect_io (args : RunChildArgs) : prog unit :=
  or_exit (Dup2 (rc_input_fd args) STDIN_FILENO) 101 ;;
  or_exit (Dup2 (rc_output_fd args) STDOUT_FILENO) 102 ;;
  or_exit (Dup2 (rc_error_fd args) STDERR_FILENO) 103.

Definition tmpfs_opts (mb : Z) : string :=
  fst (snprintf 64 ("size=" +:+ to_string mb +:+ "m,mode=1777")).

(** Step 4.1 and 4.2: lock the root, mount /tmp and /proc. *)
Definition run_mounts : prog unit :=
  or_exists (Mkdir "/tmp" m01777) (fun _ => exit_ ERR_MOUNT_TMP) ;;
  or_exists (Mkdir "/proc" m0755) (fun _ => exit_ ERR_MOUNT_PROC) ;;
  or_exit (Chmod "/" m0555) ERR_CHDIR_FAILED ;;
  or_exit (Mount None "/" None (Z.lor (Z.lor MS_REMOUNT MS_BIND) MS_RDONLY) None) ERR_REMOUNT_RO ;;
  let run_tmpfs_mb := if 0 <? run_tmpfs_size_mb g then run_tmpfs_size_mb g else 64 in
  or_exit (Mount (Some "tmpfs") "/tmp" (Some "tmpfs") 0 (Some (tmpfs_opts run_tmpfs_mb))) ERR_MOUNT_TMP ;;
  or_exit (Mount (Some "proc") "/proc" (Some "proc") 0 None) ERR_MOUNT_PROC ;;
  or_exit (Mount (Some "proc") "/proc" (Some "proc")
             (Z.lor (Z.lor (Z.lor (Z.lor MS_REMOUNT MS_RDONLY) MS_NOSUID) MS_NOEXEC) MS_NODEV) None)
    ERR_MOUNT_PROC.

(** [rlim_t cpu_soft = (args->time_limit_ms + 999) / 1000;] then at least 1. *)
Definition cpu_soft (time_limit_ms : Z) : option Z :=
  match chk_i32 (time_limit_ms + 999) with
  | Some v =>
      let s := to_u64 (Z.quot v 1000) in
      Some (if s <? 1 then 1 else s)
  | None => None
  end.

Definition mem_bytes (memory_limit_kb : Z) : Z :=
  if 0 <? memory_limit_kb then to_u64 (to_u64 memory_limit_kb * 1024)
  else to_u64 (compile_mem_limit g).

Definition nproc_cap : Z :=
  let cap := if 0 <? cgroup_pids_limit g then to_u64 (cgroup_pids_limit g) else 20 in
  if cap <? 10 then 10 else cap.

Definition run_limits (args : RunChildArgs) : prog unit :=
  soft <- defined (cpu_soft (rc_time_limit_ms args)) ;;
  or_exit (Setrlimit RLIMIT_CPU soft (to_u64 (soft + 1))) ERR_RLIMIT_CPU ;;
  let mem := mem_bytes (rc_memory_limit_kb args) in
  or_exit (Setrlimit RLIMIT_AS mem mem) ERR_RLIMIT_MEMORY ;;
  or_exit (Setrlimit RLIMIT_STACK RLIM_INFINITY RLIM_INFINITY) ERR_RLIMIT_STACK ;;
  or_exit (Setrlimit RLIMIT_NPROC nproc_cap nproc_cap) ERR_RLIMIT_NPROC ;;
  or_exit (Setrlimit RLIMIT_FSIZE (rc_output_limit_bytes args) (rc_output_limit_bytes args))
    ERR_RLIMIT_FSIZE.

(** Step 5: supplementary groups, directory, group, user. *)
Definition drop_privileges : prog unit :=
  zero_or_exit (Setgroups 0) ERR_SETGID_FAILED ;;
  zero_or_exit (Chdir "/") ERR_CHDIR_FAILED ;;
  zero_or_exit (Setgid (run_gid g)) ERR_SETGID_FAILED ;;
  zero_or_exit (Setuid (run_uid g)) ERR_SETUID_FAILED.

(** What follows the last slash, or everything. *)
Definition file_name (path : string) : string :=
  match rsplit path with Some (_, f) => f | None => path end.

(** The path of a file of the work directory in the new root. *)
Definition in_new_root (path : string) : string :=
  fst (snprintf 512 (String slash (file_name path))).

(** Steps 1 to 7 up to [prctl]; the result is the path to execute. *)
Definition run_confine (args : RunChildArgs) : prog string :=
  redirect_io args ;;
  close_fds ;;
  match rsplit (strncpy_z 255 (rc_exe_path args)) with
  | None => exit_ ERR_CHDIR_FAILED
  | Some (work_dir, _) =>
      SetupRootfs work_dir ;;
      run_mounts ;;
      run_limits args ;;
      drop_privileges ;;
      zero_or_exit (Prctl PR_SET_NO_NEW_PRIVS 1) ERR_SANDBOX_EXCEPTION ;;
      Ret (in_new_root (rc_exe_path args))
  end.

Definition run_envp : option (list string) := Some ["PATH=/bin:/usr/bin"].

(** The filter, then [execle]. *)
Definition run_exec (new_exe : string) : prog Z :=
  seccomp <- ShouldEnableRunSeccomp ;;
  (if seccomp : bool then LoadSeccompRules new_exe else Ret tt) ;;
  r <- call (Exec new_exe [new_exe] run_envp) ;;
  match r with
  | None => Halt (HExec new_exe [new_exe] run_envp)
  | Some err => ExitRunExecError err new_exe
  end.

Definition RunChildFn (args : RunChildArgs) : prog Z :=
  new_exe <- run_confine args ;;
  run_exec new_exe.

(** ** CompileChildFn *)

(** Step 3: bind the compile log to stderr before anything can fail. *)
Definition open_compile_log (log_path : string) : prog unit :=
  fd <- icall_ (Open log_path (Z.lor (Z.lor (Z.lor O_WRONLY O_CREAT) O_TRUNC) O_CLOEXEC) m0644) ;;
  if rv fd =? -1 then exit_ ERR_OPEN_OUTPUT
  else
    d <- icall_ (Dup2 (rv fd) STDERR_FILENO) ;;
    if rv d =? -1 then icall_ (Close (rv fd)) ;; exit_ ERR_DUP2
    else icall_ (Close (rv fd)) ;; Ret tt.

Definition compile_mounts : prog unit :=
  or_exists (Mkdir "/tmp" m01777) (fun _ => exit_ ERR_MKDIR_FAILED) ;;
  let mb := if 0 <? compile_tmpfs_size_mb g then compile_tmpfs_size_mb g else 128 in
  or_exit (Mount (Some "tmpfs") "/tmp" (Some "tmpfs") 0 (Some (tmpfs_opts mb))) ERR_MOUNT_TMP.

Definition log_limit : Z :=
  if 0 <? compile_log_max_bytes g then compile_log_max_bytes g else 16 * 1024 * 1024.

Definition compile_limits : prog unit :=
  or_exit (Setrlimit RLIMIT_CPU (to_u64 (compile_cpu_limit g)) (to_u64 (compile_real_limit g)))
    ERR_RLIMIT_CPU ;;
  or_exit (Setrlimit RLIMIT_AS (to_u64 (compile_mem_limit g)) (to_u64 (compile_mem_limit g)))
    ERR_RLIMIT_MEMORY ;;
  or_exit (Setrlimit RLIMIT_FSIZE (to_u64 log_limit) (to_u64 log_limit)) ERR_RLIMIT_FSIZE.

Definition compile_drop_privileges : prog unit :=
  zero_or_exit (Setgroups 0) ERR_SETGID_FAILED ;;
  zero_or_exit (Setgid (run_gid g)) ERR_SETGID_FAILED ;;
  zero_or_exit (Setuid (run_uid g)) ERR_SETUID_FAILED ;;
  zero_or_exit (Prctl PR_SET_NO_NEW_PRIVS 1) ERR_SANDBOX_EXCEPTION.

Definition compiler_argv (args : CompileArgs) : list string :=
  let max_errors := if 0 <? compile_max_errors g then compile_max_errors g else 10 in
  [compiler_path g; "-std=c++20"; "-O2"; "-pipe";
   fst (snprintf 32 ("-fmax-errors=" +:+ to_string max_errors));
   in_new_root (ca_source_path args); "-o"; in_new_root (ca_exe_path args)].

Definition compile_prepare (args : CompileArgs) : prog unit :=
  close_fds ;;
  let work_dir := strncpy_z 255 (ca_source_path args) in
  let work_dir := match rsplit work_dir with Some (d, _) => d | None => work_dir end in
  open_compile_log (ca_log_path args) ;;
  SetupRootfs work_dir ;;
  compile_mounts ;;
  compile_limits ;;
  compile_drop_privileges ;;
  LoadCompileSeccompRules.

Definition CompileChildFn (args : CompileArgs) : prog Z :=
  compile_prepare args ;;
  r <- call (Exec (compiler_path g) (compiler_argv args) None) ;;
  match r with
  | None => Halt (HExec (compiler_path g) (compiler_argv args) None)
  | Some _ => exit_ ERR_EXEC_FAILED
  end.

End Isolation.

(** ** The confinement steps *)

(** The calls that confine a child: descriptors, mounts, root, limits,
    credentials. *)
Definition confining (c : icall) : bool :=
  match c with
  | Dup2 _ _ | Mount _ _ _ _ _ | Umount2 _ _ | PivotRoot _ _ | Chdir _ | Chmod _ _
  | Setrlimit _ _ _ | Setgroups _ | Setgid _ | Setuid _ | Prctl _ _ => true
  | _ => false
  end.

(** The confinement steps of [SetupRootfs], in order. *)
Definition mount_target (work_dir src : string) : string := fst (snprintf 512 (work_dir +:+ src)).

Definition dir_steps (work_dir src : string) : list icall :=
  [Mount (Some src) (mount_target work_dir src) None (Z.lor MS_BIND MS_REC) None;
   Mount (Some src) (mount_target work_dir src) None
     (Z.lor (Z.lor (Z.lor MS_BIND MS_REC) MS_RDONLY) MS_REMOUNT) None].

Definition file_steps (work_dir src : string) : list icall :=
  [Mount (Some src) (mount_target work_dir src) None MS_BIND None;
   Mount (Some src) (mount_target work_dir src) None
     (Z.lor (Z.lor MS_BIND MS_REMOUNT) MS_RDONLY) None].

Definition rootfs_steps (g : GlobalConfig) (work_dir : string) : list icall :=
  [Mount None "/" None (Z.lor MS_PRIVATE MS_REC) None;
   Mount (Some work_dir) work_dir None (Z.lor MS_BIND MS_REC) None] ++
  concat (map (dir_steps work_dir) (mount_dirs g)) ++
  concat (map (file_steps work_dir) (mount_files g)) ++
  [PivotRoot work_dir (mount_target work_dir "/old_root");
   Chdir "/";
   Umount2 "/old_root" MNT_DETACH].

Definition redirect_steps (args : RunChildArgs) : list icall :=
  [Dup2 (rc_input_fd args) 0; Dup2 (rc_output_fd args) 1; Dup2 (rc_error_fd args) 2].

Definition run_mount_steps (g : GlobalConfig) : list icall :=
  [Chmod "/" m0555;
   Mount None "/" None (Z.lor (Z.lor MS_REMOUNT MS_BIND) MS_RDONLY) None;
   Mount (Some "tmpfs") "/tmp" (Some "tmpfs") 0
     (Some (tmpfs_opts (if 0 <? run_tmpfs_size_mb g then run_tmpfs_size_mb g else 64)));
   Mount (Some "proc") "/proc" (Some "proc") 0 None;
   Mount (Some "proc") "/proc" (Some "proc")
     (Z.lor (Z.lor (Z.lor (Z.lor MS_REMOUNT MS_RDONLY) MS_NOSUID) MS_NOEXEC) MS_NODEV) None].

Definition run_limit_steps (g : GlobalConfig) (args : RunChildArgs) (soft : Z) : list icall :=
  [Setrlimit RLIMIT_CPU soft (to_u64 (soft + 1));
   Setrlimit RLIMIT_AS (mem_bytes g (rc_memory_limit_kb args)) (mem_bytes g (rc_memory_limit_kb args));
   Setrlimit RLIMIT_STACK RLIM_INFINITY RLIM_INFINITY;
   Setrlimit RLIMIT_NPROC (nproc_cap g) (nproc_cap g);
   Setrlimit RLIMIT_FSIZE (rc_output_limit_bytes args) (rc_output_limit_bytes args)].

Definition privilege_steps (g : GlobalConfig) : list icall :=
  [Setgroups 0; Chdir "/"; Setgid (run_gid g); Setuid (run_uid g)].

(** Everything that confines the user's program. *)
Definition run_steps (g : GlobalConfig) (args : RunChildArgs) (work_dir : string) (soft : Z)
    : list icall :=
  redirect_steps args ++ rootfs_steps g work_dir ++ run_mount_steps g ++
  run_limit_steps g args soft ++ privilege_steps g ++ [Prctl PR_SET_NO_NEW_PRIVS 1].

(** Everything that confines the compiler. *)
Definition compile_steps (g : GlobalConfig) (work_dir : string) : list icall :=
  rootfs_steps g work_dir ++
  [Mount (Some "tmpfs") "/tmp" (Some "tmpfs") 0
     (Some (tmpfs_opts (if 0 <? compile_tmpfs_size_mb g then compile_tmpfs_size_mb g else 128)));
   Setrlimit RLIMIT_CPU (to_u64 (compile_cpu_limit g)) (to_u64 (compile_real_limit g));
   Setrlimit RLIMIT_AS (to_u64 (compile_mem_limit g)) (to_u64 (compile_mem_limit g));
   Setrlimit RLIMIT_FSIZE (to_u64 (log_limit g)) (to_u64 (log_limit g));
   Setgroups 0; Setgid (run_gid g); Setuid (run_uid g); Prctl PR_SET_NO_NEW_PRIVS 1].

(** The exit codes of a failed set-up. *)
Definition setup_codes : list SandboxExitCode :=
  [ERR_OPEN_OUTPUT; ERR_DUP2; ERR_CHDIR_FAILED; ERR_SETGID_FAILED; ERR_SETUID_FAILED;
   ERR_RLIMIT_CPU; ERR_RLIMIT_MEMORY; ERR_RLIMIT_STACK; ERR_RLIMIT_NPROC; ERR_RLIMIT_FSIZE;
   ERR_MOUNT_PRIVATE; ERR_MOUNT_BIND_SELF; ERR_MOUNT_BIND_LIB; ERR_REMOUNT_RO; ERR_PIVOT_ROOT;
   ERR_CHDIR_NEW_ROOT; ERR_UMOUNT_OLD; ERR_MOUNT_PROC; ERR_MKDIR_FAILED; ERR_SANDBOX_EXCEPTION;
   ERR_MOUNT_TMP].

(** The codes of the three bare [_exit]s after the stream redirections. *)
Definition redirect_codes : list Z := [101; 102; 103].

Definition setup_halt (h : halt) : Prop := exists c, h = HExit (code_val c) /\ In c setup_codes.

Lemma setup_halt_intro c : In c setup_codes -> setup_halt (HExit (code_val c)).
Proof. intros H. by exists c. Qed.

Ltac solve_setup := apply setup_halt_intro; cbn; tauto.

(** ** Bounds of the character arrays *)

Section Proofs.
Context {LC : Libc}.
Implicit Types (h : halt).

Lemma setup_error_buf_holds text src target extra :
  exists full, sb_holds 1536 full (setup_error_buf text src target extra).
Proof.
  assert (Hif : forall lead s full b, sb_holds 1536 full b ->
    exists full', sb_holds 1536 full' (append_if 1536 lead s b)).
  { intros lead s full b Hb. unfold append_if. case_goal; [|by exists full].
    destruct (sb_append_text _ _ (lead +:+ default "" s) _ Hb) as (f' & Hf' & _).
    by exists f'. }
  assert (H0 : sb_holds 1536 text
                 (SBuf (fst (snprintf 1536 text)) (snd (snprintf 1536 text)))) by done.
  unfold setup_error_buf.
  destruct (Hif " src=" src _ _ H0) as [f1 H1].
  destruct (Hif " target=" target _ _ H1) as [f2 H2].
  exact (Hif " " extra _ _ H2).
Qed.

(** The assembled line is written whole, inside the array. *)
Lemma wp_write_line size full b (Q : outcome unit -> trace -> Prop) t :
  sb_holds size full b ->
  (forall r, Q (OVal tt)
     (Ev (SI (Write STDERR_FILENO (str_take (Z.to_nat (size - 1)) full +:+ newline))) r :: t)) ->
  wp any_env (write_line size b) Q t.
Proof.
  intros Hb HQ. unfold write_line. destruct (sb_clip_range _ _ _ Hb) as [Hc Hr].
  unfold in_bounds. rewrite (proj2 (Z.leb_le _ _)), (proj2 (Z.ltb_lt _ _)) by lia.
  cbn. intros r _. destruct Hb as (Ht & _ & _). rewrite Hc, Ht.
  unfold slen. rewrite Nat2Z.id, str_take_all by lia. apply HQ.
Qed.

Lemma logs_write_line size full b E :
  sb_holds size full b -> logs confining (write_line size b) [] (fun _ => True) E.
Proof.
  intros Hb t. eapply wp_write_line; [done|]. intros r. split; [done|].
  by rewrite ok_log_cons.
Qed.

Lemma halts_ExitSetupError {A} code err step wd src target (E : halt -> Prop) :
  E (HExit code) -> halts confining (@ExitSetupError _ A code err step wd src target) E.
Proof.
  intros He. unfold ExitSetupError.
  eapply halts_bind; [by apply (logs_silent confining GetIds)|]. intros i _.
  eapply halts_bind; [|intros _ _; by apply halts_halt].
  destruct (setup_error_buf_holds
    (setup_error_text code err (Some step) (Some wd) i) src target None) as [full Hb].
  by eapply logs_write_line.
Qed.

Lemma logs_or_setup_error c code step wd src target (E : halt -> Prop) :
  confining c = true -> E (HExit code) ->
  logs confining (or_setup_error c code step wd src target) [c] (fun _ => True) E.
Proof.
  intros Hs He t. cbn -[ExitSetupError]. intros r _.
  destruct (rv r =? -1) eqn:Er.
  - pose proof (@halts_ExitSetupError unit code (errno r) step wd src target E He) as Hh.
    specialize (Hh [] (Ev (SI c) r :: t)). eapply wp_mono; [|exact Hh].
    intros [a|h] t'; [intros []; done|done].
  - cbn. split; [done|]. rewrite ok_log_cons. cbn. by rewrite Hs, Er.
Qed.

Lemma logs_or_exists c fail E :
  confining c = false -> (forall err, halts confining (fail err) E) ->
  logs confining (or_exists c fail) [] (fun _ => True) E.
Proof.
  intros Hc Hf. unfold or_exists.
  eapply logs_bind_nil; [by apply logs_icall_silent|]. intros r _.
  case_goal; [apply logs_halts, Hf|by apply logs_ret].
Qed.

Lemma logs_EnsureParentDir path base (E : halt -> Prop) :
  E (HExit ERR_MKDIR_FAILED) ->
  logs confining (EnsureParentDir path base) [] (fun _ => True) E.
Proof.
  intros HE. unfold EnsureParentDir.
  destruct (rsplit _) as [[tmp q]|] eqn:Hs; [|by apply logs_ret].
  case_goal; [by apply logs_ret|]. case_goal; [by apply logs_ret|].
  apply rsplit_spec in Hs as [Hs _].
  pose proof (strncpy_z_length 511 path) as Hlen. rewrite Hs, str_length_app in Hlen.
  apply logs_each_silent. intros i [Hi1 Hi2]%in_seq. unfold ensure_step.
  eapply logs_bind_nil; [apply logs_in_bounds; lia|]. intros _ _.
  case_goal; [|by apply logs_ret].
  eapply logs_bind_nil; [apply logs_in_bounds; lia|]. intros _ _.
  apply logs_or_exists; [done|]. intros err. by apply halts_ExitSetupError.
Qed.

(** ** SetupRootfs *)

Lemma logs_mount_dir wd src :
  logs confining (mount_dir wd src) (dir_steps wd src) (fun _ => True) setup_halt.
Proof.
  unfold mount_dir. eapply logs_bind_nil; [by apply logs_icall_silent|]. intros a _.
  case_goal; [apply logs_halts, halts_ExitSetupError; solve_setup|].
  cbn [snprintf]. case_goal; [apply logs_halts, halts_ExitSetupError; solve_setup|].
  eapply logs_bind_nil; [apply logs_EnsureParentDir; solve_setup|]. intros _ _.
  eapply logs_bind_nil.
  { apply logs_or_exists; [done|]. intros. apply halts_ExitSetupError. solve_setup. }
  intros _ _. unfold dir_steps. eapply (logs_bind _ _ _ [_]).
  { apply logs_or_setup_error; [done|solve_setup]. }
  intros _ _. apply logs_or_setup_error; [done|solve_setup].
Qed.

Lemma logs_mount_file wd src :
  logs confining (mount_file wd src) (file_steps wd src) (fun _ => True) setup_halt.
Proof.
  unfold mount_file. eapply logs_bind_nil; [by apply logs_icall_silent|]. intros a _.
  case_goal; [apply logs_halts, halts_ExitSetupError; solve_setup|].
  cbn [snprintf].
  eapply logs_bind_nil; [apply logs_EnsureParentDir; solve_setup|]. intros _ _.
  eapply logs_bind_nil; [by apply logs_icall_silent|]. intros fd _.
  eapply (logs_bind_nil _ _ _ _ (fun _ => True)).
  { case_goal.
    - eapply logs_bind_nil; [by apply logs_icall_silent|]. intros _ _. by apply logs_ret.
    - case_goal; [apply logs_halts, halts_ExitSetupError; solve_setup|by apply logs_ret]. }
  intros _ _. unfold file_steps. eapply (logs_bind _ _ _ [_]).
  { apply logs_or_setup_error; [done|solve_setup]. }
  intros _ _. apply logs_or_setup_error; [done|solve_setup].
Qed.

Lemma logs_pivot_into wd :
  logs confining (pivot_into wd)
    [PivotRoot wd (mount_target wd "/old_root"); Chdir "/"; Umount2 "/old_root" MNT_DETACH]
    (fun _ => True) setup_halt.
Proof.
  unfold pivot_into. eapply logs_bind_nil.
  { apply logs_or_exists; [done|]. intros. apply halts_ExitSetupError. solve_setup. }
  intros _ _. do 3 (eapply (logs_bind _ _ _ [_]);
    [apply logs_or_setup_error; [done|solve_setup]|intros _ _]).
  eapply (logs_bind_nil _ _ _ []); [by apply logs_icall_silent|]. intros _ _. by apply logs_ret.
Qed.

Lemma logs_SetupRootfs g wd :
  logs confining (SetupRootfs g wd) (rootfs_steps g wd) (fun _ => True) setup_halt.
Proof.
  unfold SetupRootfs, rootfs_steps. cbn [app].
  do 2 (eapply (logs_bind _ _ _ [_]);
    [apply logs_or_setup_error; [done|solve_setup]|intros _ _]).
  eapply logs_bind; [apply logs_each; intros; apply logs_mount_dir|]. intros _ _.
  eapply logs_bind; [apply logs_each; intros; apply logs_mount_file|]. intros _ _.
  apply logs_pivot_into.
Qed.

End Proofs.

(** ** The run child *)

(** The history read JUDGE_RUN_SECCOMP_MODE as "off". *)
Definition seccomp_off (t : trace) : bool :=
  existsb (fun e => match e with
                    | Ev (Getenv n) r =>
                        bool_decide (n = "JUDGE_RUN_SECCOMP_MODE") && bool_decide (r = Some "off")
                    | _ => false
                    end) t.

(** What the parent finds on stderr when [execle] failed. *)
Definition run_exec_line {LC : Libc} (err : Z) (exe : string) : string :=
  str_take 1023 (run_exec_text err exe) +:+ newline.

Definition last_write (t : trace) (data : string) : Prop :=
  exists r t0, t = Ev (SI (Write STDERR_FILENO data)) r :: t0.

Section RunChild.
Context {LC : Libc} (g : GlobalConfig) (have_close_range : bool) (args : RunChildArgs).

Definition run_confine_halt (h : halt) : Prop :=
  setup_halt h \/ (exists c, h = HExit c /\ In c redirect_codes) \/
  (h = HUB /\ cpu_soft (rc_time_limit_ms args) = None).

Lemma run_confine_setup h : setup_halt h -> run_confine_halt h.
Proof. by left. Qed.

Lemma logs_redirect_io :
  logs confining (redirect_io args) (redirect_steps args) (fun _ => True) run_confine_halt.
Proof.
  unfold redirect_io, redirect_steps.
  eapply (logs_bind _ _ _ [_]);
    [apply logs_or_exit; [done|right; left; exists 101; cbn; auto]|intros _ _].
  eapply (logs_bind _ _ _ [_]);
    [apply logs_or_exit; [done|right; left; exists 102; cbn; auto]|intros _ _].
  apply logs_or_exit; [done|right; left; exists 103; cbn; auto].
Qed.

Lemma logs_close_fds E :
  logs confining (close_fds have_close_range) [] (fun _ => True) E.
Proof.
  unfold close_fds. eapply (logs_bind_nil _ _ _ _ (fun _ => True)).
  { case_goal; [|by apply logs_ret].
    eapply logs_bind_nil; [by apply logs_icall_silent|]. intros r _. by apply logs_ret. }
  intros ok _. case_goal; [by apply logs_ret|].
  eapply logs_bind_nil; [by apply logs_icall_silent|]. intros m _.
  apply logs_each_silent. intros fd _.
  eapply logs_bind_nil; [by apply logs_icall_silent|]. intros _ _. by apply logs_ret.
Qed.

Lemma logs_mkdir path mode code (E : halt -> Prop) :
  E (HExit code) ->
  logs confining (or_exists (Mkdir path mode) (fun _ => exit_ code)) [] (fun _ => True) E.
Proof. intros. apply logs_or_exists; [done|]. intros _. by apply halts_halt. Qed.

Ltac one_step :=
  eapply (logs_bind _ _ _ [_]);
  [first [apply logs_or_exit | apply logs_zero_or_exit]; [done|solve_setup]|intros _ _].

Ltac last_step :=
  first [apply logs_or_exit | apply logs_zero_or_exit]; [done|solve_setup].

Lemma logs_run_mounts :
  logs confining (run_mounts g) (run_mount_steps g) (fun _ => True) setup_halt.
Proof.
  unfold run_mounts, run_mount_steps.
  eapply logs_bind_nil; [apply logs_mkdir; solve_setup|]. intros _ _.
  eapply logs_bind_nil; [apply logs_mkdir; solve_setup|]. intros _ _.
  do 4 one_step. last_step.
Qed.

Lemma logs_run_limits soft :
  cpu_soft (rc_time_limit_ms args) = Some soft ->
  logs confining (run_limits g args) (run_limit_steps g args soft) (fun _ => True) setup_halt.
Proof.
  intros Hs. unfold run_limits, run_limit_steps. rewrite Hs. cbn [defined bind].
  do 4 one_step. last_step.
Qed.

Lemma logs_drop_privileges :
  logs confining (drop_privileges g) (privilege_steps g) (fun _ => True) setup_halt.
Proof. unfold drop_privileges, privilege_steps. do 3 one_step. last_step. Qed.

Lemma logs_run_confine wd name soft :
  rsplit (strncpy_z 255 (rc_exe_path args)) = Some (wd, name) ->
  cpu_soft (rc_time_limit_ms args) = Some soft ->
  logs confining (run_confine g have_close_range args) (run_steps g args wd soft)
    (fun p => p = in_new_root (rc_exe_path args)) run_confine_halt.
Proof.
  intros Hwd Hs. unfold run_confine, run_steps.
  eapply logs_bind; [apply logs_redirect_io|]. intros _ _.
  eapply logs_bind_nil; [apply logs_close_fds|]. intros _ _. rewrite Hwd.
  eapply logs_mono; [by intros|by apply run_confine_setup|].
  eapply logs_bind; [apply logs_SetupRootfs|]. intros _ _.
  eapply logs_bind; [apply logs_run_mounts|]. intros _ _.
  eapply logs_bind; [by apply logs_run_limits|]. intros _ _.
  eapply logs_bind; [apply logs_drop_privileges|]. intros _ _.
  eapply (logs_bind _ _ _ [_] []); [last_step|]. intros _ _. by apply logs_ret.
Qed.

(** Without a directory in the path, or with an overflowing time limit,
    nothing is ever executed. *)
Lemma halts_run_confine :
  rsplit (strncpy_z 255 (rc_exe_path args)) = None \/
  cpu_soft (rc_time_limit_ms args) = None ->
  halts confining (run_confine g have_close_range args) run_confine_halt.
Proof.
  intros Hn. unfold run_confine.
  eapply halts_bind; [apply logs_redirect_io|]. intros _ _.
  eapply halts_bind; [apply logs_close_fds|]. intros _ _.
  destruct (rsplit _) as [[wd name]|]; [|apply halts_halt; left; solve_setup].
  destruct Hn as [|Hs]; [done|].
  eapply halts_bind; [eapply logs_mono; [by intros|apply run_confine_setup|apply logs_SetupRootfs]|].
  intros _ _.
  eapply halts_bind; [eapply logs_mono; [by intros|apply run_confine_setup|apply logs_run_mounts]|].
  intros _ _. unfold run_limits. rewrite Hs. cbn [defined bind].
  apply halts_halt. by right; right.
Qed.

Lemma logs_load_filter def rules :
  logs confining (load_filter def rules) [] (fun _ => True) setup_halt.
Proof.
  unfold load_filter. eapply logs_bind_nil; [by apply logs_silent|]. intros ctx _.
  case_goal; [apply logs_halts, halts_halt; solve_setup|].
  eapply logs_bind_nil.
  { apply logs_each_silent. intros r _. unfold add_rule.
    eapply logs_bind_nil; [by apply logs_silent|]. intros rc _.
    case_goal; [by apply logs_ret|]. apply logs_halts.
    eapply halts_bind; [by apply (logs_silent _ SeccompRelease)|]. intros _ _.
    apply halts_halt. solve_setup. }
  intros _ _. eapply logs_bind_nil; [by apply logs_silent|]. intros rc _.
  case_goal; [by apply logs_silent|]. apply logs_halts.
  eapply halts_bind; [by apply (logs_silent _ SeccompRelease)|]. intros _ _.
  apply halts_halt. solve_setup.
Qed.

(** The outcomes of the run child, from a history [t0]. *)
Definition run_exec_post (exe : string) (steps : list icall) (o : outcome Z) (t : trace) : Prop :=
  match o with
  | OHalt (HExec path argv envp) =>
      path = exe /\ argv = [exe] /\ envp = run_envp /\ ok_log confining t = steps /\
      (loaded t = Some run_filter \/ seccomp_off t = true)
  | OHalt (HExit c) =>
      setup_halt (HExit c) \/
      (c = code_val ERR_EXEC_FAILED /\ exists err, last_write t (run_exec_line err exe))
  | _ => False
  end.

Lemma wp_exec exe t :
  (loaded t = Some run_filter \/ seccomp_off t = true) ->
  wp any_env (r <- call (Exec exe [exe] run_envp) ;;
              match r with
              | None => Halt (HExec exe [exe] run_envp)
              | Some err => @ExitRunExecError _ Z err exe
              end) (run_exec_post exe (ok_log confining t)) t.
Proof.
  intros Hl. cbn -[ExitRunExecError]. intros [err|] _.
  - unfold ExitRunExecError. cbn [snprintf].
    apply wp_bind. eapply (wp_write_line 1024 (run_exec_text err exe)); [done|].
    intros r. right. split; [done|]. exists err. by eexists r, _.
  - refine (conj eq_refl (conj eq_refl (conj eq_refl (conj _ Hl)))).
    rewrite ok_log_cons. apply app_nil_r.
Qed.

Lemma wp_run_exec exe t :
  wp any_env (run_exec exe) (run_exec_post exe (ok_log confining t)) t.
Proof.
  unfold run_exec, ShouldEnableRunSeccomp. cbn -[wp LoadSeccompRules ExitRunExecError].
  cbn [wp]. intros mode _.
  set (e := Ev (Getenv _) mode).
  assert (Hlog : ok_log confining (e :: t) = ok_log confining t)
    by (rewrite ok_log_cons; apply app_nil_r).
  rewrite <- Hlog. destruct mode as [m|].
  1: destruct (str_empty m); [|destruct (bool_decide_reflect (m = "off")) as [->|]].
  2: { cbn [negb bind]. apply wp_exec. by right. }
  all: cbn [negb]; apply wp_bind;
    (eapply wp_mono; [|apply wp_and; [apply wp_load_filter|apply logs_load_filter]]);
    intros [[]|h] t'; cbn beta iota; intros [H1 H2];
    [destruct H2 as [_ H2]; rewrite app_nil_r in H2; rewrite <- H2; apply wp_exec; by left
    |subst h; left; solve_setup].
Qed.

(** The outcomes of the whole child. *)
Definition run_child_post (o : outcome Z) (t : trace) : Prop :=
  match o with
  | OHalt (HExec path argv envp) =>
      exists wd name soft,
        rsplit (strncpy_z 255 (rc_exe_path args)) = Some (wd, name) /\
        cpu_soft (rc_time_limit_ms args) = Some soft /\
        path = in_new_root (rc_exe_path args) /\ argv = [path] /\ envp = run_envp /\
        ok_log confining t = run_steps g args wd soft /\
        (loaded t = Some run_filter \/ seccomp_off t = true)
  | OHalt (HExit c) =>
      In c redirect_codes \/ setup_halt (HExit c) \/
      (c = code_val ERR_EXEC_FAILED /\
       exists err, last_write t (run_exec_line err (in_new_root (rc_exe_path args))))
  | OHalt HUB => cpu_soft (rc_time_limit_ms args) = None
  | _ => False
  end.

Lemma run_confine_post h t : run_confine_halt h -> run_child_post (OHalt h) t.
Proof.
  intros [H|[(c & -> & H)|[-> H]]]; cbn; auto.
  destruct H as (c & -> & H). cbn. right. left. by exists c.
Qed.

Lemma wp_RunChildFn : wp any_env (RunChildFn g have_close_range args) run_child_post [].
Proof.
  unfold RunChildFn. apply wp_bind.
  destruct (rsplit (strncpy_z 255 (rc_exe_path args))) as [[wd name]|] eqn:Hwd;
    [destruct (cpu_soft (rc_time_limit_ms args)) as [soft|] eqn:Hs|].
  2,3: eapply wp_mono; [|apply (halts_run_confine ltac:(tauto) [])];
    intros [a|h] t; [intros []; done|apply run_confine_post].
  eapply wp_mono; [|by eapply logs_run_confine]. intros [a|h] t; [|apply run_confine_post].
  intros [-> Hlog]. cbn in Hlog. rewrite app_nil_l in Hlog.
  eapply wp_mono; [|apply wp_run_exec]. intros [z|[c|p v en|e| |]] t'; cbn; try done.
  - intros [H|H]; auto.
  - intros (-> & -> & -> & Hl & Hsec). exists wd, name, soft.
    rewrite Hl, Hlog. auto 10.
Qed.

End RunChild.

(** ** The compile child *)

Section CompileChild.
Context {LC : Libc} (g : GlobalConfig) (have_close_range : bool) (args : CompileArgs).

Definition compile_work_dir : string :=
  let w := strncpy_z 255 (ca_source_path args) in
  match rsplit w with Some (d, _) => d | None => w end.

(** The part of [compile_prepare] after the log is bound. *)
Lemma logs_compile_rest :
  logs confining
    (SetupRootfs g compile_work_dir ;;
     compile_mounts g ;; compile_limits g ;; compile_drop_privileges g ;;
     LoadCompileSeccompRules)
    (compile_steps g compile_work_dir) (fun _ => True) setup_halt.
Proof.
  unfold compile_steps.
  eapply logs_bind; [apply logs_SetupRootfs|]. intros _ _.
  eapply (logs_bind _ _ _ [_]).
  { unfold compile_mounts. eapply logs_bind_nil; [apply logs_mkdir; solve_setup|]. intros _ _.
    apply logs_or_exit; [done|solve_setup]. }
  intros _ _. eapply (logs_bind _ _ _ [_; _; _]).
  { unfold compile_limits.
    do 2 (eapply (logs_bind _ _ _ [_]); [apply logs_or_exit; [done|solve_setup]|intros _ _]).
    apply logs_or_exit; [done|solve_setup]. }
  intros _ _. eapply (logs_bind _ _ _ [_; _; _; _] []).
  { unfold compile_drop_privileges.
    do 3 (eapply (logs_bind _ _ _ [_]); [apply logs_zero_or_exit; [done|solve_setup]|intros _ _]).
    apply logs_zero_or_exit; [done|solve_setup]. }
  intros _ _. apply logs_load_filter.
Qed.

(** The same part, for the filter it leaves in force. *)
Lemma wp_compile_rest t :
  wp any_env
    (SetupRootfs g compile_work_dir ;;
     compile_mounts g ;; compile_limits g ;; compile_drop_privileges g ;;
     LoadCompileSeccompRules)
    (fun o t' => match o with
                 | OVal _ => loaded t' = Some compile_filter /\
                     ok_log confining t' = ok_log confining t ++ compile_steps g compile_work_dir
                 | OHalt h => setup_halt h
                 end) t.
Proof.
  assert (Hf : wp any_env (SetupRootfs g compile_work_dir ;;
     compile_mounts g ;; compile_limits g ;; compile_drop_privileges g ;;
     LoadCompileSeccompRules)
    (fun o t' => match o with OVal _ => loaded t' = Some compile_filter | OHalt _ => True end) t).
  { do 4 (apply wp_skip; [done|intros _ ?]).
    eapply wp_mono; [|apply wp_load_filter]. by intros [?|?] ?. }
  eapply wp_mono; [|exact (wp_and _ _ _ _ _ (logs_compile_rest t) Hf)].
  intros [u|h] t' [H1 H2]; [|done]. by destruct H1.
Qed.

(** [path] was opened for writing, and the descriptor that [open] gave bound to
    stderr by the next call. *)
Definition log_bound (path : string) (fd : Z) (t : trace) : Prop :=
  exists later d err earlier, fd <> -1 /\
  t = later ++ Ev (SI (Dup2 fd STDERR_FILENO)) d ::
        Ev (SI (Open path (Z.lor (Z.lor (Z.lor O_WRONLY O_CREAT) O_TRUNC) O_CLOEXEC) m0644)) (IRes fd err) :: earlier.

Lemma log_bound_grows path fd t evs : log_bound path fd t -> log_bound path fd (evs ++ t).
Proof. intros (l & d & err & t0 & Hfd & ->). exists (evs ++ l), d, err, t0. split; [done|]. by rewrite <- app_assoc. Qed.

(** The outcomes of the compile child: the compiler is executed only after
    the log is bound to stderr and every confinement step succeeded. *)
Definition compile_child_post (o : outcome Z) (t : trace) : Prop :=
  match o with
  | OHalt (HExec path argv envp) =>
      path = compiler_path g /\ argv = compiler_argv g args /\ envp = None /\
      (exists fd, log_bound (ca_log_path args) fd t /\
         ok_log confining t = Dup2 fd STDERR_FILENO :: compile_steps g compile_work_dir) /\
      loaded t = Some compile_filter
  | OHalt (HExit c) => setup_halt (HExit c) \/ c = code_val ERR_EXEC_FAILED
  | _ => False
  end.

Lemma compile_setup_post h t : setup_halt h -> compile_child_post (OHalt h) t.
Proof. intros (c & -> & H). left. by exists c. Qed.

Lemma wp_compile_exec t fd :
  log_bound (ca_log_path args) fd t ->
  ok_log confining t = Dup2 fd STDERR_FILENO :: compile_steps g compile_work_dir ->
  loaded t = Some compile_filter ->
  wp any_env (r <- call (Exec (compiler_path g) (compiler_argv g args) None) ;;
              match r with
              | None => Halt (HExec (compiler_path g) (compiler_argv g args) None)
              | Some _ => exit_ (A := Z) ERR_EXEC_FAILED
              end) compile_child_post t.
Proof.
  intros Hb Hl Hf. cbn. intros [err|] _; cbn; [by right|].
  refine (conj eq_refl (conj eq_refl (conj eq_refl (conj _ Hf)))).
  exists fd. split; [exact (log_bound_grows _ _ _ [_] Hb)|]. rewrite ok_log_cons. cbn. by rewrite app_nil_r.
Qed.

Lemma wp_CompileChildFn :
  wp any_env (CompileChildFn g have_close_range args) compile_child_post [].
Proof.
  unfold CompileChildFn, compile_prepare. fold compile_work_dir.
  apply wp_bind, wp_bind.
  eapply wp_mono; [|apply (logs_close_fds have_close_range (fun _ => False))].
  intros [u|h] t; [|done]. intros [_ Ht]. cbn in Ht. rewrite app_nil_l in Ht.
  apply wp_bind. unfold open_compile_log. cbn -[SetupRootfs wp].
  cbn [wp]. intros fd _. destruct (rv fd =? -1) eqn:Efd; cbn [bind wp].
  { left. apply (setup_halt_intro ERR_OPEN_OUTPUT). cbn. tauto. }
  intros d _. destruct (rv d =? -1) eqn:Ed; cbn [bind wp]; intros r _.
  { left. apply (setup_halt_intro ERR_DUP2). cbn. tauto. }
  eapply wp_mono; [|exact (wp_and _ _ _ _ _ (wp_compile_rest _) (wp_grows _ _ _))].
  intros [u'|h] t' [H (evs & ->)]; [|by apply compile_setup_post].
  destruct H as [Hf Hl]. eapply wp_compile_exec; [|clear Hf|done].
  { apply log_bound_grows. destruct fd as [fd err]. exists [Ev (SI (Close fd)) r], d, err, t. split; [by apply Z.eqb_neq|done]. }
  rewrite Hl, !ok_log_cons, Ht. cbn. rewrite Ed. done.
Qed.

End CompileChild.

(** ** Creating parent directories *)

(** The directories a history tried to create, oldest first. *)
Definition mkdir_of (e : event) : option string :=
  match e with Ev (SI (Mkdir p _)) _ => Some p | _ => None end.

Definition mkdirs : trace -> list string := log_of mkdir_of.
Arguments mkdirs : simpl never.

(** [base/c1], [base/c1/c2], ... *)
Fixpoint ancestors (base : string) (comps : list string) : list string :=
  match comps with
  | [] => []
  | c :: comps =>
      let b := base +:+ String slash c in b :: ancestors b comps
  end.

Definition join_path (base : string) (comps : list string) : string :=
  fold_left (fun b c => b +:+ String slash c) comps base.

Definition slash_free (s : string) : bool := str_forall (fun a => negb (Ascii.eqb a slash)) s.

(** The prefixes at which the loop of [EnsureParentDir] stops. *)
Definition component_ends (tmp : string) (start len : nat) : list string :=
  map (fun i => str_take i tmp) (List.filter (ends_component tmp) (seq start len)).

Lemma get_app_ge s1 s2 i :
  (String.length s1 <= i)%nat ->
  String.get i (s1 +:+ s2) = String.get (i - String.length s1) s2.
Proof.
  revert i. induction s1 as [|a s1 IH]; intros i Hi; cbn.
  - by rewrite Nat.sub_0_r.
  - destruct i as [|i]; cbn in Hi; [lia|]. cbn. apply IH. lia.
Qed.

Lemma filter_no_end b c rest start :
  slash_free c = true -> start = S (String.length b) ->
  List.filter (ends_component (b +:+ String slash (c +:+ rest))) (seq start (String.length c)) = [].
Proof.
  intros Hc ->. assert (Hgen : forall pre c', slash_free c' = true ->
    c = pre +:+ c' ->
    List.filter (ends_component (b +:+ String slash (c +:+ rest)))
      (seq (S (String.length b) + String.length pre) (String.length c')) = []).
  { intros pre c'. revert pre. induction c' as [|a c' IH]; intros pre Hf Heq; [done|].
    cbn in Hf. apply andb_true_iff in Hf as [Ha Hf]. cbn [String.length seq List.filter].
    assert (He : ends_component (b +:+ String slash (c +:+ rest))
                   (S (String.length b) + String.length pre) = false).
    { unfold ends_component. rewrite get_app_ge by lia.
      replace (S (String.length b) + String.length pre - String.length b)%nat
        with (S (String.length pre)) by lia.
      cbn. rewrite Heq, str_app_assoc, get_app_ge by lia.
      rewrite Nat.sub_diag. cbn. by apply negb_true_iff in Ha. }
    rewrite He.
    specialize (IH (pre +:+ String a EmptyString) Hf).
    rewrite str_length_app in IH. cbn in IH.
    replace (S (S (String.length b) + String.length pre))
      with (S (String.length b + (String.length pre + 1))) by lia.
    apply IH. rewrite Heq, str_app_assoc. done. }
  specialize (Hgen EmptyString c Hc eq_refl). cbn in Hgen.
  by rewrite Nat.add_0_r in Hgen.
Qed.

Lemma join_path_app base comps :
  exists rest, join_path base comps = base +:+ rest /\
    (rest = EmptyString \/ exists r, rest = String slash r).
Proof.
  revert base. induction comps as [|c comps IH]; intros base.
  - exists EmptyString. rewrite str_app_nil_r. auto.
  - change (join_path base (c :: comps)) with (join_path (base +:+ String slash c) comps).
    destruct (IH (base +:+ String slash c)) as (r & -> & _).
    exists (String slash (c +:+ r)). rewrite str_app_assoc. cbn. split; [done|]. right. by eexists.
Qed.

Lemma component_ends_join base comps :
  forallb slash_free comps = true ->
  component_ends (join_path base comps) (S (String.length base))
    (String.length (join_path base comps) - String.length base) = ancestors base comps.
Proof.
  revert base. induction comps as [|c comps IH]; intros base Hc.
  { cbn. by rewrite Nat.sub_diag. }
  change (join_path base (c :: comps)) with (join_path (base +:+ String slash c) comps).
  cbn [ancestors]. cbn in Hc. apply andb_true_iff in Hc as [Hc Hcs].
  specialize (IH (base +:+ String slash c) Hcs).
  destruct (join_path_app (base +:+ String slash c) comps) as (rest & Hj & Hrest).
  rewrite Hj in IH |- *. rewrite !str_length_app in *. cbn [String.length] in *.
  replace (String.length base + S (String.length c) + String.length rest - String.length base)%nat
    with (String.length c + S (String.length rest))%nat by lia.
  replace (String.length base + S (String.length c) + String.length rest -
           (String.length base + S (String.length c)))%nat
    with (String.length rest) in IH by lia.
  unfold component_ends. rewrite seq_app, List.filter_app, map_app.
  rewrite str_app_assoc. cbn [String.append]. rewrite filter_no_end by done. cbn [map app seq List.filter].
  set (i := (S (String.length base) + String.length c)%nat).
  assert (He : ends_component (base +:+ String slash (c +:+ rest)) i = true).
  { unfold ends_component, i. rewrite get_app_ge by lia.
    replace (S (String.length base) + String.length c - String.length base)%nat
      with (S (String.length c)) by lia.
    cbn. rewrite get_app_ge by lia. rewrite Nat.sub_diag.
    by destruct Hrest as [->|[r ->]]. }
  rewrite He. cbn [map]. f_equal.
  - unfold i. replace (base +:+ String slash (c +:+ rest))
      with ((base +:+ String slash c) +:+ rest) by (by rewrite str_app_assoc).
    rewrite str_take_app_le by (rewrite str_length_app; cbn; lia).
    apply str_take_all. rewrite str_length_app. cbn. lia.
  - unfold component_ends in IH. rewrite str_app_assoc in IH. cbn in IH.
    replace (S i) with (S (String.length base + S (String.length c))) by (unfold i; lia).
    exact IH.
Qed.

Section EnsureParent.
Context {LC : Libc}.

Lemma mkdirs_cons e t :
  mkdirs (e :: t) = mkdirs t ++ (match mkdir_of e with Some p => [p] | None => [] end).
Proof. apply log_of_cons. Qed.

(** One turn of the loop tries one directory, at the ends of components. *)
Lemma wp_ensure_step tmp base i t :
  (i < 512)%nat ->
  wp any_env (ensure_step tmp base i) (fun o t' =>
    match o with
    | OVal _ => mkdirs t' = mkdirs t ++ (if ends_component tmp i then [str_take i tmp] else [])
    | OHalt h => h = HExit ERR_MKDIR_FAILED /\ ends_component tmp i = true /\
                 mkdirs t' = mkdirs t ++ [str_take i tmp]
    end) t.
Proof.
  intros Hi. unfold ensure_step, in_bounds.
  rewrite (proj2 (Z.leb_le _ _)), (proj2 (Z.ltb_lt _ _)) by lia. cbn [andb bind].
  destruct (ends_component tmp i); [|by cbn; rewrite app_nil_r].
  cbn -[ExitSetupError mkdirs]. intros r _. case_goal.
  2: { cbn -[mkdirs]. by rewrite mkdirs_cons. }
  unfold ExitSetupError. cbn -[mkdirs write_line setup_error_buf]. intros ids _.
  apply wp_bind.
  destruct (setup_error_buf_holds
    (setup_error_text ERR_MKDIR_FAILED (errno r) (Some "mkdir_parent") (Some base) ids)
    None (Some (str_take i tmp)) None) as [full Hb].
  eapply wp_write_line; [exact Hb|]. intros w.
  split; [done|]. split; [done|]. rewrite !mkdirs_cons. cbn. by rewrite !app_nil_r.
Qed.

(** [EnsureParentDir] on [base/c1/.../cn/leaf] tries to create exactly
    [base/c1], [base/c1/c2], ..., [base/c1/.../cn], in that order, and never
    indexes outside its 512-byte arrays: it returns after all of them, or
    leaves the process with [ERR_MKDIR_FAILED] at the first one that fails. *)
Theorem EnsureParentDir_creates base comps leaf k o t :
  base <> EmptyString ->
  forallb slash_free comps = true -> slash_free leaf = true ->
  no_nul (join_path base comps +:+ String slash leaf) = true ->
  (String.length (join_path base comps +:+ String slash leaf) <= 511)%nat ->
  run k (EnsureParentDir (join_path base comps +:+ String slash leaf) base) [] = (o, t) ->
  (o = OVal tt /\ mkdirs t = ancestors base comps) \/
  (o = OHalt (HExit ERR_MKDIR_FAILED) /\
   exists rest, mkdirs t ++ rest = ancestors base comps /\ mkdirs t <> []).
Proof.
  intros Hb Hc Hl Hn Hlen Hrun. revert Hrun. unfold EnsureParentDir.
  rewrite strncpy_z_id, rsplit_app by done.
  rewrite str_length_app in Hlen. cbn [String.length] in Hlen.
  destruct (join_path_app base comps) as (r & Hj & _).
  destruct (Nat.eqb_spec (String.length base) 0) as [H0|_].
  { destruct base; [congruence|done]. }
  rewrite Hj at 1. rewrite prefix_app. cbn [negb].
  set (dir := join_path base comps) in *.
  set (l := seq _ _). intros Hrun.
  refine (run_any k _ (fun o t => _) [] o t Hrun _). clear Hrun o t.
  pose (I := fun l' (t' : trace) => exists d, d ++ l' = l /\
    mkdirs t' = map (fun i => str_take i dir) (List.filter (ends_component dir) d)).
  pose (E := fun h (t' : trace) => h = HExit ERR_MKDIR_FAILED /\ mkdirs t' <> [] /\
    exists rest, mkdirs t' ++ rest =
      map (fun i => str_take i dir) (List.filter (ends_component dir) l)).
  eapply wp_mono; [|eapply (wp_each any_env _ l I E)].
  - rewrite <- (component_ends_join base comps Hc). fold dir.
    unfold component_ends. fold l.
    intros [[]|h] t' H.
    + destruct H as (d & Hd & Hm). rewrite app_nil_r in Hd. subst d. left. by split.
    + destruct H as (-> & Hne & rest & Hm). right. split; [done|]. by exists rest.
  - by exists [].
  - intros i l' t' (d & Hd & Hm).
    assert (Hi : (i < 512)%nat).
    { assert (In i l) as Hin by (rewrite <- Hd; apply in_app_iff; right; by left).
      apply in_seq in Hin as [? ?]. lia. }
    eapply wp_mono; [|by apply wp_ensure_step].
    intros [u|h] t'' H.
    + exists (d ++ [i]). rewrite <- app_assoc. split; [done|].
      rewrite H, Hm, List.filter_app, map_app. cbn. by destruct (ends_component dir i).
    + destruct H as (-> & He & H). split; [done|]. rewrite H, Hm. split; [apply not_eq_sym, app_cons_not_nil|].
      exists (map (fun i => str_take i dir) (List.filter (ends_component dir) l')).
      rewrite <- Hd, List.filter_app, map_app. cbn. rewrite He. cbn. by rewrite <- app_assoc.
Qed.

End EnsureParent.

(** ** Main theorems *)

Section Confinement.
Context {LC : Libc}.

(** C1: Whatever the kernel answers, if the run child reaches [exec] then every
    confinement step succeeded, in the order of the source and with nothing
    else in between: streams redirected, private root built from the
    configured mounts (each remounted read-only), old root detached, root
    locked and read-only, /tmp and /proc mounted, the five limits set,
    groups, group and user dropped and privilege escalation disabled; and the
    allow-list filter is in force, unless JUDGE_RUN_SECCOMP_MODE was "off". *)
Theorem run_child_confined g b args k path argv envp t :
  run k (RunChildFn g b args) [] = (OHalt (HExec path argv envp), t) ->
  exists wd name soft,
    rsplit (strncpy_z 255 (rc_exe_path args)) = Some (wd, name) /\
    cpu_soft (rc_time_limit_ms args) = Some soft /\
    path = in_new_root (rc_exe_path args) /\ argv = [path] /\ envp = run_envp /\
    ok_log confining t = run_steps g args wd soft /\
    (loaded t = Some run_filter \/ seccomp_off t = true).
Proof. intros Hr. exact (run_any k _ _ [] _ t Hr (wp_RunChildFn g b args)). Qed.

(** C26: The run child fails closed: under every kernel it either executes the
    program or exits, with one of the three redirection codes, one of the
    set-up codes, or [ERR_EXEC_FAILED] after writing the diagnostic line to
    stderr; it never returns, never throws, and only an overflowing time
    limit makes it undefined. *)
Theorem run_child_fails_closed g b args k :
  match exec_outcome k (RunChildFn g b args) with
  | OHalt (HExec path _ _) => path = in_new_root (rc_exe_path args)
  | OHalt (HExit c) =>
      In c redirect_codes \/ (exists e, c = code_val e /\ In e setup_codes) \/
      (c = ERR_EXEC_FAILED /\ exists err,
         last_write (exec_trace k (RunChildFn g b args))
           (run_exec_line err (in_new_root (rc_exe_path args))))
  | OHalt HUB => cpu_soft (rc_time_limit_ms args) = None
  | _ => False
  end.
Proof.
  pose proof (run_wp any_env k _ _ [] (respects_any k) (wp_RunChildFn g b args)) as H.
  unfold exec_outcome, exec_trace. destruct (fst _) as [z|[c|p v en|e| |]]; cbn in H |- *; auto.
  - destruct H as [H|[(c' & [= ->] & H)|H]]; eauto.
  - by destruct H as (? & ? & ? & ? & ? & -> & ?).
Qed.

(** C28: If the compile child reaches [exec] it runs the configured compiler
    with the fixed argument vector, after the file at the path of the compile log
    was opened for writing, its descriptor bound to stderr by the call that follows,
    and every step of its confinement succeeded in order, with the deny-list filter
    in force. *)
Theorem compile_child_confined g b args k path argv envp t :
  run k (CompileChildFn g b args) [] = (OHalt (HExec path argv envp), t) ->
  path = compiler_path g /\ argv = compiler_argv g args /\ envp = None /\
  (exists fd, log_bound (ca_log_path args) fd t /\
     ok_log confining t = Dup2 fd STDERR_FILENO :: compile_steps g (compile_work_dir args)) /\
  loaded t = Some compile_filter.
Proof. intros Hr. exact (run_any k _ _ [] _ t Hr (wp_CompileChildFn g b args)). Qed.

End Confinement.

(** For a non-negative time limit below the overflow bound the soft CPU
    limit is the number of seconds rounded up, at least one; a limit of -1999 ms
    or less turns into more than 2^63 seconds. *)
Theorem cpu_soft_bounds tl :
  (0 <= tl <= INT_MAX - 999 ->
     exists s, cpu_soft tl = Some s /\ 1 <= s /\ tl <= 1000 * s /\ (s = 1 \/ 1000 * (s - 1) < tl)) /\
  (INT_MIN <= tl <= -1999 -> exists s, cpu_soft tl = Some s /\ 2 ^ 63 < s) /\
  (INT_MAX - 999 < tl <= INT_MAX -> cpu_soft tl = None).
Proof.
  unfold cpu_soft, INT_MAX, INT_MIN. split; [|split]; intros H.
  - rewrite chk_i32_in by (unfold INT_MIN, INT_MAX; lia). eexists. split; [done|].
    rewrite Z.quot_div_nonneg by lia.
    pose proof (Z.div_mod (tl + 999) 1000 ltac:(lia)).
    pose proof (Z.mod_pos_bound (tl + 999) 1000 ltac:(lia)).
    rewrite to_u64_id by (unfold ULLONG_MAX; lia). case_goal; b2p; lia.
  - rewrite chk_i32_in by (unfold INT_MIN, INT_MAX; lia). eexists. split; [done|].
    replace (tl + 999) with (- (- tl - 999)) by lia. rewrite Z.quot_opp_l by lia.
    rewrite Z.quot_div_nonneg by lia.
    pose proof (Z.div_mod (- tl - 999) 1000 ltac:(lia)).
    pose proof (Z.mod_pos_bound (- tl - 999) 1000 ltac:(lia)).
    set (q := (- tl - 999) / 1000) in *.
    assert (to_u64 (- q) = 2 ^ 64 - q) as ->.
    { unfold to_u64, wrap_u. symmetry. apply (Z.mod_unique _ _ (-1)); lia. }
    case_goal; b2p; lia.
  - unfold chk_i32, is_i32. case_goal; [|done]. b2p. unfold INT_MIN, INT_MAX in *. lia.
Qed.

(** With mount entries of at most 255 bytes, as the configuration loader
    leaves them, no bind-mount target is cut short: it is the work directory
    followed by the source path, the length check of [mount_dirs] never fires
    and the missing one of [mount_files] is not needed. *)
Theorem mount_target_exact exe src :
  (String.length src <= 255)%nat ->
  let wd := strncpy_z 255 exe in
  mount_target wd src = wd +:+ src /\ snd (snprintf 512 (wd +:+ src)) < 512.
Proof.
  intros Hs wd. pose proof (strncpy_z_length 255 exe) as Hw. fold wd in Hw.
  unfold mount_target, snprintf, slen. cbn [fst snd]. rewrite str_length_app. split; [|lia].
  apply str_take_all. rewrite str_length_app. lia.
Qed.

(** ** Witnesses *)

Lemma run_child_confined_witness :
  exists t, run happy (RunChildFn config true run_args) [] =
              (OHalt (HExec "/main" ["/main"] run_envp), t) /\
    exists wd name soft,
      rsplit (strncpy_z 255 (rc_exe_path run_args)) = Some (wd, name) /\
      cpu_soft (rc_time_limit_ms run_args) = Some soft /\
      "/main" = in_new_root (rc_exe_path run_args) /\ ["/main"] = ["/main"] /\
      run_envp = run_envp /\
      ok_log confining t = run_steps config run_args wd soft /\
      (loaded t = Some run_filter \/ seccomp_off t = true).
Proof.
  eexists. split; [vm_compute; reflexivity|].
  eapply (run_child_confined config true run_args happy). vm_compute. reflexivity.
Defined.

Lemma compile_child_confined_witness :
  exists argv t, run happy (CompileChildFn config true compile_args) [] =
              (OHalt (HExec "/usr/bin/g++" argv None), t) /\
    "/usr/bin/g++" = compiler_path config /\ argv = compiler_argv config compile_args /\
    (None : option (list string)) = None /\
    (exists fd, log_bound (ca_log_path compile_args) fd t /\
       ok_log confining t = Dup2 fd STDERR_FILENO :: compile_steps config (compile_work_dir compile_args)) /\
    loaded t = Some compile_filter.
Proof.
  eexists _, _. split; [vm_compute; reflexivity|].
  eapply (compile_child_confined config true compile_args happy). vm_compute. reflexivity.
Defined.

Lemma EnsureParentDir_creates_witness :
  let base := "/w" in let comps := ["etc"; "ssl"] in
  exists o t, run happy (EnsureParentDir (join_path base comps +:+ String slash "cert.pem") base) []
       = (o, t) /\
    ((o = OVal tt /\ mkdirs t = ancestors base comps) \/
     (o = OHalt (HExit ERR_MKDIR_FAILED) /\
      exists rest, mkdirs t ++ rest = ancestors base comps /\ mkdirs t <> [])).
Proof.
  cbn zeta. eexists _, _. split; [vm_compute; reflexivity|].
  eapply (EnsureParentDir_creates "/w" ["etc"; "ssl"] "cert.pem" happy);
    [discriminate|reflexivity|reflexivity|reflexivity|vm_compute; lia|vm_compute; reflexivity].
Defined.

Lemma mount_target_exact_witness :
  (String.length "/usr" <= 255)%nat /\
  let wd := strncpy_z 255 "/tmp/deep_oj/job" in
  mount_target wd "/usr" = wd +:+ "/usr" /\ snd (snprintf 512 (wd +:+ "/usr")) < 512.
Proof. split; [vm_compute; lia|]. apply (mount_target_exact "/tmp/deep_oj/job" "/usr"). vm_compute. lia. Defined.
