(* ===== verification/Ownership.v ===== *)
(** * Move-only owners

    [ProcessGuard], [DirectoryGuard] and [CgroupManager] are RAII owners of a
    child process, a directory and a cgroup: not copyable, movable, with a
    destructor that releases what they still own.  [Movable] is what the three
    promise; [step] is what a program can do with objects of such a type; the
    invariant says that every resource acquired is owned by one object, was
    released or was given up.  The operations of [Guards] refine [step]. *)

From S2P Require Import Prelude.

(** ** The interface *)

Class Movable (T R : Type) := {
  (** The resource the destructor would release, if any. *)
  owned : T -> option R;
  (** The move constructor: the new object and what is left of the source. *)
  move : T -> T * T;
  (** [release()] / [commit()]: give the resource up without releasing it. *)
  disarm : T -> T;
  (** Whether move assignment is defined. *)
  assignable : bool;
  owned_moved : forall x, owned (fst (move x)) = owned x;
  owned_source : forall x, owned (snd (move x)) = None;
  owned_disarm : forall x, owned (disarm x) = None
}.

Section Ownership.
Context {T R : Type} {M : Movable T R}.

(** The live objects, the resources released by a destructor or a move
    assignment, and those given up. *)
Record store := Store { objs : list T; released : list R; given_up : list R }.

Definition owned_by (l : list T) : list R := omap owned l.

(** Every resource the store has heard of. *)
Definition known (s : store) : list R := owned_by (objs s) ++ released s ++ given_up s.

(** A step is labelled with the resources it acquires. *)
Inductive step : store -> list R -> store -> Prop :=
  | step_construct s x :
      step s (option_list (owned x)) (Store (objs s ++ [x]) (released s) (given_up s))
  | step_move_construct s l1 x l2 :
      objs s = l1 ++ x :: l2 ->
      step s [] (Store (l1 ++ snd (move x) :: l2 ++ [fst (move x)]) (released s) (given_up s))
  (* [x = std::move(y)] with [this != &other], x before y and y before x *)
  | step_assign_l s l1 x l2 y l3 :
      assignable = true -> objs s = l1 ++ x :: l2 ++ y :: l3 ->
      step s [] (Store (l1 ++ fst (move y) :: l2 ++ snd (move y) :: l3)
                   (option_list (owned x) ++ released s) (given_up s))
  | step_assign_r s l1 y l2 x l3 :
      assignable = true -> objs s = l1 ++ y :: l2 ++ x :: l3 ->
      step s [] (Store (l1 ++ snd (move y) :: l2 ++ fst (move y) :: l3)
                   (option_list (owned x) ++ released s) (given_up s))
  (* the [this != &other] guard *)
  | step_self_assign s : step s [] s
  | step_destroy s l1 x l2 :
      objs s = l1 ++ x :: l2 ->
      step s [] (Store (l1 ++ l2) (option_list (owned x) ++ released s) (given_up s))
  | step_disarm s l1 x l2 :
      objs s = l1 ++ x :: l2 ->
      step s [] (Store (l1 ++ disarm x :: l2) (released s) (option_list (owned x) ++ given_up s)).

Inductive reachable : list R -> store -> Prop :=
  | reach_init : reachable [] (Store [] [] [])
  | reach_step l s r s' : reachable l s -> step s r s' -> reachable (r ++ l) s'.

(** *** The invariant *)

Lemma owned_by_app l1 l2 : owned_by (l1 ++ l2) = owned_by l1 ++ owned_by l2.
Proof. apply omap_app. Qed.

Lemma owned_by_cons x l : owned_by (x :: l) = option_list (owned x) ++ owned_by l.
Proof. unfold owned_by. cbn. by destruct (owned x). Qed.

(** Moving only permutes what is known; what is acquired joins it. *)
Lemma step_known s r s' : step s r s' -> known s' ≡ₚ r ++ known s.
Proof.
  intros Hs. destruct Hs as [s x|s l1 x l2 E|s l1 x l2 y l3 _ E|s l1 y l2 x l3 _ E|s|s l1 x l2 E|s l1 x l2 E];
    unfold known; cbn [objs released given_up]; rewrite ?E;
    rewrite ?owned_by_app, ?owned_by_cons, ?owned_by_app, ?owned_by_cons,
      ?owned_moved, ?owned_source, ?owned_disarm; cbn [option_list owned_by omap list_omap];
    rewrite ?app_nil_r, ?app_nil_l; solve [solve_Permutation | done].
Qed.

(** What was acquired is owned by one object, was released or was given up:
    each resource once. *)
Lemma reachable_known l s : reachable l s -> known s ≡ₚ l.
Proof.
  induction 1 as [|l s r s' Hr IH Hs]; [done|].
  apply step_known in Hs. by rewrite Hs, IH.
Qed.

End Ownership.

(** Two objects of a list, replaced at their places. *)
Lemma two_lookups {A} (l : list A) i j x y :
  l !! i = Some x -> l !! j = Some y -> (i < j)%nat ->
  exists l1 l2 l3, l = l1 ++ x :: l2 ++ y :: l3 /\
    forall u v, <[j := v]> (<[i := u]> l) = l1 ++ u :: l2 ++ v :: l3 /\
                <[i := u]> (<[j := v]> l) = l1 ++ u :: l2 ++ v :: l3.
Proof.
  intros Hi Hj Hij. apply list_elem_of_split_length in Hi as (l1 & l' & -> & ->).
  rewrite lookup_app_r in Hj by lia. destruct (j - length l1)%nat as [|n] eqn:En; [lia|].
  cbn in Hj. apply list_elem_of_split_length in Hj as (l2 & l3 & -> & ->).
  replace j with (length l1 + S (length l2))%nat by lia. exists l1, l2, l3. split; [done|].
  assert (Hl : forall k (v : A) l', <[(length l1 + k)%nat := v]> (l1 ++ l') = l1 ++ <[k := v]> l')
    by (intros; apply insert_app_r).
  assert (Hm : forall (k : list A) v z l', <[length k := v]> (k ++ z :: l') = k ++ v :: l')
    by (intros k v z l'; rewrite insert_app_r_alt, Nat.sub_diag by lia; done).
  intros u v. split; rewrite ?Hm, ?Hl; cbn [insert list_insert]; by rewrite !Hm.
Qed.
