(* ===== verification/Cgroup.v ===== *)
(** * Cgroup v2 limits: cgroup_manager.cpp

    A [CgroupManager] owns one cgroup directory from [Create] to [Destroy].  All
    its effects are reads and writes of the cgroup file system, modelled as
    calls; the object's state is passed explicitly. *)

From S2P Require Import Prelude CInt CFloat CStr Internal Sys Ownership.

(** ** The object *)

Record CgroupManager := mkCgroupManager {
  cgroup_root_ : string;
  job_id_ : string;
  cgroup_path_ : string;
  created_ : bool
}.

Definition CgroupManager_new (root job_id : string) : CgroupManager :=
  mkCgroupManager root job_id (root +:+ "/" +:+ job_id) false.

Definition with_created (m : CgroupManager) (b : bool) : CgroupManager :=
  mkCgroupManager (cgroup_root_ m) (job_id_ m) (cgroup_path_ m) b.

(** The move constructor: the new object and the source.  What [std::move]
    leaves in a string is unspecified: [stale]. *)
Definition CgroupManager_move (stale : string -> string) (other : CgroupManager)
    : CgroupManager * CgroupManager :=
  (other,
   mkCgroupManager (stale (cgroup_root_ other)) (stale (job_id_ other))
     (stale (cgroup_path_ other)) false).

Definition CGROUP2_SUPER_MAGIC : Z := 1667723888.  (* 0x63677270 *)

(** ** Small pure helpers *)

(** [std::getline]: the bytes before the first newline. *)
Fixpoint first_line (s : string) : string :=
  match s with
  | EmptyString => EmptyString
  | String a r => if Ascii.eqb a (chr 10) then EmptyString else String a (first_line r)
  end.

(** [buildControllerEnableList]. *)
Definition buildControllerEnableList (raw : string) : string :=
  fold_left (fun out controller =>
    if negb (str_contains controller raw) then out
    else (if str_empty out then out else out +:+ " ") +:+ "+" +:+ controller)
    ["memory"; "pids"; "cpu"; "io"] EmptyString.

(** One [iss >> n] for an [int]: the value and the rest of the stream; [None]
    when the extraction fails. *)
Fixpoint skip_digits (s : string) : string :=
  match s with
  | String c r => if is_digit c then skip_digits r else s
  | EmptyString => EmptyString
  end.

Definition extract_int (s : string) : option (Z * string) :=
  let s := skip_space s in
  let '(neg, s) :=
    match s with
    | String c r =>
        if Ascii.eqb c "-"%char then (true, r)
        else if Ascii.eqb c "+"%char then (false, r)
        else (false, s)
    | EmptyString => (false, s)
    end in
  if starts_digit s
  then
    let v := if neg : bool then - digits s 0 else digits s 0 in
    if is_i32 v then Some (v, skip_digits s) else None
  else None.

(** [while (iss >> pid)]: every extraction shortens the stream. *)
Fixpoint extract_ints (fuel : nat) (s : string) : list Z :=
  match fuel with
  | O => []
  | S fuel =>
      match extract_int s with
      | Some (v, r) => v :: extract_ints fuel r
      | None => []
      end
  end.

Definition read_pids (s : string) : list Z := extract_ints (String.length s) s.

(** ** Files *)

Definition WriteToFile (path value : string) : prog bool :=
  r <- call (WriteStream path value) ;;
  match r with
  | WOpenFailed =>
      cerr ("[CgroupManager] 打开写入文件失败: " +:+ path +:+ newline) ;; Ret false
  | WBad => Ret false
  | WGood => Ret true
  end.

Definition ReadFromFile (path : string) : prog string :=
  r <- call (ReadStream path) ;;
  Ret (match r with None => EmptyString | Some content => first_line content end).

(** [fs::exists(p)] without an [error_code] throws. *)
Definition fs_exists_throwing (p : string) : prog bool :=
  r <- call (FsExists p) ;;
  match fs_ec r with
  | Some m => throw (FilesystemError m)
  | None => Ret (fs_val r)
  end.

(** ** Locating the hierarchy *)

Definition cgroup_candidates : list string := ["/sys/fs/cgroup/unified"; "/sys/fs/cgroup"].

Fixpoint find_cgroup2_root (candidates : list string) : prog string :=
  match candidates with
  | [] => Ret EmptyString
  | root :: rest =>
      buf <- call (Statfs root) ;;
      match buf with
      | None => find_cgroup2_root rest
      | Some f_type =>
          if negb (f_type =? CGROUP2_SUPER_MAGIC) then find_cgroup2_root rest
          else
            ex <- fs_exists_throwing (root +:+ "/cgroup.controllers") ;;
            if negb ex then find_cgroup2_root rest else Ret root
      end
  end.

Definition GetCgroup2MountRoot : prog string := find_cgroup2_root cgroup_candidates.

Definition IsSupported : prog bool :=
  r <- GetCgroup2MountRoot ;; Ret (negb (str_empty r)).

(** ** Creation *)

Definition EnsureParentReady (m : CgroupManager) : prog bool :=
  ex <- call (FsExists (cgroup_root_ m)) ;;
  made <- (if fs_val ex then Ret true
           else
             mk <- call (FsCreateDirectories (cgroup_root_ m)) ;;
             if fs_val mk then Ret true
             else
               cerr ("[CgroupManager] 创建根目录失败: " +:+ cgroup_root_ m +:+ newline) ;;
               Ret false) ;;
  if negb made then Ret false
  else
    let parent := parent_path (cgroup_root_ m) in
    let subtree_control := parent +:+ "/cgroup.subtree_control" in
    parentControllers <- ReadFromFile (parent +:+ "/cgroup.controllers") ;;
    let enableParent := buildControllerEnableList parentControllers in
    (if str_empty enableParent then Ret tt
     else
       w <- WriteToFile subtree_control enableParent ;;
       if w : bool then Ret tt
       else cerr ("[CgroupManager] 警告：在 " +:+ subtree_control +:+
                  " 启用控制器失败（可能已由管理员预先开启）" +:+ newline)) ;;
    let our_subtree_control := cgroup_root_ m +:+ "/cgroup.subtree_control" in
    ourControllers <- ReadFromFile (cgroup_root_ m +:+ "/cgroup.controllers") ;;
    let enableOur := buildControllerEnableList ourControllers in
    ok <- (if str_empty enableOur then Ret false else WriteToFile our_subtree_control enableOur) ;;
    if ok : bool then Ret true
    else
      cerr ("[CgroupManager] 错误：在 " +:+ our_subtree_control +:+
            " 启用控制器失败，请检查目录属主或委派配置。" +:+ newline) ;;
      Ret false.

Definition Create (m : CgroupManager) : prog (bool * CgroupManager) :=
  if created_ m then Ret (true, m)
  else
    ready <- EnsureParentReady m ;;
    if negb ready
    then cerr ("[CgroupManager] 准备父目录失败" +:+ newline) ;; Ret (false, m)
    else
      mk <- call (FsCreateDirectories (cgroup_path_ m)) ;;
      match fs_val mk, fs_ec mk with
      | false, Some msg =>
          cerr ("[CgroupManager] 创建 cgroup 失败: " +:+ cgroup_path_ m +:+ " - " +:+ msg +:+ newline) ;;
          Ret (false, m)
      | _, _ =>
          cerr ("[CgroupManager] 已创建 cgroup: " +:+ cgroup_path_ m +:+ newline) ;;
          Ret (true, with_created m true)
      end.

(** ** Limits *)

Definition not_created : prog bool :=
  cerr ("[CgroupManager] cgroup 尚未创建" +:+ newline) ;; Ret false.

Definition SetMemoryLimit (m : CgroupManager) (bytes : Z) (disable_swap : bool) : prog bool :=
  if negb (created_ m) then not_created
  else
    w <- WriteToFile (cgroup_path_ m +:+ "/memory.max") (to_string bytes) ;;
    if negb w then cerr ("[CgroupManager] 设置 memory.max 失败" +:+ newline) ;; Ret false
    else
      (if disable_swap
       then WriteToFile (cgroup_path_ m +:+ "/memory.swap.max") "0" ;; Ret tt
       else Ret tt) ;;
      cerr ("[CgroupManager] 内存限制已设置: " +:+ to_string bytes +:+ " 字节" +:+
            (if disable_swap then "，已禁用 swap" else EmptyString) +:+ newline) ;;
      Ret true.

Definition SetPidsLimit (m : CgroupManager) (max_pids : Z) : prog bool :=
  if negb (created_ m) then not_created
  else
    w <- WriteToFile (cgroup_path_ m +:+ "/pids.max") (to_string max_pids) ;;
    if negb w then cerr ("[CgroupManager] 设置 pids.max 失败" +:+ newline) ;; Ret false
    else
      cerr ("[CgroupManager] 进程数限制已设置: " +:+ to_string max_pids +:+ newline) ;;
      Ret true.

(** [llround(max_cores * period_us)], at least 1000; [None] when the product
    has no [long long] value. *)
Definition cpu_period : Z := 100000.

Definition cpu_quota (max_cores : b64) : option Z :=
  match b64_llround (b64_mul max_cores (b64_of_Z cpu_period)) with
  | Some q => if is_i64 q then Some (if q <? 1000 then 1000 else q) else None
  | None => None
  end.

Section Messages.
Context {LC : Libc}.

Definition SetCPULimit (m : CgroupManager) (max_cores : b64) : prog bool :=
  if negb (created_ m) then not_created
  else if SFleb max_cores b64_zero
  then cerr ("[CgroupManager] 无效的 CPU 核数限制: " +:+ fmt_double max_cores +:+ newline) ;;
       Ret false
  else
    quota_us <- defined (cpu_quota max_cores) ;;
    let value := to_string quota_us +:+ " " +:+ to_string cpu_period in
    w <- WriteToFile (cgroup_path_ m +:+ "/cpu.max") value ;;
    if negb w then cerr ("[CgroupManager] 设置 cpu.max 失败" +:+ newline) ;; Ret false
    else
      cerr ("[CgroupManager] cpu.max 已设置: quota=" +:+ to_string quota_us +:+ " period=" +:+
            to_string cpu_period +:+ newline) ;;
      Ret true.
End Messages.

(** The line written to io.max. *)
Definition io_limit_value (maj min read_bps write_bps : Z) : string :=
  to_string maj +:+ ":" +:+ to_string min +:+
  (if 0 <? read_bps then " rbps=" +:+ to_string read_bps else EmptyString) +:+
  (if 0 <? write_bps then " wbps=" +:+ to_string write_bps else EmptyString).

Definition SetIOLimit (m : CgroupManager) (read_bps write_bps : Z) (target_path : string) : prog bool :=
  if negb (created_ m) then not_created
  else if (read_bps <=? 0) && (write_bps <=? 0) then Ret true
  else
    st <- call (Stat target_path) ;;
    match st with
    | None =>
        cerr ("[CgroupManager] 获取 io.max 目标路径信息失败: " +:+ target_path +:+ newline) ;;
        Ret false
    | Some (maj, min) =>
        w <- WriteToFile (cgroup_path_ m +:+ "/io.max") (io_limit_value maj min read_bps write_bps) ;;
        if negb w then cerr ("[CgroupManager] 设置 io.max 失败" +:+ newline) ;; Ret false
        else
          cerr ("[CgroupManager] io.max 已设置，设备号 " +:+ to_string maj +:+ ":" +:+
                to_string min +:+ newline) ;;
          Ret true
    end.

Definition AddProcess (m : CgroupManager) (pid : Z) : prog bool :=
  if negb (created_ m) then not_created
  else
    w <- WriteToFile (cgroup_path_ m +:+ "/cgroup.procs") (to_string pid) ;;
    if negb w
    then cerr ("[CgroupManager] 添加进程失败，PID=" +:+ to_string pid +:+ newline) ;; Ret false
    else
      cerr ("[CgroupManager] 已将进程 " +:+ to_string pid +:+ " 加入 cgroup" +:+ newline) ;;
      Ret true.

(** ** Statistics *)

(** [try { return stoull(val); } catch (...) {}], on a non-empty string. *)
Definition try_stoull (val : string) : option Z :=
  if str_empty val then None
  else match stoull val with inl v => Some v | inr _ => None end.

Definition GetMemoryCurrent (m : CgroupManager) : prog Z :=
  if negb (created_ m) then Ret 0
  else
    val <- ReadFromFile (cgroup_path_ m +:+ "/memory.current") ;;
    Ret (default 0 (try_stoull val)).

Definition GetMemoryPeak (m : CgroupManager) : prog Z :=
  if negb (created_ m) then Ret 0
  else
    val <- ReadFromFile (cgroup_path_ m +:+ "/memory.peak") ;;
    match try_stoull val with
    | Some v => Ret v
    | None => GetMemoryCurrent m
    end.

(** ** Destruction *)

Definition KillAllProcesses (m : CgroupManager) : prog unit :=
  procs <- ReadFromFile (cgroup_path_ m +:+ "/cgroup.procs") ;;
  if str_empty procs then Ret tt
  else
    let pids := List.filter (fun pid => 0 <? pid) (read_pids procs) in
    each (fun pid => icall_ (Kill pid SIGKILL) ;; Ret tt) pids ;;
    if Nat.ltb 0 (length pids)
    then cerr ("[CgroupManager] 已终止进程数量: " +:+ to_string (Z.of_nat (length pids)) +:+ newline)
    else Ret tt.

Definition Destroy (m : CgroupManager) : prog CgroupManager :=
  if negb (created_ m) then Ret m
  else
    cerr ("[CgroupManager] 正在销毁 cgroup: " +:+ cgroup_path_ m +:+ newline) ;;
    KillAllProcesses m ;;
    call (Usleep 50000) ;;
    KillAllProcesses m ;;
    call (Usleep 10000) ;;
    rm <- call (FsRemove (cgroup_path_ m)) ;;
    (if fs_val rm
     then cerr ("[CgroupManager] 已删除 cgroup 目录" +:+ newline)
     else
       call (Usleep 100000) ;;
       KillAllProcesses m ;;
       call (Usleep 50000) ;;
       call (FsRemove (cgroup_path_ m)) ;;
       Ret tt) ;;
    Ret (with_created m false).

(** [~CgroupManager] and move assignment. *)
Definition CgroupManager_dtor (m : CgroupManager) : prog unit :=
  if created_ m then Destroy m ;; Ret tt else Ret tt.

Definition CgroupManager_assign (stale : string -> string) (this other : CgroupManager)
    (same : bool) : prog (CgroupManager * CgroupManager) :=
  if same then Ret (this, other)
  else
    (if created_ this then Destroy this ;; Ret tt else Ret tt) ;;
    Ret (CgroupManager_move stale other).

(** ** The manager as an owner *)

Definition cg_owned (m : CgroupManager) : option string :=
  if created_ m then Some (cgroup_path_ m) else None.

#[export] Instance cgroup_movable (stale : string -> string) : Movable CgroupManager string.
Proof.
  refine {| owned := cg_owned;
            move := CgroupManager_move stale;
            disarm := fun m => with_created m false;
            assignable := true |}; done.
Defined.

(** ** Lemmas *)

Lemma wp_WriteToFile (K : env) path value (Q : outcome bool -> trace -> Prop) t :
  (forall r : wstream, K t (WriteStream path value) r ->
     match r with
     | WGood => Q (OVal true) (Ev (WriteStream path value) r :: t)
     | WBad => Q (OVal false) (Ev (WriteStream path value) r :: t)
     | WOpenFailed => forall msg, Q (OVal false) (Ev (Cerr msg) tt :: Ev (WriteStream path value) r :: t)
     end) ->
  wp K (WriteToFile path value) Q t.
Proof.
  intros H. cbn. intros r Hr. specialize (H r Hr). destruct r; cbn; auto. intros [] _. apply H.
Qed.

Lemma first_line_app s r :
  str_forall (fun a => negb (Ascii.eqb a (chr 10))) s = true ->
  first_line (s +:+ newline +:+ r) = s.
Proof.
  induction s as [|a s IH]; [done|]. cbn [str_forall]. intros [Ha Hs]%andb_true_iff.
  cbn [String.append first_line]. destruct (Ascii.eqb a (chr 10)); [done|]. by rewrite IH.
Qed.

Lemma skip_digits_pretty_go n s : skip_digits (pretty_N_go n s) = skip_digits s.
Proof.
  revert s. induction (N.lt_wf_0 n) as [n _ IH]; intros s.
  destruct (decide (n = 0)%N) as [->|Hn]; [by rewrite pretty_N_go_0|].
  rewrite pretty_N_go_step by lia. rewrite IH by (apply N.div_lt; lia).
  cbn. by rewrite (proj1 (pretty_char_digit _ (N.mod_lt n 10 ltac:(done)))).
Qed.

Lemma extract_digits s :
  starts_digit s = true -> is_i32 (digits s 0) = true ->
  extract_int s = Some (digits s 0, skip_digits s).
Proof.
  intros Hd Hr. destruct (starts_digit_not_special _ Hd) as (c & r & -> & Hsp & Hm & Hq).
  unfold extract_int. cbn [skip_space]. rewrite Hsp, Hm, Hq, Hd. cbv beta iota zeta.
  by rewrite Hr.
Qed.

(** A printed non-negative [int] is read back, and nothing is left. *)
Lemma extract_to_string p :
  0 <= p <= INT_MAX -> extract_int (to_string p) = Some (p, EmptyString).
Proof.
  intros Hp. destruct p as [|p|p]; [done| |lia].
  change (to_string (Z.pos p)) with (pretty (N.pos p)).
  destruct (pretty_N_digits (N.pos p)) as (H1 & H2 & _).
  rewrite extract_digits, H1; [|done|].
  - unfold pretty, pretty_N. destruct (decide (N.pos p = 0)%N); [done|].
    by rewrite skip_digits_pretty_go.
  - rewrite H1. apply is_i32_spec. unfold INT_MIN, INT_MAX in *. lia.
Qed.

Lemma read_pids_to_string p : 0 <= p <= INT_MAX -> read_pids (to_string p) = [p].
Proof.
  intros Hp. unfold read_pids. pose proof (extract_to_string p Hp) as He.
  destruct (to_string p) as [|c s] eqn:E; [done|]. cbn [String.length extract_ints].
  rewrite He. by destruct (String.length s).
Qed.

Lemma to_string_no_newline p :
  0 <= p -> str_forall (fun a => negb (Ascii.eqb a (chr 10))) (to_string p) = true.
Proof.
  intros Hp. destruct p as [|p|p]; [done| |lia].
  change (to_string (Z.pos p)) with (pretty (N.pos p)).
  unfold pretty, pretty_N. destruct (decide (N.pos p = 0)%N); [done|]. clear.
  assert (forall n s, str_forall (fun a => negb (Ascii.eqb a (chr 10))) s = true ->
    str_forall (fun a => negb (Ascii.eqb a (chr 10))) (pretty_N_go n s) = true) as H; [|by apply H].
  intros n. induction (N.lt_wf_0 n) as [n _ IH]; intros s Hs.
  destruct (decide (n = 0)%N) as [->|Hn]; [by rewrite pretty_N_go_0|].
  rewrite pretty_N_go_step by lia. apply IH; [apply N.div_lt; lia|].
  cbn [str_forall]. rewrite Hs, andb_true_r. unfold pretty_N_char. by repeat case_match.
Qed.

(** The pids [KillAllProcesses] finds in the contents of cgroup.procs. *)
Definition pids_to_kill (content : option string) : list Z :=
  List.filter (fun pid => 0 <? pid)
    (read_pids (match content with None => EmptyString | Some c => first_line c end)).

(** *** What a trace did to the processes and the directory

    Messages apart, every call: with the answers that matter. *)
Inductive act :=
  | Listed (path : string) (content : option string)
  | Signalled (pid sig : Z)
  | Slept (us : Z)
  | Removed (path : string) (ok : bool)
  | Other.

Definition act_of (e : event) : option act :=
  match e with
  | Ev s r =>
      match s return answer s -> option act with
      | ReadStream p => fun c => Some (Listed p c)
      | SI (Kill pid sig) => fun _ => Some (Signalled pid sig)
      | Usleep us => fun _ => Some (Slept us)
      | FsRemove p => fun r => Some (Removed p (fs_val r))
      | Cerr _ => fun _ => None
      | _ => fun _ => Some Other
      end r
  end.

Definition acts : trace -> list act := log_of act_of.

Lemma acts_cons e t : acts (e :: t) = acts t ++ option_list (act_of e).
Proof. apply log_of_cons. Qed.

Definition line_of (content : option string) : string :=
  match content with None => EmptyString | Some c => first_line c end.

Lemma wp_ReadFromFile files path (Q : outcome string -> trace -> Prop) t :
  Q (OVal (line_of (files path))) (Ev (ReadStream path) (files path) :: t) ->
  wp (static_files files) (ReadFromFile path) Q t.
Proof. intros H r Hr. cbn in Hr. symmetry in Hr. by destruct Hr. Qed.

(** One pass over the processes: cgroup.procs is read, and every pid on its first
    line is sent SIGKILL. *)
Definition kill_pass (m : CgroupManager) (content : option string) : list act :=
  Listed (cgroup_path_ m +:+ "/cgroup.procs") content ::
  map (fun pid => Signalled pid SIGKILL) (pids_to_kill content).

Lemma wp_each_kill K pids t :
  wp K (each (fun pid => icall_ (Kill pid SIGKILL) ;; Ret tt) pids)
    (fun o t' => o = OVal tt /\ acts t' = acts t ++ map (fun pid => Signalled pid SIGKILL) pids) t.
Proof.
  revert t. induction pids as [|p pids IH]; intros t; cbn; [by rewrite app_nil_r|].
  intros r _. eapply wp_mono; [|apply IH]. intros o t' (-> & H). split; [done|].
  rewrite H, acts_cons. cbn. by rewrite <- app_assoc.
Qed.

Lemma wp_KillAllProcesses (K : env) (m : CgroupManager) t :
  wp K (KillAllProcesses m) (fun o t' => o = OVal tt /\ exists c,
    K t (ReadStream (cgroup_path_ m +:+ "/cgroup.procs")) c /\ acts t' = acts t ++ kill_pass m c) t.
Proof.
  unfold KillAllProcesses, ReadFromFile. do 2 apply wp_bind. apply wp_call. intros c Hc. cbn [wp].
  set (line := match c with None => _ | Some _ => _ end).
  set (ev := Ev (ReadStream _) c). assert (Ha : acts (ev :: t) = acts t ++ [Listed (cgroup_path_ m +:+ "/cgroup.procs") c])
    by apply acts_cons.
  assert (Hp : pids_to_kill c = List.filter (fun pid => 0 <? pid) (read_pids line)) by done.
  assert (Hpass : forall t', acts t' = acts (ev :: t) ++ map (fun pid => Signalled pid SIGKILL) (pids_to_kill c) ->
    exists c', K t (ReadStream (cgroup_path_ m +:+ "/cgroup.procs")) c' /\ acts t' = acts t ++ kill_pass m c').
  { intros t' H. exists c. split; [done|]. rewrite H, Ha. unfold kill_pass. by rewrite <- app_assoc. }
  rewrite Hp in Hpass. destruct (str_empty line) eqn:El.
  - split; [done|]. apply Hpass. destruct line; [|done]. by rewrite app_nil_r.
  - apply wp_bind. eapply wp_mono; [|apply wp_each_kill]. intros o t' (-> & H).
    case_goal; [|by split; [|apply Hpass]]. intros [] _. split; [done|]. apply Hpass.
    rewrite acts_cons, H. by rewrite app_nil_r.
Qed.

(** ** Theorems *)

(** [KillAllProcesses] signals only the process on the first line of
    cgroup.procs: [ReadFromFile] returns one line and the kernel lists one pid
    per line, so whatever further lines [rest] holds, the processes on them are
    left running. *)
Theorem KillAllProcesses_first_line files m k p rest :
  respects k (static_files files) ->
  files (cgroup_path_ m +:+ "/cgroup.procs") = Some (to_string p +:+ newline +:+ rest) ->
  0 < p <= INT_MAX ->
  acts (exec_trace k (KillAllProcesses m)) =
    [Listed (cgroup_path_ m +:+ "/cgroup.procs") (Some (to_string p +:+ newline +:+ rest)); Signalled p SIGKILL].
Proof.
  intros Hk Hf Hp.
  pose proof (run_wp _ k _ _ [] Hk (wp_KillAllProcesses (static_files files) m [])) as (_ & c & Hc & H).
  cbn in Hc. rewrite Hf in Hc. rewrite Hc in H. unfold exec_trace. rewrite H. unfold kill_pass, pids_to_kill.
  rewrite first_line_app by (apply to_string_no_newline; lia).
  rewrite read_pids_to_string by lia. cbn. by rewrite (proj2 (Z.ltb_lt _ _)) by lia.
Qed.

(** A cgroup of two processes, for the examples. *)
Definition two_processes (removable : bool) : kernel := fun t s =>
  match s return answer s with
  | ReadStream p => if bool_decide (p = "/cg/run_7/cgroup.procs") then Some (to_string 41 +:+ newline +:+ "42") else None
  | FsRemove p => FsRes removable None
  | s => happy t s
  end.

Lemma KillAllProcesses_first_line_witness :
  let m := with_created (CgroupManager_new "/cg" "run_7") true in
  acts (exec_trace (two_processes true) (KillAllProcesses m)) =
    [Listed "/cg/run_7/cgroup.procs" (Some (to_string 41 +:+ newline +:+ "42")); Signalled 41 SIGKILL].
Proof.
  cbv zeta.
  apply (KillAllProcesses_first_line
    (fun p => if bool_decide (p = "/cg/run_7/cgroup.procs")
              then Some (to_string 41 +:+ newline +:+ "42") else None)
    (with_created (CgroupManager_new "/cg" "run_7") true) (two_processes true) 41 "42").
  - intros t s. by destruct s.
  - reflexivity.
  - vm_compute. split; [done|discriminate].
Defined.

(** What destruction does: two passes, then an attempt at the directory; if that
    fails a third pass and a last attempt. *)
Definition destroyed (m : CgroupManager) (l : list act) : Prop :=
  exists c1 c2 rest, l = kill_pass m c1 ++ [Slept 50000] ++ kill_pass m c2 ++ [Slept 10000] ++ rest /\
    (rest = [Removed (cgroup_path_ m) true] \/
     exists c3 ok, rest = [Removed (cgroup_path_ m) false; Slept 100000] ++ kill_pass m c3 ++
                          [Slept 50000; Removed (cgroup_path_ m) ok]).

Lemma wp_Destroy (K : env) (m : CgroupManager) t :
  created_ m = true ->
  wp K (Destroy m) (fun o t' => o = OVal (with_created m false) /\ exists l, acts t' = acts t ++ l /\ destroyed m l) t.
Proof.
  intros Hc. unfold Destroy. rewrite Hc. cbn [negb].
  apply wp_bind, wp_cerr, wp_bind.
  eapply wp_mono; [|apply wp_KillAllProcesses]. intros o t1 (-> & c1 & _ & H1). rewrite acts_cons, app_nil_r in H1.
  apply wp_bind. intros u _. apply wp_bind.
  eapply wp_mono; [|apply wp_KillAllProcesses]. intros o t2 (-> & c2 & _ & H2). rewrite acts_cons, H1 in H2.
  apply wp_bind. intros u2 _. apply wp_bind, wp_call. intros r _. cbn beta iota. destruct (fs_val r) eqn:Er.
  - apply wp_bind, wp_cerr. split; [done|]. eexists. rewrite !acts_cons, H2. cbn [act_of option_list]. rewrite Er, app_nil_r, <- !app_assoc.
    split; [reflexivity|]. exists c1, c2, [Removed (cgroup_path_ m) true]. split; [done|by left].
  - do 2 apply wp_bind. intros u3 _. apply wp_bind.
    eapply wp_mono; [|apply wp_KillAllProcesses]. intros o t3 (-> & c3 & _ & H3). rewrite !acts_cons, H2 in H3.
    cbn [act_of option_list] in H3. rewrite Er in H3.
    apply wp_bind. intros u4 _ u5 _. split; [done|]. eexists. rewrite !acts_cons, H3, <- !app_assoc.
    split; [reflexivity|]. do 3 eexists. split; [reflexivity|]. right. by exists c3, (fs_val u5).
Qed.

(** C34: Under every kernel, destroying a created cgroup returns with the object
    marked not created, and its calls, messages apart, are exactly these: two
    passes over the processes with a pause after each, and an attempt at removing its
    own directory; when that fails, a third pass and a last attempt.  Each pass reads
    cgroup.procs as it then is and sends SIGKILL to the pids on its first line only,
    which is one process of the cgroup, as the kernel lists one per line
    ([KillAllProcesses_first_line]; the header promises to kill all).  An object that
    was never created, or was moved from, is left alone. *)
Theorem Destroy_spec m k :
  (created_ m = false -> run k (Destroy m) [] = (OVal m, [])) /\
  (created_ m = true ->
     exec_outcome k (Destroy m) = OVal (with_created m false) /\ destroyed m (acts (exec_trace k (Destroy m)))).
Proof.
  split; intros Hc.
  - unfold Destroy. by rewrite Hc.
  - destruct (run_wp any_env k _ _ [] (respects_any k) (wp_Destroy any_env m [] Hc)) as [Ho (l & Hl & Hd)].
    split; [exact Ho|]. unfold exec_trace. by rewrite Hl.
Qed.

(** Two processes, and a directory that stays: the first process is signalled three
    times. *)
Lemma Destroy_spec_witness :
  let m := with_created (CgroupManager_new "/cg" "run_7") true in
  destroyed m (acts (exec_trace (two_processes false) (Destroy m))) /\
  kills (exec_trace (two_processes false) (Destroy m)) = [(41, SIGKILL); (41, SIGKILL); (41, SIGKILL)].
Proof.
  cbv zeta. split; [|vm_compute; reflexivity].
  apply (Destroy_spec (with_created (CgroupManager_new "/cg" "run_7") true)). reflexivity.
Defined.

(** *** Locating the hierarchy *)

(** A candidate is usable when it is a cgroup2 mount with a controllers file. *)
Definition usable (stat : string -> option Z) (ex : string -> fsres bool) (root : string) : bool :=
  match stat root with
  | Some m => (m =? CGROUP2_SUPER_MAGIC) && fs_val (ex (root +:+ "/cgroup.controllers"))
  | None => false
  end.

Lemma wp_find_root stat ex l t :
  (forall p, fs_ec (ex p) = None) ->
  wp (static_stat stat ex) (find_cgroup2_root l)
    (fun o _ => o = OVal (default EmptyString (List.find (usable stat ex) l))) t.
Proof.
  intros He. revert t. induction l as [|root l IH]; intros t; [done|].
  cbn [find_cgroup2_root List.find]. apply wp_bind, wp_call. intros b Hb.
  change (b = stat root) in Hb. cbn beta iota. unfold usable at 1.
  rewrite <- Hb. destruct b as [m|]; [|apply IH].
  destruct (m =? CGROUP2_SUPER_MAGIC); cbn [negb andb]; [|apply IH].
  apply wp_bind. unfold fs_exists_throwing. apply wp_bind, wp_call. intros r Hr.
  change (r = ex (root +:+ "/cgroup.controllers")) in Hr. cbn beta iota.
  rewrite <- Hr in *. specialize (He (root +:+ "/cgroup.controllers")).
  rewrite <- Hr in He. rewrite He. cbn. destruct (fs_val r); [done|apply IH].
Qed.

(** The mount root found is the first of /sys/fs/cgroup/unified and
    /sys/fs/cgroup that [statfs] reports as cgroup2 and that holds a
    cgroup.controllers file, and the empty string when neither qualifies. *)
Theorem GetCgroup2MountRoot_first k stat ex :
  respects k (static_stat stat ex) -> (forall p, fs_ec (ex p) = None) ->
  exec_outcome k GetCgroup2MountRoot =
    OVal (default EmptyString (List.find (usable stat ex) cgroup_candidates)).
Proof. intros Hk He. exact (run_wp _ k _ _ [] Hk (wp_find_root stat ex _ [] He)). Qed.

Definition only_legacy : string -> option Z :=
  fun p => if bool_decide (p = "/sys/fs/cgroup") then Some CGROUP2_SUPER_MAGIC else None.

Definition legacy_kernel : kernel := fun t s =>
  match s return answer s with
  | Statfs p => only_legacy p
  | s => happy t s
  end.

Lemma GetCgroup2MountRoot_first_witness :
  exec_outcome legacy_kernel GetCgroup2MountRoot = OVal "/sys/fs/cgroup" /\
  exec_outcome legacy_kernel GetCgroup2MountRoot =
    OVal (default EmptyString
      (List.find (usable only_legacy (fun _ => FsRes true None)) cgroup_candidates)).
Proof.
  split; [vm_compute; reflexivity|].
  apply GetCgroup2MountRoot_first; [intros t s; by destruct s|done].
Defined.

(** *** Controllers *)

(** The list written to cgroup.subtree_control asks, in the order memory,
    pids, cpu, io, for each controller whose name occurs anywhere in the raw
    text, so cpuset alone is taken for cpu. *)
Theorem enable_list_spec raw :
  buildControllerEnableList raw =
    String.concat " " (map (fun c => "+" +:+ c)
      (List.filter (fun c => str_contains c raw) ["memory"; "pids"; "cpu"; "io"])) /\
  buildControllerEnableList "cpuset memory" = "+memory +cpu".
Proof.
  split; [|reflexivity]. unfold buildControllerEnableList. cbn [fold_left List.filter].
  by destruct (str_contains "memory" raw), (str_contains "pids" raw),
    (str_contains "cpu" raw), (str_contains "io" raw).
Qed.

(** *** Creation *)

(** Nothing in the manager throws, halts or runs out of fuel. *)
Lemma returns_WriteToFile path d : returns (WriteToFile path d).
Proof. unfold WriteToFile, cerr. returns. Qed.

Lemma returns_ReadFromFile path : returns (ReadFromFile path).
Proof. unfold ReadFromFile. returns. Qed.

Lemma returns_EnsureParentReady m : returns (EnsureParentReady m).
Proof.
  unfold EnsureParentReady, cerr. cbn zeta.
  repeat first [apply returns_WriteToFile | apply returns_ReadFromFile | progress returns].
Qed.

(** [Create] returns true exactly when the object ends up created, and it
    becomes created only after the attempt at its own directory was not
    reported as an error; root, job and path never change. *)
Theorem Create_spec m k :
  exists b m', exec_outcome k (Create m) = OVal (b, m') /\ b = created_ m' /\
    cgroup_path_ m' = cgroup_path_ m /\ cgroup_root_ m' = cgroup_root_ m /\
    (created_ m = false -> b = true ->
       exists r msg t, exec_trace k (Create m) =
         Ev (Cerr msg) tt :: Ev (FsCreateDirectories (cgroup_path_ m)) r :: t /\
         (fs_val r = true \/ fs_ec r = None)).
Proof.
  assert (H : wp any_env (Create m) (fun o t => exists b m', o = OVal (b, m') /\ b = created_ m' /\
    cgroup_path_ m' = cgroup_path_ m /\ cgroup_root_ m' = cgroup_root_ m /\
    (created_ m = false -> b = true -> exists r msg t0,
       t = Ev (Cerr msg) tt :: Ev (FsCreateDirectories (cgroup_path_ m)) r :: t0 /\
       (fs_val r = true \/ fs_ec r = None))) []).
  { unfold Create. destruct (created_ m) eqn:Hc; [by exists true, m|].
    apply wp_bind, (wp_returns _ _ _ _ (returns_EnsureParentReady m)). intros b t.
    destruct b; cbn [negb].
    2: { apply wp_bind, wp_cerr. exists false, m. by rewrite Hc. }
    apply wp_bind, wp_call. intros r _. cbn beta iota.
    destruct (fs_val r) eqn:Hv; [|destruct (fs_ec r) eqn:He];
      apply wp_bind, wp_cerr; [|exists false, m; by rewrite Hc|];
      exists true, (with_created m true); repeat (split; [done|]);
      intros _ _; eexists r, _, _; (split; [reflexivity|]); auto. }
  exact (run_wp any_env k _ _ [] (respects_any k) H).
Qed.

(** *** Limits *)

(** Under good streams a limit is one write (or none), and the setter reports
    success. *)
Definition sets (p : prog bool) (b : bool) (ws : list (string * string)) : Prop :=
  forall t, wp streams_good p (fun o t' => o = OVal b /\ writes t' = writes t ++ ws) t.

Lemma sets_WriteToFile path d : sets (WriteToFile path d) true [(path, d)].
Proof.
  intros t. apply wp_WriteToFile. intros r Hr. change (r = WGood) in Hr. subst r.
  by autorewrite with oj_rw.
Qed.

Lemma sets_bind (p : prog bool) b ws (f : bool -> prog bool) b' ws' :
  sets p b ws -> sets (f b) b' ws' -> sets (bind p f) b' (ws ++ ws').
Proof.
  intros Hp Hf t. apply wp_bind. eapply wp_mono; [|apply Hp].
  intros o t1 (-> & H1). eapply wp_mono; [|apply Hf].
  intros o t2 (-> & H2). split; [done|]. by rewrite H2, H1, app_assoc.
Qed.

Lemma sets_cerr msg b : sets (cerr msg ;; Ret b) b [].
Proof. intros t. apply wp_bind, wp_cerr. cbn. by autorewrite with oj_rw; rewrite app_nil_r. Qed.

Lemma sets_SetPidsLimit m n :
  created_ m = true -> sets (SetPidsLimit m n) true [(cgroup_path_ m +:+ "/pids.max", to_string n)].
Proof.
  intros Hc. unfold SetPidsLimit. rewrite Hc. cbn [negb].
  eapply (sets_bind _ true [_] _ true []); [apply sets_WriteToFile|apply sets_cerr].
Qed.

Lemma sets_SetMemoryLimit m n :
  created_ m = true ->
  sets (SetMemoryLimit m n true) true
    [(cgroup_path_ m +:+ "/memory.max", to_string n); (cgroup_path_ m +:+ "/memory.swap.max", "0")].
Proof.
  intros Hc. unfold SetMemoryLimit. rewrite Hc. cbn [negb].
  eapply (sets_bind _ true [_] _ true [_]); [apply sets_WriteToFile|]. cbn [negb].
  intros t. do 2 apply wp_bind. eapply wp_mono; [|apply sets_WriteToFile].
  intros o t1 (-> & H1). cbn [wp]. apply wp_bind, wp_cerr. split; [done|].
  by autorewrite with oj_rw.
Qed.

Lemma sets_AddProcess m pid :
  created_ m = true ->
  sets (AddProcess m pid) true [(cgroup_path_ m +:+ "/cgroup.procs", to_string pid)].
Proof.
  intros Hc. unfold AddProcess. rewrite Hc. cbn [negb].
  eapply (sets_bind _ true [_] _ true []); [apply sets_WriteToFile|apply sets_cerr].
Qed.

Lemma sets_SetCPULimit {LC : Libc} m c q :
  created_ m = true -> SFleb c b64_zero = false -> cpu_quota c = Some q ->
  sets (SetCPULimit m c) true
    [(cgroup_path_ m +:+ "/cpu.max", to_string q +:+ " " +:+ to_string cpu_period)].
Proof.
  intros Hc Hp Hq. unfold SetCPULimit. rewrite Hc, Hp, Hq. cbn [negb defined bind].
  eapply (sets_bind _ true [_] _ true []); [apply sets_WriteToFile|apply sets_cerr].
Qed.

(** The CPU quota written for a period of 100000 us is between 1000 us and
    the largest [long long]; a whole number of cores up to 1024 gives exactly
    that many periods. *)
Theorem cpu_quota_bounds :
  (forall c q, cpu_quota c = Some q -> 1000 <= q <= LLONG_MAX) /\
  (forall n, 1 <= n <= 1024 -> cpu_quota (b64_of_Z n) = Some (n * cpu_period)).
Proof.
  split.
  - intros c q. unfold cpu_quota. destruct (b64_llround _) as [v|]; [|done].
    destruct (is_i64 v) eqn:Hv; [|done]. apply is_i64_spec in Hv.
    case_goal; intros [= <-]; b2p; unfold LLONG_MAX in *; lia.
  - intros n Hn.
    assert (Hall : forallb (fun i => bool_decide
              (cpu_quota (b64_of_Z (Z.of_nat i)) = Some (Z.of_nat i * cpu_period))) (seq 1 1024) = true)
      by (vm_compute; reflexivity).
    pose proof (forallb_In _ _ (Z.to_nat n) Hall) as H.
    cbv beta in H. rewrite Z2Nat.id in H by lia. apply (bool_decide_eq_true _), H, in_seq. lia.
Qed.

(** *** Statistics *)

Lemma wp_GetMemoryCurrent files m t :
  created_ m = true ->
  wp (static_files files) (GetMemoryCurrent m) (fun o _ =>
    o = OVal (default 0 (try_stoull (line_of (files (cgroup_path_ m +:+ "/memory.current")))))) t.
Proof.
  intros Hc. unfold GetMemoryCurrent. rewrite Hc. cbn [negb].
  by apply wp_bind, wp_ReadFromFile.
Qed.

(** The reported peak of a created cgroup is memory.peak when its first
    line parses as an unsigned number, else memory.current, else 0; a counter
    the kernel prints comes back unchanged. *)
Theorem GetMemoryPeak_spec files m k :
  respects k (static_files files) -> created_ m = true ->
  let peak := files (cgroup_path_ m +:+ "/memory.peak") in
  let current := files (cgroup_path_ m +:+ "/memory.current") in
  exec_outcome k (GetMemoryPeak m) =
    OVal (match try_stoull (line_of peak) with
          | Some v => v
          | None => default 0 (try_stoull (line_of current))
          end) /\
  (forall n rest, 0 <= n <= ULLONG_MAX -> peak = Some (to_string n +:+ newline +:+ rest) ->
     exec_outcome k (GetMemoryPeak m) = OVal n).
Proof.
  intros Hk Hc peak current.
  assert (H : exec_outcome k (GetMemoryPeak m) =
    OVal (match try_stoull (line_of peak) with
          | Some v => v
          | None => default 0 (try_stoull (line_of current))
          end)).
  { apply (run_wp _ k (GetMemoryPeak m) (fun o _ => o = _) [] Hk).
    unfold GetMemoryPeak. rewrite Hc. cbn [negb]. apply wp_bind, wp_ReadFromFile.
    cbn beta iota. fold peak.
    destruct (try_stoull (line_of peak)); [done|]. by apply wp_GetMemoryCurrent. }
  split; [exact H|]. intros n rest Hn Hp. rewrite H, Hp. cbn [line_of].
  rewrite first_line_app by (apply to_string_no_newline; lia).
  unfold try_stoull. rewrite stoull_to_string by lia.
  pose proof (strtoz_to_string n) as Hs. by destruct (to_string n).
Qed.

Lemma GetMemoryPeak_spec_witness :
  let files : string -> option string := fun p =>
    if bool_decide (p = "/cg/run_7/memory.peak") then Some "1048576" else None in
  let k : kernel := fun t s =>
    match s return answer s with ReadStream p => files p | s => happy t s end in
  let m := with_created (CgroupManager_new "/cg" "run_7") true in
  exec_outcome k (GetMemoryPeak m) = OVal 1048576.
Proof.
  cbv zeta.
  refine (proj1 (GetMemoryPeak_spec (fun p =>
    if bool_decide (p = "/cg/run_7/memory.peak") then Some "1048576" else None)
    (with_created (CgroupManager_new "/cg" "run_7") true) _ _ eq_refl)).
  intros t s. by destruct s.
Defined.
