(* ===== verification/Guards.v ===== *)
(** * RAII guards of the parent process: sandbox.cpp, anonymous namespace

    [ProcessGuard] reaps (or kills and reaps) a child, [AutoCloseFd] closes a
    descriptor, [DirectoryGuard] removes a directory unless committed. *)

From S2P Require Import Prelude CInt CStr Internal Sys Ownership.

Definition WNOHANG : Z := 1.

(** ** ProcessGuard *)

Record ProcessGuard := mkProcessGuard { pid_ : Z; released_ : bool }.

Definition ProcessGuard_new (pid : Z) : ProcessGuard := mkProcessGuard pid false.

Definition ProcessGuard_move (other : ProcessGuard) : ProcessGuard * ProcessGuard :=
  (other, mkProcessGuard (-1) true).

(** [for (;;) { w = waitpid(...); if (w == -1 && errno == EINTR) continue; return w; }] *)
Fixpoint wait_retry (fuel : nat) (pid options : Z) (with_rusage : bool) : prog wres :=
  match fuel with
  | O => Halt HFuel
  | S fuel =>
      w <- call (Wait pid options with_rusage) ;;
      if (w_pid w =? -1) && (w_errno w =? EINTR)
      then wait_retry fuel pid options with_rusage
      else Ret w
  end.

(** The four waiting members; without a child they return -1 at once and leave
    everything else alone ([errno] is then whatever it was: 0 here). *)
Definition guard_wait (fuel : nat) (g : ProcessGuard) (options : Z) (with_rusage : bool) : prog wres :=
  if pid_ g <=? 0 then Ret (WRes (-1) 0 None None)
  else wait_retry fuel (pid_ g) options with_rusage.

Definition wait_nonblock fuel g := guard_wait fuel g WNOHANG false.
Definition wait_nonblock_rusage fuel g := guard_wait fuel g WNOHANG true.
Definition wait fuel g := guard_wait fuel g 0 false.
Definition wait_rusage fuel g := guard_wait fuel g 0 true.

Definition guard_kill (g : ProcessGuard) : prog bool :=
  if pid_ g <=? 0 then Ret false
  else r <- icall_ (Kill (pid_ g) SIGKILL) ;; Ret (rv r =? 0).

Definition release (g : ProcessGuard) : ProcessGuard := mkProcessGuard (-1) true.

(** [cleanup()]: reap the child, killing it first when it still runs. *)
Definition cleanup (fuel : nat) (g : ProcessGuard) : prog unit :=
  if released_ g || (pid_ g <=? 0) then Ret tt
  else
    w <- wait_retry fuel (pid_ g) WNOHANG false ;;
    if w_pid w =? 0
    then
      icall_ (Kill (pid_ g) SIGKILL) ;;
      wait_retry fuel (pid_ g) 0 false ;;
      Ret tt
    else Ret tt.

(** Move assignment cleans the target up first. *)
Definition ProcessGuard_assign (fuel : nat) (this other : ProcessGuard) (same : bool)
    : prog (ProcessGuard * ProcessGuard) :=
  if same then Ret (this, other)
  else cleanup fuel this ;; Ret (ProcessGuard_move other).

(** A scope that holds a guard: the body returns the guard's last state; an
    exception leaves before the body has touched the guard. *)
Definition with_process {A} (fuel : nat) (pid : Z) (body : prog (A * ProcessGuard)) : prog A :=
  r <- try_catch body (fun e => cleanup fuel (ProcessGuard_new pid) ;; throw e) ;;
  cleanup fuel (snd r) ;;
  Ret (fst r).

(** ** AutoCloseFd *)

Definition close_guard (fd : Z) : prog unit :=
  if 0 <=? fd then icall_ (Close fd) ;; Ret tt else Ret tt.

Definition with_fd {A} (fd : Z) (body : prog A) : prog A := finally body (close_guard fd).

(** ** DirectoryGuard *)

Record DirectoryGuard := mkDirectoryGuard { path_ : string; committed_ : bool }.

Definition DirectoryGuard_new (p : string) : DirectoryGuard := mkDirectoryGuard p false.

(** The path of the source is moved out ([stale]); its destructor is disabled. *)
Definition DirectoryGuard_move (stale : string -> string) (other : DirectoryGuard)
    : DirectoryGuard * DirectoryGuard :=
  (other, mkDirectoryGuard (stale (path_ other)) true).

Definition commit (g : DirectoryGuard) : DirectoryGuard := mkDirectoryGuard (path_ g) true.

Definition DirectoryGuard_dtor (g : DirectoryGuard) : prog unit :=
  if committed_ g then Ret tt
  else
    ex <- call (FsExists (path_ g)) ;;
    if fs_val ex then call (FsRemoveAll (path_ g)) ;; Ret tt else Ret tt.

(** ** The guards as owners *)

Definition pg_owned (g : ProcessGuard) : option Z :=
  if released_ g || (pid_ g <=? 0) then None else Some (pid_ g).

#[export] Instance process_guard_movable : Movable ProcessGuard Z.
Proof.
  refine {| owned := pg_owned; move := ProcessGuard_move; disarm := release; assignable := true |}; done.
Defined.

Definition dg_owned (g : DirectoryGuard) : option string :=
  if committed_ g then None else Some (path_ g).

#[export] Instance directory_guard_movable (stale : string -> string) : Movable DirectoryGuard string.
Proof.
  refine {| owned := dg_owned; move := DirectoryGuard_move stale; disarm := commit;
            assignable := false |}; done.
Defined.

(** *** What a program can do with guards

    The guards in scope, in a list; the pids given up by [release]. *)

Inductive guard_op :=
  | Do_construct (pid : Z)
  | Do_move (i : nat)
  | Do_assign (i j : nat)
  | Do_release (i : nat)
  | Do_destroy (i : nat).

Definition guard_do (fuel : nat) (op : guard_op) (st : list ProcessGuard * list Z)
    : prog (list ProcessGuard * list Z) :=
  let '(gs, gu) := st in
  match op with
  | Do_construct pid => Ret (gs ++ [ProcessGuard_new pid], gu)
  | Do_move i =>
      match gs !! i with
      | Some x => Ret (<[i := snd (ProcessGuard_move x)]> gs ++ [fst (ProcessGuard_move x)], gu)
      | None => Ret st
      end
  | Do_assign i j =>
      match gs !! i, gs !! j with
      | Some x, Some y =>
          r <- ProcessGuard_assign fuel x y (i =? j)%nat ;;
          Ret (<[j := snd r]> (<[i := fst r]> gs), gu)
      | _, _ => Ret st
      end
  | Do_release i =>
      match gs !! i with
      | Some x => Ret (<[i := release x]> gs, option_list (pg_owned x) ++ gu)
      | None => Ret st
      end
  | Do_destroy i =>
      match gs !! i with
      | Some x => cleanup fuel x ;; Ret (delete i gs, gu)
      | None => Ret st
      end
  end.

Fixpoint guard_run (fuel : nat) (ops : list guard_op) (st : list ProcessGuard * list Z)
    : prog (list ProcessGuard * list Z) :=
  match ops with
  | [] => Ret st
  | op :: ops => st <- guard_do fuel op st ;; guard_run fuel ops st
  end.

(** The children that guards are made for. *)
Definition made (op : guard_op) : option Z :=
  match op with Do_construct pid => if pid <=? 0 then None else Some pid | _ => None end.

(** ** Theorems *)

(** The disarmed and the moved-from guard do nothing at the end of their scope. *)
Lemma cleanup_disowned fuel g : pg_owned g = None -> cleanup fuel g = Ret tt.
Proof. unfold pg_owned, cleanup. by destruct (released_ g || (pid_ g <=? 0)). Qed.

Lemma cleanup_release fuel g : cleanup fuel (release g) = Ret tt.
Proof. done. Qed.

(** *** The environment the engine runs in

    [live]: a wait is not interrupted (no EINTR), a blocking wait does not answer
    0, a wait that answers a child reports its status and usage, and the
    steady clock advances at least by the time slept. *)

Fixpoint clock_floor (t : trace) : Z :=
  match t with
  | [] => 0
  | Ev s r :: t =>
      match s return answer s -> Z with
      | Now => fun r => r
      | SleepMs ms => fun _ => clock_floor t + ms * 1000000
      | _ => fun _ => clock_floor t
      end r
  end.

Definition wait_live (options : Z) (with_rusage : bool) (w : wres) : Prop :=
  ~ (w_pid w = -1 /\ w_errno w = EINTR) /\
  (options = 0 -> w_pid w <> 0) /\
  (w_pid w <> 0 -> w_pid w <> -1 -> exists st, w_status w = Some st) /\
  (w_pid w <> 0 -> w_pid w <> -1 -> with_rusage = true -> exists u, w_usage w = Some u).

Definition live : env := fun t s =>
  match s return answer s -> Prop with
  | Wait _ opts ru => wait_live opts ru
  | Now => fun r => clock_floor t <= r
  | _ => fun _ => True
  end.

Lemma wp_wait_retry (K : env) fuel pid opts ru (Q : outcome wres -> trace -> Prop) t :
  (0 < fuel)%nat ->
  (forall t' s r, K t' s r -> live t' s r) ->
  (forall w, K t (Wait pid opts ru) w -> Q (OVal w) (Ev (Wait pid opts ru) w :: t)) ->
  wp K (wait_retry fuel pid opts ru) Q t.
Proof.
  intros Hf Hlive HQ. destruct fuel as [|fuel]; [lia|].
  cbn [wait_retry]. apply wp_bind, wp_call. intros w Hw. cbn beta iota.
  destruct (Hlive _ _ _ Hw) as [Hi _]. case_goal; [b2p; tauto|by apply HQ].
Qed.

(** A child that has been waited for: the wait answered it, or an error. *)
Definition wait_answered (pid : Z) (e : event) : Prop :=
  match e with
  | Ev s r =>
      match s return answer s -> Prop with
      | Wait p _ _ => fun w => p = pid /\ w_pid w <> 0
      | _ => fun _ => False
      end r
  end.

Definition reaped (pid : Z) (t : trace) : Prop := Exists (wait_answered pid) t.

(** The scope of a guard reaps its child, if the body only releases the guard
    after the child was waited for. *)
Lemma wp_cleanup (K : env) fuel g (Q : outcome unit -> trace -> Prop) t :
  (0 < fuel)%nat -> (forall t' s r, K t' s r -> live t' s r) ->
  (pg_owned g = None -> Q (OVal tt) t) ->
  (forall pid w t', pg_owned g = Some pid -> w_pid w <> 0 ->
     (t' = Ev (Wait pid WNOHANG false) w :: t \/
      exists w0 r, t' = Ev (Wait pid 0 false) w :: Ev (SI (Kill pid SIGKILL)) r ::
                        Ev (Wait pid WNOHANG false) w0 :: t) ->
     Q (OVal tt) t') ->
  wp K (cleanup fuel g) Q t.
Proof.
  intros Hf Hlive Hn Hs. unfold cleanup, pg_owned in *.
  destruct (released_ g || (pid_ g <=? 0)); [by apply Hn|].
  apply wp_bind, wp_wait_retry; [done..|]. intros w Hw. cbn beta iota.
  destruct (Z.eqb_spec (w_pid w) 0) as [H0|H0]; [|cbn; eapply Hs; eauto].
  apply wp_bind, wp_call. intros r _. cbn beta iota.
  apply wp_bind, wp_wait_retry; [done..|]. intros w2 Hw2. cbn beta iota.
  destruct (Hlive _ _ _ Hw2) as (_ & Hb & _). cbn. eapply Hs; eauto.
Qed.

Lemma wp_with_process {A} (K : env) fuel pid (body : prog (A * ProcessGuard))
    (Q : outcome A -> trace -> Prop) t :
  (0 < fuel)%nat -> (forall t' s r, K t' s r -> live t' s r) ->
  wp K body (fun o t' =>
    match o with
    | OVal (a, g) => wp K (cleanup fuel g) (fun o t'' => o = OVal tt -> Q (OVal a) t'') t'
    | OHalt (HThrow e) =>
        wp K (cleanup fuel (ProcessGuard_new pid)) (fun o t'' => o = OVal tt -> Q (OHalt (HThrow e)) t'') t'
    | OHalt h => Q (OHalt h) t'
    end) t ->
  wp K (with_process fuel pid body) Q t.
Proof.
  intros Hf Hlive Hb. unfold with_process.
  assert (Hc : forall g t, wp K (cleanup fuel g) (fun o _ => o = OVal tt) t)
    by (intros g t'; apply wp_cleanup; auto).
  apply wp_bind, wp_try. eapply wp_mono; [|exact Hb].
  intros [[a g]|[c|p v e|e| |]] t' H; auto.
  - apply wp_bind. eapply wp_mono; [|exact (wp_and _ _ _ _ _ H (Hc g t'))].
    intros o t'' [H1 ->]. by apply H1.
  - apply wp_bind. eapply wp_mono; [|exact (wp_and _ _ _ _ _ H (Hc _ t'))].
    intros o t'' [H1 ->]. by apply H1.
Qed.

(** *** The calls of the guards *)

(** A guard of [pid] waits for it and may send it SIGKILL. *)
Definition guard_call (pid : Z) (s : sys) : Prop :=
  match s with
  | Wait p _ _ => p = pid
  | SI (Kill p sig) => p = pid /\ 0 < pid /\ sig = SIGKILL
  | _ => False
  end.

Lemma calls_wait_retry (P : sys -> Prop) fuel pid opts ru :
  (forall o r, P (Wait pid o r)) -> calls P (wait_retry fuel pid opts ru).
Proof. intros HP. induction fuel as [|fuel IH]; cbn [wait_retry]; calls. Qed.

Lemma calls_guard_wait fuel pid opts ru :
  calls (guard_call pid) (guard_wait fuel (ProcessGuard_new pid) opts ru).
Proof. unfold guard_wait. calls. by apply calls_wait_retry. Qed.

Lemma calls_guard_kill pid : calls (guard_call pid) (guard_kill (ProcessGuard_new pid)).
Proof.
  unfold guard_kill. cbn [pid_ ProcessGuard_new]. case_goal; [done|]. b2p.
  apply calls_bind; [|done]. by apply calls_call.
Qed.

Lemma calls_cleanup pid fuel g :
  g = ProcessGuard_new pid \/ pg_owned g = None -> calls (guard_call pid) (cleanup fuel g).
Proof.
  intros [->|H]; [|by rewrite cleanup_disowned]. unfold cleanup.
  cbn [released_ pid_ ProcessGuard_new orb]. case_goal; [done|]. b2p.
  apply calls_bind; [by apply calls_wait_retry|]. intros w. case_goal; [|done].
  apply calls_bind; [by apply calls_call|]. intros r.
  apply calls_bind; [by apply calls_wait_retry|done].
Qed.

(** The guard a scope ends with: the one it began with, or a released one. *)
Definition guard_of (pid : Z) (g : ProcessGuard) : Prop :=
  g = ProcessGuard_new pid \/ pg_owned g = None.

Lemma calls_with_process {A} (P : sys -> Prop) fuel pid (body : prog (A * ProcessGuard)) :
  (forall s, guard_call pid s -> P s) ->
  calls P body -> yields (fun r => guard_of pid (snd r)) body ->
  calls P (with_process fuel pid body).
Proof.
  intros HP Hb Hy. unfold with_process.
  assert (Hc : forall g, guard_of pid g -> calls P (cleanup fuel g))
    by (intros gd Hg; eapply calls_mono; [exact HP|by apply calls_cleanup]).
  eapply calls_bind_yields.
  - apply calls_try; [exact Hb|]. intros e. apply calls_bind; [|done]. apply Hc. by left.
  - apply yields_try; [exact Hy|]. intros e. by apply yields_seq.
  - intros r Hr. apply calls_bind; [by apply Hc|done].
Qed.

(** ** Programs over guards *)

Lemma pg_owned_Some g pid : pg_owned g = Some pid -> g = ProcessGuard_new pid.
Proof. destruct g as [p []]; unfold pg_owned; cbn; [done|]. case_goal; [done|]. by intros [= ->]. Qed.

(** The children that were waited for, the last first: the wait answered the
    child, or an error. *)
Definition reaped_of (e : event) : option Z :=
  match e with
  | Ev s r =>
      match s return answer s -> option Z with
      | Wait p _ _ => fun w => if w_pid w =? 0 then None else Some p
      | _ => fun _ => None
      end r
  end.

Definition reaped_pids (t : trace) : list Z := omap reaped_of t.

(** Every call is a guard's call for a child of [ps] that has not been waited
    for: after that its pid may be another process's. *)
Fixpoint held (ps : list Z) (t : trace) : Prop :=
  match t with
  | [] => True
  | e :: t => (exists pid, In pid ps /\ ~ In pid (reaped_pids t) /\ guard_call pid (ev_sys e)) /\ held ps t
  end.

Lemma wp_cleanup_held (K : env) fuel g ps t :
  (0 < fuel)%nat -> (forall t' s r, K t' s r -> live t' s r) ->
  held ps t -> (forall pid, pg_owned g = Some pid -> In pid ps /\ ~ In pid (reaped_pids t)) ->
  wp K (cleanup fuel g) (fun o t' => o = OVal tt /\ held ps t' /\
    reaped_pids t' = option_list (pg_owned g) ++ reaped_pids t) t.
Proof.
  intros Hf Hlive Ht Hg. unfold cleanup. destruct (pg_owned g) as [pid|] eqn:Ho.
  2: unfold pg_owned in Ho; by destruct (released_ g || (pid_ g <=? 0)).
  destruct (Hg pid eq_refl) as [Hin Hn]. assert (0 < pid /\ g = ProcessGuard_new pid) as [Hp ->].
  { pose proof (pg_owned_Some g pid Ho) as E. rewrite E in Ho. unfold pg_owned in Ho. cbn in Ho.
    destruct (Z.leb_spec pid 0); [done|]. split; [lia|done]. }
  cbn [released_ pid_ ProcessGuard_new orb]. destruct (Z.leb_spec pid 0); [lia|].
  apply wp_bind, wp_wait_retry; [done..|]. intros w Hw. cbn beta iota.
  destruct (w_pid w =? 0) eqn:E0.
  - apply wp_bind, wp_call. intros r _. cbn beta iota.
    apply wp_bind, wp_wait_retry; [done..|]. intros w2 Hw2. cbn beta iota.
    destruct (Hlive _ _ _ Hw2) as (_ & Hb & _). specialize (Hb eq_refl). apply Z.eqb_neq in Hb.
    cbn. rewrite E0, Hb. cbn. split_and!; [done|exists pid; by split_and!..|done|done].
  - cbn. rewrite E0. split_and!; [done|exists pid; by split_and!|done|done].
Qed.

(** The objects of a program over guards are a store of [Ownership]. *)
Definition guard_store (gs : list ProcessGuard) (t : trace) (gu : list Z) : store (T := ProcessGuard) (R := Z) :=
  Store gs (reaped_pids t) gu.

Lemma guard_owned_fresh gs t gu i g pid :
  List.NoDup (known (guard_store gs t gu)) -> gs !! i = Some g -> pg_owned g = Some pid ->
  In pid (known (guard_store gs t gu)) /\ ~ In pid (reaped_pids t).
Proof.
  intros Hn Hi Ho. apply list_elem_of_split_length in Hi as (l1 & l2 & -> & _).
  assert (Hp : known (guard_store (l1 ++ g :: l2) t gu) ≡ₚ pid :: owned_by (l1 ++ l2) ++ reaped_pids t ++ gu).
  { unfold known, guard_store. cbn [objs released given_up].
    rewrite !owned_by_app, owned_by_cons. cbn [owned process_guard_movable]. rewrite Ho.
    cbn [option_list]. solve_Permutation. }
  rewrite Hp in Hn. apply NoDup_cons_iff in Hn as [Hn _]. split.
  - eapply Permutation_in; [symmetry; exact Hp|by left].
  - intros H. apply Hn, in_or_app. right. apply in_or_app. by left.
Qed.

(** One operation is a step of the store of owners, and touches only a child
    that its guards still hold. *)
Lemma wp_guard_do (K : env) fuel op ps gs gu t :
  (0 < fuel)%nat -> (forall t' s r, K t' s r -> live t' s r) ->
  List.NoDup (known (guard_store gs t gu)) ->
  (forall pid, In pid (known (guard_store gs t gu)) -> In pid ps) -> held ps t ->
  wp K (guard_do fuel op (gs, gu)) (fun o t' => exists gs' gu',
    o = OVal (gs', gu') /\ held ps t' /\
    step (guard_store gs t gu) (option_list (made op)) (guard_store gs' t' gu')) t.
Proof.
  intros Hf Hlive Hn Hps Ht.
  assert (Hc : forall i g (Q : outcome unit -> trace -> Prop), gs !! i = Some g ->
    (forall t', held ps t' -> reaped_pids t' = option_list (pg_owned g) ++ reaped_pids t -> Q (OVal tt) t') ->
    wp K (cleanup fuel g) Q t).
  { intros i g Q Hi HQ. eapply wp_mono; [|apply (wp_cleanup_held K fuel g ps t Hf Hlive Ht)].
    - intros o t' (-> & H1 & H2). by apply HQ.
    - intros pid Ho. destruct (guard_owned_fresh gs t gu i g pid Hn Hi Ho). auto. }
  destruct op as [pid|i|i j|i|i]; cbn [guard_do made].
  - do 2 eexists. split_and!; [done..|].
    replace (option_list _) with (option_list (owned (ProcessGuard_new pid)))
      by (cbn; unfold pg_owned; cbn; by destruct (pid <=? 0)).
    apply (step_construct (guard_store gs t gu)).
  - destruct (gs !! i) as [x|] eqn:Hi; cbn; (do 2 eexists; split_and!; [done..|]); [|apply step_self_assign].
    apply list_elem_of_split_length in Hi as (l1 & l2 & -> & ->).
    rewrite insert_app_r_alt, Nat.sub_diag by lia. cbn. rewrite <-app_assoc.
    exact (step_move_construct (guard_store (l1 ++ x :: l2) t gu) l1 x l2 eq_refl).
  - destruct (gs !! i) as [x|] eqn:Hi; [|do 2 eexists; split_and!; [done..|apply step_self_assign]].
    destruct (gs !! j) as [y|] eqn:Hj; [|do 2 eexists; split_and!; [done..|apply step_self_assign]].
    unfold ProcessGuard_assign. destruct (Nat.eqb_spec i j) as [->|Hij].
    + assert (x = y) as <- by congruence. cbn. rewrite !(list_insert_id gs j x Hi).
      do 2 eexists. split_and!; [done..|apply step_self_assign].
    + apply wp_bind, wp_bind, (Hc i x _ Hi). intros t' Ht' Hr. cbn [wp].
      do 2 eexists. split_and!; [done..|].
      unfold guard_store. rewrite Hr. destruct (Nat.lt_ge_cases i j) as [Hlt|Hge].
      * destruct (two_lookups gs i j x y Hi Hj Hlt) as (l1 & l2 & l3 & E & Hins).
        destruct (Hins (fst (ProcessGuard_move y)) (snd (ProcessGuard_move y))) as [-> _].
        exact (step_assign_l (guard_store gs t gu) l1 x l2 y l3 eq_refl E).
      * destruct (two_lookups gs j i y x Hj Hi ltac:(lia)) as (l1 & l2 & l3 & E & Hins).
        destruct (Hins (snd (ProcessGuard_move y)) (fst (ProcessGuard_move y))) as [_ ->].
        exact (step_assign_r (guard_store gs t gu) l1 y l2 x l3 eq_refl E).
  - destruct (gs !! i) as [x|] eqn:Hi; cbn; (do 2 eexists; split_and!; [done..|]); [|apply step_self_assign].
    apply list_elem_of_split_length in Hi as (l1 & l2 & -> & ->).
    rewrite insert_app_r_alt, Nat.sub_diag by lia. cbn.
    exact (step_disarm (guard_store (l1 ++ x :: l2) t gu) l1 x l2 eq_refl).
  - destruct (gs !! i) as [x|] eqn:Hi; [|do 2 eexists; split_and!; [done..|apply step_self_assign]].
    apply wp_bind, (Hc i x _ Hi). intros t' Ht' Hr. do 2 eexists. split_and!; [done..|].
    unfold guard_store. rewrite Hr. apply list_elem_of_split_length in Hi as (l1 & l2 & -> & ->).
    rewrite delete_middle. exact (step_destroy (guard_store (l1 ++ x :: l2) t gu) l1 x l2 eq_refl).
Qed.

Lemma wp_guard_run (K : env) fuel l : forall ops gs gu t,
  (0 < fuel)%nat -> (forall t' s r, K t' s r -> live t' s r) ->
  reachable l (guard_store gs t gu) -> List.NoDup (omap made ops ++ l) ->
  forall ps, (forall pid, In pid (omap made ops ++ l) -> In pid ps) -> held ps t ->
  wp K (guard_run fuel ops (gs, gu)) (fun o t' => exists gs' gu' l',
    o = OVal (gs', gu') /\ held ps t' /\ l' ≡ₚ omap made ops ++ l /\
    reachable l' (guard_store gs' t' gu')) t.
Proof.
  intros ops. revert l. induction ops as [|op ops IH]; intros l gs gu t Hf Hlive Hr Hn ps Hps Ht.
  - exists gs, gu, l. auto.
  - assert (E : omap made (op :: ops) ++ l ≡ₚ omap made ops ++ option_list (made op) ++ l)
      by (cbn; destruct (made op); [solve_Permutation|done]).
    rewrite E in Hn. cbn [guard_run]. apply wp_bind. eapply wp_mono; cycle 1.
    + apply (wp_guard_do K fuel op ps gs gu t Hf Hlive); [..|exact Ht].
      * rewrite (reachable_known _ _ Hr). rewrite app_assoc in Hn. by apply NoDup_app_remove_l in Hn.
      * intros pid Hp. apply Hps. rewrite E. do 2 (apply in_or_app; right).
        by rewrite <-(reachable_known _ _ Hr).
    + intros o t' (gs' & gu' & -> & Ht' & Hs). cbn beta iota.
      eapply wp_mono; [|apply (IH (option_list (made op) ++ l) gs' gu' t' Hf Hlive)]; [|..].
      * intros o' t'' (gs'' & gu'' & l' & -> & H1 & H2 & H3). exists gs'', gu'', l'.
        split_and!; [done..|by rewrite H2, E|done].
      * by eapply reach_step.
      * done.
      * intros pid Hp. apply Hps. by rewrite E.
      * done.
Qed.

(** C33: Whatever sequence of constructions, move constructions, move
    assignments, releases and destructions of [ProcessGuard]s a program makes for
    distinct children, under every kernel whose waits are answered and not
    interrupted ([live]): the program ends, and every child is then owned by exactly one guard, or was waited for
    exactly once by a destructor or an assignment, or was given up exactly once
    by [release()]; each wait and each SIGKILL of a guard named a child that a
    guard was made for and that had not been waited for yet.  (Waited for: the
    wait answered the child, or an error.) *)
Theorem process_guards_released_once (k : kernel) fuel ops :
  respects k live -> (0 < fuel)%nat -> List.NoDup (omap made ops) ->
  let t := exec_trace k (guard_run fuel ops ([], [])) in
  exists gs gu, exec_outcome k (guard_run fuel ops ([], [])) = OVal (gs, gu) /\
    omap pg_owned gs ++ reaped_pids t ++ gu ≡ₚ omap made ops /\ held (omap made ops) t.
Proof.
  intros Hk Hf Hn t. rewrite <-(app_nil_r (omap made ops)) in Hn.
  pose proof (run_wp live k _ _ [] Hk (wp_guard_run live fuel [] ops [] [] [] Hf (fun _ _ _ H => H)
    reach_init Hn (omap made ops) ltac:(intros pid; by rewrite app_nil_r) I)) as (gs & gu & l & Ho & Ht & Hl & Hr).
  exists gs, gu. split_and!; [exact Ho| |exact Ht].
  apply reachable_known in Hr. rewrite Hl, app_nil_r in Hr. exact Hr.
Qed.

(** Two children: the guard of the second is assigned to the guard of the first,
    which is killed and reaped; the second is reaped at the end of the scope. *)
Definition running_kernel : kernel := fun t s =>
  match s return answer s with
  | Wait p opts _ => if opts =? 0 then WRes (Z.max 1 p) 0 (Some 9) (Some rusage0) else WRes 0 0 None None
  | Now => clock_floor t
  | s => happy t s
  end.

Lemma running_live : respects running_kernel live.
Proof.
  intros t s. destruct s; cbn; try done.
  destruct (Z.eqb_spec options 0) as [->|H]; split_and!; cbn;
    solve [unfold EINTR; lia | eauto | by intros].
Qed.

Lemma process_guards_released_once_witness :
  let ops := [Do_construct 7; Do_construct 8; Do_assign 0 1; Do_move 0; Do_destroy 2; Do_destroy 0] in
  let t := exec_trace running_kernel (guard_run 1 ops ([], [])) in
  reaped_pids t = [8; 7] /\ kills t = [(7, SIGKILL); (8, SIGKILL)] /\
  exists gs gu, exec_outcome running_kernel (guard_run 1 ops ([], [])) = OVal (gs, gu) /\
    omap pg_owned gs ++ reaped_pids t ++ gu ≡ₚ [7; 8] /\ held [7; 8] t.
Proof.
  cbv zeta. split; [vm_compute; reflexivity|]. split; [vm_compute; reflexivity|].
  apply (process_guards_released_once running_kernel 1
           [Do_construct 7; Do_construct 8; Do_assign 0 1; Do_move 0; Do_destroy 2; Do_destroy 0]).
  - exact running_live.
  - lia.
  - cbn. repeat constructor; cbn; intuition lia.
Defined.
