(* ===== verification/Verdict.v ===== *)
(** * From a wait status to a verdict: sandbox.cpp, helpers and the end of Run

    The exit-code tables, the marker a failed [execle] leaves on stderr, the
    macros that decode a wait status, and the decision [Sandbox::Run] takes once
    the child is gone. *)

From S2P Require Import Prelude CInt CFloat CStr Internal Sys Isolation Sample.

(** ** Exit-code tables *)

Definition GetExitCodeDescription (code : Z) : string :=
  match code_of code with
  | Some ERR_OPEN_OUTPUT => "无法打开输出文件 (IO Redirect)"
  | Some ERR_DUP2 => "dup2 调用失败 (IO Redirect)"
  | Some ERR_EXEC_FAILED => "execle 调用失败 (程序启动失败)"
  | Some ERR_CHDIR_FAILED => "chdir 切换工作目录失败"
  | Some ERR_SETGID_FAILED => "setgid 失败 (降权失败)"
  | Some ERR_SETUID_FAILED => "setuid 失败 (降权失败)"
  | Some ERR_RLIMIT_CPU => "setrlimit(CPU) 失败"
  | Some ERR_RLIMIT_MEMORY => "setrlimit(AS) 失败"
  | Some ERR_RLIMIT_STACK => "setrlimit(STACK) 失败"
  | Some ERR_RLIMIT_NPROC => "setrlimit(NPROC) 失败"
  | Some ERR_RLIMIT_FSIZE => "setrlimit(FSIZE) 失败"
  | Some ERR_MOUNT_PRIVATE => "mount --make-rprivate 失败"
  | Some ERR_MOUNT_BIND_SELF => "bind mount 工作目录失败"
  | Some ERR_MOUNT_BIND_LIB => "bind mount 系统库失败"
  | Some ERR_REMOUNT_RO => "remount 系统库 (RO) 失败"
  | Some ERR_PIVOT_ROOT => "pivot_root 系统调用失败"
  | Some ERR_CHDIR_NEW_ROOT => "切换到新根目录失败"
  | Some ERR_UMOUNT_OLD => "umount /old_root 失败"
  | Some ERR_MOUNT_PROC => "mount /proc 失败"
  | Some ERR_MOUNT_TMP => "mount /tmp (tmpfs) 失败"
  | Some ERR_MKDIR_FAILED => "mkdir (构建 Rootfs) 失败"
  | Some ERR_SANDBOX_EXCEPTION => "沙箱内部异常 (C++ Throw)"
  | Some EXIT_OK | None => "与系统相关的未知错误"
  end.

Definition ExitCodeToSandboxError (code : Z) : string :=
  match code_of code with
  | Some ERR_OPEN_OUTPUT => "io_open_output_failed"
  | Some ERR_DUP2 => "io_dup2_failed"
  | Some ERR_EXEC_FAILED => "execve_failed"
  | Some ERR_CHDIR_FAILED => "chdir_failed"
  | Some ERR_SETGID_FAILED => "setgid_failed"
  | Some ERR_SETUID_FAILED => "setuid_failed"
  | Some ERR_RLIMIT_CPU => "rlimit_cpu_failed"
  | Some ERR_RLIMIT_MEMORY => "rlimit_memory_failed"
  | Some ERR_RLIMIT_STACK => "rlimit_stack_failed"
  | Some ERR_RLIMIT_NPROC => "rlimit_nproc_failed"
  | Some ERR_RLIMIT_FSIZE => "rlimit_fsize_failed"
  | Some ERR_MOUNT_PRIVATE => "mount_private_failed"
  | Some ERR_MOUNT_BIND_SELF => "mount_bind_self_failed"
  | Some ERR_MOUNT_BIND_LIB => "mount_bind_lib_failed"
  | Some ERR_REMOUNT_RO => "remount_ro_failed"
  | Some ERR_PIVOT_ROOT => "pivot_root_failed"
  | Some ERR_CHDIR_NEW_ROOT => "chdir_new_root_failed"
  | Some ERR_UMOUNT_OLD => "umount_old_root_failed"
  | Some ERR_MOUNT_PROC => "mount_proc_failed"
  | Some ERR_MOUNT_TMP => "mount_tmpfs_failed"
  | Some ERR_MKDIR_FAILED => "mkdir_failed"
  | Some ERR_SANDBOX_EXCEPTION => "sandbox_exception"
  | Some EXIT_OK | None => "sandbox_child_exit_" +:+ to_string code
  end.

(** ** The marker of a failed [execle] *)

Record RunExecFailureMarker := mkMarker { found : bool; detail : string }.

Definition no_marker : RunExecFailureMarker := mkMarker false EmptyString.

(** The lines a [std::getline] loop sees: a trailing newline opens no line. *)
Fixpoint lines_of (s : string) : list string :=
  match s with
  | EmptyString => []
  | String a r =>
      if Ascii.eqb a (chr 10) then EmptyString :: lines_of r
      else match lines_of r with
           | [] => [String a EmptyString]
           | l :: ls => String a l :: ls
           end
  end.

Definition marker_prefix : string := "[sandbox][run_exec_failed]".

(** [marker.detail.erase(0, 1)] when it begins with a space. *)
Definition drop_space (s : string) : string :=
  match s with
  | String a r => if Ascii.eqb a " "%char then r else s
  | EmptyString => s
  end.

Fixpoint find_marker (ls : list string) : RunExecFailureMarker :=
  match ls with
  | [] => no_marker
  | line :: ls =>
      if negb (String.prefix marker_prefix line) then find_marker ls
      else mkMarker true (drop_space (str_drop (String.length marker_prefix) line))
  end.

Definition ReadRunExecFailureMarker (stderr_path : string) : prog RunExecFailureMarker :=
  if str_empty stderr_path then Ret no_marker
  else
    ifs <- call (ReadStream stderr_path) ;;
    Ret (match ifs with
         | None => no_marker
         | Some content => find_marker (lines_of content)
         end).

(** ** Wait statuses (sys/wait.h) *)

Definition WTERMSIG (status : Z) : Z := Z.land status 127.
Definition WIFEXITED (status : Z) : bool := WTERMSIG status =? 0.
Definition WEXITSTATUS (status : Z) : Z := Z.shiftr (Z.land status 65280) 8.
(** [((signed char)((status & 0x7f) + 1) >> 1) > 0]. *)
Definition WIFSIGNALED (status : Z) : bool :=
  0 <? Z.shiftr (wrap_s 8 (Z.land status 127 + 1)) 1.

(** ** The verdict *)

Definition set_status (s : SandboxStatus) (r : RunResult) : RunResult :=
  mkRunResult s (rr_time_used r) (rr_memory_used r) (rr_exit_code r) (rr_exit_signal r)
    (rr_sandbox_error r) (rr_error_message r).
Definition set_time (v : Z) (r : RunResult) : RunResult :=
  mkRunResult (rr_status r) v (rr_memory_used r) (rr_exit_code r) (rr_exit_signal r)
    (rr_sandbox_error r) (rr_error_message r).
Definition set_memory (v : Z) (r : RunResult) : RunResult :=
  mkRunResult (rr_status r) (rr_time_used r) v (rr_exit_code r) (rr_exit_signal r)
    (rr_sandbox_error r) (rr_error_message r).
Definition set_exit (code sig : Z) (r : RunResult) : RunResult :=
  mkRunResult (rr_status r) (rr_time_used r) (rr_memory_used r) code sig
    (rr_sandbox_error r) (rr_error_message r).
Definition set_error (err msg : string) (r : RunResult) : RunResult :=
  mkRunResult (rr_status r) (rr_time_used r) (rr_memory_used r) (rr_exit_code r)
    (rr_exit_signal r) err msg.

(** [status = SYSTEM_ERROR; sandbox_error = err; error_message = msg;] *)
Definition system_error (err msg : string) (r : RunResult) : RunResult :=
  set_error err msg (set_status SYSTEM_ERROR r).

(** [static_cast<int>(std::ceil(memory_limit_kb * 0.95))]; [None] is undefined
    behaviour. *)
Definition mle_threshold (memory_limit_kb : Z) : option Z :=
  match b64_ceil (b64_mul (b64_of_Z memory_limit_kb) (b64_lit 95 100)) with
  | Some v => chk_i32 v
  | None => None
  end.

Section Judge.
Context {LC : Libc}.

Definition FormatSystemError (pre : string) (err : Z) : string :=
  pre +:+ ": " +:+ strerror err.

Definition runtime_error (signal : Z) (r : RunResult) : RunResult :=
  set_error (rr_sandbox_error r)
    ("Runtime Error (Signal " +:+ to_string signal +:+ ": " +:+ strsignal signal +:+ ")")
    (set_status RUNTIME_ERROR r).

(** The [WIFEXITED] branch. *)
Definition judge_exited (marker : RunExecFailureMarker) (code : Z) (r : RunResult) : RunResult :=
  let r := set_exit code 0 r in
  if code =? 0 then set_status OK r
  else if code =? ERR_EXEC_FAILED then
    if found marker then
      system_error "execve_failed"
        (if negb (str_empty (detail marker))
         then "程序启动失败: " +:+ detail marker
         else "程序启动失败: execve failed") r
    else set_status RUNTIME_ERROR r
  else if 120 <=? code then
    system_error (ExitCodeToSandboxError code)
      ("沙箱恐慌 (退出码 " +:+ to_string code +:+ "): " +:+ GetExitCodeDescription code) r
  else set_status RUNTIME_ERROR r.

(** The [WIFSIGNALED] branch. *)
Definition judge_signaled (time_limit_ms memory_limit_kb signal : Z) (r : RunResult)
    : option RunResult :=
  let r := set_exit (rr_exit_code r) signal r in
  if signal =? SIGXCPU then Some (set_status TIME_LIMIT_EXCEEDED r)
  else if signal =? SIGKILL then
    Some (if time_limit_ms <? rr_time_used r then set_status TIME_LIMIT_EXCEEDED r
          else if memory_limit_kb <? rr_memory_used r then set_status MEMORY_LIMIT_EXCEEDED r
          else runtime_error signal r)
  else if signal =? SIGXFSZ then Some (set_status OUTPUT_LIMIT_EXCEEDED r)
  else if (signal =? SIGABRT) || (signal =? SIGSEGV) then
    match mle_threshold memory_limit_kb with
    | None => None
    | Some threshold =>
        Some (if threshold <=? rr_memory_used r then set_status MEMORY_LIMIT_EXCEEDED r
              else runtime_error signal r)
    end
  else Some (runtime_error signal r).

(** The whole decision on a wait status; [None] is undefined behaviour. *)
Definition judge (time_limit_ms memory_limit_kb : Z) (marker : RunExecFailureMarker)
    (status : Z) (r : RunResult) : option RunResult :=
  if WIFEXITED status then Some (judge_exited marker (WEXITSTATUS status) r)
  else if WIFSIGNALED status then
    judge_signaled time_limit_ms memory_limit_kb (WTERMSIG status) r
  else Some (system_error "wait_status_unknown" "unknown wait status" r).
End Judge.

(** ** Lemmas *)

Lemma WTERMSIG_mod st : WTERMSIG st = st mod 128.
Proof. unfold WTERMSIG. change 127 with (Z.ones 7). by rewrite Z.land_ones. Qed.

Lemma WEXITSTATUS_div st : WEXITSTATUS st = (st / 256) mod 256.
Proof.
  unfold WEXITSTATUS. rewrite Z.shiftr_land. change (Z.shiftr 65280 8) with (Z.ones 8).
  by rewrite Z.land_ones, Z.shiftr_div_pow2.
Qed.

Lemma WIFSIGNALED_mod st :
  WIFSIGNALED st = (1 <=? st mod 128) && (st mod 128 <=? 126).
Proof.
  unfold WIFSIGNALED. fold (WTERMSIG st). rewrite WTERMSIG_mod.
  pose proof (Z.mod_pos_bound st 128 ltac:(lia)) as Hb.
  rewrite Z.shiftr_div_pow2 by lia. change (2 ^ 1) with 2. unfold wrap_s.
  change (2 ^ 8) with 256. change (2 ^ (8 - 1)) with 128.
  set (x := st mod 128) in *.
  destruct (Z.eq_dec x 127) as [->|Hx]; [reflexivity|].
  rewrite Z.mod_small by lia.
  replace (x + 1 + 128 - 128) with (x + 1) by lia.
  destruct (Z.eq_dec x 0) as [->|H0]; [reflexivity|].
  pose proof (Z.div_le_mono 2 (x + 1) 2 ltac:(lia) ltac:(lia)) as H. change (2 / 2) with 1 in H.
  rewrite (proj2 (Z.ltb_lt _ _)), (proj2 (Z.leb_le 1 x)), (proj2 (Z.leb_le x 126)) by lia. done.
Qed.

Definition line_free (s : string) : bool := str_forall (fun a => negb (Ascii.eqb a (chr 10))) s.

Lemma lines_of_prefix p r :
  line_free p = true -> p <> EmptyString -> exists l ls, lines_of (p +:+ r) = (p +:+ l) :: ls.
Proof.
  unfold line_free. induction p as [|a p IH]; [done|]. intros [Ha Hp]%andb_true_iff _.
  cbn [String.append lines_of]. destruct (Ascii.eqb a (chr 10)); [done|].
  destruct p as [|b p].
  - cbn. destruct (lines_of r) as [|l ls]; [by exists EmptyString, []|by exists l, ls].
  - destruct (IH Hp ltac:(done)) as (l & ls & ->). eauto.
Qed.

Lemma lines_of_line s r : line_free s = true -> lines_of (s +:+ newline +:+ r) = s :: lines_of r.
Proof.
  unfold line_free. induction s as [|a s IH]; [done|]. intros [Ha Hs]%andb_true_iff.
  cbn [String.append lines_of]. destruct (Ascii.eqb a (chr 10)); [done|]. by rewrite IH.
Qed.

Lemma lines_of_app s r :
  lines_of (s +:+ newline +:+ r) = lines_of (s +:+ newline) ++ lines_of r.
Proof.
  induction s as [|a s IH]; [done|]. cbn [String.append lines_of]. rewrite IH.
  destruct (Ascii.eqb a (chr 10)); [done|].
  assert (H : lines_of (s +:+ newline) <> []).
  { destruct s as [|b s]; [done|]. cbn. destruct (Ascii.eqb b (chr 10)); [done|].
    by destruct (lines_of (s +:+ newline)). }
  by destruct (lines_of (s +:+ newline)).
Qed.

(** Text made of complete lines. *)
Definition complete_lines (s : string) : Prop := s = EmptyString \/ exists s', s = s' +:+ newline.

Lemma lines_of_complete s r : complete_lines s -> lines_of (s +:+ r) = lines_of s ++ lines_of r.
Proof. intros [->|[s' ->]]; [done|]. by rewrite str_app_assoc, lines_of_app. Qed.

Lemma find_marker_app l1 l2 :
  find_marker l1 = no_marker -> find_marker (l1 ++ l2) = find_marker l2.
Proof.
  induction l1 as [|l l1 IH]; [done|]. cbn.
  destruct (negb (String.prefix marker_prefix l)); [done|discriminate].
Qed.

Lemma find_marker_first l ls :
  find_marker ((marker_prefix +:+ l) :: ls) = mkMarker true (drop_space l).
Proof. cbn [find_marker]. rewrite prefix_app. cbn [negb]. by rewrite str_drop_app. Qed.

Lemma find_marker_written pre rest :
  complete_lines pre -> find_marker (lines_of pre) = no_marker ->
  found (find_marker (lines_of (pre +:+ marker_prefix +:+ rest))) = true.
Proof.
  intros Hc Hp. rewrite lines_of_complete, find_marker_app by done.
  destruct (lines_of_prefix marker_prefix rest eq_refl ltac:(done)) as (l & ls & ->).
  by rewrite find_marker_first.
Qed.

(** The part of the diagnostic after the marker and its space. *)
Definition run_exec_body {LC : Libc} (err : Z) (exe : string) : string :=
  "errno=" +:+ to_string err +:+ "(" +:+ strerror err +:+ ") exe=" +:+ exe.

Lemma run_exec_line_split {LC : Libc} err exe :
  run_exec_line err exe =
    marker_prefix +:+ " " +:+ str_take 996 (run_exec_body err exe) +:+ newline.
Proof. reflexivity. Qed.

Lemma find_marker_exec_line {LC : Libc} err exe pre :
  complete_lines pre -> find_marker (lines_of pre) = no_marker ->
  found (find_marker (lines_of (pre +:+ run_exec_line err exe))) = true.
Proof. rewrite run_exec_line_split. apply find_marker_written. Qed.

Lemma wexitstatus_code c : 0 <= c <= 255 -> WIFEXITED (256 * c) = true /\ WEXITSTATUS (256 * c) = c.
Proof.
  intros Hc. unfold WIFEXITED. rewrite WTERMSIG_mod, WEXITSTATUS_div.
  replace (256 * c) with (2 * c * 128) at 1 by lia. rewrite Z.mod_mul by lia.
  rewrite Z.mul_comm, Z.div_mul by lia. by rewrite Z.mod_small by lia.
Qed.

(** ** Theorems *)

(** Decoding inverts the kernel's encoding: an exit code from 0 to 255 and a
    signal from 1 to 126, with or without a core dump, are read back, and no
    status is taken for both. *)
Theorem wait_status_roundtrip :
  (forall c, 0 <= c <= 255 -> WIFEXITED (256 * c) = true /\ WEXITSTATUS (256 * c) = c) /\
  (forall s core, 1 <= s <= 126 ->
     let st := s + 128 * Z.b2z core in
     WIFSIGNALED st = true /\ WIFEXITED st = false /\ WTERMSIG st = s) /\
  (forall st, WIFEXITED st && WIFSIGNALED st = false) /\
  (forall st, WIFEXITED st || WIFSIGNALED st = false <-> st mod 128 = 127).
Proof.
  split; [exact wexitstatus_code|]. split; [|split]; unfold WIFEXITED.
  - intros s core Hs. set (st := s + _). rewrite WIFSIGNALED_mod, WTERMSIG_mod.
    assert (Hm : st mod 128 = s).
    { unfold st. rewrite Z.mul_comm, Z.mod_add by lia. apply Z.mod_small. lia. }
    rewrite Hm, (proj2 (Z.leb_le 1 s)), (proj2 (Z.leb_le s 126)), (proj2 (Z.eqb_neq s 0)) by lia.
    done.
  - intros st. rewrite WIFSIGNALED_mod, WTERMSIG_mod.
    destruct (Z.eqb_spec (st mod 128) 0) as [->|]; done.
  - intros st. rewrite WIFSIGNALED_mod, WTERMSIG_mod.
    pose proof (Z.mod_pos_bound st 128 ltac:(lia)).
    destruct (Z.eqb_spec (st mod 128) 0), (Z.leb_spec 1 (st mod 128)),
      (Z.leb_spec (st mod 128) 126); cbn; split; intros; try done; lia.
Qed.

Lemma sandbox_error_nonempty c : ExitCodeToSandboxError c <> EmptyString.
Proof. unfold ExitCodeToSandboxError. destruct (code_of c) as [[]|]; cbn; done. Qed.

(** The machine-readable error names the exit code: two different codes of a
    child never give the same [sandbox_error], and it is never empty. *)
Theorem sandbox_error_identifies_code c d :
  ExitCodeToSandboxError c <> EmptyString /\
  (ExitCodeToSandboxError c = ExitCodeToSandboxError d -> c = d).
Proof.
  assert (Hpre : forall x y, "sandbox_child_exit_" +:+ to_string x =
                        "sandbox_child_exit_" +:+ to_string y -> x = y).
  { intros x y H. cbn [String.append] in H. injection H as H.
    apply (f_equal strtoz) in H. rewrite !strtoz_to_string in H. congruence. }
  split; [apply sandbox_error_nonempty|]. unfold ExitCodeToSandboxError.
  - destruct (code_of c) as [x|] eqn:Ec, (code_of d) as [y|] eqn:Ed.
    + apply code_of_Some in Ec as ->, Ed as ->.
      destruct x, y; cbn; try done; discriminate.
    + apply code_of_Some in Ec as ->. destruct x; cbn; try discriminate. apply (Hpre 0).
    + apply code_of_Some in Ed as ->. destruct y; cbn; try discriminate. intros H. by apply (Hpre c 0).
    + apply Hpre.
Qed.

(** The reader finds the line the run child writes before exiting with
    [ERR_EXEC_FAILED]: on a stderr file made of complete unmarked lines followed
    by it, the detail is the text of the line without the marker, cut at 996
    bytes. *)
Theorem marker_roundtrip {LC : Libc} files k stderr_path pre err exe :
  respects k (static_files files) -> stderr_path <> EmptyString ->
  files stderr_path = Some (pre +:+ run_exec_line err exe) ->
  complete_lines pre -> find_marker (lines_of pre) = no_marker ->
  line_free (run_exec_body err exe) = true ->
  exec_outcome k (ReadRunExecFailureMarker stderr_path) =
    OVal (mkMarker true (str_take 996 (run_exec_body err exe))).
Proof.
  intros Hk Hne Hf Hc Hp Hl.
  apply (run_wp _ k (ReadRunExecFailureMarker stderr_path) (fun o _ => o = _) [] Hk).
  unfold ReadRunExecFailureMarker. destruct stderr_path as [|a p] eqn:Ep; [done|].
  rewrite <- Ep in *. replace (str_empty stderr_path) with false by by rewrite Ep.
  apply wp_bind, wp_call. intros r Hr. change (r = files stderr_path) in Hr. subst r.
  cbn. rewrite Hf, lines_of_complete, find_marker_app, run_exec_line_split by done.
  set (body := str_take 996 (run_exec_body err exe)).
  pose proof (lines_of_line (marker_prefix +:+ " " +:+ body) EmptyString) as Hline.
  rewrite str_app_nil_r, !str_app_assoc in Hline. rewrite Hline.
  - by rewrite find_marker_first.
  - unfold line_free in *. rewrite !str_forall_app. unfold body.
    by rewrite str_forall_take by done.
Qed.

(** C5: The verdict on a wait status, case by case: accepted exactly on exit
    code 0; a system error exactly on an exit code of 120 or more (127 only with
    the marker) or an undecodable status, and then it is named; a time, memory
    or output verdict exactly on the listed signals and measurements. *)
Theorem judge_decision {LC : Libc} tl ml marker st r r' :
  judge tl ml marker st r = Some r' ->
  let code := WEXITSTATUS st in
  let sig := WTERMSIG st in
  let exited := WIFEXITED st = true in
  let signaled := WIFSIGNALED st = true in
  (rr_status r' = OK <-> exited /\ code = 0) /\
  (rr_status r' = SYSTEM_ERROR <->
     exited /\ 120 <= code /\ (code = 127 -> found marker = true) \/
     ~ exited /\ ~ signaled) /\
  (rr_status r' = TIME_LIMIT_EXCEEDED <->
     ~ exited /\ signaled /\ (sig = SIGXCPU \/ sig = SIGKILL /\ tl < rr_time_used r)) /\
  (rr_status r' = MEMORY_LIMIT_EXCEEDED <->
     ~ exited /\ signaled /\
     (sig = SIGKILL /\ rr_time_used r <= tl /\ ml < rr_memory_used r \/
      (sig = SIGABRT \/ sig = SIGSEGV) /\
      exists v, mle_threshold ml = Some v /\ v <= rr_memory_used r)) /\
  (rr_status r' = OUTPUT_LIMIT_EXCEEDED <-> ~ exited /\ signaled /\ sig = SIGXFSZ) /\
  (rr_status r' = SYSTEM_ERROR -> rr_sandbox_error r' <> EmptyString).
Proof.
  cbv zeta. intros H.
  pose proof (sandbox_error_nonempty (WEXITSTATUS st)) as Hne.
  unfold judge, judge_exited, judge_signaled, system_error in H.
  unfold SIGXCPU, SIGKILL, SIGXFSZ, SIGABRT, SIGSEGV in *. change (code_val ERR_EXEC_FAILED) with 127 in H.
  repeat case_hyp H; try discriminate H; injection H as <-; b2p;
    cbn [rr_status rr_sandbox_error rr_time_used rr_memory_used set_status set_error set_exit
         runtime_error] in *;
    repeat match goal with
    | Hs : (_ || _)%bool = true |- _ => apply orb_true_iff in Hs as [?|?]; b2p
    | Hs : mle_threshold ml = Some _ |- _ => rewrite Hs in *
    end;
    naive_solver (first [lia|congruence|discriminate]).
Qed.

(** C27: What the parent makes of a child that did not reach the program: a
    set-up code gives a system error with that code's name, a failed [execle]
    gives a system error through the marker it wrote, and only the three
    redirection codes are taken for a runtime error of the program. *)
Theorem child_failure_verdict {LC : Libc} g b args k tl ml r c :
  exec_outcome k (RunChildFn g b args) = OHalt (HExit c) ->
  let judged content := judge tl ml (find_marker (lines_of content)) (256 * c) r in
  (In c redirect_codes /\ forall content, exists r', judged content = Some r' /\
     rr_status r' = RUNTIME_ERROR /\ rr_exit_code r' = c) \/
  (exists e, c = code_val e /\ In e setup_codes /\ forall content, exists r',
     judged content = Some r' /\ rr_status r' = SYSTEM_ERROR /\ rr_exit_code r' = c /\
     rr_sandbox_error r' = ExitCodeToSandboxError c) \/
  (c = ERR_EXEC_FAILED /\ exists line,
     last_write (exec_trace k (RunChildFn g b args)) line /\
     forall pre, complete_lines pre -> find_marker (lines_of pre) = no_marker ->
       exists r', judged (pre +:+ line) = Some r' /\ rr_status r' = SYSTEM_ERROR /\
         rr_sandbox_error r' = "execve_failed").
Proof.
  intros Hc judged. pose proof (wp_RunChildFn g b args) as Hw.
  apply (run_wp any_env k _ _ [] (respects_any k)) in Hw.
  unfold exec_outcome in Hc. rewrite Hc in Hw.
  unfold run_child_post in Hw. unfold exec_trace.
  destruct Hw as [Hin|[(e & [= ->] & Hin)|(-> & err & Hl)]].
  - left. split; [done|]. intros content. unfold judged, judge.
    destruct (wexitstatus_code c) as [-> ->]; cbn in Hin;
      [destruct_or! Hin; subst c; done || lia|].
    destruct_or! Hin; subst c; cbn; eauto.
  - right; left. exists e. split; [done|]. split; [done|]. intros content.
    unfold judged, judge.
    destruct (wexitstatus_code e) as [-> ->]; [destruct e; cbn; lia|].
    cbn in Hin. destruct_or! Hin; subst e; cbn; eauto 6.
  - right; right. split; [done|].
    exists (run_exec_line err (in_new_root (rc_exe_path args))). split; [exact Hl|]. intros pre Hp Hm.
    pose proof (find_marker_exec_line err (in_new_root (rc_exe_path args)) pre Hp Hm) as Hf.
    unfold judged.
    unfold judge, judge_exited. destruct (wexitstatus_code ERR_EXEC_FAILED) as [-> ->]; [cbn; lia|].
    rewrite Hf. cbn; eauto.
Qed.

(** On every limit of a whole number of megabytes up to a gigabyte, the
    threshold above which an abort or a segmentation fault is read as a memory
    verdict is 95 percent of the limit, rounded up, despite the rounding of the
    doubles. *)
Theorem mle_threshold_exact k :
  0 <= k <= 1024 -> mle_threshold (1024 * k) = Some ((95 * (1024 * k) + 99) / 100).
Proof.
  intros Hk.
  assert (Hall : forallb (fun i => bool_decide
            (mle_threshold (1024 * Z.of_nat i) = Some ((95 * (1024 * Z.of_nat i) + 99) / 100)))
            (seq 0 1025) = true) by (vm_compute; reflexivity).
  pose proof (forallb_In _ _ (Z.to_nat k) Hall) as H.
  cbv beta in H. rewrite Z2Nat.id in H by lia. apply (bool_decide_eq_true _), H, in_seq. lia.
Qed.

(** ** Witnesses *)

Lemma marker_roundtrip_witness :
  let files : string -> option string := fun p =>
    if bool_decide (p = "/tmp/deep_oj/job/stderr.txt")
    then Some ("noise" +:+ newline +:+ run_exec_line 2 "/main") else None in
  let k : kernel := fun t s =>
    match s return answer s with ReadStream p => files p | s => happy t s end in
  exec_outcome k (ReadRunExecFailureMarker "/tmp/deep_oj/job/stderr.txt") =
    OVal (mkMarker true "errno=2(error) exe=/main").
Proof.
  cbv zeta.
  refine (marker_roundtrip (fun p =>
    if bool_decide (p = "/tmp/deep_oj/job/stderr.txt")
    then Some ("noise" +:+ newline +:+ run_exec_line 2 "/main") else None) _ _
    ("noise" +:+ newline) 2 "/main" _ _ _ _ _ _).
  - intros t s. by destruct s.
  - discriminate.
  - reflexivity.
  - right. by exists "noise".
  - reflexivity.
  - reflexivity.
Defined.

Lemma judge_decision_witness :
  exists r', judge 1000 131072 no_marker 139 (set_memory 130000 RunResult0) = Some r' /\
    (rr_status r' = MEMORY_LIMIT_EXCEEDED <->
     ~ WIFEXITED 139 = true /\ WIFSIGNALED 139 = true /\
     (WTERMSIG 139 = SIGKILL /\ 0 <= 1000 /\ 131072 < 130000 \/
      (WTERMSIG 139 = SIGABRT \/ WTERMSIG 139 = SIGSEGV) /\
      exists v, mle_threshold 131072 = Some v /\ v <= 130000)).
Proof.
  eexists. split; [vm_compute; reflexivity|].
  pose proof (judge_decision 1000 131072 no_marker 139 (set_memory 130000 RunResult0) _ eq_refl) as H.
  exact (proj1 (proj2 (proj2 (proj2 H)))).
Defined.

Lemma child_failure_verdict_witness :
  let k : kernel := fun t s =>
    match s return answer s with SI (Mount _ _ _ _ _) => IRes (-1) 1 | s => happy t s end in
  exec_outcome k (RunChildFn config true run_args) = OHalt (HExit ERR_MOUNT_PRIVATE) /\
  exists r', judge 1000 131072 (find_marker (lines_of "")) (256 * ERR_MOUNT_PRIVATE) RunResult0 =
               Some r' /\ rr_status r' = SYSTEM_ERROR /\ rr_sandbox_error r' = "mount_private_failed".
Proof.
  intros k. assert (H : exec_outcome k (RunChildFn config true run_args) =
                        OHalt (HExit ERR_MOUNT_PRIVATE)) by (vm_compute; reflexivity).
  split; [exact H|].
  destruct (child_failure_verdict config true run_args k 1000 131072 RunResult0 _ H)
    as [[Hin _]|[(e & _ & _ & Hr)|[He _]]].
  - cbn in Hin. intuition discriminate.
  - destruct (Hr "") as (r' & H1 & H2 & _ & H3). exists r'. auto.
  - discriminate He.
Defined.

Lemma mle_threshold_exact_witness : 0 <= 128 <= 1024 /\ mle_threshold 131072 = Some 124519.
Proof. split; [lia|]. apply (mle_threshold_exact 128). lia. Defined.
