(* ===== verification/Compile.v ===== *)
(** * The sandbox object and the compilation of a request: sandbox.cpp

    [Sandbox] owns a root directory; [Compile] builds a request in a directory of
    its own below it and [Cleanup] removes that directory. *)

From S2P Require Import Prelude CInt CStr Internal Sys Ownership Isolation Guards Verdict Sample.

(** ** Request identifiers *)

(** [std::isalnum] in the "C" locale. *)
Definition isalnum (a : ascii) : bool :=
  let n := Ascii.nat_of_ascii a in
  (Nat.leb 48 n && Nat.leb n 57) || (Nat.leb 65 n && Nat.leb n 90) || (Nat.leb 97 n && Nat.leb n 122).

Definition id_char (c : ascii) : bool :=
  isalnum c || Ascii.eqb c "_"%char || Ascii.eqb c "-"%char.

Definition IsValidRequestId (id : string) : bool :=
  if str_empty id || (64 <? slen id) then false else str_forall id_char id.

(** ** Flags of [clone] *)

Definition CLONE_NEWNS : Z := 131072.
Definition CLONE_NEWUTS : Z := 67108864.
Definition CLONE_NEWIPC : Z := 134217728.
Definition CLONE_NEWPID : Z := 536870912.
Definition CLONE_NEWNET : Z := 1073741824.

Definition sandbox_clone_flags : Z :=
  fold_left Z.lor [CLONE_NEWNS; CLONE_NEWNET; CLONE_NEWIPC; CLONE_NEWUTS; SIGCHLD] CLONE_NEWPID.

(** [fs::perms::owner_all]. *)
Definition owner_all : Z := 448.

(** ** Results *)

Definition compile_error (msg : string) (r : CompileResult) : CompileResult :=
  mkCompileResult (cr_success r) (cr_exe_path r) msg.

Section Compile.
Context {LC : Libc} (fuel : nat) (g : GlobalConfig).

(** [Sandbox::Sandbox]: the object is its root directory. *)
Definition Sandbox_new (temp_dir : string) : prog string :=
  r <- call (FsCreateDirectories temp_dir) ;;
  match fs_ec r with
  | Some m =>
      throw (RuntimeError ("Sandbox 初始化失败: 无法创建根临时目录 '" +:+ temp_dir +:+ "': " +:+ m))
  | None => Ret temp_dir
  end.

(** The loop that waits for the compiler: an error message, or the status. *)
Fixpoint compile_loop (n : nat) (limit_ms start_time : Z) (proc : ProcessGuard)
    : prog ((string + option Z) * ProcessGuard) :=
  match n with
  | O => Halt HFuel
  | S n =>
      w <- wait_nonblock fuel proc ;;
      if w_pid w =? -1 then
        if w_errno w =? EINTR then compile_loop n limit_ms start_time proc
        else Ret (inl (FormatSystemError "系统调用 waitpid 失败" (w_errno w)), proc)
      else if negb (w_pid w =? 0) then Ret (inr (w_status w), release proc)
      else
        now <- call Now ;;
        let elapsed_ms := Z.quot (now - start_time) 1000000 in
        if limit_ms <? elapsed_ms then
          guard_kill proc ;;
          wait fuel proc ;;
          Ret (inl ("编译超时 (> " +:+ to_string limit_ms +:+
                    "ms). 可能存在极度复杂的模板展开。"), proc)
        else
          call (SleepMs 50) ;;
          compile_loop n limit_ms start_time proc
  end.

(** What [std::ifstream] and [rdbuf] deliver. *)
Definition read_log (log_file : string) : prog string :=
  ifs <- call (ReadStream log_file) ;; Ret (default EmptyString ifs).

(** The text reported for a compiler that exited with a non-zero code. *)
Definition compile_exit_message (exit_code : Z) (compile_log : string) : string :=
  if 120 <=? exit_code then
    "编译沙箱系统错误 (退出码: " +:+ to_string exit_code +:+ ", sandbox_error: " +:+
    ExitCodeToSandboxError exit_code +:+ "): " +:+ GetExitCodeDescription exit_code +:+
    (if negb (str_empty compile_log) then newline +:+ compile_log
     else newline +:+ "(未读取到 compile_error.log)")
  else if negb (str_empty compile_log) then compile_log
  else "编译失败 (g++ 退出码: " +:+ to_string exit_code +:+ ")，且无法读取错误日志".

(** The end of [Compile]: the status decides, and success keeps the
    directory. *)
Definition compile_status (status : Z) (exe_file log_file : string) (result : CompileResult)
    (dir_guard : DirectoryGuard) : prog (CompileResult * DirectoryGuard) :=
  if WIFEXITED status then
    let exit_code := WEXITSTATUS status in
    if exit_code =? 0 then
      Ret (mkCompileResult true exe_file (cr_error_message result), commit dir_guard)
    else
      compile_log <- read_log log_file ;;
      Ret (compile_error (compile_exit_message exit_code compile_log) result, dir_guard)
  else if WIFSIGNALED status then
    Ret (compile_error ("编译器异常终止 (Signal: " +:+ to_string (WTERMSIG status) +:+ ")") result,
         dir_guard)
  else Ret (compile_error "编译器因未知原因结束" result, dir_guard).

Definition compile_args_of (source_file exe_file log_file : string) : CompileArgs :=
  mkCompileArgs (strncpy_z 255 source_file) (strncpy_z 255 exe_file) (strncpy_z 255 log_file).

(** What happens under the guard of the compiler [pid]. *)
Definition compile_watch (pid : Z) (exe_file log_file : string) (result : CompileResult)
    (dir_guard : DirectoryGuard) : prog ((CompileResult * DirectoryGuard) * ProcessGuard) :=
  limit_ms <- defined (chk_i32 (compile_real_limit g * 1000)) ;;
  start_time <- call Now ;;
  out <- compile_loop fuel limit_ms start_time (ProcessGuard_new pid) ;;
  match fst out with
  | inl msg => Ret ((compile_error msg result, dir_guard), snd out)
  | inr status =>
      st <- defined status ;;
      r <- compile_status st exe_file log_file result dir_guard ;;
      Ret (r, snd out)
  end.

(** From the guard on the directory to the end of its scope: clone the
    compiler, watch it, judge it. *)
Definition compile_child (request_dir source_file : string) (result : CompileResult)
    : prog (CompileResult * DirectoryGuard) :=
  let exe_file := path_append request_dir "main" in
  let log_file := path_append request_dir "compile_error.log" in
  let dir_guard := DirectoryGuard_new request_dir in
  pid <- call (Clone (CompileEntry (compile_args_of source_file exe_file log_file))
                 sandbox_clone_flags) ;;
  if rv pid =? -1 then
    Ret (compile_error (FormatSystemError "系统调用 clone (compile) 失败" (errno pid)) result, dir_guard)
  else
    with_process fuel (rv pid) (compile_watch (rv pid) exe_file log_file result dir_guard).

Definition Compile (temp_dir_ request_id source_code : string) : prog CompileResult :=
  if negb (IsValidRequestId request_id) then
    cerr ("[Security] 严重警告: 检测到非法 request_id '" +:+ request_id +:+ "'。请求已拒绝。" +:+ newline) ;;
    Ret (mkCompileResult false "" "安全违规: 请求 ID 包含非法字符 (潜在路径遍历攻击)")
  else
    let request_dir := path_append temp_dir_ request_id in
    mk <- call (FsCreateDirectories request_dir) ;;
    let result :=
      match fs_ec mk with
      | Some m => compile_error ("无法创建请求目录 '" +:+ request_dir +:+ "': " +:+ m) CompileResult0
      | None => CompileResult0
      end in
    let source_file := path_append request_dir "main.cpp" in
    ofs <- call (WriteStream source_file source_code) ;;
    match ofs with
    | WOpenFailed => Ret (compile_error ("无法打开文件进行写入: " +:+ source_file) result)
    | WBad => Ret (compile_error "写入源代码时发生 I/O 错误" result)
    | WGood =>
        own <- icall_ (Chown (c_str request_dir) (run_uid g) (run_gid g)) ;;
        if negb (rv own =? 0) then
          Ret (compile_error (FormatSystemError "无法修改目录所有者" (errno own)) result)
        else
          perm <- call (FsPermissions request_dir owner_all) ;;
          match fs_ec perm with
          | Some m => Ret (compile_error ("无法设置目录权限: " +:+ m) result)
          | None =>
              r <- compile_child request_dir source_file result ;;
              DirectoryGuard_dtor (snd r) ;;
              Ret (fst r)
          end
    end.

(** [Cleanup]. *)
Definition Cleanup (temp_dir_ request_id : string) : prog unit :=
  if str_empty request_id then Ret tt
  else if negb (IsValidRequestId request_id) then Ret tt
  else
    let request_dir := path_append temp_dir_ request_id in
    ex <- call (FsExists request_dir) ;;
    if fs_val ex then
      rm <- call (FsRemoveAll request_dir) ;;
      match fs_ec rm with
      | Some m =>
          cerr ("[Sandbox] Cleanup Warning: Failed to remove " +:+ quoted request_dir +:+ ": " +:+
                m +:+ newline)
      | None => Ret tt
      end
    else Ret tt.
End Compile.

(** ** Lemmas: identifiers and paths *)

Lemma valid_id_chars id : IsValidRequestId id = true -> id <> EmptyString /\ str_forall id_char id = true.
Proof. unfold IsValidRequestId. destruct id; [done|]. cbn [str_empty orb]. by case_goal. Qed.

Lemma id_char_plain c : id_char c = true -> Ascii.eqb c slash = false /\ Ascii.eqb c NUL = false /\
  Ascii.eqb c "."%char = false.
Proof. by destruct c as [[] [] [] [] [] [] [] []]. Qed.

Lemma valid_id_plain id : IsValidRequestId id = true -> plain_name id = true.
Proof.
  intros [Hne Hc]%valid_id_chars. unfold plain_name. destruct id; [done|]. cbn [str_empty negb andb].
  eapply str_forall_mono; [|exact Hc]. intros c (H1 & H2 & _)%id_char_plain. by rewrite H1.
Qed.

Lemma valid_id_no_nul id : IsValidRequestId id = true -> no_nul id = true.
Proof.
  intros [_ Hc]%valid_id_chars. eapply str_forall_mono; [|exact Hc].
  intros c (_ & H & _)%id_char_plain. by rewrite H.
Qed.

(** ** Lemmas: the waiting loop *)

(** The status with which a wait answered the child. *)
Definition exited_with (pid : Z) (P : Z -> Prop) (e : event) : Prop :=
  match e with
  | Ev s r =>
      match s return answer s -> Prop with
      | Wait p _ _ => fun w => p = pid /\ w_pid w <> 0 /\ exists st, w_status w = Some st /\ P st
      | _ => fun _ => False
      end r
  end.

(** The children a history created. *)
Definition cloned : trace -> list Z :=
  log_of (fun e => match e with
                   | Ev s r => match s return answer s -> option Z with
                               | Clone _ _ => fun r => Some (rv r)
                               | _ => fun _ => None
                               end r
                   end).

Lemma cloned_quiet e t :
  (match e with Ev (Clone _ _) _ => False | _ => True end) -> cloned (e :: t) = cloned t.
Proof.
  intros H. unfold cloned. rewrite log_of_cons.
  by destruct e as [s r]; destruct s; try rewrite app_nil_r.
Qed.

#[export] Hint Rewrite cloned_quiet using exact I : oj_rw.

Section CompileProofs.
Context {LC : Libc} (fuel : nat) (g : GlobalConfig) (Hfuel : (0 < fuel)%nat).

(** Fuel for [n] polls of 50 ms, the last one past the limit. *)
Definition loop_fuel (n : nat) (limit_ms start_time : Z) (t : trace) : Prop :=
  (1 <= n)%nat /\ start_time <= clock_floor t /\
  (limit_ms + 1) * 1000000 - (clock_floor t - start_time) < (Z.of_nat n - 1) * 50000000.

(** What the loop leaves: the status a wait answered and a released guard, or
    a message and the guard as it was. *)
Definition loop_post (pid : Z) (t : trace)
    (o : outcome ((string + option Z) * ProcessGuard)) (t' : trace) : Prop :=
  removals t' = removals t /\ cloned t' = cloned t /\
  exists out pr, o = OVal (out, pr) /\
    match out with
    | inr status => exists st, status = Some st /\ pr = release (ProcessGuard_new pid) /\
        Exists (exited_with pid (fun s => s = st)) t' /\ reaped pid t'
    | inl _ => pr = ProcessGuard_new pid
    end.

Lemma loop_fuel_step n limit_ms start_time t now :
  loop_fuel (S n) limit_ms start_time t -> clock_floor t <= now ->
  Z.quot (now - start_time) 1000000 <= limit_ms ->
  (1 <= n)%nat /\ start_time <= now + 50000000 /\
  (limit_ms + 1) * 1000000 - (now + 50000000 - start_time) < (Z.of_nat n - 1) * 50000000.
Proof.
  intros (_ & Hs & Hb) Hn Hq. rewrite Z.quot_div_nonneg in Hq by lia.
  pose proof (Z.div_mod (now - start_time) 1000000 ltac:(lia)).
  pose proof (Z.mod_pos_bound (now - start_time) 1000000 ltac:(lia)). lia.
Qed.

Lemma wp_compile_loop n limit_ms start_time pid t :
  loop_fuel n limit_ms start_time t ->
  wp live (compile_loop fuel n limit_ms start_time (ProcessGuard_new pid)) (loop_post pid t) t.
Proof.
  revert t. induction n as [|n IH]; intros t Hn; [destruct Hn; lia|].
  cbn [compile_loop]. unfold wait_nonblock, guard_wait. cbn [pid_ ProcessGuard_new].
  destruct (pid <=? 0) eqn:Hpid.
  { split; [done|]. split; [done|]. by eexists _, _. }
  apply wp_bind, wp_wait_retry; [done..|]. intros w (Hi & _ & Hst & _). cbn beta iota.
  destruct (Z.eqb_spec (w_pid w) (-1)) as [H1|H1].
  - destruct (Z.eqb_spec (w_errno w) EINTR) as [H2|H2]; [tauto|].
    split; [|split]; autorewrite with oj_rw; [done..|]. by eexists _, _.
  - destruct (Z.eqb_spec (w_pid w) 0) as [H0|H0]; cbn [negb].
    2: { destruct (Hst H0 H1) as [st Hs]. split; [|split]; autorewrite with oj_rw; [done..|].
         eexists _, _. split; [done|]. cbn. rewrite Hs. exists st.
         repeat (split; [done|]). split; apply Exists_cons_hd; cbn; eauto 6. }
    apply wp_bind, wp_call. intros now Hnow. cbn beta iota. cbn in Hnow.
    destruct (limit_ms <? _) eqn:Hlim; b2p.
    + apply wp_bind. unfold guard_kill. cbn [pid_ ProcessGuard_new]. rewrite (proj2 (Z.leb_gt _ _) Hpid).
      apply wp_bind, wp_call. intros r _. cbn beta iota. cbn [wp].
      apply wp_bind. unfold wait, guard_wait. cbn [pid_ ProcessGuard_new]. rewrite (proj2 (Z.leb_gt _ _) Hpid).
      apply wp_wait_retry; [done..|]. intros w2 _. cbn [wp].
      split; [|split]; autorewrite with oj_rw; [done..|]. by eexists _, _.
    + apply wp_bind, wp_call. intros u _. cbn beta iota.
      eapply wp_mono; [|apply IH].
      * intros o t' (H2 & H3 & H4). split; [|split]; [| |exact H4].
        -- rewrite H2. by autorewrite with oj_rw.
        -- rewrite H3. by autorewrite with oj_rw.
      * pose proof (loop_fuel_step _ _ _ _ _ Hn Hnow Hlim) as H. exact H.
Qed.

(** What [compile_child] leaves: on success the guard is disarmed and some
    wait answered exit code 0; otherwise the guard still holds the directory.
    A child that was created has been waited for. *)
Definition child_post (dir : string) (t : trace)
    (o : outcome (CompileResult * DirectoryGuard)) (t' : trace) : Prop :=
  removals t' = removals t /\
  exists r dg pid, o = OVal (r, dg) /\ cloned t' = cloned t ++ [pid] /\
    (0 < pid -> reaped pid t') /\
    if cr_success r
    then dg = commit (DirectoryGuard_new dir) /\ cr_exe_path r = path_append dir "main" /\
         Exists (exited_with pid (fun st => WIFEXITED st = true /\ WEXITSTATUS st = 0)) t'
    else dg = DirectoryGuard_new dir.

Lemma wp_compile_status st exe_file log_file result dg t :
  cr_success result = false ->
  wp live (compile_status st exe_file log_file result dg) (fun o t' =>
    (t' = t \/ exists r, t' = Ev (ReadStream log_file) r :: t) /\
    exists r, o = OVal (r, if cr_success r then commit dg else dg) /\
      (cr_success r = true ->
         WIFEXITED st = true /\ WEXITSTATUS st = 0 /\ cr_exe_path r = exe_file)) t.
Proof.
  intros Hr. unfold compile_status. destruct (WIFEXITED st) eqn:He.
  - destruct (Z.eqb_spec (WEXITSTATUS st) 0) as [H0|H0].
    + split; [by left|]. exists (mkCompileResult true exe_file (cr_error_message result)). auto.
    + apply wp_bind, wp_bind, wp_call. intros c _. split; [right; eauto|].
      exists (compile_error (compile_exit_message (WEXITSTATUS st) (default "" c)) result).
      cbn. by rewrite Hr.
  - destruct (WIFSIGNALED st); (split; [by left|]); eexists (compile_error _ _);
      cbn; rewrite Hr; by split.
Qed.

Lemma Exists_suffix {A} (P : A -> Prop) l1 l2 : Exists P l2 -> Exists P (l1 ++ l2).
Proof. intros H. apply Exists_app. by right. Qed.

(** The end of the guard's scope keeps what is known of the history. *)
Lemma wp_cleanup_keeps gd (Q : outcome unit -> trace -> Prop) t :
  (forall t' evs, t' = evs ++ t -> removals t' = removals t -> cloned t' = cloned t ->
     (forall pid, pg_owned gd = Some pid -> reaped pid t') -> Q (OVal tt) t') ->
  wp live (cleanup fuel gd) Q t.
Proof.
  intros HQ. apply wp_cleanup; [done..| |].
  - intros Hn. apply (HQ t []); [done..|]. by rewrite Hn.
  - intros pid w t' Hg Hw [->|(w0 & r & ->)].
    + eapply (HQ _ [_]); [reflexivity|by autorewrite with oj_rw..|].
      rewrite Hg. intros p [= <-]. by apply Exists_cons_hd.
    + eapply (HQ _ [_; _; _]); [reflexivity|by autorewrite with oj_rw..|].
      rewrite Hg. intros p [= <-]. by apply Exists_cons_hd.
Qed.

Lemma exited_with_mono pid (P R : Z -> Prop) t :
  (forall st, P st -> R st) -> Exists (exited_with pid P) t -> Exists (exited_with pid R) t.
Proof.
  intros HPR H. eapply Exists_impl; [exact H|]. intros [s r]. destruct s; cbn; try done.
  intros (? & ? & st & ? & ?). eauto 6.
Qed.

Lemma wp_compile_child dir source_file result lim t :
  cr_success result = false ->
  chk_i32 (compile_real_limit g * 1000) = Some lim ->
  lim + 1 < 50 * (Z.of_nat fuel - 1) ->
  wp live (compile_child fuel g dir source_file result)
    (fun o t' => child_post dir t o t' \/
       exists r, o = OVal (r, DirectoryGuard_new dir) /\ cr_success r = false /\
         removals t' = removals t /\ cloned t' = cloned t ++ [-1]) t.
Proof.
  intros Hr Hlim Hfl. unfold compile_child. cbv zeta.
  apply wp_bind, wp_call. intros pid _. cbn beta iota.
  set (t1 := Ev (Clone _ _) pid :: t).
  assert (Ht1 : removals t1 = removals t /\ cloned t1 = cloned t ++ [rv pid]).
  { unfold t1. split; [by autorewrite with oj_rw|]. unfold cloned. by rewrite log_of_cons. }
  destruct Ht1 as [R1 C1].
  destruct (Z.eqb_spec (rv pid) (-1)) as [Hp|Hp].
  { right. rewrite Hp in C1. by eexists. }
  eapply wp_mono; [by left|].
  apply wp_with_process; [done..|]. unfold compile_watch. rewrite Hlim. cbn [defined bind].
  apply wp_bind, wp_call. intros start _. cbn beta iota.
  apply wp_bind. eapply wp_mono; [|apply wp_compile_loop; repeat split; cbn; lia].
  intros o t2 (R2 & C2 & out & pr & -> & Hout). cbn [fst snd].
  autorewrite with oj_rw in R2, C2. rewrite R1 in R2. rewrite C1 in C2.
  destruct out as [msg|status].
  - subst pr. cbn [wp]. apply wp_cleanup_keeps. intros t3 evs _ R3 C3 Hown _.
    split; [congruence|]. eexists _, _, (rv pid). split; [done|]. split; [congruence|].
    split; [|by cbn; rewrite Hr]. intros Hpos. apply Hown. unfold pg_owned. cbn.
    by rewrite (proj2 (Z.leb_gt _ _) Hpos).
  - destruct Hout as (st & -> & -> & Hex & Hre). cbn [defined bind].
    apply wp_bind. eapply wp_mono; [|by apply wp_compile_status].
    intros o t3 (Ht3 & r & -> & Hsucc). cbn [wp]. rewrite cleanup_release. cbn [wp].
    intros _.
    assert (H3 : exists evs, t3 = evs ++ t2 /\ removals t3 = removals t2 /\ cloned t3 = cloned t2).
    { destruct Ht3 as [->|[c ->]]; [by exists []|]. eexists [_]. split; [reflexivity|].
      by autorewrite with oj_rw. }
    destruct H3 as (evs & -> & R3 & C3).
    split; [congruence|]. exists r, (if cr_success r then commit (DirectoryGuard_new dir)
                                      else DirectoryGuard_new dir), (rv pid).
    split; [done|]. split; [congruence|]. split; [intros _; by apply Exists_suffix|].
    destruct (cr_success r); [|done]. destruct Hsucc as (H1 & H2 & H3); [done|].
    split; [done|]. split; [done|]. apply Exists_suffix.
    eapply exited_with_mono; [|exact Hex]. by intros ? ->.
Qed.

(** The summary of a whole compilation in [dir]. *)
Definition compile_post (dir : string) (o : outcome CompileResult) (t : trace) : Prop :=
  exists r, o = OVal r /\
    (cr_success r = true ->
       removals t = [] /\ cr_exe_path r = path_append dir "main" /\
       exists pid, cloned t = [pid] /\
         Exists (exited_with pid (fun st => WIFEXITED st = true /\ WEXITSTATUS st = 0)) t) /\
    (cr_success r = false ->
       (cloned t = [] /\ removals t = []) \/
       exists pid ex, cloned t = [pid] /\ In (Ev (FsExists dir) ex) t /\
         removals t = if fs_val ex then [dir] else []) /\
    (forall pid, In pid (cloned t) -> 0 < pid -> reaped pid t).

Lemma compile_post_early dir r t :
  cr_success r = false -> cloned t = [] -> removals t = [] -> compile_post dir (OVal r) t.
Proof.
  intros Hr Hc Hd. exists r. split; [done|]. split; [by rewrite Hr|]. split; [by left|].
  by rewrite Hc.
Qed.

Lemma wp_dir_dtor dir (Q : outcome unit -> trace -> Prop) t :
  (forall t' evs ex, t' = evs ++ t -> In (Ev (FsExists dir) ex) t' -> cloned t' = cloned t ->
     removals t' = removals t ++ (if fs_val ex then [dir] else []) -> Q (OVal tt) t') ->
  wp live (DirectoryGuard_dtor (DirectoryGuard_new dir)) Q t.
Proof.
  intros HQ. cbn [DirectoryGuard_dtor DirectoryGuard_new committed_ path_].
  apply wp_bind, wp_call. intros ex _. cbn beta iota. destruct (fs_val ex) eqn:Hex.
  - apply wp_bind, wp_call. intros r _. eapply (HQ _ [_; _] ex).
    + reflexivity.
    + right. by left.
    + by autorewrite with oj_rw.
    + unfold removals. rewrite !log_of_cons, Hex. by rewrite app_nil_r.
  - eapply (HQ _ [_] ex).
    + reflexivity.
    + by left.
    + by autorewrite with oj_rw.
    + rewrite Hex, app_nil_r. by autorewrite with oj_rw.
Qed.

Lemma wp_after_child dir o t0 t :
  removals t0 = [] -> cloned t0 = [] ->
  (child_post dir t0 o t \/
   exists r, o = OVal (r, DirectoryGuard_new dir) /\ cr_success r = false /\
     removals t = removals t0 /\ cloned t = cloned t0 ++ [-1]) ->
  match o with
  | OVal a => wp live (DirectoryGuard_dtor (snd a) ;; Ret (fst a)) (compile_post dir) t
  | OHalt h => compile_post dir (OHalt h) t
  end.
Proof.
  intros R0 C0 [(R1 & r & dg & pid & -> & C1 & Hre & Hr)|(r & -> & Hr & R1 & C1)];
    rewrite R0 in R1; rewrite C0 in C1; cbn [fst snd].
  - destruct (cr_success r) eqn:Hs.
    + destruct Hr as (-> & He & Hx). cbn. exists r. split; [done|].
      split; [intros _; split; [done|]; split; [done|]; by exists pid|].
      split; [by rewrite Hs|]. rewrite C1. intros p [<-|[]]. apply Hre.
    + subst dg. apply wp_bind, wp_dir_dtor. intros t' evs ex He Hin C2 R2.
      rewrite R1 in R2. rewrite C1 in C2. cbn. exists r. split; [done|].
      split; [by rewrite Hs|]. split; [intros _; right; by exists pid, ex|].
      rewrite C2. intros p [<-|[]] Hp. rewrite He. by apply Exists_suffix, Hre.
  - apply wp_bind, wp_dir_dtor. intros t' evs ex He Hin C2 R2.
    rewrite R1 in R2. rewrite C1 in C2. cbn. exists r. split; [done|].
    split; [by rewrite Hr|]. split; [intros _; right; by exists (-1), ex|].
    rewrite C2. intros p [<-|[]] Hp. lia.
Qed.

Lemma wp_Compile temp_dir_ id src lim :
  IsValidRequestId id = true ->
  chk_i32 (compile_real_limit g * 1000) = Some lim ->
  lim + 1 < 50 * (Z.of_nat fuel - 1) ->
  wp live (Compile fuel g temp_dir_ id src) (compile_post (path_append temp_dir_ id)) [].
Proof.
  intros Hid Hlim Hfl. unfold Compile. rewrite Hid. cbn [negb]. cbv zeta.
  set (dir := path_append temp_dir_ id).
  apply wp_bind, wp_call. intros mk _. cbn beta iota.
  set (result := match fs_ec mk with Some _ => _ | None => _ end).
  assert (Hr : cr_success result = false) by (unfold result; by destruct (fs_ec mk)).
  apply wp_bind, wp_call. intros ofs _. cbn beta iota.
  destruct ofs; [by apply compile_post_early..|].
  apply wp_bind, wp_call. intros own _. cbn beta iota.
  destruct (rv own =? 0); cbn [negb]; [|by apply compile_post_early].
  apply wp_bind, wp_call. intros perm _. cbn beta iota.
  destruct (fs_ec perm); [by apply compile_post_early|].
  apply wp_bind. eapply wp_mono; [|by eapply wp_compile_child].
  intros o t' H. eapply wp_after_child; [| |exact H]; by autorewrite with oj_rw.
Qed.
End CompileProofs.

(** ** Lemmas: the calls of a compilation *)

(** Everything [Compile] may ask of the system, in [dir], with the child
    [pid], apart from creating it. *)
Definition compile_may (dir : string) (pid : Z) (s : sys) : Prop :=
  match s with
  | FsCreateDirectories p | FsExists p | FsRemoveAll p => p = dir
  | FsPermissions p perms => p = dir /\ perms = owner_all
  | WriteStream p _ => p = path_append dir "main.cpp"
  | ReadStream p => p = path_append dir "compile_error.log"
  | SI (Chown p _ _) => p = c_str dir
  | Wait p _ _ => p = pid
  | SI (Kill p sig) => p = pid /\ 0 < pid /\ sig = SIGKILL
  | Now | SleepMs _ | Cerr _ => True
  | _ => False
  end.

(** The creation of the compiler. *)
Definition compile_clone (dir : string) (s : sys) : Prop :=
  s = Clone (CompileEntry (compile_args_of (path_append dir "main.cpp") (path_append dir "main")
                             (path_append dir "compile_error.log"))) sandbox_clone_flags.

Lemma may_not_clone dir pid evs t :
  Forall (fun e => compile_may dir pid (ev_sys e)) evs -> cloned (evs ++ t) = cloned t.
Proof.
  induction 1 as [|[s r] evs Hs Hevs IH]; [done|]. cbn [app]. rewrite <- IH. apply cloned_quiet.
  by destruct s.
Qed.

Section CompileCalls.
Context {LC : Libc} (fuel : nat) (g : GlobalConfig) (dir : string).

Lemma guard_call_may pid s : guard_call pid s -> compile_may dir pid s.
Proof. destruct s; cbn; try done. by destruct c. Qed.

Lemma calls_compile_loop n lim start pid :
  calls (compile_may dir pid) (compile_loop fuel n lim start (ProcessGuard_new pid)).
Proof.
  assert (Hw : forall o r, calls (compile_may dir pid) (guard_wait fuel (ProcessGuard_new pid) o r))
    by (intros; eapply calls_mono; [apply guard_call_may|apply calls_guard_wait]).
  assert (Hk : calls (compile_may dir pid) (guard_kill (ProcessGuard_new pid)))
    by (eapply calls_mono; [apply guard_call_may|apply calls_guard_kill]).
  induction n as [|n IH]; cbn [compile_loop]; [done|]. cbv zeta.
  unfold wait_nonblock, wait in *. calls; auto.
Qed.

Lemma yields_compile_loop n lim start pid :
  yields (fun r => guard_of pid (snd r)) (compile_loop fuel n lim start (ProcessGuard_new pid)).
Proof.
  induction n as [|n IH]; cbn [compile_loop]; [done|]. apply yields_seq. intros w.
  repeat case_goal; try done; cbn; try (by left); try (by right).
  intros now. destruct (lim <? _); cbn; [|by intros _].
  apply yields_seq. intros _. apply yields_seq. intros _. by left.
Qed.

Lemma calls_compile_status pid st result dg :
  calls (compile_may dir pid)
    (compile_status st (path_append dir "main") (path_append dir "compile_error.log") result dg).
Proof. unfold compile_status, read_log. cbv zeta. calls. Qed.

Lemma calls_compile_watch pid result dg :
  calls (compile_may dir pid)
    (compile_watch fuel g pid (path_append dir "main") (path_append dir "compile_error.log") result dg).
Proof.
  unfold compile_watch. destruct (chk_i32 _) as [lim|]; cbn [defined bind]; [|done].
  apply calls_bind; [by apply calls_call|]. intros start.
  apply calls_bind; [apply calls_compile_loop|]. intros [[m|[st|]] pr];
    cbn [fst snd defined bind]; try done.
  apply calls_bind; [apply calls_compile_status|done].
Qed.

(** The process guard comes back as it was or released, the directory guard
    still on the directory. *)
Lemma yields_compile_watch pid exe log result dg :
  path_ dg = dir ->
  yields (fun r => guard_of pid (snd r) /\ path_ (snd (fst r)) = dir)
    (compile_watch fuel g pid exe log result dg).
Proof.
  intros Hdg. unfold compile_watch. destruct (chk_i32 _) as [lim|]; cbn [defined bind]; [|done].
  apply yields_seq. intros start. eapply yields_bind; [apply yields_compile_loop|].
  intros [[m|[st|]] pr] Hp; cbn [fst snd defined bind]; [done| |done].
  eapply (yields_bind (fun r => path_ (snd r) = dir)); [|done].
  unfold compile_status. repeat case_goal; try done. by apply yields_seq.
Qed.

Lemma compile_scope_calls pid exe log result :
  exe = path_append dir "main" -> log = path_append dir "compile_error.log" ->
  let p := with_process fuel pid (compile_watch fuel g pid exe log result (DirectoryGuard_new dir)) in
  calls (compile_may dir pid) p /\ yields (fun r => path_ (snd r) = dir) p.
Proof.
  intros -> ->. cbv zeta. split.
  - apply calls_with_process; [apply guard_call_may|apply calls_compile_watch|].
    eapply yields_mono; [|by apply yields_compile_watch]. intros a Ha. apply Ha.
  - unfold with_process.
    eapply (yields_bind (fun r => path_ (snd (fst r)) = dir));
      [|intros r Hr; by apply yields_seq].
    apply yields_try; [|intros e; by apply yields_seq].
    eapply yields_mono; [|by apply yields_compile_watch]. intros a Ha. apply Ha.
Qed.

Lemma calls_dir_dtor pid gd : path_ gd = dir -> calls (compile_may dir pid) (DirectoryGuard_dtor gd).
Proof. intros H. unfold DirectoryGuard_dtor. rewrite H. calls. Qed.

Definition may_trace (pid : Z) (t : trace) : Prop :=
  Forall (fun e => compile_may dir pid (ev_sys e) \/ compile_clone dir (ev_sys e)) t.

(** From the clone to the end of the function. *)
Lemma wp_compile_after result t :
  wp any_env
    (r <- compile_child fuel g dir (path_append dir "main.cpp") result ;;
     DirectoryGuard_dtor (snd r) ;;
     Ret (fst r))
    (fun _ t' => exists pid evs, t' = evs ++ t /\ cloned t' = cloned t ++ [pid] /\ may_trace pid evs) t.
Proof.
  unfold compile_child. cbv zeta. apply wp_bind, wp_bind, wp_call. intros pid _. cbn beta iota.
  set (t1 := Ev (Clone _ _) pid :: t).
  assert (C1 : cloned t1 = cloned t ++ [rv pid]) by (unfold t1, cloned; by rewrite log_of_cons).
  assert (Hend : forall A (p : prog A), calls (compile_may dir (rv pid)) p ->
    wp any_env p (fun _ t' => exists pid evs, t' = evs ++ t /\ cloned t' = cloned t ++ [pid] /\
                                may_trace pid evs) t1).
  { intros A p Hp. eapply wp_mono; [|exact (wp_calls _ _ p t1 Hp)].
    intros o t' (evs & -> & He). exists (rv pid), (evs ++ [Ev (Clone _ _) pid]).
    split; [unfold t1; by rewrite <- app_assoc|].
    split; [by rewrite (may_not_clone _ _ _ _ He)|].
    apply Forall_app. split; [|by repeat constructor]. eapply Forall_impl; [exact He|]. auto. }
  case_goal; [apply Hend, calls_bind; [by apply calls_dir_dtor|done]|].
  apply wp_unbind, Hend. apply (calls_bind_yields _ (fun r => path_ (snd r) = dir)).
  - by apply compile_scope_calls.
  - by apply compile_scope_calls.
  - intros r Hr. apply calls_bind; [by apply calls_dir_dtor|done].
Qed.
End CompileCalls.

Ltac may_trace := repeat constructor; left; cbn; auto.

(** ** Theorems *)

(** A valid request id names a direct child of the root directory: joining
    it never leaves the root, and the name is not "." or "..", holds no slash
    and no NUL. *)
Theorem request_dir_confined temp_dir_ id :
  IsValidRequestId id = true -> temp_dir_ <> EmptyString -> ends_with_slash temp_dir_ = false ->
  let dir := path_append temp_dir_ id in
  dir = temp_dir_ +:+ String slash id /\ parent_path dir = temp_dir_ /\
  rsplit dir = Some (temp_dir_, id) /\
  id <> "." /\ id <> ".." /\ no_nul id = true /\ 1 <= slen id <= 64.
Proof.
  intros Hid Hne Hs dir. pose proof (valid_id_plain _ Hid) as Hp.
  assert (Hdir : dir = temp_dir_ +:+ String slash id).
  { unfold dir. apply path_append_plain; [by destruct temp_dir_|done|done]. }
  split; [done|]. split; [by apply parent_path_append|]. split; [by apply rsplit_path_append|].
  split; [by intros ->|]. split; [by intros ->|]. split; [by apply valid_id_no_nul|].
  unfold IsValidRequestId in Hid. destruct (str_empty id) eqn:He; [done|]. cbn [orb] in Hid.
  destruct (Z.ltb_spec 64 (slen id)); [done|]. split; [|done].
  destruct id; [done|]. unfold slen. cbn [String.length]. lia.
Qed.

(** C6: Under every live kernel a compilation returns; it succeeds only after
    the compiler exited with code 0, and then the directory is kept; when it
    fails after the compiler was started, the directory is looked up and, if it
    exists, removed; when it fails before, nothing is removed; and the compiler
    has always been waited for. *)
Theorem Compile_spec {LC : Libc} fuel g temp_dir_ id src lim k :
  respects k live -> IsValidRequestId id = true ->
  chk_i32 (compile_real_limit g * 1000) = Some lim -> lim < 50 * Z.of_nat fuel - 51 ->
  (0 < fuel)%nat ->
  compile_post (path_append temp_dir_ id)
    (exec_outcome k (Compile fuel g temp_dir_ id src))
    (exec_trace k (Compile fuel g temp_dir_ id src)).
Proof.
  intros Hk Hid Hlim Hfl Hf. apply (run_wp live k _ _ [] Hk). eapply wp_Compile; eauto. lia.
Qed.

(** C7: Under every kernel, a compilation touches only the request's directory:
    its one written file is main.cpp there, its one child is the compiler on the
    three paths of the directory in fresh namespaces, only that child is waited
    for and killed, and only that directory is removed. *)
Theorem Compile_confined {LC : Libc} fuel g temp_dir_ id src k :
  IsValidRequestId id = true ->
  let dir := path_append temp_dir_ id in
  let t := exec_trace k (Compile fuel g temp_dir_ id src) in
  exists pid, (cloned t = [] \/ cloned t = [pid]) /\
    Forall (fun e => compile_may dir pid (ev_sys e) \/ compile_clone dir (ev_sys e)) t.
Proof.
  intros Hid dir t.
  apply (run_wp any_env k (Compile fuel g temp_dir_ id src)
    (fun _ t => exists pid, (cloned t = [] \/ cloned t = [pid]) /\ may_trace dir pid t) []
    (respects_any k)).
  unfold Compile. rewrite Hid. cbn [negb]. cbv zeta. fold dir.
  apply wp_bind, wp_call. intros mk _. cbn beta iota.
  apply wp_bind, wp_call. intros ofs _. cbn beta iota.
  destruct ofs; [exists 0; split; [by left|by may_trace]..|].
  apply wp_bind, wp_call. intros own _. cbn beta iota.
  destruct (rv own =? 0); cbn [negb]; [|exists 0; split; [by left|by may_trace]].
  apply wp_bind, wp_call. intros perm _. cbn beta iota.
  destruct (fs_ec perm); [exists 0; split; [by left|by may_trace]|].
  eapply wp_mono; [|apply wp_compile_after]. intros o t' (pid & evs & -> & Hc & He).
  exists pid. split; [right; rewrite Hc; by autorewrite with oj_rw|].
  apply Forall_app. split; [done|by may_trace].
Qed.

(** A request id that is not 1 to 64 letters, digits, underscores and
    hyphens (anything with a slash or a dot among them) has no effect beyond one
    line on stderr: [Compile] fails at once and [Cleanup] does nothing. *)
Theorem invalid_id_rejected {LC : Libc} fuel g temp_dir_ id src k :
  (slen id = 0 \/ 64 < slen id \/ str_forall id_char id = false) ->
  (exists line msg, run k (Compile fuel g temp_dir_ id src) [] =
     (OVal (mkCompileResult false "" msg), [Ev (Cerr line) tt])) /\
  run k (Cleanup temp_dir_ id) [] = (OVal tt, []).
Proof.
  intros H. assert (Hid : IsValidRequestId id = false).
  { unfold IsValidRequestId. destruct (str_empty id || (64 <? slen id)) eqn:E; [done|].
    apply orb_false_iff in E as [E1 E2]. apply Z.ltb_ge in E2.
    destruct H as [H|[H|H]]; [|lia|done]. destruct id; [done|]. unfold slen in H. cbn in H. lia. }
  unfold Compile, Cleanup. rewrite Hid. cbn [negb]. split; [|by destruct (str_empty id)].
  cbn. destruct (k [] _). by eexists _, _.
Qed.

(** Cleaning up a valid request always returns, looks the directory up and
    removes it exactly when it exists, and removes nothing else. *)
Theorem Cleanup_spec temp_dir_ id k :
  IsValidRequestId id = true ->
  let dir := path_append temp_dir_ id in
  let t := exec_trace k (Cleanup temp_dir_ id) in
  exec_outcome k (Cleanup temp_dir_ id) = OVal tt /\
  exists ex, In (Ev (FsExists dir) ex) t /\ removals t = if fs_val ex then [dir] else [].
Proof.
  intros Hid dir t.
  apply (run_wp any_env k (Cleanup temp_dir_ id) (fun o t => o = OVal tt /\
    exists ex, In (Ev (FsExists dir) ex) t /\ removals t = if fs_val ex then [dir] else []) []
    (respects_any k)).
  unfold Cleanup. rewrite Hid. destruct (valid_id_chars _ Hid) as [Hne _].
  destruct (str_empty id) eqn:He; [by destruct id|]. cbn [negb]. cbv zeta. fold dir.
  apply wp_bind, wp_call. intros ex _. cbn beta iota. destruct (fs_val ex) eqn:Hex.
  - apply wp_bind, wp_call. intros rm _. cbn beta iota.
    destruct (fs_ec rm); [apply wp_cerr|]; (split; [done|]); exists ex; rewrite Hex;
      (split; [cbn; auto|]); unfold removals; by rewrite !log_of_cons.
  - split; [done|]. exists ex. rewrite Hex. split; [by left|]. unfold removals. by rewrite !log_of_cons.
Qed.

(** ** Witnesses *)

Lemma request_dir_confined_witness :
  IsValidRequestId "job-1" = true /\ parent_path (path_append "/tmp/deep_oj" "job-1") = "/tmp/deep_oj".
Proof. split; [reflexivity|]. by apply (request_dir_confined "/tmp/deep_oj" "job-1"). Defined.

(** A kernel whose children exit with the wait status [st]. *)
Definition exiting (st : Z) : kernel := fun t s =>
  match s return answer s with
  | Wait _ _ _ => WRes 100 0 (Some st) (Some rusage0)
  | Now => clock_floor t
  | s => happy t s
  end.

Lemma exiting_live st : respects (exiting st) live.
Proof.
  intros t s. destruct s; cbn; try done. repeat split; cbn; try lia; eauto.
Qed.

Lemma Compile_spec_witness :
  IsValidRequestId "job-1" = true /\
  compile_post (path_append "/tmp/deep_oj" "job-1")
    (exec_outcome (exiting 256) (Compile 402 config "/tmp/deep_oj" "job-1" "int main() {}"))
    (exec_trace (exiting 256) (Compile 402 config "/tmp/deep_oj" "job-1" "int main() {}")).
Proof.
  split; [reflexivity|]. apply (Compile_spec 402 config _ _ _ 20000).
  - apply exiting_live.
  - reflexivity.
  - reflexivity.
  - lia.
  - lia.
Defined.

Lemma Compile_confined_witness :
  IsValidRequestId "job-1" = true /\
  exists pid, cloned (exec_trace happy (Compile 5 config "/tmp/deep_oj" "job-1" "")) = [] \/
              cloned (exec_trace happy (Compile 5 config "/tmp/deep_oj" "job-1" "")) = [pid].
Proof.
  split; [reflexivity|].
  destruct (Compile_confined 5 config "/tmp/deep_oj" "job-1" "" happy) as (pid & H & _);
    [reflexivity|]. by exists pid.
Defined.

Lemma invalid_id_rejected_witness :
  run happy (Cleanup "/tmp/deep_oj" "../etc") [] = (OVal tt, []).
Proof.
  refine (proj2 (invalid_id_rejected 5 config "/tmp/deep_oj" "../etc" "" happy _)).
  right; right; reflexivity.
Defined.

Lemma Cleanup_spec_witness :
  IsValidRequestId "job-1" = true /\
  exec_outcome happy (Cleanup "/tmp/deep_oj" "job-1") = OVal tt.
Proof. split; [reflexivity|]. by apply (Cleanup_spec "/tmp/deep_oj" "job-1" happy). Defined.
