(* ===== verification/Run.v ===== *)
(** * Running and watching a program: sandbox.cpp, Sandbox::Run

    The parent opens the three streams, clones the sandboxed child, puts it in a
    cgroup when the host has one, polls it against the limits and turns what it
    finds into a verdict. *)

From S2P Require Import Prelude CInt CFloat CStr Internal Sys Ownership Isolation Cgroup Guards Verdict Compile Sample.

Section Run.
Context {LC : Libc} (fuel : nat) (g : GlobalConfig).

(** ** Streams *)

(** Open a stream, or fall back on a copy of the descriptor of /dev/null. *)
Definition open_or_null (path : string) (flags mode null_fd : Z) : prog Z :=
  fd <- (if str_empty path then Ret (-1)
         else r <- icall_ (Open (c_str path) flags mode) ;; Ret (rv r)) ;;
  if fd <? 0 then d <- icall_ (Dup null_fd) ;; Ret (rv d) else Ret fd.

Definition O_TRUNCATED : Z := Z.lor (Z.lor O_WRONLY O_CREAT) O_TRUNC.

(** ** The cgroup layer *)

Definition cgroup_limits (m : CgroupManager) (pid memory_limit_kb : Z) : prog unit :=
  let pids_limit := if 0 <? cgroup_pids_limit g then cgroup_pids_limit g else 20 in
  SetPidsLimit m pids_limit ;;
  SetMemoryLimit m (to_u64 (to_u64 memory_limit_kb * 1024)) true ;;
  let cpu_max_cores :=
    if b64_gt (cgroup_cpu_max_cores g) b64_zero then cgroup_cpu_max_cores g else b64_one in
  SetCPULimit m cpu_max_cores ;;
  SetIOLimit m (cgroup_io_read_bps g) (cgroup_io_write_bps g) (workspace_root g) ;;
  AddProcess m pid ;;
  Ret tt.

(** The manager and [cgroup_enabled].  None of the operations throws, so the
    handler's manager (here the one constructed) is never used. *)
Definition cgroup_setup (root : string) (pid memory_limit_kb : Z) : prog (CgroupManager * bool) :=
  let m0 := CgroupManager_new (root +:+ "/deep_oj") ("run_" +:+ to_string pid) in
  try_catch
    (cr <- Create m0 ;;
     if fst cr : bool then
       cgroup_limits (snd cr) pid memory_limit_kb ;;
       cerr ("[沙箱] Cgroups v2 已启用 (PID=" +:+ to_string pid +:+ ", root=" +:+ root +:+ ")" +:+
             newline) ;;
       Ret (snd cr, true)
     else Ret (snd cr, false))
    (fun e =>
       cerr ("[沙箱] Cgroups v2 初始化失败，降级到 setrlimit 模式: " +:+ exn_what e +:+ newline) ;;
       Ret (m0, false)).

(** ** Polling *)

(** How the loop ends: with a result, or with the child's status and usage. *)
Inductive polled :=
  | PDone (result : RunResult)
  | PExit (status : option Z) (usage : rusage).

Definition elapsed_ms (now start_time : Z) : Z := to_i32 (Z.quot (now - start_time) 1000000).

Definition poll_interval (memory_limit_kb : Z) (usage : rusage) : Z :=
  let mem_ratio :=
    if 0 <? memory_limit_kb
    then b64_div (b64_of_Z (ru_maxrss usage)) (b64_of_Z memory_limit_kb) else b64_zero in
  if b64_gt mem_ratio (b64_lit 8 10) then 10 else 50.

(** [status = s; time_used = t; memory_used = m; exit_signal = SIGKILL]. *)
Definition killed (s : SandboxStatus) (t m : Z) (r : RunResult) : RunResult :=
  set_exit (rr_exit_code r) SIGKILL (set_memory m (set_time t (set_status s r))).

Fixpoint poll_loop (n : nat) (memory_limit_kb real_time_limit_ms start_time : Z)
    (usage : rusage) (result : RunResult) (proc : ProcessGuard)
    : prog (polled * ProcessGuard) :=
  match n with
  | O => Halt HFuel
  | S n =>
      w <- wait_nonblock_rusage fuel proc ;;
      let usage := default usage (w_usage w) in
      if w_pid w =? -1 then
        if w_errno w =? EINTR
        then poll_loop n memory_limit_kb real_time_limit_ms start_time usage result proc
        else
          Ret (PDone (system_error "waitpid_failed"
                        (FormatSystemError "wait4 failed" (w_errno w)) result), proc)
      else if negb (w_pid w =? 0) then Ret (PExit (w_status w) usage, release proc)
      else if memory_limit_kb <? ru_maxrss usage then
        guard_kill proc ;;
        w2 <- wait_rusage fuel proc ;;
        let usage := default usage (w_usage w2) in
        now <- call Now ;;
        Ret (PDone (killed MEMORY_LIMIT_EXCEEDED (elapsed_ms now start_time) (ru_maxrss usage) result),
             release proc)
      else
        now <- call Now ;;
        let elapsed := elapsed_ms now start_time in
        if real_time_limit_ms <? elapsed then
          guard_kill proc ;;
          w2 <- wait_rusage fuel proc ;;
          let usage := default usage (w_usage w2) in
          Ret (PDone (killed TIME_LIMIT_EXCEEDED elapsed (ru_maxrss usage) result), release proc)
        else
          call (SleepMs (poll_interval memory_limit_kb usage)) ;;
          poll_loop n memory_limit_kb real_time_limit_ms start_time usage result proc
  end.

(** ** After the exit *)

(** [tv_sec * 1000 + tv_usec / 1000.0]. *)
Definition timeval_ms (sec usec : Z) : option b64 :=
  match chk_i64 (sec * 1000) with
  | Some s => Some (b64_add (b64_of_Z s) (b64_div (b64_of_Z usec) (b64_of_Z 1000)))
  | None => None
  end.

(** [static_cast<int>(std::ceil(cpu_time_ms))]. *)
Definition cpu_time_used (usage : rusage) : option Z :=
  match timeval_ms (ru_utime_sec usage) (ru_utime_usec usage),
        timeval_ms (ru_stime_sec usage) (ru_stime_usec usage) with
  | Some u, Some s =>
      match b64_ceil (b64_add u s) with
      | Some ms => chk_i32 ms
      | None => None
      end
  | _, _ => None
  end.

(** The larger source of memory figures first: the cgroup's peak, then
    [ru_maxrss]. *)
Definition memory_used (cgroup : option (CgroupManager * bool)) (usage : rusage) : prog Z :=
  match cgroup with
  | Some (m, true) =>
      cg_peak <- GetMemoryPeak m ;;
      Ret (if 0 <? cg_peak then cg_peak / 1024 else ru_maxrss usage)
  | _ => Ret (ru_maxrss usage)
  end.

(** Is there an output file above the limit? *)
Definition output_exceeded (output_path : string) : prog bool :=
  ex <- call (FsExists output_path) ;;
  if fs_val ex then
    out_size <- call (FsFileSize output_path) ;;
    Ret (match fs_ec out_size with
         | None => to_u64 (max_output_size g) <? fs_val out_size
         | Some _ => false
         end)
  else Ret false.

Definition finish_run (cgroup : option (CgroupManager * bool)) (output_path stderr_path : string)
    (time_limit_ms memory_limit_kb : Z) (status : option Z) (usage : rusage) (result : RunResult)
    : prog RunResult :=
  t <- defined (cpu_time_used usage) ;;
  mem <- memory_used cgroup usage ;;
  let result := set_memory mem (set_time t result) in
  ole <- output_exceeded output_path ;;
  if ole : bool then
    Ret (set_memory (ru_maxrss usage) (set_status OUTPUT_LIMIT_EXCEEDED result))
  else if memory_limit_kb <? rr_memory_used result then
    Ret (set_status MEMORY_LIMIT_EXCEEDED result)
  else
    marker <- ReadRunExecFailureMarker stderr_path ;;
    st <- defined status ;;
    defined (judge time_limit_ms memory_limit_kb marker st result).

(** ** Run *)

Definition run_child_args (exe_path : string) (time_limit_ms memory_limit_kb output_limit
    input_fd output_fd error_fd : Z) : RunChildArgs :=
  mkRunChildArgs (strncpy_z 255 exe_path) time_limit_ms memory_limit_kb output_limit
    input_fd output_fd error_fd.

(** Under the guard of the child [pid], with the cgroup set up or absent. *)
Definition watch_child (cgroup : option (CgroupManager * bool)) (output_path stderr_path : string)
    (time_limit_ms memory_limit_kb pid : Z) : prog (RunResult * ProcessGuard) :=
  start_time <- call Now ;;
  real_time_limit_ms <- defined (chk_i32 (time_limit_ms + 1000)) ;;
  p <- poll_loop fuel memory_limit_kb real_time_limit_ms start_time rusage0 RunResult0
         (ProcessGuard_new pid) ;;
  match fst p with
  | PDone result => Ret (result, snd p)
  | PExit status usage =>
      result <- finish_run cgroup output_path stderr_path time_limit_ms memory_limit_kb
                  status usage RunResult0 ;;
      Ret (result, snd p)
  end.

(** From the clone to the destruction of the cgroup. *)
Definition supervise (output_path stderr_path : string) (time_limit_ms memory_limit_kb pid : Z)
    : prog (RunResult * ProcessGuard) :=
  root <- GetCgroup2MountRoot ;;
  if str_empty root then
    watch_child None output_path stderr_path time_limit_ms memory_limit_kb pid
  else
    cg <- cgroup_setup root pid memory_limit_kb ;;
    finally (watch_child (Some cg) output_path stderr_path time_limit_ms memory_limit_kb pid)
      (CgroupManager_dtor (fst cg)).

(** With the four descriptors open. *)
Definition run_with_fds (exe_path output_path stderr_path : string)
    (time_limit_ms memory_limit_kb input_fd output_fd error_fd : Z) : prog RunResult :=
  limit <- defined (chk_i64 (max_output_size g + output_buffer_size g)) ;;
  let args := run_child_args exe_path time_limit_ms memory_limit_kb (to_u64 limit)
                input_fd output_fd error_fd in
  pid <- call (Clone (RunEntry args) sandbox_clone_flags) ;;
  if rv pid =? -1 then
    cerr ("[沙箱] clone 调用失败: " +:+ strerror (errno pid) +:+ newline) ;;
    Ret (system_error "clone_failed" (FormatSystemError "clone failed" (errno pid)) RunResult0)
  else
    with_process fuel (rv pid)
      (supervise output_path stderr_path time_limit_ms memory_limit_kb (rv pid)).

Definition Run (exe_path stdin_path stdout_path stderr_path : string)
    (time_limit_ms memory_limit_kb : Z) : prog RunResult :=
  let output_path :=
    if str_empty stdout_path then path_append (parent_path exe_path) "output.txt" else stdout_path in
  null <- icall_ (Open "/dev/null" O_RDWR 0) ;;
  if rv null <? 0 then
    Ret (system_error "open_dev_null_failed" (FormatSystemError "open /dev/null" (errno null))
           RunResult0)
  else
    with_fd (rv null)
      (input_fd <- open_or_null stdin_path O_RDONLY 0 (rv null) ;;
       with_fd input_fd
         (output_fd <- open_or_null stdout_path O_TRUNCATED m0644 (rv null) ;;
          with_fd output_fd
            (error_fd <- open_or_null stderr_path O_TRUNCATED m0644 (rv null) ;;
             with_fd error_fd
               (run_with_fds exe_path output_path stderr_path time_limit_ms memory_limit_kb
                  input_fd output_fd error_fd)))).
End Run.

(** ** Lemmas: descriptors *)

(** A call that neither opens nor closes a descriptor of the parent. *)
Definition fd_neutral (s : sys) : Prop :=
  match s with
  | SI (Open _ _ _) | SI (Dup _) | SI (Close _) => False
  | _ => True
  end.

Lemma fd_neutral_log evs t :
  Forall (fun e => fd_neutral (ev_sys e)) evs ->
  opened (evs ++ t) = opened t /\ closed (evs ++ t) = closed t.
Proof.
  induction 1 as [|[s r] evs Hs Hevs [IH1 IH2]]; [done|]. cbn [app].
  unfold opened, closed in *. rewrite !log_of_cons, IH1, IH2. cbn in Hs.
  case_sys s; try done; by rewrite ?app_nil_r.
Qed.

(** A call that moreover creates no child and prints nothing on stdout. *)
Definition child_neutral (s : sys) : Prop :=
  match s with Clone _ _ | Cout _ => False | s => fd_neutral s end.

Lemma child_neutral_log evs t :
  Forall (fun e => child_neutral (ev_sys e)) evs -> cloned (evs ++ t) = cloned t.
Proof.
  induction 1 as [|[s r] evs Hs Hevs IH]; [done|]. cbn [app]. rewrite <- IH. apply cloned_quiet.
  by destruct s.
Qed.

Lemma child_neutral_fd s : child_neutral s -> fd_neutral s.
Proof. by destruct s. Qed.

Section Neutral.
Context {LC : Libc} (fuel : nat) (g : GlobalConfig).

Lemma neutral_guard pid s : guard_call pid s -> child_neutral s.
Proof. by case_sys s. Qed.

Lemma neutral_WriteToFile p d : calls child_neutral (WriteToFile p d).
Proof. unfold WriteToFile, cerr. calls. Qed.

Lemma neutral_ReadFromFile p : calls child_neutral (ReadFromFile p).
Proof. unfold ReadFromFile. calls. Qed.

Lemma neutral_cerr m : calls child_neutral (cerr m).
Proof. done. Qed.

Hint Resolve neutral_WriteToFile neutral_ReadFromFile neutral_cerr : calls.

Lemma neutral_kill_all m : calls child_neutral (KillAllProcesses m).
Proof. unfold KillAllProcesses, icall_. cbv zeta. calls. Qed.

Hint Resolve neutral_kill_all : calls.

Lemma neutral_dtor m : calls child_neutral (CgroupManager_dtor m).
Proof. unfold CgroupManager_dtor, Destroy. calls. Qed.

Lemma neutral_find_root l : calls child_neutral (find_cgroup2_root l).
Proof.
  induction l as [|r l IH]; cbn [find_cgroup2_root]; [done|].
  unfold fs_exists_throwing. calls.
Qed.

Lemma neutral_setup root pid ml : calls child_neutral (cgroup_setup g root pid ml).
Proof.
  unfold cgroup_setup, cgroup_limits, Create, EnsureParentReady, SetPidsLimit, SetMemoryLimit,
    SetCPULimit, SetIOLimit, AddProcess, not_created, defined. cbv zeta. calls.
Qed.

Lemma neutral_poll_loop n ml real start usage result pid :
  calls child_neutral (poll_loop fuel n ml real start usage result (ProcessGuard_new pid)).
Proof.
  assert (Hw : forall o r, calls child_neutral (guard_wait fuel (ProcessGuard_new pid) o r))
    by (intros; eapply calls_mono; [apply neutral_guard|apply calls_guard_wait]).
  assert (Hk : calls child_neutral (guard_kill (ProcessGuard_new pid)))
    by (eapply calls_mono; [apply neutral_guard|apply calls_guard_kill]).
  revert usage. induction n as [|n IH]; intros usage; cbn [poll_loop]; [done|]. cbv zeta.
  unfold wait_nonblock_rusage, wait_rusage. calls; auto.
Qed.

Lemma neutral_finish cg out err tl ml st u r :
  calls child_neutral (finish_run g cg out err tl ml st u r).
Proof.
  unfold finish_run, memory_used, output_exceeded, ReadRunExecFailureMarker, GetMemoryPeak,
    GetMemoryCurrent, defined. cbv zeta. calls.
Qed.

Hint Resolve neutral_dtor neutral_find_root neutral_setup neutral_poll_loop neutral_finish : calls.

Lemma neutral_supervise out err tl ml pid : calls child_neutral (supervise fuel g out err tl ml pid).
Proof. unfold supervise, watch_child, GetCgroup2MountRoot, defined. calls. Qed.

(** Every poll loop hands back the guard it got, or a released one. *)
Lemma yields_poll_loop n ml real start usage result pid :
  yields (fun r => guard_of pid (snd r))
    (poll_loop fuel n ml real start usage result (ProcessGuard_new pid)).
Proof.
  revert usage. induction n as [|n IH]; intros usage; cbn [poll_loop]; [done|]. cbv zeta.
  apply yields_seq. intros w. repeat case_goal; try done; try (by left); try (by right).
  - do 2 (apply yields_seq; intros ?). apply yields_seq. intros ?. by right.
  - apply yields_seq. intros now. case_goal; [|by apply yields_seq].
    do 2 (apply yields_seq; intros ?). by right.
Qed.
End Neutral.

(** *** Every descriptor opened is closed *)

Definition unwound {A} (o : outcome A) : Prop :=
  match o with OVal _ | OHalt (HThrow _) => True | _ => False end.

(** Descriptors are closed in the opposite order, also when an exception
    passes. *)
Definition balanced {A} (p : prog A) : Prop := forall t,
  wp any_env p (fun o t' => unwound o ->
    exists l, opened t' = opened t ++ l /\ closed t' = closed t ++ rev l) t.

Lemma balanced_neutral {A} (p : prog A) : calls fd_neutral p -> balanced p.
Proof.
  intros Hp t. eapply wp_mono; [|exact (wp_calls _ _ p t Hp)].
  intros o t' (evs & -> & He) _. exists []. destruct (fd_neutral_log evs t He) as [-> ->].
  by rewrite !app_nil_r.
Qed.

Lemma wp_with_fd {A} fd (body : prog A) t t1 :
  opened t1 = opened t ++ (if fd <? 0 then [] else [fd]) -> closed t1 = closed t ->
  balanced body ->
  wp any_env (with_fd fd body) (fun o t' => unwound o ->
    exists l, opened t' = opened t ++ l /\ closed t' = closed t ++ rev l) t1.
Proof.
  intros O1 C1 Hb. apply wp_finally. eapply wp_mono; [|apply Hb].
  assert (Hclose : forall B (fin : prog B) (o : outcome B) t2,
    (forall K t Q, Q o t -> wp K fin Q t) ->
    (exists l, opened t2 = opened t1 ++ l /\ closed t2 = closed t1 ++ rev l) ->
    wp any_env (close_guard fd ;; fin) (fun o t' => unwound o ->
      exists l, opened t' = opened t ++ l /\ closed t' = closed t ++ rev l) t2).
  { intros B fin o t2 Hfin (l & O2 & C2). rewrite O1 in O2. rewrite C1 in C2.
    unfold close_guard. destruct (Z.leb_spec 0 fd) as [Hfd|Hfd].
    - rewrite (proj2 (Z.ltb_ge fd 0)) in O2 by done. cbn. intros r _. apply Hfin. intros _.
      exists (fd :: l). unfold opened, closed in *. rewrite !log_of_cons, O2, C2, app_nil_r.
      cbn [rev]. by rewrite <- !app_assoc.
    - rewrite (proj2 (Z.ltb_lt fd 0)) in O2 by done. rewrite app_nil_r in O2.
      apply Hfin. intros _. by exists l. }
  intros [a|[c|p v e|e| |]] t2 H2; try by intros [].
  - apply (Hclose A (Ret a) (OVal a)); [done|by apply H2].
  - apply (Hclose A (throw e) (OHalt (HThrow e))); [done|by apply H2].
Qed.

Lemma balanced_with_fd {A} (acquire : prog Z) (body : Z -> prog A) :
  (forall t, wp any_env acquire (fun o t' => exists fd, o = OVal fd /\
     opened t' = opened t ++ (if fd <? 0 then [] else [fd]) /\ closed t' = closed t) t) ->
  (forall fd, balanced (body fd)) ->
  balanced (fd <- acquire ;; with_fd fd (body fd)).
Proof.
  intros Ha Hb t. apply wp_bind. eapply wp_mono; [|apply Ha].
  intros o t1 (fd & -> & O1 & C1). by apply wp_with_fd.
Qed.

Lemma wp_acquired {A} (c : icall) (f : ires -> prog A) (Q : outcome A -> trace -> Prop) t :
  (exists p fl m, c = Open p fl m) \/ (exists fd, c = Dup fd) ->
  (forall r t', opened t' = opened t ++ (if rv r <? 0 then [] else [rv r]) -> closed t' = closed t ->
     wp any_env (f r) Q t') ->
  wp any_env (r <- icall_ c ;; f r) Q t.
Proof.
  intros Hc HQ. apply wp_bind, wp_call. intros r _. apply HQ; unfold opened, closed;
    rewrite log_of_cons; destruct Hc as [(p & fl & m & ->)|(fd & ->)]; try (by rewrite app_nil_r);
    by destruct (rv r <? 0).
Qed.

Lemma wp_open_or_null path flags mode null_fd t :
  wp any_env (open_or_null path flags mode null_fd) (fun o t' => exists fd, o = OVal fd /\
    opened t' = opened t ++ (if fd <? 0 then [] else [fd]) /\ closed t' = closed t) t.
Proof.
  unfold open_or_null.
  assert (Hdup : forall t, wp any_env (d <- icall_ (Dup null_fd) ;; Ret (rv d))
    (fun o t' => exists fd, o = OVal fd /\
       opened t' = opened t ++ (if fd <? 0 then [] else [fd]) /\ closed t' = closed t) t).
  { intros t0. apply wp_acquired; [eauto|]. intros r t' HO HC. cbn. by exists (rv r). }
  apply wp_bind. destruct (str_empty path); [apply Hdup|].
  apply wp_acquired; [left; eauto|]. intros r t1 O1 C1. cbn [wp].
  destruct (rv r <? 0) eqn:Hr.
  - eapply wp_mono; [|apply Hdup]. intros o t2 (fd & -> & O2 & C2).
    rewrite O1, app_nil_r in O2. rewrite C1 in C2. by exists fd.
  - exists (rv r). by rewrite Hr.
Qed.

Section RunFds.
Context {LC : Libc} (fuel : nat) (g : GlobalConfig).

Lemma yields_supervise out err tl ml pid :
  yields (fun r => guard_of pid (snd r)) (supervise fuel g out err tl ml pid).
Proof.
  assert (Hw : forall cg, yields (fun r => guard_of pid (snd r))
                            (watch_child fuel g cg out err tl ml pid)).
  { intros cg. unfold watch_child. apply yields_seq. intros start.
    destruct (chk_i32 _); cbn [defined bind]; [|done].
    eapply yields_bind; [apply yields_poll_loop|]. intros [[r|st u] pr] Hp; [done|].
    by apply yields_seq. }
  unfold supervise. apply yields_seq. intros root. case_goal; [apply Hw|].
  apply yields_seq. intros cg. apply yields_finally, Hw.
Qed.

Lemma neutral_scope out err tl ml pid :
  calls child_neutral (with_process fuel pid (supervise fuel g out err tl ml pid)).
Proof.
  apply calls_with_process; [apply neutral_guard|apply neutral_supervise|apply yields_supervise].
Qed.

Lemma neutral_run_with_fds exe out err tl ml i o e :
  calls fd_neutral (run_with_fds fuel g exe out err tl ml i o e).
Proof.
  unfold run_with_fds. destruct (chk_i64 _); cbn [defined bind]; [|done]. cbv zeta.
  apply calls_bind; [by apply calls_call|]. intros pid. case_goal; [done|].
  eapply calls_mono; [apply child_neutral_fd|apply neutral_scope].
Qed.

Lemma balanced_Run exe i o e tl ml : balanced (Run fuel g exe i o e tl ml).
Proof.
  unfold Run. cbv zeta. intros t. set (out := if str_empty o then _ else _).
  apply wp_acquired; [left; eauto|]. intros r t1 O1 C1.
  destruct (rv r <? 0) eqn:Hr.
  { cbn. intros _. exists []. by rewrite O1, C1, !app_nil_r. }
  apply wp_with_fd; [by rewrite Hr|done|].
  apply balanced_with_fd; [intros; apply wp_open_or_null|]. intros ifd.
  apply balanced_with_fd; [intros; apply wp_open_or_null|]. intros ofd.
  apply balanced_with_fd; [intros; apply wp_open_or_null|]. intros efd.
  apply balanced_neutral, neutral_run_with_fds.
Qed.
End RunFds.

(** ** Lemmas: termination and reaping *)

(** Halts that are neither an exit, an [exec] nor a lack of fuel. *)
Definition abnormal (h : halt) : Prop :=
  match h with HUB | HThrow _ => True | _ => False end.

(** The clock of a live kernel does not jump: a reading is at most an hour past
    the time already elapsed. *)
Definition slack_ns : Z := 3600 * 1000000000.

Definition has_now (t : trace) : bool :=
  existsb (fun e => match e with Ev Now _ => true | _ => false end) t.

Definition punctual : env := fun t s r =>
  live t s r /\
  match s return answer s -> Prop with
  | Now => fun r => has_now t = true -> r <= clock_floor t + slack_ns
  | _ => fun _ => True
  end r.

Lemma punctual_live t s r : punctual t s r -> live t s r.
Proof. by intros [H _]. Qed.

Section RunLive.
Context {LC : Libc} (fuel : nat) (g : GlobalConfig) (Hfuel : (0 < fuel)%nat).

Lemma halting_WriteToFile p d : halting abnormal (WriteToFile p d).
Proof. unfold WriteToFile, cerr. halting. Qed.

Lemma halting_ReadFromFile p : halting abnormal (ReadFromFile p).
Proof. unfold ReadFromFile. halting. Qed.

Hint Resolve halting_WriteToFile halting_ReadFromFile : halting.

Lemma halting_kill_all m : halting abnormal (KillAllProcesses m).
Proof. unfold KillAllProcesses, icall_, cerr. cbv zeta. halting. Qed.

Hint Resolve halting_kill_all : halting.

Lemma halting_dtor m : halting abnormal (CgroupManager_dtor m).
Proof. unfold CgroupManager_dtor, Destroy, cerr. halting. Qed.

Lemma halting_root l : halting abnormal (find_cgroup2_root l).
Proof.
  induction l as [|r l IH]; cbn [find_cgroup2_root]; [done|].
  unfold fs_exists_throwing. halting.
Qed.

Lemma halting_setup root pid ml : halting abnormal (cgroup_setup g root pid ml).
Proof.
  unfold cgroup_setup, cgroup_limits, Create, EnsureParentReady, SetPidsLimit, SetMemoryLimit,
    SetCPULimit, SetIOLimit, AddProcess, not_created, defined, cerr. cbv zeta. halting.
Qed.

Lemma halting_finish cg out err tl ml st u r : halting abnormal (finish_run g cg out err tl ml st u r).
Proof.
  unfold finish_run, memory_used, output_exceeded, ReadRunExecFailureMarker, GetMemoryPeak,
    GetMemoryCurrent, defined. cbv zeta. halting.
Qed.

(** [n] polls of at least 10 ms reach the limit, and the elapsed time fits in
    an [int] on the way. *)
Definition poll_fuel (n : nat) (real start : Z) (t : trace) : Prop :=
  (1 <= n)%nat /\ has_now t = true /\ 0 <= real <= 2000001000 /\
  start <= clock_floor t <= start + (real + 51) * 1000000 /\
  (real + 1) * 1000000 - (clock_floor t - start) < (Z.of_nat n - 1) * 10000000.

Lemma poll_interval_range ml u : poll_interval ml u = 10 \/ poll_interval ml u = 50.
Proof. unfold poll_interval. case_goal; auto. Qed.

Lemma poll_fuel_step n real start t now :
  poll_fuel (S n) real start t ->
  clock_floor t <= now <= clock_floor t + slack_ns ->
  elapsed_ms now start <= real ->
  forall ms, ms = 10 \/ ms = 50 ->
  (1 <= n)%nat /\
  start <= now + ms * 1000000 <= start + (real + 51) * 1000000 /\
  (real + 1) * 1000000 - (now + ms * 1000000 - start) < (Z.of_nat n - 1) * 10000000.
Proof.
  unfold slack_ns. intros (_ & _ & Hr & Hs & Hb) Hn He ms Hms. unfold elapsed_ms in He.
  rewrite Z.quot_div_nonneg in He by lia.
  pose proof (Z.div_mod (now - start) 1000000 ltac:(lia)) as Hd.
  pose proof (Z.mod_pos_bound (now - start) 1000000 ltac:(lia)) as Hm.
  rewrite to_i32_id in He by (unfold INT_MIN, INT_MAX; lia). lia.
Qed.

(** The loop ends, with the child waited for when its guard is given up. *)
Definition poll_post (pid : Z) (o : outcome (polled * ProcessGuard)) (t' : trace) : Prop :=
  match o with
  | OVal (_, pr) => pr = ProcessGuard_new pid \/
      (0 < pid -> reaped pid t') /\ pg_owned pr = None
  | OHalt _ => False
  end.

Lemma wp_poll_loop n ml real start usage result pid t :
  poll_fuel n real start t ->
  wp punctual (poll_loop fuel n ml real start usage result (ProcessGuard_new pid)) (poll_post pid) t.
Proof.
  revert usage t. induction n as [|n IH]; intros usage t Hn; [destruct Hn; lia|].
  cbn [poll_loop]. cbv zeta. unfold wait_nonblock_rusage, wait_rusage, guard_wait, guard_kill.
  cbn [pid_ ProcessGuard_new].
  destruct (pid <=? 0) eqn:Hpid; [by left|].
  apply wp_bind, wp_wait_retry; [done|apply punctual_live|]. intros w [(Hi & _ & Hst & _) _]. cbn beta iota.
  destruct (Z.eqb_spec (w_pid w) (-1)) as [H1|H1].
  { destruct (Z.eqb_spec (w_errno w) EINTR) as [H2|H2]; [tauto|by left]. }
  destruct (Z.eqb_spec (w_pid w) 0) as [H0|H0]; cbn [negb].
  2: { right. split; [|done]. intros _. by apply Exists_cons_hd. }
  set (u := default usage (w_usage w)).
  destruct (ml <? ru_maxrss u).
  { apply wp_bind, wp_bind, wp_call. intros r _. cbn beta iota. cbn [wp].
    apply wp_bind, wp_wait_retry; [done|apply punctual_live|]. intros w2 [(_ & Hb & _) _]. cbn beta iota.
    apply wp_bind, wp_call. intros now _. cbn beta iota. right. split; [|done]. intros _.
    apply Exists_cons_tl, Exists_cons_hd. split; [done|auto]. }
  apply wp_bind, wp_call. intros now [Hnow Hup]. cbn beta iota. cbn in Hnow, Hup.
  destruct (Z.ltb_spec real (elapsed_ms now start)) as [Hlim|Hlim].
  { apply wp_bind, wp_bind, wp_call. intros r _. cbn beta iota. cbn [wp].
    apply wp_bind, wp_wait_retry; [done|apply punctual_live|]. intros w2 [(_ & Hb & _) _]. cbn beta iota.
    right. split; [|done]. intros _. apply Exists_cons_hd. split; [done|auto]. }
  apply wp_bind, wp_call. intros u0 _. cbn beta iota. apply IH.
  pose proof Hn as (_ & Hhas & Hr & _).
  pose proof (poll_fuel_step _ _ _ _ _ Hn (conj Hnow (Hup Hhas)) Hlim _ (poll_interval_range ml u))
    as (Hn' & Hfloor & Hb).
  split; [done|]. split; [done|]. split; [done|]. split; [exact Hfloor|exact Hb].
Qed.

(** A guard whose child is accounted for. *)
Definition accounted (pid : Z) (gd : ProcessGuard) (t : trace) : Prop :=
  gd = ProcessGuard_new pid \/ (0 < pid -> reaped pid t) /\ pg_owned gd = None.

Lemma accounted_grows pid gd t evs : accounted pid gd t -> accounted pid gd (evs ++ t).
Proof. intros [H|[H1 H2]]; [by left|right]. split; [|done]. intros Hp. by apply Exists_suffix, H1. Qed.

Lemma wp_accounted pid gd t :
  accounted pid gd t -> wp punctual (cleanup fuel gd) (fun _ t' => 0 < pid -> reaped pid t') t.
Proof.
  intros Ha. apply wp_cleanup; [done|apply punctual_live| |].
  - intros Hn Hp. destruct Ha as [->|[H _]]; [|by apply H].
    unfold pg_owned in Hn. cbn in Hn. by rewrite (proj2 (Z.leb_gt _ _) Hp) in Hn.
  - intros p w t' Hg Hw Ht Hp. destruct Ha as [->|[_ Hn]]; [|congruence].
    unfold pg_owned in Hg. cbn in Hg. destruct (pid <=? 0); [done|]. injection Hg as <-.
    destruct Ht as [->|(w0 & r & ->)]; by apply Exists_cons_hd.
Qed.

Definition body_post (pid : Z) (o : outcome (RunResult * ProcessGuard)) (t : trace) : Prop :=
  match o with
  | OVal r => accounted pid (snd r) t
  | OHalt h => abnormal h
  end.

Lemma wp_watch_child cg out err tl ml pid t :
  0 <= tl <= 2000000000 -> tl + 1001 < 10 * (Z.of_nat fuel - 1) ->
  wp punctual (watch_child fuel g cg out err tl ml pid) (body_post pid) t.
Proof.
  intros Htl Hf. unfold watch_child. apply wp_bind, wp_call. intros start _. cbn beta iota.
  rewrite chk_i32_in by (unfold INT_MIN, INT_MAX; lia). cbn [defined bind].
  apply wp_bind. eapply wp_mono; [|apply wp_poll_loop; repeat split; cbn; lia].
  intros [[p pr]|h] t' H; [|done]. cbn [fst snd]. destruct p as [r|st u]; [exact H|].
  apply wp_bind, (wp_halting abnormal); [apply halting_finish| |done].
  intros r evs. by apply accounted_grows.
Qed.

Lemma wp_supervise out err tl ml pid t :
  0 <= tl <= 2000000000 -> tl + 1001 < 10 * (Z.of_nat fuel - 1) ->
  wp punctual (supervise fuel g out err tl ml pid) (body_post pid) t.
Proof.
  intros Htl Hf. unfold supervise.
  apply wp_bind, (wp_halting abnormal); [apply halting_root| |done]. intros root e1.
  case_goal; [by apply wp_watch_child|].
  apply wp_bind, (wp_halting abnormal); [apply halting_setup| |done]. intros cg e2.
  apply wp_finally. eapply wp_mono; [|by apply wp_watch_child].
  intros [r|[c|p v e|e| |]] t' H; try done.
  - apply wp_bind, (wp_halting abnormal); [apply halting_dtor| |done].
    intros u e3. by apply accounted_grows.
  - by apply wp_bind, (wp_halting abnormal); [apply halting_dtor| |].
Qed.

(** The outcomes of [Run]: a result or an exception with every child waited
    for, or undefined arithmetic; never an endless loop. *)
Definition run_post (o : outcome RunResult) (t : trace) : Prop :=
  match o with
  | OVal _ | OHalt (HThrow _) => forall pid, In pid (cloned t) -> 0 < pid -> reaped pid t
  | OHalt HUB => True
  | OHalt _ => False
  end.

Lemma wp_any_env {A} (K : env) (p : prog A) Q t : wp any_env p Q t -> wp K p Q t.
Proof. revert t. induction p as [a|h|s k IH]; intros t; cbn; auto. intros H r _. by apply IH, H. Qed.

Definition scope_post (pid : Z) (o : outcome RunResult) (t : trace) : Prop :=
  match o with
  | OVal _ | OHalt (HThrow _) => 0 < pid -> reaped pid t
  | OHalt HUB => True
  | OHalt _ => False
  end.

Lemma wp_scope out err tl ml pid t :
  0 <= tl <= 2000000000 -> tl + 1001 < 10 * (Z.of_nat fuel - 1) ->
  wp punctual (with_process fuel pid (supervise fuel g out err tl ml pid)) (scope_post pid) t.
Proof.
  intros Htl Hf. apply wp_with_process; [done|apply punctual_live|].
  eapply wp_mono; [|by apply wp_supervise].
  intros [[r gd]|[| | | |]] t2 H2; try done.
  - eapply wp_mono; [|by apply wp_accounted]. intros oc t3 H _. exact H.
  - eapply wp_mono; [|apply wp_accounted; by left]. intros oc t3 H _. exact H.
Qed.

Lemma wp_run_with_fds exe out err tl ml i o e t :
  0 <= tl <= 2000000000 -> tl + 1001 < 10 * (Z.of_nat fuel - 1) -> cloned t = [] ->
  wp punctual (run_with_fds fuel g exe out err tl ml i o e) run_post t.
Proof.
  intros Htl Hf Hc. unfold run_with_fds. destruct (chk_i64 _); cbn [defined bind]; [|done].
  cbv zeta. apply wp_bind, wp_call. intros pid _. cbn beta iota. set (t1 := _ :: t).
  assert (C1 : cloned t1 = [rv pid]) by (unfold t1, cloned in *; by rewrite log_of_cons, Hc).
  destruct (Z.eqb_spec (rv pid) (-1)) as [Hp|Hp].
  { apply wp_bind, wp_cerr. intros p. autorewrite with oj_rw. rewrite C1. intros [<-|[]]. lia. }
  pose proof (wp_calls punctual _ _ t1 (neutral_scope fuel g out err tl ml (rv pid))) as Hn.
  pose proof (wp_scope out err tl ml (rv pid) t1 Htl Hf) as Hs.
  eapply wp_mono; [|exact (wp_and _ _ _ _ _ Hn Hs)].
  intros oc t' [(evs & -> & He) H].
  assert (C2 : cloned (evs ++ t1) = [rv pid]) by by rewrite child_neutral_log.
  assert (Hr : (0 < rv pid -> reaped (rv pid) (evs ++ t1)) ->
    forall p, In p (cloned (evs ++ t1)) -> 0 < p -> reaped p (evs ++ t1))
    by (intros HH p; rewrite C2; intros [<-|[]]; exact HH).
  destruct oc as [r|[| | | |]]; try exact H; exact (Hr H).
Qed.

(** The outcome of a run, with the closing of descriptors to come. *)
Lemma run_post_call o s r t :
  (match s with Clone _ _ => False | _ => True end) -> run_post o t -> run_post o (Ev s r :: t).
Proof.
  intros Hs. assert (Hc : cloned (Ev s r :: t) = cloned t) by (by apply cloned_quiet).
  destruct o as [a|[| | | |]]; cbn; try done; rewrite Hc; intros H p Hi Hp;
    by apply Exists_cons_tl, H.
Qed.

Lemma wp_with_fd_post {A} (K : env) fd (body : prog A) (Q : outcome A -> trace -> Prop) t :
  (forall o t r, Q o t -> Q o (Ev (SI (Close fd)) r :: t)) ->
  wp K body Q t -> wp K (with_fd fd body) Q t.
Proof.
  intros HQ Hb. apply wp_finally. eapply wp_mono; [|exact Hb].
  intros [a|[c|q v e|e| |]] t' H; try exact H; unfold close_guard; case_goal; cbn; auto.
Qed.

Lemma wp_open_cloned (K : env) {A} path flags mode null_fd (f : Z -> prog A) Q t :
  cloned t = [] -> (forall fd t', cloned t' = [] -> wp K (f fd) Q t') ->
  wp K (fd <- open_or_null path flags mode null_fd ;; f fd) Q t.
Proof.
  intros Hc HQ. unfold open_or_null. apply wp_bind.
  assert (Hdup : forall t, cloned t = [] -> wp K (d <- icall_ (Dup null_fd) ;; Ret (rv d))
    (fun o t' => match o with OVal a => wp K (f a) Q t' | OHalt h => Q (OHalt h) t' end) t).
  { intros t0 H0. apply wp_bind, wp_call. intros r _. apply HQ. by autorewrite with oj_rw. }
  apply wp_bind. destruct (str_empty path); [by apply Hdup|].
  apply wp_bind, wp_call. intros r _. cbn [wp]. cbn beta iota.
  case_goal; [apply Hdup|apply HQ]; by autorewrite with oj_rw.
Qed.

Lemma wp_Run exe i o e tl ml :
  0 <= tl <= 2000000000 -> tl + 1001 < 10 * (Z.of_nat fuel - 1) ->
  wp punctual (Run fuel g exe i o e tl ml) run_post [].
Proof.
  intros Htl Hf. unfold Run. cbv zeta. apply wp_bind, wp_call. intros r _. cbn beta iota.
  case_goal; [cbn; intros p; by autorewrite with oj_rw|].
  assert (Hq : forall fd (o : outcome RunResult) t r, run_post o t -> run_post o (Ev (SI (Close fd)) r :: t))
    by (intros; by apply run_post_call).
  apply wp_with_fd_post; [apply Hq|]. apply wp_open_cloned; [by autorewrite with oj_rw|]. intros ifd t1 H1.
  apply wp_with_fd_post; [apply Hq|]. apply wp_open_cloned; [done|]. intros ofd t2 H2.
  apply wp_with_fd_post; [apply Hq|]. apply wp_open_cloned; [done|]. intros efd t3 H3.
  apply wp_with_fd_post; [apply Hq|]. by apply wp_run_with_fds.
Qed.
End RunLive.

(** ** Lemmas: what acceptance rests on *)

(** A postcondition on the value returned, if one is. *)
Definition on_value {A} (V : A -> trace -> Prop) (o : outcome A) (t : trace) : Prop :=
  forall a, o = OVal a -> V a t.

Definition monotone {A} (V : A -> trace -> Prop) : Prop :=
  forall a t evs, V a t -> V a (evs ++ t).

Lemma wp_value_bind {A B} (K : env) (V : B -> trace -> Prop) (p : prog A) (f : A -> prog B) t :
  (forall a t', (exists evs, t' = evs ++ t) -> wp K (f a) (on_value V) t') ->
  wp K (bind p f) (on_value V) t.
Proof.
  intros Hf. apply wp_bind. eapply wp_mono; [|apply wp_grows].
  intros [a|h] t' Ht; [by apply Hf|by intros a].
Qed.

Lemma wp_value_after {A B} (K : env) (V : B -> trace -> Prop) (p : prog A) b t :
  monotone V -> V b t -> wp K (p ;; Ret b) (on_value V) t.
Proof. intros HV Hb. apply wp_value_bind. intros a t' [evs ->] b' [= <-]. by apply HV. Qed.

Lemma wp_value_finally {A} (K : env) (V : A -> trace -> Prop) (p : prog A) d t :
  monotone V -> wp K p (on_value V) t -> wp K (finally p d) (on_value V) t.
Proof.
  intros HV Hp. apply wp_finally. eapply wp_mono; [|exact Hp].
  intros [a|[c|q v e|e| |]] t' H; try by intros a.
  - apply wp_value_after; [done|by apply H].
  - apply wp_value_bind. intros u t2 _ a. discriminate.
Qed.

Lemma wp_value_process {A} (K : env) (V : A -> trace -> Prop) fuel pid body t :
  monotone V ->
  wp K body (on_value (fun r t' => V (fst r) t')) t ->
  wp K (with_process fuel pid body) (on_value V) t.
Proof.
  intros HV Hb. unfold with_process. apply wp_bind, wp_try. eapply wp_mono; [|exact Hb].
  intros [r|[c|q v e|e| |]] t' H; try by intros a.
  - apply wp_value_after; [done|by apply H].
  - apply wp_bind. eapply wp_mono; [|apply wp_true]. intros [u|h] t2 _; by intros a.
Qed.

Lemma judge_ok {LC : Libc} tl ml marker st r r' :
  judge tl ml marker st r = Some r' -> rr_status r' = OK ->
  WIFEXITED st = true /\ WEXITSTATUS st = 0 /\ r' = set_status OK (set_exit 0 0 r).
Proof.
  unfold judge, judge_exited, judge_signaled, runtime_error, system_error. intros H Hs.
  repeat case_hyp H; try discriminate H; injection H as <-; try discriminate Hs.
  b2p. rewrite Heqb0. done.
Qed.

Section Accept.
Context {LC : Libc} (fuel : nat) (g : GlobalConfig).

(** The wait status is that of a normal exit with code 0. *)
Definition exit_zero (st : Z) : Prop := WIFEXITED st = true /\ WEXITSTATUS st = 0.

(** The size of the output was looked at and is within the limit. *)
Definition output_checked (output_path : string) (t : trace) : Prop :=
  exists ex, In (Ev (FsExists output_path) ex) t /\
    (fs_val ex = true -> exists sz, In (Ev (FsFileSize output_path) sz) t /\
       (fs_ec sz = None -> fs_val sz <= to_u64 (max_output_size g))).

Definition accepted (output_path : string) (ml pid : Z) (r : RunResult) (t : trace) : Prop :=
  rr_exit_code r = 0 /\ rr_exit_signal r = 0 /\ rr_sandbox_error r = "" /\ rr_error_message r = "" /\
  rr_memory_used r <= ml /\ Exists (exited_with pid exit_zero) t /\ output_checked output_path t.

Definition sound (output_path : string) (ml pid : Z) (r : RunResult) (t : trace) : Prop :=
  rr_status r = OK -> accepted output_path ml pid r t.

Lemma output_checked_grows out t evs : output_checked out t -> output_checked out (evs ++ t).
Proof.
  intros (ex & Hin & Hsz). exists ex. split; [apply in_or_app; by right|].
  intros H. destruct (Hsz H) as (sz & Hi & Hle). exists sz. split; [|done].
  apply in_or_app. by right.
Qed.

Lemma sound_monotone out ml pid : monotone (sound out ml pid).
Proof.
  intros r t evs H Hok. destruct (H Hok) as (H1 & H2 & H3 & H4 & H5 & H6 & H7).
  repeat (split; [done|]). split; [by apply Exists_suffix|by apply output_checked_grows].
Qed.

Lemma wp_wait_retry_event (K : env) n pid opts ru t :
  wp K (wait_retry n pid opts ru)
    (on_value (fun w t' => exists t0, t' = Ev (Wait pid opts ru) w :: t0 /\
       K t0 (Wait pid opts ru) w /\ ~ (w_pid w = -1 /\ w_errno w = EINTR))) t.
Proof.
  revert t. induction n as [|n IH]; intros t; cbn [wait_retry]; [by intros a|].
  apply wp_bind, wp_call. intros w Hw. cbn beta iota. case_goal; [apply IH|].
  intros a [= <-]. eexists. split; [done|]. split; [done|].
  apply andb_false_iff in Heqb as [H|H]; apply Z.eqb_neq in H; tauto.
Qed.

(** A result of the loop is not an acceptance, and a status is the one a wait
    answered. *)
Definition polled_ok (pid : Z) (p : polled * ProcessGuard) (t : trace) : Prop :=
  match fst p with
  | PDone r => rr_status r <> OK
  | PExit status _ => forall st, status = Some st -> Exists (exited_with pid (eq st)) t
  end.

Lemma wp_poll_value n ml real start usage result pid t :
  wp any_env (poll_loop fuel n ml real start usage result (ProcessGuard_new pid))
    (on_value (polled_ok pid)) t.
Proof.
  revert usage t. induction n as [|n IH]; intros usage t; cbn [poll_loop]; [by intros a|]. cbv zeta.
  unfold wait_nonblock_rusage, guard_wait. cbn [pid_ ProcessGuard_new].
  destruct (pid <=? 0); [by intros a [= <-]|].
  apply wp_bind. eapply wp_mono; [|apply wp_wait_retry_event].
  intros [w|h] t1 H; [|by intros a]. destruct (H w eq_refl) as (t0 & -> & _).
  destruct (w_pid w =? -1).
  { case_goal; [apply IH|]. by intros a [= <-]. }
  destruct (Z.eqb_spec (w_pid w) 0) as [H0|H0]; cbn [negb].
  2: { intros a [= <-] st Hst. apply Exists_cons_hd. cbn. eauto 6. }
  case_goal.
  { apply wp_value_bind. intros b t2 _. apply wp_value_bind. intros w2 t3 _.
    apply wp_value_bind. intros now t4 _. by intros a [= <-]. }
  apply wp_value_bind. intros now t2 _. case_goal.
  { apply wp_value_bind. intros b t3 _. apply wp_value_bind. intros w2 t4 _. by intros a [= <-]. }
  apply wp_value_bind. intros u t3 _. apply IH.
Qed.

Lemma wp_output_exceeded out t :
  wp any_env (output_exceeded g out)
    (on_value (fun b t' => (exists evs, t' = evs ++ t) /\ (b = false -> output_checked out t'))) t.
Proof.
  unfold output_exceeded. apply wp_bind, wp_call. intros ex _. cbn beta iota.
  destruct (fs_val ex) eqn:Hex.
  - apply wp_bind, wp_call. intros sz _. intros b [= <-].
    split; [by exists [Ev (FsFileSize out) sz; Ev (FsExists out) ex]|]. intros Hb.
    exists ex. split; [right; by left|]. intros _. exists sz. split; [by left|].
    intros Hec. rewrite Hec in Hb. by apply Z.ltb_ge.
  - intros b [= <-]. split; [by exists [Ev (FsExists out) ex]|]. intros _.
    exists ex. split; [by left|]. by rewrite Hex.
Qed.

Lemma wp_finish_run cg out err tl ml status usage pid t :
  (forall st, status = Some st -> Exists (exited_with pid (eq st)) t) ->
  wp any_env (finish_run g cg out err tl ml status usage RunResult0) (on_value (sound out ml pid)) t.
Proof.
  intros Hst. unfold finish_run. cbv zeta.
  apply wp_value_bind. intros time t1 [e1 ->]. apply wp_value_bind. intros mem t2 [e2 ->].
  apply wp_bind. eapply wp_mono; [|apply wp_output_exceeded].
  intros [b|h] t3 H3; [|by intros a]. destruct (H3 b eq_refl) as [[e3 ->] Hchk].
  destruct b; [by intros a [= <-]|].
  destruct (Z.ltb_spec ml (rr_memory_used (set_memory mem (set_time time RunResult0)))) as [Hm|Hm];
    [by intros a [= <-]|].
  apply wp_value_bind. intros marker t4 [e4 ->].
  destruct status as [st|]; cbn [defined bind]; [|by intros a].
  destruct (judge _ _ _ _ _) as [r|] eqn:Hj; [|by intros a].
  intros a [= <-] Hok. destruct (judge_ok _ _ _ _ _ _ Hj Hok) as (He & Hc & ->).
  repeat (split; [done|]). split.
  - do 4 apply Exists_suffix. eapply exited_with_mono; [|exact (Hst st eq_refl)].
    intros ? <-. by split.
  - by apply output_checked_grows, Hchk.
Qed.

Lemma wp_supervise_value out err tl ml pid t :
  wp any_env (supervise fuel g out err tl ml pid)
    (on_value (fun r t' => sound out ml pid (fst r) t')) t.
Proof.
  assert (Hw : forall cg t, wp any_env (watch_child fuel g cg out err tl ml pid)
                              (on_value (fun r t' => sound out ml pid (fst r) t')) t).
  { intros cg t0. unfold watch_child. apply wp_value_bind. intros start t1 _.
    apply wp_value_bind. intros real t2 _. apply wp_bind.
    eapply wp_mono; [|apply wp_poll_value]. intros [[p pr]|h] t3 H; [|by intros a].
    specialize (H _ eq_refl). cbn [fst snd]. destruct p as [r|st u].
    - intros a [= <-] Hok. by destruct H.
    - apply wp_bind. eapply wp_mono; [|apply wp_finish_run; exact H].
      intros [r|h] t4 Hr; [|by intros a]. intros a [= <-]. by apply Hr. }
  unfold supervise. apply wp_value_bind. intros root t1 _. case_goal; [apply Hw|].
  apply wp_value_bind. intros cg t2 _. apply wp_value_finally; [|apply Hw].
  intros r t' evs. apply sound_monotone.
Qed.

(** The verdict of a run, against the child it created. *)
Definition run_sound (output_path : string) (ml : Z) (r : RunResult) (t : trace) : Prop :=
  rr_status r = OK -> exists pid, In pid (cloned t) /\ accepted output_path ml pid r t.

Lemma run_sound_monotone out ml : monotone (run_sound out ml).
Proof.
  intros r t evs H Hok. destruct (H Hok) as (pid & Hin & Ha). exists pid.
  split; [|by apply (sound_monotone out ml pid r t evs (fun _ => Ha))].
  unfold cloned, log_of in *. rewrite omap_app, rev_app_distr. apply in_or_app. by left.
Qed.

Lemma wp_Run_value exe i o e tl ml :
  wp any_env (Run fuel g exe i o e tl ml)
    (on_value (run_sound (if str_empty o then path_append (parent_path exe) "output.txt" else o) ml)) [].
Proof.
  unfold Run. cbv zeta. set (out := if str_empty o then _ else _).
  assert (Hfd : forall (p : prog RunResult) fd t, wp any_env p (on_value (run_sound out ml)) t ->
    wp any_env (with_fd fd p) (on_value (run_sound out ml)) t)
    by (intros; apply wp_value_finally; [apply run_sound_monotone|done]).
  apply wp_value_bind. intros r t1 _. case_goal; [by intros a [= <-]|].
  apply Hfd, wp_value_bind. intros ifd t2 _. apply Hfd, wp_value_bind. intros ofd t3 _.
  apply Hfd, wp_value_bind. intros efd t4 _. apply Hfd. unfold run_with_fds.
  apply wp_value_bind. intros lim t5 _. apply wp_bind, wp_call. intros pid _. cbn beta iota.
  set (t6 := _ :: t5). case_goal; [apply wp_value_bind; intros u t7 _; by intros a [= <-]|].
  assert (Hin : In (rv pid) (cloned t6)).
  { unfold t6, cloned. rewrite log_of_cons. apply in_or_app. right. by left. }
  eapply wp_mono; [|exact (wp_and _ _ _ _ _
    (wp_value_process any_env _ fuel (rv pid) _ t6 (sound_monotone out ml (rv pid))
       (wp_supervise_value out e tl ml (rv pid) t6))
    (wp_calls any_env _ _ t6 (neutral_scope fuel g out e tl ml (rv pid))))].
  intros oc t' [H (evs & -> & He)] a -> Hok. exists (rv pid).
  split; [by rewrite child_neutral_log|]. by apply H.
Qed.
End Accept.

(** ** Lemmas: the cgroup layer *)

Lemma wp_SetIOLimit m rd wr target t :
  created_ m = true ->
  wp streams_good (SetIOLimit m rd wr target) (fun o t' => exists b io, o = OVal b /\
    writes t' = writes t ++ io /\ (io = [] \/ exists v, io = [(cgroup_path_ m +:+ "/io.max", v)])) t.
Proof.
  intros Hc. unfold SetIOLimit. rewrite Hc. cbn [negb].
  assert (Hnone : forall o t', writes t' = writes t -> (exists b : bool, o = OVal b) ->
    exists b io, o = OVal b /\ writes t' = writes t ++ io /\
      (io = [] \/ exists v, io = [(cgroup_path_ m +:+ "/io.max", v)])).
  { intros o t' Hw [b ->]. exists b, []. rewrite app_nil_r. auto. }
  case_goal; [apply Hnone; eauto|].
  apply wp_bind, wp_call. intros [[maj min]|] _; cbn beta iota.
  - apply wp_bind. eapply wp_mono; [|apply sets_WriteToFile]. intros o t1 (-> & H1). cbn [negb].
    apply wp_bind, wp_cerr. eexists _, [_]. split; [done|]. autorewrite with oj_rw in *.
    split; [exact H1|]. right. eauto.
  - apply wp_bind, wp_cerr. apply Hnone; [by autorewrite with oj_rw|eauto].
Qed.

(** The part of a list of limits that sets them, whatever their result. *)
Lemma wp_sets_then {A} (p : prog bool) b ws (f : bool -> prog A) Q t :
  sets p b ws -> (forall t', writes t' = writes t ++ ws -> wp streams_good (f b) Q t') ->
  wp streams_good (bind p f) Q t.
Proof. intros Hp HQ. apply wp_bind. eapply wp_mono; [|apply Hp]. intros o t' (-> & H). by apply HQ. Qed.

(** The CPU share [Run] asks for. *)
Definition cpu_cores (g : GlobalConfig) : b64 :=
  if b64_gt (cgroup_cpu_max_cores g) b64_zero then cgroup_cpu_max_cores g else b64_one.

(** ** Theorems *)

(** C2: A program is accepted only on evidence: whenever [Run] answers OK, under
    any kernel, a child it created was waited for and had exited normally with
    code 0, the memory it reports is within the limit, and the output file was
    looked up and, where its size could be read, is within the limit; code,
    signal and error texts are those of a clean exit. *)
Theorem Run_accepts_soundly {LC : Libc} fuel g exe i o e tl ml k r :
  exec_outcome k (Run fuel g exe i o e tl ml) = OVal r -> rr_status r = OK ->
  let output_path := if str_empty o then path_append (parent_path exe) "output.txt" else o in
  let t := exec_trace k (Run fuel g exe i o e tl ml) in
  exists pid, In pid (cloned t) /\ accepted g output_path ml pid r t.
Proof.
  intros Hr Hok output_path t.
  exact (run_wp any_env k _ _ [] (respects_any k) (wp_Run_value fuel g exe i o e tl ml) r Hr Hok).
Qed.

(** C4: Watching a program always ends: under a live kernel whose clock does not
    jump by an hour, a time limit of at most 2000 s and one unit of fuel per
    10 ms of it suffice; and whether [Run] returns or lets an exception pass,
    every child it created has been waited for. *)
Theorem Run_terminates_and_reaps {LC : Libc} fuel g exe i o e tl ml k :
  respects k punctual -> 0 <= tl <= 2000000000 -> tl + 1011 < 10 * Z.of_nat fuel ->
  run_post (exec_outcome k (Run fuel g exe i o e tl ml))
           (exec_trace k (Run fuel g exe i o e tl ml)).
Proof.
  intros Hk Htl Hf. apply (run_wp punctual k _ _ [] Hk), wp_Run; lia.
Qed.

(** C32: Under every kernel, when [Run] returns or lets an exception pass, the
    descriptors it closed are exactly those it opened, each once, last opened
    first closed. *)
Theorem Run_closes_descriptors {LC : Libc} fuel g exe i o e tl ml k :
  let t := exec_trace k (Run fuel g exe i o e tl ml) in
  match exec_outcome k (Run fuel g exe i o e tl ml) with
  | OVal _ | OHalt (HThrow _) => closed t = rev (opened t)
  | _ => True
  end.
Proof.
  intros t. pose proof (run_wp any_env k _ _ [] (respects_any k)
    (balanced_Run fuel g exe i o e tl ml [])) as H.
  fold (exec_outcome k (Run fuel g exe i o e tl ml)) in H.
  fold (exec_trace k (Run fuel g exe i o e tl ml)) in H. fold t in H.
  destruct (exec_outcome _ _) as [r|[| | | |]]; cbn [unwound] in H; try exact I;
    destruct (H I) as (l & -> & ->); done.
Qed.

(** The child joins its cgroup last: when the cgroup files accept their
    values, the limits on processes, memory (in bytes, with swap off) and CPU
    are written in this order, then at most one I/O limit, and only then the
    pid of the child. *)
Theorem cgroup_limits_order {LC : Libc} g m pid ml quota k :
  respects k streams_good -> created_ m = true ->
  SFleb (cpu_cores g) b64_zero = false -> cpu_quota (cpu_cores g) = Some quota ->
  let file f := cgroup_path_ m +:+ f in
  exists io, (io = [] \/ exists v, io = [(file "/io.max", v)]) /\
  exec_outcome k (cgroup_limits g m pid ml) = OVal tt /\
  writes (exec_trace k (cgroup_limits g m pid ml)) =
    [(file "/pids.max", to_string (if 0 <? cgroup_pids_limit g then cgroup_pids_limit g else 20));
     (file "/memory.max", to_string (to_u64 (to_u64 ml * 1024)));
     (file "/memory.swap.max", "0");
     (file "/cpu.max", to_string quota +:+ " 100000")] ++ io ++
    [(file "/cgroup.procs", to_string pid)].
Proof.
  intros Hk Hc Hpos Hq file.
  apply (run_wp streams_good k (cgroup_limits g m pid ml) (fun oc t => exists io,
    (io = [] \/ exists v, io = [(file "/io.max", v)]) /\ oc = OVal tt /\ writes t = _ ++ io ++ _) [] Hk).
  unfold cgroup_limits. cbv zeta. fold (cpu_cores g).
  eapply wp_sets_then; [by apply sets_SetPidsLimit|]. intros t1 H1.
  eapply wp_sets_then; [by apply sets_SetMemoryLimit|]. intros t2 H2.
  eapply wp_sets_then; [by apply sets_SetCPULimit|]. intros t3 H3.
  apply wp_bind. eapply wp_mono; [|by apply wp_SetIOLimit]. intros oc t4 (b & io & -> & H4 & Hio).
  eapply wp_sets_then; [by apply sets_AddProcess|]. intros t5 H5.
  exists io. split; [exact Hio|]. split; [done|].
  rewrite H5, H4, H3, H2, H1. cbn. by rewrite <- !app_assoc.
Qed.

(** [wait4] with WNOHANG and no child to report leaves the usage buffer alone
    (Linux). *)
Definition quiet_wnohang : env := fun _ s =>
  match s return answer s -> Prop with
  | Wait _ _ _ => fun w => w_pid w = 0 -> w_usage w = None
  | _ => fun _ => True
  end.

Lemma wp_poll_no_mle fuel n ml real start result pid t {LC : Libc} :
  0 <= ml -> rr_status result <> MEMORY_LIMIT_EXCEEDED ->
  wp quiet_wnohang (poll_loop fuel n ml real start rusage0 result (ProcessGuard_new pid))
    (on_value (fun p _ => match fst p with
                          | PDone r => rr_status r <> MEMORY_LIMIT_EXCEEDED
                          | PExit _ _ => True
                          end)) t.
Proof.
  intros Hml Hr. revert t. induction n as [|n IH]; intros t; cbn [poll_loop]; [by intros a|]. cbv zeta.
  unfold wait_nonblock_rusage, guard_wait. cbn [pid_ ProcessGuard_new].
  destruct (pid <=? 0); [by intros a [= <-]|].
  apply wp_bind. eapply wp_mono; [|apply wp_wait_retry_event].
  intros [w|h] t1 H; [|by intros a]. destruct (H w eq_refl) as (t0 & -> & Hw & Hi).
  destruct (Z.eqb_spec (w_pid w) (-1)) as [H1|H1].
  { destruct (Z.eqb_spec (w_errno w) EINTR); [tauto|]. by intros a [= <-]. }
  destruct (Z.eqb_spec (w_pid w) 0) as [H0|H0]; cbn [negb]; [|by intros a [= <-]].
  rewrite (Hw H0). cbn [default ru_maxrss rusage0].
  rewrite (proj2 (Z.ltb_ge _ _)) by done.
  apply wp_value_bind. intros now t2 _. case_goal.
  { apply wp_value_bind. intros b t3 _. apply wp_value_bind. intros w2 t4 _. by intros a [= <-]. }
  apply wp_value_bind. intros u t3 _. apply IH.
Qed.

(** The real-time memory check of the polling loop cannot fire on Linux:
    where [wait4] leaves the usage buffer alone while the child runs, the loop
    never ends with a memory verdict, whatever the program allocates. *)
Theorem realtime_mle_unreachable {LC : Libc} fuel n ml real start pid k r pr :
  respects k quiet_wnohang -> 0 <= ml ->
  exec_outcome k (poll_loop fuel n ml real start rusage0 RunResult0 (ProcessGuard_new pid)) =
    OVal (PDone r, pr) ->
  rr_status r <> MEMORY_LIMIT_EXCEEDED.
Proof.
  intros Hk Hml Hr.
  exact (run_wp quiet_wnohang k _ _ [] Hk
    (wp_poll_no_mle fuel n ml real start RunResult0 pid [] Hml ltac:(done)) _ Hr).
Qed.

(** ** Witnesses *)

(** A kernel on which a program runs for ever and the clock advances. *)
Definition running : kernel := fun t s =>
  match s return answer s with
  | Wait _ 0 _ => WRes 100 0 (Some 9) (Some rusage0)
  | Wait _ _ _ => WRes 0 0 None None
  | Now => clock_floor t
  | s => happy t s
  end.

Lemma Run_accepts_soundly_witness :
  exists r,
    exec_outcome happy (Run 2 config "/tmp/deep_oj/job/main" "/in" "/out" "/err" 1000 131072) = OVal r /\
    rr_status r = OK /\ rr_memory_used r <= 131072.
Proof.
  eexists. split; [vm_compute; reflexivity|]. split; [reflexivity|].
  destruct (Run_accepts_soundly 2 config "/tmp/deep_oj/job/main" "/in" "/out" "/err" 1000 131072 happy
    _ ltac:(vm_compute; reflexivity) ltac:(reflexivity)) as (pid & _ & _ & _ & _ & _ & H & _).
  exact H.
Defined.

Lemma Run_terminates_and_reaps_witness :
  run_post (exec_outcome running (Run 300 config "/tmp/deep_oj/job/main" "/in" "/out" "/err" 1000 131072))
           (exec_trace running (Run 300 config "/tmp/deep_oj/job/main" "/in" "/out" "/err" 1000 131072)).
Proof.
  apply Run_terminates_and_reaps; [|lia|lia].
  intros t s. destruct s; split; cbn; try done; unfold slack_ns; try lia;
    destruct options; repeat split; cbn; try lia; try done; eauto.
Defined.

Lemma cgroup_limits_order_witness :
  let m := with_created (CgroupManager_new "/sys/fs/cgroup/deep_oj" "run_100") true in
  created_ m = true /\ exec_outcome happy (cgroup_limits config m 100 131072) = OVal tt.
Proof.
  split; [reflexivity|].
  destruct (cgroup_limits_order config
    (with_created (CgroupManager_new "/sys/fs/cgroup/deep_oj" "run_100") true) 100 131072 100000 happy)
    as (io & _ & H & _); [intros t s; by destruct s|reflexivity..|exact H].
Defined.

Lemma realtime_mle_unreachable_witness :
  exists r pr,
    exec_outcome running (poll_loop 5 100 131072 2000 0 rusage0 RunResult0 (ProcessGuard_new 100)) =
      OVal (PDone r, pr) /\ rr_status r <> MEMORY_LIMIT_EXCEEDED.
Proof.
  eexists _, _. split; [vm_compute; reflexivity|].
  refine (realtime_mle_unreachable 5 100 131072 2000 0 100 running _ _ _ _ _).
  - intros t s. destruct s; cbn; try done. by destruct options.
  - lia.
  - vm_compute. reflexivity.
Defined.
