(* ===== verification/Config.v ===== *)
(** * Configuration: config.cpp

    [LoadConfig] fills the global configuration from a YAML file.  The YAML
    library is a parameter: its nodes, its conversions and what the standard
    conversions guarantee. *)

From S2P Require Import Prelude CInt CFloat CStr Internal Sys Sample.

(** ** The YAML library *)

(** yaml-cpp as the engine uses it; [inr] is a C++ exception.  [as<T>()] yields
    values of the type [T]. *)
Class Yaml := {
  Node : Type;
  LoadFile : option string -> Node + exn;       (* the contents of the file, if it opens *)
  subnode : Node -> string -> Node + exn;       (* [node\[key\]] *)
  is_defined : Node -> bool;                    (* [operator bool] *)
  IsSequence : Node -> bool;
  items : Node -> list Node;                    (* [node\[0\]] to [node\[size()-1\]] *)
  as_string : Node -> string + exn;
  as_int : Node -> Z + exn;
  as_long_long : Node -> Z + exn;
  as_unsigned_long : Node -> Z + exn;
  as_double : Node -> b64 + exn;
  as_int_range : forall n v, as_int n = inl v -> is_i32 v = true;
  as_long_long_range : forall n v, as_long_long n = inl v -> is_i64 v = true;
  as_unsigned_long_range : forall n v, as_unsigned_long n = inl v -> is_u64 v = true
}.

Definition EXIT_FAILURE : Z := 1.

Definition lift {A} (r : A + exn) : prog A :=
  match r with inl a => Ret a | inr e => throw e end.

Section Config.
Context {Y : Yaml}.

(** [CHECK_NODE(node, name)] on [parent[key]]: the node, or exit. *)
Definition CHECK_NODE (parent : Node) (key name : string) : prog Node :=
  n <- lift (subnode parent key) ;;
  if is_defined n then Ret n
  else
    cerr ("[配置] 致命错误: 配置文件缺少关键节点 '" +:+ name +:+ "'" +:+ newline) ;;
    exit_ EXIT_FAILURE.

(** [node[key] ? node[key].as<T>() : def]. *)
Definition get_or {A} (conv : Node -> A + exn) (node : Node) (key : string) (def : A) : prog A :=
  n <- lift (subnode node key) ;;
  if is_defined n then lift (conv n) else Ret def.

(** The first 16 entries of a list, each cut to a [char[256]]. *)
Fixpoint read_mounts (room : nat) (l : list Node) : prog (list string) :=
  match room, l with
  | S room, n :: l =>
      d <- lift (as_string n) ;;
      rest <- read_mounts room l ;;
      Ret (strncpy_z 255 d :: rest)
  | _, _ => Ret []
  end.

Definition max_mounts : nat := 16.

(** The "runner" section, or its defaults. *)
Record Runner := mkRunner {
  rn_max_output_size : Z; rn_output_buffer_size : Z; rn_tmpfs_size_mb : Z;
  rn_cgroup_pids_limit : Z; rn_cgroup_cpu_max_cores : b64;
  rn_cgroup_io_read_bps : Z; rn_cgroup_io_write_bps : Z }.

Definition default_runner : Runner :=
  mkRunner (10 * 1024 * 1024) (2 * 1024 * 1024) 64 20 b64_one
    (100 * 1024 * 1024) (100 * 1024 * 1024).

Definition load_runner (config : Node) : prog Runner :=
  runner <- lift (subnode config "runner") ;;
  if is_defined runner then
    max_output <- get_or as_long_long runner "max_output_size" (rn_max_output_size default_runner) ;;
    buffer <- get_or as_long_long runner "output_buffer_size" (rn_output_buffer_size default_runner) ;;
    tmpfs <- get_or as_long_long runner "tmpfs_size_mb" (rn_tmpfs_size_mb default_runner) ;;
    pids <- get_or as_int runner "cgroup_pids_limit" (rn_cgroup_pids_limit default_runner) ;;
    cores <- get_or as_double runner "cgroup_cpu_max_cores" (rn_cgroup_cpu_max_cores default_runner) ;;
    rbps <- get_or as_long_long runner "cgroup_io_read_bps" (rn_cgroup_io_read_bps default_runner) ;;
    wbps <- get_or as_long_long runner "cgroup_io_write_bps" (rn_cgroup_io_write_bps default_runner) ;;
    Ret (mkRunner max_output buffer tmpfs pids cores rbps wbps)
  else Ret default_runner.

(** The "path" section. *)
Definition load_paths (config : Node) : prog (string * string * list string * list string) :=
  pathNode <- CHECK_NODE config "path" "path" ;;
  workspaceNode <- CHECK_NODE pathNode "workspace_root" "path.workspace_root" ;;
  compilerNode <- CHECK_NODE pathNode "compiler_bin" "path.compiler_bin" ;;
  mdirs <- CHECK_NODE pathNode "mount_dirs" "path.mount_dirs" ;;
  workspace <- lift (as_string workspaceNode) ;;
  compiler <- lift (as_string compilerNode) ;;
  if negb (IsSequence mdirs) then
    cerr ("[配置] 错误: 'path.mount_dirs' 必须是一个列表" +:+ newline) ;;
    exit_ EXIT_FAILURE
  else
    dirs <- read_mounts max_mounts (items mdirs) ;;
    mfiles <- lift (subnode pathNode "mount_files") ;;
    files <- (if is_defined mfiles && IsSequence mfiles
              then read_mounts max_mounts (items mfiles) else Ret []) ;;
    Ret (strncpy_z 255 workspace, strncpy_z 255 compiler, dirs, files).

(** Megabytes to bytes, in [long long]. *)
Definition mb_to_bytes (mb : Z) : prog Z := defined (chk_i64 (mb * 1024 * 1024)).

(** The "compile" section: CPU, real time, memory, tmpfs, log, errors. *)
Record CompileSection := mkCompileSection {
  cs_cpu_limit : Z; cs_real_limit : Z; cs_mem_limit : Z;
  cs_tmpfs_size_mb : Z; cs_log_max_bytes : Z; cs_max_errors : Z }.

Definition load_compile (config : Node) : prog CompileSection :=
  compileNode <- CHECK_NODE config "compile" "compile" ;;
  cpuNode <- CHECK_NODE compileNode "cpu_limit_s" "compile.cpu_limit_s" ;;
  realNode <- CHECK_NODE compileNode "real_time_limit_s" "compile.real_time_limit_s" ;;
  memNode <- CHECK_NODE compileNode "memory_limit_mb" "compile.memory_limit_mb" ;;
  cpu <- lift (as_int cpuNode) ;;
  real <- lift (as_int realNode) ;;
  mem_mb <- lift (as_long_long memNode) ;;
  mem <- mb_to_bytes mem_mb ;;
  tmpfs <- get_or as_long_long compileNode "tmpfs_size_mb" 128 ;;
  logNode <- lift (subnode compileNode "log_max_size_mb") ;;
  log_max <- (if is_defined logNode
              then log_mb <- lift (as_long_long logNode) ;; mb_to_bytes log_mb
              else Ret (16 * 1024 * 1024)) ;;
  max_errors <- get_or as_int compileNode "max_errors" 10 ;;
  Ret (mkCompileSection cpu real mem tmpfs log_max (if max_errors <=? 0 then 10 else max_errors)).

(** The "security" section: [uid_t] and [gid_t] are 32 bits wide. *)
Definition load_security (config : Node) : prog (Z * Z) :=
  secNode <- CHECK_NODE config "security" "security" ;;
  uidNode <- CHECK_NODE secNode "run_as_uid" "security.run_as_uid" ;;
  gidNode <- CHECK_NODE secNode "run_as_gid" "security.run_as_gid" ;;
  uid <- lift (as_unsigned_long uidNode) ;;
  gid <- lift (as_unsigned_long gidNode) ;;
  Ret (to_u32 uid, to_u32 gid).

(** The body of the [try] block; every failure leaves the program, so the
    configuration is the one assembled at the end. *)
Definition load_sections (config : Node) : prog GlobalConfig :=
  runner <- load_runner config ;;
  paths <- load_paths config ;;
  compile <- load_compile config ;;
  ids <- load_security config ;;
  let '(workspace, compiler, dirs, files) := paths in
  Ret {| workspace_root := workspace; compiler_path := compiler;
         mount_dirs := dirs; mount_files := files;
         compile_cpu_limit := cs_cpu_limit compile; compile_real_limit := cs_real_limit compile;
         compile_mem_limit := cs_mem_limit compile;
         max_output_size := rn_max_output_size runner;
         output_buffer_size := rn_output_buffer_size runner;
         run_tmpfs_size_mb := rn_tmpfs_size_mb runner;
         compile_tmpfs_size_mb := cs_tmpfs_size_mb compile;
         compile_log_max_bytes := cs_log_max_bytes compile;
         compile_max_errors := cs_max_errors compile;
         run_uid := fst ids; run_gid := snd ids;
         cgroup_pids_limit := rn_cgroup_pids_limit runner;
         cgroup_cpu_max_cores := rn_cgroup_cpu_max_cores runner;
         cgroup_io_read_bps := rn_cgroup_io_read_bps runner;
         cgroup_io_write_bps := rn_cgroup_io_write_bps runner |}.

Definition LoadConfig (path : string) : prog GlobalConfig :=
  try_catch
    (cerr ("[配置] 正在读取: " +:+ path +:+ " ..." +:+ newline) ;;
     content <- call (ReadStream path) ;;
     config <- lift (LoadFile content) ;;
     g <- load_sections config ;;
     cerr ("[配置] 加载完成。WorkRoot: " +:+ workspace_root g +:+ ", MaxOutputBytes: " +:+
           to_string (max_output_size g) +:+ newline) ;;
     Ret g)
    (fun e =>
       cerr ((match e with
              | YamlException _ => "[配置] YAML 解析失败: "
              | _ => "[配置] 加载异常: "
              end) +:+ exn_what e +:+ newline) ;;
       exit_ EXIT_FAILURE).
End Config.

(** ** Well-formed configurations *)

(** What the arrays and integers of [GlobalConfig] can hold. *)
Definition array_ok (s : string) : Prop := (String.length s <= 255)%nat /\ no_nul s = true.

Record wf_config (g : GlobalConfig) : Prop := {
  wf_root : array_ok (workspace_root g);
  wf_compiler : array_ok (compiler_path g);
  wf_dirs : (length (mount_dirs g) <= max_mounts)%nat /\ Forall array_ok (mount_dirs g);
  wf_files : (length (mount_files g) <= max_mounts)%nat /\ Forall array_ok (mount_files g);
  wf_cpu : is_i32 (compile_cpu_limit g) = true;
  wf_real : is_i32 (compile_real_limit g) = true;
  wf_mem : is_i64 (compile_mem_limit g) = true;
  wf_log : is_i64 (compile_log_max_bytes g) = true;
  wf_errors : 1 <= compile_max_errors g <= INT_MAX;
  wf_output : is_i64 (max_output_size g) = true;
  wf_buffer : is_i64 (output_buffer_size g) = true;
  wf_run_tmpfs : is_i64 (run_tmpfs_size_mb g) = true;
  wf_compile_tmpfs : is_i64 (compile_tmpfs_size_mb g) = true;
  wf_pids : is_i32 (cgroup_pids_limit g) = true;
  wf_read_bps : is_i64 (cgroup_io_read_bps g) = true;
  wf_write_bps : is_i64 (cgroup_io_write_bps g) = true;
  wf_uid : 0 <= run_uid g < 2 ^ 32;
  wf_gid : 0 <= run_gid g < 2 ^ 32
}.

(** ** Lemmas *)

Section ConfigProofs.
Context {Y : Yaml}.

Lemma array_ok_copy s : array_ok (strncpy_z 255 s).
Proof. split; [apply strncpy_z_length|apply strncpy_z_no_nul]. Qed.

Lemma yields_lift {A} (V : A -> Prop) (r : A + exn) :
  (forall a, r = inl a -> V a) -> yields V (lift r).
Proof. destruct r; cbn; auto. Qed.

(** A node that is there. *)
Definition at_key (parent : Node) (key : string) (n : Node) : Prop :=
  subnode parent key = inl n /\ is_defined n = true.

Lemma yields_CHECK_NODE parent key name : yields (at_key parent key) (CHECK_NODE parent key name).
Proof.
  unfold CHECK_NODE. eapply (yields_bind (fun n => subnode parent key = inl n)).
  - by apply yields_lift.
  - intros n Hn. case_goal; [by split|]. by apply yields_seq.
Qed.

Lemma yields_get_or {A} (V : A -> Prop) conv node key (def : A) :
  (forall n a, conv n = inl a -> V a) -> V def -> yields V (get_or conv node key def).
Proof.
  intros Hc Hd. unfold get_or. apply yields_seq. intros n.
  case_goal; [apply yields_lift; eauto|done].
Qed.

Lemma yields_read_mounts room l :
  yields (fun ds => (length ds <= room)%nat /\ Forall array_ok ds) (read_mounts room l).
Proof.
  revert l. induction room as [|room IH]; intros [|n l]; cbn [read_mounts];
    try (split; [cbn; lia|constructor]).
  apply yields_seq. intros d. eapply yields_bind; [apply IH|]. intros ds [Hl Hd].
  split; [cbn; lia|]. constructor; [apply array_ok_copy|done].
Qed.

Lemma yields_mb_to_bytes mb : yields (fun v => v = mb * 1024 * 1024 /\ is_i64 v = true) (mb_to_bytes mb).
Proof. unfold mb_to_bytes, chk_i64. case_goal; cbn; auto. Qed.

Lemma yields_get_long_long n key def : is_i64 def = true -> yields (fun v => is_i64 v = true) (get_or as_long_long n key def).
Proof. intros H. apply (yields_get_or (fun v => is_i64 v = true)); [apply as_long_long_range|done]. Qed.

Definition wf_runner (r : Runner) : Prop :=
  is_i64 (rn_max_output_size r) = true /\ is_i64 (rn_output_buffer_size r) = true /\
  is_i64 (rn_tmpfs_size_mb r) = true /\ is_i32 (rn_cgroup_pids_limit r) = true /\
  is_i64 (rn_cgroup_io_read_bps r) = true /\ is_i64 (rn_cgroup_io_write_bps r) = true.

Lemma yields_load_runner config : yields wf_runner (load_runner config).
Proof.
  unfold load_runner. apply yields_seq. intros runner. case_goal; [|done].
  eapply yields_bind; [by apply yields_get_long_long|]. intros mo Hmo.
  eapply yields_bind; [by apply yields_get_long_long|]. intros bu Hbu.
  eapply yields_bind; [by apply yields_get_long_long|]. intros tm Htm.
  eapply yields_bind; [apply (yields_get_or (fun v => is_i32 v = true)); [apply as_int_range|done]|]. intros pi Hpi.
  apply yields_seq. intros co.
  eapply yields_bind; [by apply yields_get_long_long|]. intros rd Hrd.
  eapply yields_bind; [by apply yields_get_long_long|]. intros wr Hwr. by split_and!.
Qed.

Definition wf_paths (p : string * string * list string * list string) : Prop :=
  let '(workspace, compiler, dirs, files) := p in
  array_ok workspace /\ array_ok compiler /\
  ((length dirs <= max_mounts)%nat /\ Forall array_ok dirs) /\
  ((length files <= max_mounts)%nat /\ Forall array_ok files).

Lemma yields_load_paths config : yields wf_paths (load_paths config).
Proof.
  unfold load_paths. do 6 (apply yields_seq; intros ?). case_goal; [by apply yields_seq|].
  eapply yields_bind; [apply yields_read_mounts|]. intros dirs Hd. apply yields_seq. intros mf.
  eapply (yields_bind (fun fs => (length fs <= max_mounts)%nat /\ Forall array_ok fs)).
  - case_goal; [apply yields_read_mounts|]. split; [cbn; lia|constructor].
  - intros fs Hf. split; [apply array_ok_copy|]. split; [apply array_ok_copy|]. by split.
Qed.

(** The values of the "compile" section, against the nodes they come from. *)
Definition compile_values (config : Node) (c : CompileSection) : Prop :=
  exists n cpu real mem mb,
    at_key config "compile" n /\
    at_key n "cpu_limit_s" cpu /\ as_int cpu = inl (cs_cpu_limit c) /\
    at_key n "real_time_limit_s" real /\ as_int real = inl (cs_real_limit c) /\
    at_key n "memory_limit_mb" mem /\ as_long_long mem = inl mb /\
    cs_mem_limit c = mb * 1024 * 1024 /\ is_i64 (cs_mem_limit c) = true /\
    is_i64 (cs_tmpfs_size_mb c) = true /\ is_i64 (cs_log_max_bytes c) = true /\ 1 <= cs_max_errors c <= INT_MAX.

Lemma yields_load_compile config : yields (compile_values config) (load_compile config).
Proof.
  unfold load_compile.
  eapply yields_bind; [apply yields_CHECK_NODE|]. intros n Hn.
  eapply yields_bind; [apply yields_CHECK_NODE|]. intros cpu Hcpu.
  eapply yields_bind; [apply yields_CHECK_NODE|]. intros real Hreal.
  eapply yields_bind; [apply yields_CHECK_NODE|]. intros mem Hmem.
  eapply (yields_bind (fun v => as_int cpu = inl v)); [by apply yields_lift|]. intros cv Hcv.
  eapply (yields_bind (fun v => as_int real = inl v)); [by apply yields_lift|]. intros rv Hrv.
  eapply (yields_bind (fun v => as_long_long mem = inl v)); [by apply yields_lift|]. intros mv Hmv.
  eapply yields_bind; [apply yields_mb_to_bytes|]. intros mb [Hmb Hmb'].
  eapply yields_bind; [by apply yields_get_long_long|]. intros tmpfs Htmpfs. apply yields_seq. intros logNode.
  eapply (yields_bind (fun v => is_i64 v = true)).
  { case_goal; [|done]. apply yields_seq. intros lm.
    eapply yields_mono; [|apply yields_mb_to_bytes]. by intros a [_ ?]. }
  intros log Hlog.
  eapply yields_bind; [apply (yields_get_or (fun v => is_i32 v = true)); [apply as_int_range|done]|].
  intros me Hme. apply is_i32_spec in Hme. unfold INT_MIN, INT_MAX in *.
  exists n, cpu, real, mem, mv. cbn. repeat (split; [done|]). unfold INT_MAX.
  destruct (Z.leb_spec me 0); lia.
Qed.

Definition security_values (config : Node) (ids : Z * Z) : Prop :=
  exists n u v uid gid,
    at_key config "security" n /\
    at_key n "run_as_uid" u /\ as_unsigned_long u = inl uid /\ fst ids = to_u32 uid /\
    at_key n "run_as_gid" v /\ as_unsigned_long v = inl gid /\ snd ids = to_u32 gid.

Lemma yields_load_security config : yields (security_values config) (load_security config).
Proof.
  unfold load_security.
  eapply yields_bind; [apply yields_CHECK_NODE|]. intros n Hn.
  eapply yields_bind; [apply yields_CHECK_NODE|]. intros u Hu.
  eapply yields_bind; [apply yields_CHECK_NODE|]. intros v Hv.
  eapply (yields_bind (fun x => as_unsigned_long u = inl x)); [by apply yields_lift|]. intros uid Hd.
  eapply (yields_bind (fun x => as_unsigned_long v = inl x)); [by apply yields_lift|]. intros gid Hg.
  exists n, u, v, uid, gid. auto 10.
Qed.

(** The limits that come from required keys. *)
Definition config_values (config : Node) (g : GlobalConfig) : Prop :=
  (exists c, compile_values config c /\ compile_cpu_limit g = cs_cpu_limit c /\
     compile_real_limit g = cs_real_limit c /\ compile_mem_limit g = cs_mem_limit c) /\
  security_values config (run_uid g, run_gid g).

Lemma yields_load_sections config :
  yields (fun g => wf_config g /\ config_values config g) (load_sections config).
Proof.
  unfold load_sections. eapply yields_bind; [apply yields_load_runner|]. intros r (R1 & R2 & R3 & R4 & R5 & R6).
  eapply yields_bind; [apply yields_load_paths|]. intros [[[w c] ds] fs] (P1 & P2 & P3 & P4).
  eapply yields_bind; [apply yields_load_compile|]. intros cs Hcs.
  eapply yields_bind; [apply yields_load_security|]. intros [uid gid] Hids.
  pose proof Hcs as (n & cpu & real & mem & mb & _ & _ & C1 & _ & C2 & _ & _ & _ & C3 & C4 & C5 & C6).
  pose proof Hids as (sn & u & v & ui & gi & _ & _ & _ & S1 & _ & _ & S2). cbn in S1, S2.
  split; [|split; [by exists cs|exact Hids]].
  constructor; cbn; try done; try (eapply as_int_range; eassumption); subst; apply wrap_u_range; done.
Qed.

Definition loading_halt (h : halt) : Prop := h = HExit EXIT_FAILURE \/ h = HUB.
Definition loading_halt_throw (h : halt) : Prop := loading_halt h \/ exists e, h = HThrow e.

Lemma halting_lift {A} (r : A + exn) : halting loading_halt_throw (lift r).
Proof. destruct r; cbn; [done|]. right. eauto. Qed.

Lemma halting_CHECK_NODE p key name : halting loading_halt_throw (CHECK_NODE p key name).
Proof.
  unfold CHECK_NODE, exit_, cerr. apply halting_bind; [apply halting_lift|]. intros n.
  case_goal; [done|]. apply halting_bind; [done|]. intros u. left; by left.
Qed.

Lemma halting_get_or {A} (conv : Node -> A + exn) n key def :
  halting loading_halt_throw (get_or conv n key def).
Proof.
  unfold get_or. apply halting_bind; [apply halting_lift|]. intros x.
  case_goal; [apply halting_lift|done].
Qed.

Lemma halting_read_mounts room l : halting loading_halt_throw (read_mounts room l).
Proof.
  revert l. induction room as [|room IH]; intros [|n l]; cbn [read_mounts]; try done.
  apply halting_bind; [apply halting_lift|]. intros d. by apply halting_bind.
Qed.

Lemma halting_mb mb : halting loading_halt_throw (mb_to_bytes mb).
Proof. unfold mb_to_bytes. destruct (chk_i64 _); cbn; [done|]. left; by right. Qed.

Lemma halting_exit {A} : halting loading_halt_throw (@exit_ A EXIT_FAILURE).
Proof. left; by left. Qed.

Hint Resolve halting_lift halting_CHECK_NODE halting_get_or halting_read_mounts halting_mb
  halting_exit : halting.

Lemma halting_load_sections config : halting loading_halt_throw (load_sections config).
Proof.
  unfold load_sections, load_runner, load_paths, load_compile, load_security, cerr. halting.
Qed.
End ConfigProofs.

(** ** Theorems *)

(** C35: A configuration that loads is well formed: at most 16 directories and 16
    files to mount, every string NUL-terminated inside its 256 bytes, every
    integer (all twelve that are loaded) in the range of its field, at least one
    compile error shown, and user and group ids of 32 bits. *)
Theorem LoadConfig_wf {Y : Yaml} path k g :
  exec_outcome k (LoadConfig path) = OVal g -> wf_config g.
Proof.
  apply (yields_run wf_config). unfold LoadConfig. apply yields_try; [|intros e; by apply yields_seq].
  apply yields_seq. intros u. apply yields_seq. intros content. apply yields_seq. intros config.
  eapply yields_bind; [apply yields_load_sections|]. intros g' [Hg _]. by apply yields_seq.
Qed.

(** The limits in force are those of the file: the compiler's CPU and real
    time are the integers at compile.cpu_limit_s and compile.real_time_limit_s,
    its memory the megabytes at compile.memory_limit_mb times 2^20, and the ids
    those at security.run_as_uid and security.run_as_gid modulo 2^32; so none of
    these keys was missing. *)
Theorem LoadConfig_values {Y : Yaml} path k g :
  exec_outcome k (LoadConfig path) = OVal g ->
  exists content config, LoadFile content = inl config /\ config_values config g.
Proof.
  apply (yields_run (fun g => exists content config, LoadFile content = inl config /\ config_values config g)).
  unfold LoadConfig. apply yields_try; [|intros e; by apply yields_seq].
  apply yields_seq. intros u. apply yields_seq. intros content.
  eapply (yields_bind (fun c => LoadFile content = inl c)); [by apply yields_lift|]. intros config Hc.
  eapply yields_bind; [apply yields_load_sections|]. intros g' [_ Hg]. apply yields_seq. intros _.
  exists content, config. by split.
Qed.

(** Loading is total for its caller: whatever the file and the library's
    answers, it yields a configuration or leaves the process with code 1, unless
    a number of megabytes overflows a [long long]; no exception escapes. *)
Theorem LoadConfig_total {Y : Yaml} path k :
  (exists g, exec_outcome k (LoadConfig path) = OVal g) \/
  exec_outcome k (LoadConfig path) = OHalt (HExit EXIT_FAILURE) \/
  exec_outcome k (LoadConfig path) = OHalt HUB.
Proof.
  destruct (exec_outcome k (LoadConfig path)) as [g|h] eqn:Ho; [left; eauto|right].
  assert (H : loading_halt h).
  { apply (halting_run loading_halt k (LoadConfig path)); [|exact Ho]. unfold LoadConfig.
    apply (halting_try_catch _ loading_halt_throw); [done| |].
    - do 2 (apply halting_bind; [done|]; intros ?).
      apply halting_bind; [apply halting_lift|]. intros config.
      apply halting_bind; [apply halting_load_sections|]. done.
    - intros e. apply halting_bind; [done|]. intros u. by left. }
  destruct H as [->| ->]; auto.
Qed.

(** ** A concrete YAML library *)

Module Tree.
(** Documents already parsed: what the conversions read is the scalar. *)
Inductive tree :=
  | Missing
  | Scalar (s : string)
  | Seq (l : list tree)
  | Map (l : list (string * tree)).

Definition child (n : tree) (key : string) : tree + exn :=
  match n with
  | Map l =>
      inl (match List.find (fun kv => String.eqb key (fst kv)) l with
           | Some kv => snd kv
           | None => Missing
           end)
  | Missing => inr (YamlException "invalid node")
  | _ => inr (YamlException "operator[] call on a scalar")
  end.

Definition scalar {A} (conv : string -> A + exn) (n : tree) : A + exn :=
  match n with Scalar s => conv s | _ => inr (YamlException "bad conversion") end.

Definition in_type {A} (ok : A -> bool) (r : A + exn) : A + exn :=
  match r with
  | inl v => if ok v then inl v else inr (YamlException "bad conversion")
  | inr e => inr e
  end.

Lemma in_type_ok {A} ok (r : A + exn) v : in_type ok r = inl v -> ok v = true.
Proof. destruct r as [x|e]; cbn; [|done]. case_goal; [|done]. by intros [= <-]. Qed.

(** A library whose every file parses to [doc]. *)
Definition yaml (doc : tree) : Yaml.
Proof.
  refine {| Node := tree; LoadFile := fun _ => inl doc; subnode := child;
            is_defined := fun n => match n with Missing => false | _ => true end;
            IsSequence := fun n => match n with Seq _ => true | _ => false end;
            items := fun n => match n with Seq l => l | _ => [] end;
            as_string := scalar inl;
            as_int := fun n => in_type is_i32 (scalar stoi n);
            as_long_long := fun n => in_type is_i64 (scalar stoll n);
            as_unsigned_long := fun n => in_type is_u64 (scalar stoull n);
            as_double := fun n => match scalar stoll n with
                                  | inl v => inl (b64_of_Z v) | inr e => inr e end |};
    intros n v; apply in_type_ok.
Defined.

(** The required keys of config.yaml and nothing else. *)
Definition minimal : tree :=
  Map [("path", Map [("workspace_root", Scalar "/tmp/deep_oj"); ("compiler_bin", Scalar "/usr/bin/g++");
                     ("mount_dirs", Seq [Scalar "/bin"; Scalar "/usr"])]);
       ("compile", Map [("cpu_limit_s", Scalar "10"); ("real_time_limit_s", Scalar "20");
                        ("memory_limit_mb", Scalar "2048")]);
       ("security", Map [("run_as_uid", Scalar "65534"); ("run_as_gid", Scalar "65534")])].
End Tree.

(** ** Witnesses *)

Lemma LoadConfig_wf_witness :
  exists g, exec_outcome happy (LoadConfig (Y := Tree.yaml Tree.minimal) "config.yaml") = OVal g /\
    wf_config g /\ mount_dirs g = ["/bin"; "/usr"] /\ max_output_size g = 10485760.
Proof.
  eexists. split; [vm_compute; reflexivity|]. split; [|split; reflexivity].
  apply (LoadConfig_wf (Y := Tree.yaml Tree.minimal) "config.yaml" happy). vm_compute. reflexivity.
Defined.

Lemma LoadConfig_values_witness :
  exists g, exec_outcome happy (LoadConfig (Y := Tree.yaml Tree.minimal) "config.yaml") = OVal g /\
    compile_mem_limit g = 2147483648 /\
    exists config, config_values (Y := Tree.yaml Tree.minimal) config g.
Proof.
  eexists. split; [vm_compute; reflexivity|]. split; [reflexivity|].
  destruct (LoadConfig_values (Y := Tree.yaml Tree.minimal) "config.yaml" happy _
              ltac:(vm_compute; reflexivity)) as (content & config & _ & H).
  exists config. exact H.
Defined.
