(* ===== verification/Engine.v ===== *)
(** * The command-line engine: main.cpp

    Options and environment, validation of the configuration, the three modes
    (cleanup, compile, run) and the self test, and the one line of JSON each
    of them prints.  [getopt_long] and the JSON library are parameters. *)

From stdpp Require Import gmap.
From S2P Require Import Prelude CInt CFloat CStr Internal Sys Sample Cgroup Guards Verdict Compile Run Config.

#[local] Open Scope Z_scope.

(** ** The libraries *)

(** [getopt_long(argc, argv, "s:r:c:t:m:i:o:e:w:C:h", long_opts, nullptr)],
    called until it answers -1: the options in order, with [optarg].  An option
    declared with an argument comes with one. *)
Definition takes_argument (opt : Z) : bool :=
  existsb (Z.eqb opt) [115; 114; 99; 116; 109; 105; 111; 101; 119; 67; 3; 4].

Class Getopt := {
  getopt_long : list string -> list (Z * option string);
  getopt_argument : forall argv opt arg,
    In (opt, arg) (getopt_long argv) -> takes_argument opt = true -> arg <> None
}.

(** The values stored in a JSON object, an object as a map from keys, and its
    serialisation on one line; [dump] throws on text that is not UTF-8. *)
Inductive jval := JInt (z : Z) | JStr (s : string).

#[global] Instance jval_eq_dec : EqDecision jval.
Proof. solve_decision. Defined.

Abbreviation json := (gmap string jval).

Class Json := {
  dump : json -> string + exn;
  dump_one_line : forall j s, dump j = inl s -> line_free s = true
}.

(** ** Data *)

Record ExecutionConfig := mkExecutionConfig {
  source_path : string; code_path : string; input_path : string; output_path : string;
  error_path : string; time_limit : Z; memory_limit : Z; work_dir : string;
  request_id : string; job_id : string; attempt_id : Z;
  compile_only : bool; cleanup_only : bool; self_test : bool; attempt_explicit : bool
}.

Definition ExecutionConfig0 : ExecutionConfig :=
  mkExecutionConfig "" "" "" "" "" 1000 131072 "" "" "" (-1) false false false false.

(** Assignments to the members. *)
Definition set_source_path v c := mkExecutionConfig v (code_path c) (input_path c) (output_path c)
  (error_path c) (time_limit c) (memory_limit c) (work_dir c) (request_id c) (job_id c) (attempt_id c)
  (compile_only c) (cleanup_only c) (self_test c) (attempt_explicit c).
Definition set_code_path v c := mkExecutionConfig (source_path c) v (input_path c) (output_path c)
  (error_path c) (time_limit c) (memory_limit c) (work_dir c) (request_id c) (job_id c) (attempt_id c)
  (compile_only c) (cleanup_only c) (self_test c) (attempt_explicit c).
Definition set_input_path v c := mkExecutionConfig (source_path c) (code_path c) v (output_path c)
  (error_path c) (time_limit c) (memory_limit c) (work_dir c) (request_id c) (job_id c) (attempt_id c)
  (compile_only c) (cleanup_only c) (self_test c) (attempt_explicit c).
Definition set_output_path v c := mkExecutionConfig (source_path c) (code_path c) (input_path c) v
  (error_path c) (time_limit c) (memory_limit c) (work_dir c) (request_id c) (job_id c) (attempt_id c)
  (compile_only c) (cleanup_only c) (self_test c) (attempt_explicit c).
Definition set_error_path v c := mkExecutionConfig (source_path c) (code_path c) (input_path c)
  (output_path c) v (time_limit c) (memory_limit c) (work_dir c) (request_id c) (job_id c) (attempt_id c)
  (compile_only c) (cleanup_only c) (self_test c) (attempt_explicit c).
Definition set_time_limit v c := mkExecutionConfig (source_path c) (code_path c) (input_path c)
  (output_path c) (error_path c) v (memory_limit c) (work_dir c) (request_id c) (job_id c) (attempt_id c)
  (compile_only c) (cleanup_only c) (self_test c) (attempt_explicit c).
Definition set_memory_limit v c := mkExecutionConfig (source_path c) (code_path c) (input_path c)
  (output_path c) (error_path c) (time_limit c) v (work_dir c) (request_id c) (job_id c) (attempt_id c)
  (compile_only c) (cleanup_only c) (self_test c) (attempt_explicit c).
Definition set_work_dir v c := mkExecutionConfig (source_path c) (code_path c) (input_path c)
  (output_path c) (error_path c) (time_limit c) (memory_limit c) v (request_id c) (job_id c) (attempt_id c)
  (compile_only c) (cleanup_only c) (self_test c) (attempt_explicit c).
Definition set_request_id v c := mkExecutionConfig (source_path c) (code_path c) (input_path c)
  (output_path c) (error_path c) (time_limit c) (memory_limit c) (work_dir c) v (job_id c) (attempt_id c)
  (compile_only c) (cleanup_only c) (self_test c) (attempt_explicit c).
Definition set_job_id v c := mkExecutionConfig (source_path c) (code_path c) (input_path c)
  (output_path c) (error_path c) (time_limit c) (memory_limit c) (work_dir c) (request_id c) v (attempt_id c)
  (compile_only c) (cleanup_only c) (self_test c) (attempt_explicit c).
Definition set_attempt v ex c := mkExecutionConfig (source_path c) (code_path c) (input_path c)
  (output_path c) (error_path c) (time_limit c) (memory_limit c) (work_dir c) (request_id c) (job_id c) v
  (compile_only c) (cleanup_only c) (self_test c) ex.
Definition set_modes co cl st c := mkExecutionConfig (source_path c) (code_path c) (input_path c)
  (output_path c) (error_path c) (time_limit c) (memory_limit c) (work_dir c) (request_id c) (job_id c)
  (attempt_id c) co cl st (attempt_explicit c).

(** ** Validation and metadata *)

(** [None] when the configuration is usable, else the error. *)
Definition ValidateConfig (g : GlobalConfig) : prog (option string) :=
  if str_empty (workspace_root g) then Ret (Some "workspace_root not set")
  else if str_empty (compiler_path g) then Ret (Some "compiler_path not set")
  else
    ex <- fs_exists_throwing (workspace_root g) ;;
    if negb ex then Ret (Some ("workspace_root not found: " +:+ workspace_root g))
    else
      a <- icall_ (Access (compiler_path g) X_OK) ;;
      if negb (rv a =? 0) then Ret (Some ("compiler not executable: " +:+ compiler_path g))
      else Ret None.

Definition ParseAttemptID (raw : string) : option Z :=
  match stoll raw with inl v => Some v | inr _ => None end.

Definition FillRunMetaFromEnv (config : ExecutionConfig) : prog ExecutionConfig :=
  config <- (if str_empty (job_id config) then
               env_job <- call (Getenv "JUDGE_JOB_ID") ;;
               Ret (match env_job with Some v => set_job_id v config | None => config end)
             else Ret config) ;;
  if negb (attempt_explicit config) then
    env_attempt <- call (Getenv "JUDGE_ATTEMPT_ID") ;;
    Ret (match env_attempt with
         | Some v => match ParseAttemptID v with
                     | Some parsed => set_attempt parsed true config
                     | None => config
                     end
         | None => config
         end)
  else Ret config.

(** ** The report *)

Definition ToVerdictAndStatus (status : SandboxStatus) : string * string :=
  match status with
  | OK => ("OK", "Finished")
  | TIME_LIMIT_EXCEEDED => ("TLE", "Time Limit Exceeded")
  | MEMORY_LIMIT_EXCEEDED => ("MLE", "Memory Limit Exceeded")
  | OUTPUT_LIMIT_EXCEEDED => ("OLE", "Output Limit Exceeded")
  | SYSTEM_ERROR => ("SE", "System Error")
  | RUNTIME_ERROR => ("RE", "Runtime Error")
  end.

Definition BuildRunJSON (job_id : string) (attempt_id : Z) (verdict : string) (time_ms mem_kb exit_signal : Z)
    (sandbox_error : string) (exit_code : Z) (status error_message : string) : json :=
  let out : json := ∅ in
  let out := <["schema_version" := JInt 1]> out in
  let out := <["job_id" := JStr job_id]> out in
  let out := <["attempt_id" := JInt attempt_id]> out in
  let out := <["verdict" := JStr verdict]> out in
  let out := <["time_ms" := JInt time_ms]> out in
  let out := <["mem_kb" := JInt mem_kb]> out in
  let out := <["exit_signal" := JInt exit_signal]> out in
  let out := <["sandbox_error" := JStr sandbox_error]> out in
  let out := <["status" := JStr status]> out in
  let out := <["time_used" := JInt time_ms]> out in
  let out := <["memory_used" := JInt mem_kb]> out in
  let out := <["exit_code" := JInt exit_code]> out in
  if negb (str_empty error_message) then <["error" := JStr error_message]> out else out.

(** The object [main] prints for the result of a run. *)
Definition run_report (config : ExecutionConfig) (rres : RunResult) : json :=
  let '(verdict, status) := ToVerdictAndStatus (rr_status rres) in
  let sandbox_error :=
    if String.eqb verdict "SE" && str_empty (rr_sandbox_error rres) then "system_error"
    else rr_sandbox_error rres in
  BuildRunJSON (job_id config) (attempt_id config) verdict (rr_time_used rres) (rr_memory_used rres)
    (rr_exit_signal rres) sandbox_error (rr_exit_code rres) status (rr_error_message rres).

Section Engine.
Context {LC : Libc} {Y : Yaml} {G : Getopt} {J : Json} (fuel : nat).

Definition EmitJSONLine (out : json) : prog unit :=
  line <- lift (dump out) ;; call (Cout (line +:+ newline)).

Definition EmitRunSystemError (config : ExecutionConfig) (sandbox_error error_message : string) : prog unit :=
  EmitJSONLine (BuildRunJSON (job_id config) (attempt_id config) "SE" 0 0 0 sandbox_error 0
                  "System Error" error_message).

Definition usage_text : string :=
  " [options]" +:+ newline +:+
  "Options:" +:+ newline +:+
  "  -s <path>         Path to source file (compile mode)" +:+ newline +:+
  "  -r <id>           Request ID (compile/cleanup)" +:+ newline +:+
  "  -c <path>         Path to compiled executable (run mode)" +:+ newline +:+
  "  -t <ms>           Time limit (default: 1000)" +:+ newline +:+
  "  -m <kb>           Memory limit (default: 131072)" +:+ newline +:+
  "  -i <path>         Input file path (stdin)" +:+ newline +:+
  "  -o <path>         Output file path (stdout)" +:+ newline +:+
  "  -e <path>         Error file path (stderr)" +:+ newline +:+
  "  -w <path>         Working directory (optional)" +:+ newline +:+
  "  -C <path>         Config file path (required except --self_test)" +:+ newline +:+
  "  --job_id <id>     Job ID passed from worker" +:+ newline +:+
  "  --attempt_id <n>  Attempt ID passed from worker" +:+ newline +:+
  "  --compile         Compile only (requires -s and -r)" +:+ newline +:+
  "  --cleanup         Cleanup temp dir (requires -r)" +:+ newline +:+
  "  --self_test       Print one-line protocol JSON and exit" +:+ newline.

Definition PrintUsage (prog_name : string) : prog unit := cerr ("Usage: " +:+ prog_name +:+ usage_text).

(** ** Options *)

(** One turn of the [switch]: the two configurations, or the code [main]
    returns at once. *)
Definition option_step (prog_name : string) (opt : Z) (optarg : option string)
    (config : ExecutionConfig) (g : GlobalConfig) : prog ((ExecutionConfig * GlobalConfig) + Z) :=
  let keep c := Ret (inl (c, g)) in
  if opt =? 115 then a <- defined optarg ;; keep (set_source_path a config)          (* 's' *)
  else if opt =? 114 then a <- defined optarg ;; keep (set_request_id a config)      (* 'r' *)
  else if opt =? 99 then a <- defined optarg ;; keep (set_code_path a config)        (* 'c' *)
  else if opt =? 116 then                                                            (* 't' *)
    a <- defined optarg ;; v <- lift (stoi a) ;; keep (set_time_limit v config)
  else if opt =? 109 then                                                            (* 'm' *)
    a <- defined optarg ;; v <- lift (stoi a) ;; keep (set_memory_limit v config)
  else if opt =? 105 then a <- defined optarg ;; keep (set_input_path a config)      (* 'i' *)
  else if opt =? 111 then a <- defined optarg ;; keep (set_output_path a config)     (* 'o' *)
  else if opt =? 101 then a <- defined optarg ;; keep (set_error_path a config)      (* 'e' *)
  else if opt =? 119 then a <- defined optarg ;; keep (set_work_dir a config)        (* 'w' *)
  else if opt =? 67 then                                                             (* 'C' *)
    a <- defined optarg ;; g' <- LoadConfig a ;; Ret (inl (config, g'))
  else if opt =? 1 then keep (set_modes true (cleanup_only config) (self_test config) config)
  else if opt =? 2 then keep (set_modes (compile_only config) true (self_test config) config)
  else if opt =? 3 then a <- defined optarg ;; keep (set_job_id a config)
  else if opt =? 4 then
    a <- defined optarg ;;
    keep (match ParseAttemptID a with
          | Some v => set_attempt v true config
          | None => set_attempt (-1) (attempt_explicit config) config
          end)
  else if opt =? 5 then keep (set_modes (compile_only config) (cleanup_only config) true config)
  else if opt =? 104 then PrintUsage prog_name ;; Ret (inr 0)                        (* 'h' *)
  else PrintUsage prog_name ;; Ret (inr 1).

Fixpoint parse_options (prog_name : string) (opts : list (Z * option string))
    (config : ExecutionConfig) (g : GlobalConfig) : prog ((ExecutionConfig * GlobalConfig) + Z) :=
  match opts with
  | [] => Ret (inl (config, g))
  | (opt, optarg) :: opts =>
      r <- option_step prog_name opt optarg config g ;;
      match r with
      | inl (config, g) => parse_options prog_name opts config g
      | inr code => Ret (inr code)
      end
  end.

(** ** Modes *)

Definition self_test_mode (config : ExecutionConfig) : prog Z :=
  let missing_job_id := str_empty (job_id config) in
  let missing_attempt_id := negb (attempt_explicit config) in
  if missing_job_id || missing_attempt_id then
    let config := if missing_attempt_id then set_attempt (-1) (attempt_explicit config) config else config in
    let err_code := if missing_job_id then "missing_job_id" else "missing_attempt_id" in
    let err_msg := if missing_job_id then "missing required --job_id/JUDGE_JOB_ID"
                   else "missing required --attempt_id/JUDGE_ATTEMPT_ID" in
    EmitJSONLine (BuildRunJSON (job_id config) (attempt_id config) "SE" 0 0 0 err_code 0
                    "System Error" err_msg) ;;
    Ret 0
  else
    EmitJSONLine (BuildRunJSON (job_id config) (attempt_id config) "OK" 1 64 0 "" 0 "Finished" "") ;;
    Ret 0.

Definition invalid_config (config : ExecutionConfig) (cfg_err : string) : prog Z :=
  (if negb (str_empty (code_path config)) || negb (str_empty (input_path config)) ||
      negb (str_empty (output_path config))
   then EmitRunSystemError config "config_invalid" cfg_err
   else EmitJSONLine (<["error" := JStr cfg_err]> (<["status" := JStr "System Error"]>
          (<["schema_version" := JInt 1]> (∅ : json))))) ;;
  Ret 1.

Definition cleanup_mode (sandbox : string) (config : ExecutionConfig) : prog Z :=
  if str_empty (request_id config) then
    cerr ("Error: cleanup requires -r <request_id>" +:+ newline) ;; Ret 1
  else
    Cleanup sandbox (request_id config) ;;
    EmitJSONLine (<["request_id" := JStr (request_id config)]> (<["status" := JStr "Cleaned"]>
      (<["schema_version" := JInt 1]> (∅ : json)))) ;;
    Ret 0.

Definition compile_report (cres : CompileResult) : json :=
  let result_json : json := <["schema_version" := JInt 1]> ∅ in
  if cr_success cres then
    <["exe_path" := JStr (cr_exe_path cres)]> (<["status" := JStr "Compiled"]> result_json)
  else
    <["error" := JStr (cr_error_message cres)]> (<["status" := JStr "Compile Error"]> result_json).

Definition compile_mode (g : GlobalConfig) (sandbox : string) (config : ExecutionConfig) : prog Z :=
  if str_empty (source_path config) || str_empty (request_id config) then
    cerr ("Error: compile requires -s <source_path> and -r <request_id>" +:+ newline) ;; Ret 1
  else
    ifs <- call (ReadStream (source_path config)) ;;
    match ifs with
    | None => cerr ("Error: failed to open source file: " +:+ source_path config +:+ newline) ;; Ret 1
    | Some buffer =>
        cres <- Compile fuel g sandbox (request_id config) buffer ;;
        EmitJSONLine (compile_report cres) ;;
        Ret (if cr_success cres then 0 else 2)
    end.

(** The paths of a run: [work_dir] and [error_path] have defaults. *)
Definition run_error_path (config : ExecutionConfig) : string :=
  let work := if str_empty (work_dir config) then parent_path (code_path config) else work_dir config in
  if str_empty (error_path config) then path_append work "stderr.txt" else error_path config.

Definition run_mode (g : GlobalConfig) (config : ExecutionConfig) : prog Z :=
  if str_empty (code_path config) || str_empty (input_path config) || str_empty (output_path config) then
    EmitRunSystemError config "missing_run_args" "run mode requires -c, -i and -o" ;; Ret 1
  else if str_empty (job_id config) then
    EmitRunSystemError config "missing_job_id" "missing required --job_id/JUDGE_JOB_ID" ;; Ret 1
  else if negb (attempt_explicit config) then
    EmitRunSystemError config "missing_attempt_id" "missing required --attempt_id/JUDGE_ATTEMPT_ID" ;; Ret 1
  else
    rres <- Run fuel g (code_path config) (input_path config) (output_path config)
              (run_error_path config) (time_limit config) (memory_limit config) ;;
    EmitJSONLine (run_report config rres) ;;
    Ret 0.

(** After the options: the self test, or validation, the sandbox and one of
    the three modes. *)
Definition dispatch (config : ExecutionConfig) (g : GlobalConfig) : prog Z :=
  config <- FillRunMetaFromEnv config ;;
  if self_test config then self_test_mode config
  else
    cfg_err <- ValidateConfig g ;;
    match cfg_err with
    | Some err => invalid_config config err
    | None =>
        sandbox <- Sandbox_new (workspace_root g) ;;
        if cleanup_only config then cleanup_mode sandbox config
        else if compile_only config || negb (str_empty (source_path config))
        then compile_mode g sandbox config
        else run_mode g config
    end.

Definition main (argv : list string) : prog Z :=
  r <- parse_options (default "" (head argv)) (getopt_long argv) ExecutionConfig0 zero_config ;;
  match r with
  | inl (config, g) => dispatch config g
  | inr code => Ret code
  end.
End Engine.

(** ** Lemmas *)

(** What a history printed on stdout. *)
Definition couts : trace -> list string :=
  log_of (fun e => match e with Ev (Cout s) _ => Some s | _ => None end).

Definition no_cout (s : sys) : Prop := match s with Cout _ => False | _ => True end.

Lemma couts_grow evs t : Forall (fun e => no_cout (ev_sys e)) evs -> couts (evs ++ t) = couts t.
Proof.
  induction 1 as [|[s r] evs Hs Hevs IH]; [done|]. cbn [app]. rewrite <- IH. unfold couts.
  rewrite log_of_cons. by destruct s; rewrite ?app_nil_r.
Qed.

Lemma child_neutral_cout s : child_neutral s -> no_cout s.
Proof. by destruct s. Qed.

Lemma compile_may_cout dir pid s : compile_may dir pid s -> no_cout s.
Proof. by destruct s. Qed.

Section Silent.
Context {LC : Libc} {Y : Yaml} (fuel : nat) (g : GlobalConfig).

Lemma silent_open path flags mode null : calls no_cout (open_or_null path flags mode null).
Proof. unfold open_or_null, icall_. calls. Qed.

Lemma silent_close fd : calls no_cout (close_guard fd).
Proof. unfold close_guard, icall_. calls. Qed.

Lemma silent_run_with_fds exe out err tl ml i o e :
  calls no_cout (run_with_fds fuel g exe out err tl ml i o e).
Proof.
  unfold run_with_fds. destruct (chk_i64 _); cbn [defined bind]; [|done]. cbv zeta.
  apply calls_bind; [done|]. intros pid. case_goal; [done|].
  eapply calls_mono; [apply child_neutral_cout|apply neutral_scope].
Qed.

Hint Resolve silent_open silent_close silent_run_with_fds : calls.

Lemma silent_Run exe i o e tl ml : calls no_cout (Run fuel g exe i o e tl ml).
Proof. unfold Run, with_fd, icall_. cbv zeta. calls. Qed.

Lemma silent_Compile dir id src : calls no_cout (Compile fuel g dir id src).
Proof.
  unfold Compile. cbv zeta. case_goal; [by calls|].
  apply calls_bind; [done|]. intros mk. apply calls_bind; [done|]. intros [| |]; [done..|].
  apply calls_bind; [done|]. intros own. case_goal; [done|].
  apply calls_bind; [done|]. intros perm. case_goal; [done|].
  apply calls_bind.
  - unfold compile_child. cbv zeta. apply calls_bind; [done|]. intros pid. case_goal; [done|].
    eapply calls_mono; [apply compile_may_cout|]. by apply compile_scope_calls.
  - intros r. apply calls_bind; [|done].
    eapply calls_mono; [apply (compile_may_cout (path_ (snd r)) 0)|]. by apply calls_dir_dtor.
Qed.

Lemma silent_Cleanup dir id : calls no_cout (Cleanup dir id).
Proof. unfold Cleanup, cerr. cbv zeta. calls. Qed.

Lemma silent_Sandbox_new dir : calls no_cout (Sandbox_new dir).
Proof. unfold Sandbox_new, throw. calls. Qed.

Lemma silent_lift {A} (r : A + exn) : calls no_cout (lift r).
Proof. by destruct r. Qed.

Lemma silent_CHECK_NODE p key name : calls no_cout (CHECK_NODE p key name).
Proof.
  unfold CHECK_NODE. apply calls_bind; [apply silent_lift|]. intros n. by case_goal.
Qed.

Lemma silent_get_or {A} (conv : Node -> A + exn) n key def : calls no_cout (get_or conv n key def).
Proof.
  unfold get_or. apply calls_bind; [apply silent_lift|]. intros x.
  case_goal; [apply silent_lift|done].
Qed.

Lemma silent_read_mounts room l : calls no_cout (read_mounts room l).
Proof.
  revert l. induction room as [|room IH]; intros [|n l]; cbn [read_mounts]; try done.
  apply calls_bind; [apply silent_lift|]. intros d. by apply calls_bind.
Qed.

Lemma silent_mb mb : calls no_cout (mb_to_bytes mb).
Proof. unfold mb_to_bytes. by destruct (chk_i64 _). Qed.

Hint Resolve silent_lift silent_CHECK_NODE silent_get_or silent_read_mounts silent_mb : calls.

Lemma silent_load_sections c : calls no_cout (load_sections c).
Proof. unfold load_sections, load_runner, load_paths, load_compile, load_security, cerr, exit_. calls. Qed.

Lemma silent_LoadConfig path : calls no_cout (LoadConfig path).
Proof.
  unfold LoadConfig. apply calls_try; [|by intros e].
  do 2 (apply calls_bind; [done|]; intros ?). apply calls_bind; [apply silent_lift|]. intros c.
  by apply calls_bind; [apply silent_load_sections|].
Qed.

Lemma silent_FillRunMeta c : calls no_cout (FillRunMetaFromEnv c).
Proof. unfold FillRunMetaFromEnv. calls. Qed.

Lemma silent_ValidateConfig c : calls no_cout (ValidateConfig c).
Proof. unfold ValidateConfig, fs_exists_throwing, icall_, throw. calls. Qed.
End Silent.

Section Stdout.
Context {LC : Libc} {Y : Yaml} {G : Getopt} {J : Json} (fuel : nat).

(** A mode prints exactly one line when it returns, except on [silent_codes];
    an engine that dies prints nothing. *)
Definition prints (silent_codes : Z -> Prop) (o : outcome Z) (t : trace) : Prop :=
  match o with
  | OVal code => (exists j line, dump j = inl line /\ couts t = [line +:+ newline]) \/
                 (couts t = [] /\ silent_codes code)
  | OHalt _ => couts t = []
  end.

Lemma wp_quiet {A} (p : prog A) (f : A -> prog Z) S t :
  calls no_cout p -> couts t = [] ->
  (forall a t', couts t' = [] -> wp any_env (f a) (prints S) t') ->
  wp any_env (bind p f) (prints S) t.
Proof.
  intros Hp Ht Hf. apply wp_bind. eapply wp_mono; [|exact (wp_calls _ _ p t Hp)].
  intros o t' (evs & -> & He). assert (H : couts (evs ++ t) = []) by by rewrite couts_grow.
  destruct o as [a|h]; [by apply Hf|exact H].
Qed.

Lemma wp_emit j code S t : couts t = [] -> wp any_env (EmitJSONLine j ;; Ret code) (prints S) t.
Proof.
  intros Ht. unfold EmitJSONLine. destruct (dump j) as [line|e] eqn:Hd; cbn [lift bind]; [|exact Ht].
  cbn. intros u _. left. exists j, line. split; [done|].
  unfold couts in *. by rewrite log_of_cons, Ht.
Qed.

Definition failed (code : Z) : Prop := code = 1.

Lemma wp_usage_error msg S t :
  couts t = [] -> S 1 -> wp any_env (cerr msg ;; Ret 1) (prints S) t.
Proof. intros Ht HS. apply wp_bind, wp_cerr. right. split; [|done]. unfold couts in *. by rewrite log_of_cons, Ht. Qed.

Lemma wp_dispatch config g t : couts t = [] -> wp any_env (dispatch fuel config g) (prints failed) t.
Proof.
  intros Ht. unfold dispatch. apply wp_quiet; [apply silent_FillRunMeta|done|]. intros c t1 H1.
  case_goal.
  { unfold self_test_mode. cbv zeta. case_goal; by apply wp_emit. }
  apply wp_quiet; [apply silent_ValidateConfig|done|]. intros [err|] t2 H2.
  { unfold invalid_config, EmitRunSystemError. case_goal; by apply wp_emit. }
  apply wp_quiet; [apply silent_Sandbox_new|done|]. intros sb t3 H3.
  case_goal; [|case_goal].
  - unfold cleanup_mode. case_goal; [by apply wp_usage_error|].
    apply wp_quiet; [apply silent_Cleanup|done|]. intros u t4 H4. by apply wp_emit.
  - unfold compile_mode. case_goal; [by apply wp_usage_error|].
    apply wp_quiet; [by apply calls_call|done|]. intros [buffer|] t4 H4; [|by apply wp_usage_error].
    apply wp_quiet; [apply silent_Compile|done|]. intros r t5 H5. by apply wp_emit.
  - unfold run_mode, EmitRunSystemError. do 3 (case_goal; [by apply wp_emit|]).
    apply wp_quiet; [apply silent_Run|done|]. intros r t4 H4. by apply wp_emit.
Qed.

(** Returning at once happens only on "-h" (0) or an unknown option (1). *)
Definition early (opts : list (Z * option string)) (code : Z) : Prop :=
  code = 1 \/ (code = 0 /\ exists arg, In (104, arg) opts).

Lemma silent_option_step name opt arg c g : calls no_cout (option_step name opt arg c g).
Proof.
  unfold option_step. cbv zeta.
  repeat (case_goal; [by (destruct arg as [a|]; cbn [defined bind]; [|done];
    first [done | apply calls_bind; [first [apply silent_lift|apply silent_LoadConfig]|done]])|]).
  repeat (case_goal; [by (destruct arg as [a|])|]). done.
Qed.

Lemma yields_option_step name opt arg c g :
  yields (fun r => match r with inl _ => True | inr code => code = 1 \/ (code = 0 /\ opt = 104) end)
    (option_step name opt arg c g).
Proof.
  unfold option_step. cbv zeta.
  repeat match goal with
  | |- yields _ (if ?b then _ else _) => destruct b eqn:?
  | |- yields _ (bind _ _) => apply yields_seq; intros ?
  end; cbn; auto. right. split; [done|]. by apply Z.eqb_eq.
Qed.

Lemma silent_parse_options name opts c g : calls no_cout (parse_options name opts c g).
Proof.
  revert c g. induction opts as [|[opt arg] opts IH]; intros c g; cbn [parse_options]; [done|].
  apply calls_bind; [apply silent_option_step|]. intros [[c' g']|code]; [apply IH|done].
Qed.

Lemma yields_parse_options name opts c g :
  yields (fun r => match r with inl _ => True | inr code => early opts code end)
    (parse_options name opts c g).
Proof.
  revert c g. induction opts as [|[opt arg] opts IH]; intros c g; cbn [parse_options]; [done|].
  eapply yields_bind; [apply yields_option_step|]. intros [[c' g']|code] Hc.
  - eapply yields_mono; [|apply IH]. intros [?|code] H; [done|].
    destruct H as [H|[H [a Ha]]]; [by left|]. right. split; [done|]. exists a. by right.
  - destruct Hc as [H|[H1 ->]]; [by left|]. right. split; [done|]. exists arg. by left.
Qed.

Lemma wp_main argv : wp any_env (main fuel argv) (prints (early (getopt_long argv))) [].
Proof.
  unfold main. set (name := default "" (head argv)). apply wp_bind.
  eapply wp_mono; [|exact (wp_and _ _ _ _ _
    (wp_calls _ _ _ [] (silent_parse_options name (getopt_long argv) ExecutionConfig0 zero_config))
    (wp_yields _ _ _ [] (yields_parse_options name (getopt_long argv) ExecutionConfig0 zero_config)))].
  intros o t [(evs & -> & He) Hv].
  assert (Ht : couts (evs ++ []) = []) by by rewrite couts_grow.
  destruct o as [[[c g]|code]|h]; [|right; split; [done|exact (Hv _ eq_refl)]|exact Ht].
  eapply wp_mono; [|by apply wp_dispatch]. intros [code|h] t' H; [|exact H].
  destruct H as [H|[H1 H2]]; [by left|right]. split; [done|]. by left.
Qed.
End Stdout.

(** ** Theorems *)

(** C31: The stdout contract: whatever the options, the environment, the files
    and the kernel, the engine prints at most one line, which is one JSON
    document without a line break inside; it prints exactly one when it returns,
    except for usage errors (code 1) and -h (code 0), and none when it dies. *)
Theorem stdout_one_json_line {LC : Libc} {Y : Yaml} {G : Getopt} {J : Json} fuel argv k :
  let t := exec_trace k (main fuel argv) in
  match exec_outcome k (main fuel argv) with
  | OVal code =>
      (exists j line, dump j = inl line /\ line_free line = true /\ couts t = [line +:+ newline]) \/
      (couts t = [] /\ (code = 1 \/ (code = 0 /\ exists arg, In (104, arg) (getopt_long argv))))
  | OHalt _ => couts t = []
  end.
Proof.
  intros t. pose proof (run_wp any_env k _ _ [] (respects_any k) (wp_main fuel argv)) as H.
  unfold exec_outcome, t, exec_trace. destruct (fst _) as [code|h]; [|exact H].
  destruct H as [(j & line & Hd & Hc)|H]; [left|by right].
  exists j, line. split; [done|]. split; [by eapply dump_one_line|done].
Qed.

(** C3: The printed verdict is backed by the run: in run mode, when the engine
    returns 0, its line is the report of the result that [Run] returned for the
    paths and limits of the command line, and if the verdict of that report is OK a
    child was waited for that exited with code 0 within the memory and output
    limits. *)
Theorem run_mode_verdict {LC : Libc} {J : Json} fuel g config k :
  exec_outcome k (run_mode fuel g config) = OVal 0 ->
  let t := exec_trace k (run_mode fuel g config) in
  exists rres line,
    exec_outcome k (Run fuel g (code_path config) (input_path config) (output_path config)
      (run_error_path config) (time_limit config) (memory_limit config)) = OVal rres /\
    dump (run_report config rres) = inl line /\ couts t = [line +:+ newline] /\
    (run_report config rres !! "verdict" = Some (JStr "OK") ->
     exists pid, In pid (cloned t) /\ accepted g (output_path config) (memory_limit config) pid rres t).
Proof.
  intros Ho t. subst t.
  set (p := Run fuel g (code_path config) (input_path config) (output_path config)
      (run_error_path config) (time_limit config) (memory_limit config)).
  assert (He : forall j, exec_outcome k (EmitJSONLine j ;; Ret 1) = OVal 0 -> False).
  { intros j H. destruct (run_bind_value k _ _ _ [] H) as (u & _ & E). unfold exec_outcome in H. by rewrite E in H. }
  unfold run_mode, EmitRunSystemError in *. destruct (_ || _ || _) eqn:Hargs; [by destruct (He _ Ho)|].
  destruct (str_empty (job_id config)); [by destruct (He _ Ho)|].
  destruct (negb (attempt_explicit config)); [by destruct (He _ Ho)|].
  destruct (run_bind_value k _ _ _ [] Ho) as (r & Hr & E). unfold exec_outcome in Ho. rewrite E in Ho.
  destruct (run_bind_value k _ _ _ _ Ho) as (u & Hu & E'). unfold exec_trace. rewrite E, E'. cbn [run snd].
  pose proof (run_wp any_env k p _ [] (respects_any k) (wp_Run_value fuel g (code_path config) (input_path config) (output_path config)
         (run_error_path config) (time_limit config) (memory_limit config)) r Hr) as Hs.
  pose proof (calls_run no_cout k p [] (silent_Run fuel g _ _ _ _ _ _) ltac:(constructor)) as Hc.
  fold p in Hr, Hu |- *. revert Hs Hc Hu. generalize (snd (run k p [])) as t1. intros t1 Hs Hc Hu. unfold EmitJSONLine in *.
  destruct (dump (run_report config r)) as [line|e] eqn:Hd; [|done]. cbn [lift bind run call snd] in *. exists r, line.
  assert (Hct : couts t1 = []) by (rewrite <- (app_nil_r t1); by rewrite couts_grow).
  split_and!; [done|done|unfold couts in *; by rewrite log_of_cons, Hct|]. intros Hv.
  assert (Hok : rr_status r = OK).
  { destruct (rr_status r) eqn:Es; [done|..]; exfalso; revert Hv; unfold run_report; rewrite Es;
      cbn [ToVerdictAndStatus]; unfold BuildRunJSON; case_goal;
      by repeat (rewrite lookup_insert_ne by done || rewrite lookup_insert_eq). }
  apply orb_false_iff in Hargs as [_ Hout]. rewrite Hout in Hs.
  destruct (run_sound_monotone g (output_path config) (memory_limit config) r t1 [Ev (Cout (line +:+ newline)) (k t1 (Cout (line +:+ newline)))] Hs Hok)
    as (pid & H1 & H2). by exists pid.
Qed.


(** Read a key of a report built by successive insertions. *)
Ltac lookup_report :=
  repeat first [rewrite lookup_insert_eq | rewrite lookup_insert_ne by discriminate]; try reflexivity.

(** The report of a run is complete and consistent: the verdict determines
    the sandbox status and agrees with the "status" text; times and memory
    appear under both names; a system error always names its cause; "error" is
    there exactly when there is a message. *)
Theorem run_report_contract config rres :
  let j := run_report config rres in
  j !! "schema_version" = Some (JInt 1) /\
  j !! "job_id" = Some (JStr (job_id config)) /\ j !! "attempt_id" = Some (JInt (attempt_id config)) /\
  j !! "verdict" = Some (JStr (fst (ToVerdictAndStatus (rr_status rres)))) /\
  j !! "status" = Some (JStr (snd (ToVerdictAndStatus (rr_status rres)))) /\
  j !! "time_ms" = Some (JInt (rr_time_used rres)) /\ j !! "time_used" = j !! "time_ms" /\
  j !! "mem_kb" = Some (JInt (rr_memory_used rres)) /\ j !! "memory_used" = j !! "mem_kb" /\
  j !! "exit_signal" = Some (JInt (rr_exit_signal rres)) /\
  j !! "exit_code" = Some (JInt (rr_exit_code rres)) /\
  (exists s, j !! "sandbox_error" = Some (JStr s) /\
     (j !! "verdict" = Some (JStr "SE") -> s <> EmptyString)) /\
  (j !! "error" = if str_empty (rr_error_message rres) then None
                  else Some (JStr (rr_error_message rres))) /\
  (forall s s', fst (ToVerdictAndStatus s) = fst (ToVerdictAndStatus s') -> s = s').
Proof.
  unfold run_report. destruct (ToVerdictAndStatus (rr_status rres)) as [v st] eqn:Ev.
  unfold BuildRunJSON. cbn [fst snd].
  assert (Hinj : forall s s', fst (ToVerdictAndStatus s) = fst (ToVerdictAndStatus s') -> s = s')
    by (intros [] []; cbn; done).
  assert (Hse : forall s, v = "SE" ->
    (if String.eqb v "SE" && str_empty (rr_sandbox_error rres) then "system_error"
     else rr_sandbox_error rres) = s -> s <> EmptyString).
  { intros s -> <-. cbn [andb]. by destruct (rr_sandbox_error rres). }
  destruct (str_empty (rr_error_message rres)) eqn:Em; cbn [negb]; repeat split; try lookup_report;
    try exact Hinj; eexists; (split; [lookup_report|]);
    repeat (rewrite lookup_insert_ne by discriminate || rewrite lookup_insert_eq);
    intros [= Hv]; eapply Hse; eauto.
Qed.

(** The attempt id survives the command line: every 64-bit number printed in
    decimal is parsed back, and whatever is parsed is a 64-bit number. *)
Theorem attempt_id_roundtrip :
  (forall n, is_i64 n = true -> ParseAttemptID (to_string n) = Some n) /\
  (forall raw n, ParseAttemptID raw = Some n -> LLONG_MIN <= n <= LLONG_MAX).
Proof.
  unfold ParseAttemptID. split.
  - intros n Hn. by rewrite stoll_to_string.
  - intros raw n. destruct (stoll raw) eqn:Hs; [|done]. intros [= <-].
    apply is_i64_spec. by eapply stoll_range.
Qed.

(** The calls of a self test. *)
Definition env_or_stdout (s : sys) : Prop :=
  match s with Getenv _ | Cout _ => True | _ => False end.

(** The self test touches nothing: with --self_test the engine, once its
    options are parsed, only reads its environment and prints one line, and
    returns 0 unless the line cannot be serialised; no configuration, sandbox,
    file or child is involved. *)
Theorem self_test_pure {LC : Libc} {J : Json} fuel config g k :
  self_test config = true ->
  Forall (fun e => env_or_stdout (ev_sys e)) (exec_trace k (dispatch fuel config g)) /\
  (exec_outcome k (dispatch fuel config g) = OVal 0 \/
   exists e, exec_outcome k (dispatch fuel config g) = OHalt (HThrow e)).
Proof.
  intros Hs.
  assert (Hkeep : yields (fun c => self_test c = true) (FillRunMetaFromEnv config)).
  { unfold FillRunMetaFromEnv. eapply (yields_bind (fun c => self_test c = true)).
    - case_goal; [|exact Hs]. intros [v|]; exact Hs.
    - intros c Hc. case_goal; [|exact Hc]. intros [v|]; cbn; [|exact Hc]. by destruct (ParseAttemptID v). }
  assert (Hmeta : calls env_or_stdout (FillRunMetaFromEnv config))
    by (unfold FillRunMetaFromEnv; calls).
  assert (Hline : forall j, calls env_or_stdout (EmitJSONLine j ;; Ret 0))
    by (intros j; unfold EmitJSONLine; by destruct (dump j)).
  split.
  - apply calls_run; [|constructor]. unfold dispatch.
    eapply calls_bind_yields; [exact Hmeta|exact Hkeep|]. intros c ->.
    unfold self_test_mode. cbv zeta. case_goal; apply Hline.
  - assert (Hw : wp any_env (dispatch fuel config g)
      (fun o _ => o = OVal 0 \/ exists e, o = OHalt (HThrow e)) []).
    { unfold dispatch. apply wp_bind. eapply wp_mono; [|exact (wp_and _ _ _ _ _ (wp_yields _ _ _ [] Hkeep)
        (wp_halting (fun _ => False) any_env (FillRunMetaFromEnv config)
           (fun o _ => exists a, o = OVal a) [] ltac:(unfold FillRunMetaFromEnv; halting)
           (fun a _ => ex_intro _ a eq_refl) (fun h _ (F : False) => match F with end)))].
      intros o t [Hv [c ->]]. rewrite (Hv c eq_refl). unfold self_test_mode, EmitJSONLine. cbv zeta.
      case_goal; (destruct (dump _) as [l|e]; cbn; [intros u _; by left|right; by exists e]). }
    exact (run_wp any_env k _ _ [] (respects_any k) Hw).
Qed.

(** The exceptions of [std::stoi]. *)
Definition number_error (h : halt) : Prop :=
  exists w, h = HThrow (InvalidArgument w) \/ h = HThrow (OutOfRange w).

Definition int_limits (c : ExecutionConfig) : Prop :=
  is_i32 (time_limit c) = true /\ is_i32 (memory_limit c) = true.

Lemma stoi_result s :
  match stoi s with inl v => is_i32 v = true | inr e => number_error (HThrow e) end.
Proof.
  unfold stoi. destruct (strtoz s) as [z|]; [|eexists; by left].
  destruct (is_i32 z) eqn:Hz; [done|]. eexists. by right.
Qed.

Lemma option_step_safe {LC : Libc} {Y : Yaml} name opt arg c g :
  (takes_argument opt = true -> arg <> None) -> opt <> 67 -> int_limits c ->
  halting number_error (option_step name opt arg c g) /\
  yields (fun r => match r with
                   | inl (c', g') => g' = g /\ int_limits c'
                   | inr code => code = 0 \/ code = 1
                   end) (option_step name opt arg c g).
Proof.
  intros Ha H67 Hc. pose proof Hc as [Ht Hm]. unfold option_step. cbv zeta.
  repeat match goal with
  | |- context [if opt =? ?n then _ else _] =>
      destruct (Z.eqb_spec opt n) as [->|?];
      [try specialize (Ha eq_refl); try (destruct arg as [a|]; [|done]); cbn [defined bind];
       try (pose proof (stoi_result a) as Hs; destruct (stoi a); cbn [lift bind]);
       cbn; unfold int_limits; auto; try done|]
  end; cbn; auto; by destruct (ParseAttemptID a).
Qed.

Lemma parse_options_safe {LC : Libc} {Y : Yaml} name opts c g :
  (forall opt arg, In (opt, arg) opts -> takes_argument opt = true -> arg <> None) ->
  (forall arg, ~ In (67, arg) opts) -> int_limits c ->
  halting number_error (parse_options name opts c g) /\
  yields (fun r => match r with
                   | inl (c', g') => g' = g /\ int_limits c'
                   | inr code => code = 0 \/ code = 1
                   end) (parse_options name opts c g).
Proof.
  revert c g. induction opts as [|[opt arg] opts IH]; intros c g Ha HC Hc; cbn [parse_options]; [done|].
  destruct (option_step_safe name opt arg c g) as [H1 H2];
    [by apply Ha; left|intros ->; by apply (HC arg); left|done|].
  assert (IH' : forall c' g', int_limits c' -> _) by
    (intros c' g' Hc'; apply (IH c' g'); [intros o a Hi; apply Ha; by right|intros a Hi; apply (HC a); by right|exact Hc']).
  split.
  - eapply halting_bind_yields; [exact H1|exact H2|]. intros [[c' g']|code] H; [|done].
    exact (proj1 (IH' c' g' (proj2 H))).
  - eapply yields_bind; [exact H2|]. intros [[c' g']|code] H; [|exact H].
    destruct H as [-> H]. exact (proj2 (IH' c' g H)).
Qed.

(** Parsing the options is safe: without -C it yields the two
    configurations, a code to return at once, or the exception of a malformed
    number; an argument is never read where there is none, and the limits are
    always [int]s. *)
Theorem options_safe {LC : Libc} {Y : Yaml} {G : Getopt} argv k :
  (forall arg, ~ In (67, arg) (getopt_long argv)) ->
  match exec_outcome k (parse_options (default "" (head argv)) (getopt_long argv) ExecutionConfig0 zero_config) with
  | OVal (inl (c, g)) => g = zero_config /\ is_i32 (time_limit c) = true /\ is_i32 (memory_limit c) = true
  | OVal (inr code) => code = 0 \/ code = 1
  | OHalt h => exists w, h = HThrow (InvalidArgument w) \/ h = HThrow (OutOfRange w)
  end.
Proof.
  intros HC.
  destruct (parse_options_safe (default "" (head argv)) (getopt_long argv) ExecutionConfig0 zero_config
    (fun opt arg => getopt_argument argv opt arg) HC ltac:(done)) as [H1 H2].
  destruct (exec_outcome k _) as [r|h] eqn:Ho; [|exact (halting_run _ _ _ _ H1 Ho)].
  pose proof (yields_run _ _ _ _ H2 Ho) as H. by destruct r as [[c g]|code].
Qed.

(** ** Concrete libraries and witnesses *)

(** Options already split. *)
Definition getopt_of (opts : list (Z * option string)) : list (Z * option string) :=
  List.filter (fun o => negb (takes_argument (fst o)) || bool_decide (snd o <> None)) opts.

Definition fixed_getopt (opts : list (Z * option string)) : Getopt.
Proof.
  refine {| getopt_long := fun _ => getopt_of opts |}.
  intros argv opt arg [_ H]%filter_In Ht. cbn [fst snd] in H. rewrite Ht in H.
  by apply bool_decide_eq_true in H.
Defined.

(** A serialiser for text without quotes: line breaks are escaped. *)
Fixpoint escape (s : string) : string :=
  match s with
  | EmptyString => EmptyString
  | String a r => if Ascii.eqb a (chr 10) then "\\n" +:+ escape r else String a (escape r)
  end.

Lemma escape_line_free s : line_free (escape s) = true.
Proof.
  unfold line_free. induction s as [|a s IH]; [done|]. cbn [escape].
  destruct (Ascii.eqb a (chr 10)) eqn:Ea; [by rewrite str_forall_app, IH|].
  cbn [str_forall]. by rewrite Ea, IH.
Qed.

#[export] Instance simple_json : Json.
Proof.
  refine {| dump := fun j => inl (escape (String.concat ","
    (map (fun kv => fst kv +:+ ":" +:+
            match snd kv with JInt z => to_string z | JStr s => s end) (map_to_list j)))) |}.
  intros j s [= <-]. apply escape_line_free.
Defined.

Definition run_config : ExecutionConfig :=
  mkExecutionConfig "" "/tmp/deep_oj/job/main" "/in" "/out" "" 1000 131072 "" "" "job-1" 7
    false false false true.

Lemma run_mode_verdict_witness :
  exec_outcome happy (run_mode 2 config run_config) = OVal 0 /\
  exists line, couts (exec_trace happy (run_mode 2 config run_config)) = [line +:+ newline].
Proof.
  assert (H : exec_outcome happy (run_mode 2 config run_config) = OVal 0) by (vm_compute; reflexivity).
  split; [exact H|].
  destruct (run_mode_verdict 2 config run_config happy H) as (r & line & _ & _ & Hc & _). by exists line.
Defined.

Lemma self_test_pure_witness :
  let c := set_modes false false true run_config in
  self_test c = true /\
  Forall (fun e => env_or_stdout (ev_sys e)) (exec_trace happy (dispatch 2 c config)).
Proof.
  split; [reflexivity|].
  exact (proj1 (self_test_pure 2 (set_modes false false true run_config) config happy eq_refl)).
Defined.

Lemma options_safe_witness :
  let G := fixed_getopt [(116, Some "2000"); (4, Some "x"); (116, None)] in
  let Y := Tree.yaml Tree.minimal in
  exec_outcome happy (parse_options "" (getopt_long []) ExecutionConfig0 zero_config) =
    OVal (inl (set_attempt (-1) false (set_time_limit 2000 ExecutionConfig0), zero_config)) /\
  match exec_outcome happy (parse_options "" (getopt_long []) ExecutionConfig0 zero_config) with
  | OVal (inl (c, g)) => g = zero_config /\ is_i32 (time_limit c) = true /\ is_i32 (memory_limit c) = true
  | OVal (inr code) => code = 0 \/ code = 1
  | OHalt h => number_error h
  end.
Proof.
  cbv zeta. split; [vm_compute; reflexivity|].
  apply (options_safe (Y := Tree.yaml Tree.minimal)
           (G := fixed_getopt [(116, Some "2000"); (4, Some "x"); (116, None)]) []).
  intros arg. vm_compute. intuition discriminate.
Defined.
