(* ===== verification/Sha256.v ===== *)
(** * SHA-256: include/picosha2.h

    The header-only hash of the repository: block compression, the hasher
    object that is fed in pieces ([hash256_one_by_one]), the whole-message
    functions and the hexadecimal output.  [word_t] is a 64-bit unsigned long
    whose upper half the code masks away; bytes are [Z] from 0 to 255.  [Fips]
    is the reference: the function of FIPS 180-4 on 32-bit words. *)

From Stdlib Require Import ZifyNat.
From S2P Require Import Prelude CInt.

(** ** Words *)

Definition mask_8bit (x : Z) : Z := Z.land x 255.
Definition mask_32bit (x : Z) : Z := Z.land x 4294967295.

Definition k_digest_size : nat := 32.

Definition add_constant : list Z :=
  [0x428A2F98; 0x71374491; 0xB5C0FBCF; 0xE9B5DBA5; 0x3956C25B; 0x59F111F1;
   0x923F82A4; 0xAB1C5ED5; 0xD807AA98; 0x12835B01; 0x243185BE; 0x550C7DC3;
   0x72BE5D74; 0x80DEB1FE; 0x9BDC06A7; 0xC19BF174; 0xE49B69C1; 0xEFBE4786;
   0x0FC19DC6; 0x240CA1CC; 0x2DE92C6F; 0x4A7484AA; 0x5CB0A9DC; 0x76F988DA;
   0x983E5152; 0xA831C66D; 0xB00327C8; 0xBF597FC7; 0xC6E00BF3; 0xD5A79147;
   0x06CA6351; 0x14292967; 0x27B70A85; 0x2E1B2138; 0x4D2C6DFC; 0x53380D13;
   0x650A7354; 0x766A0ABB; 0x81C2C92E; 0x92722C85; 0xA2BFE8A1; 0xA81A664B;
   0xC24B8B70; 0xC76C51A3; 0xD192E819; 0xD6990624; 0xF40E3585; 0x106AA070;
   0x19A4C116; 0x1E376C08; 0x2748774C; 0x34B0BCB5; 0x391C0CB3; 0x4ED8AA4A;
   0x5B9CCA4F; 0x682E6FF3; 0x748F82EE; 0x78A5636F; 0x84C87814; 0x8CC70208;
   0x90BEFFFA; 0xA4506CEB; 0xBEF9A3F7; 0xC67178F2].

Definition initial_message_digest : list Z :=
  [0x6A09E667; 0xBB67AE85; 0x3C6EF372; 0xA54FF53A; 0x510E527F; 0x9B05688C;
   0x1F83D9AB; 0x5BE0CD19].

(** [~x] on a [word_t]. *)
Definition word_not (x : Z) : Z := to_u64 (Z.lnot x).

Definition ch (x y z : Z) : Z := Z.lxor (Z.land x y) (Z.land (word_not x) z).

Definition maj (x y z : Z) : Z :=
  Z.lxor (Z.lxor (Z.land x y) (Z.land x z)) (Z.land y z).

Definition rotr (x n : Z) : Z :=
  mask_32bit (Z.lor (Z.shiftr x n) (to_u64 (Z.shiftl x (32 - n)))).

Definition bsig0 (x : Z) : Z := Z.lxor (Z.lxor (rotr x 2) (rotr x 13)) (rotr x 22).
Definition bsig1 (x : Z) : Z := Z.lxor (Z.lxor (rotr x 6) (rotr x 11)) (rotr x 25).
Definition shr (x n : Z) : Z := Z.shiftr x n.
Definition ssig0 (x : Z) : Z := Z.lxor (Z.lxor (rotr x 7) (rotr x 18)) (shr x 3).
Definition ssig1 (x : Z) : Z := Z.lxor (Z.lxor (rotr x 17) (rotr x 19)) (shr x 10).

(** ** hash256_block *)

(** Element [i] of an array. *)
Definition at_ (l : list Z) (i : nat) : Z := nth i l 0.

(** The big-endian word at [first + i * 4]. *)
Definition load_word (first : list Z) (i : nat) : Z :=
  Z.lor (Z.lor (Z.lor
    (Z.shiftl (mask_8bit (at_ first (i * 4))) 24)
    (Z.shiftl (mask_8bit (at_ first (i * 4 + 1))) 16))
    (Z.shiftl (mask_8bit (at_ first (i * 4 + 2))) 8))
    (mask_8bit (at_ first (i * 4 + 3))).

Definition w_step (w : list Z) (i : nat) : list Z :=
  <[i := mask_32bit (to_u64 (ssig1 (at_ w (i - 2)) + at_ w (i - 7) + ssig0 (at_ w (i - 15)) +
                             at_ w (i - 16)))]> w.

(** The array [w] after both loops that fill it. *)
Definition message_schedule (first : list Z) : list Z :=
  let w := repeat 0 64 in
  let w := fold_left (fun w i => <[i := load_word first i]> w) (seq 0 16) w in
  fold_left w_step (seq 16 48) w.

(** The local variables [a] to [h]. *)
Record registers := Regs { ra : Z; rb : Z; rc : Z; rd : Z; re : Z; rf : Z; rg : Z; rh : Z }.

Definition registers_of (message_digest : list Z) : registers :=
  Regs (at_ message_digest 0) (at_ message_digest 1) (at_ message_digest 2) (at_ message_digest 3)
    (at_ message_digest 4) (at_ message_digest 5) (at_ message_digest 6) (at_ message_digest 7).

Definition registers_list (r : registers) : list Z :=
  [ra r; rb r; rc r; rd r; re r; rf r; rg r; rh r].

(** One turn of the loop over 64 rounds. *)
Definition hash_round (w : list Z) (r : registers) (i : nat) : registers :=
  let temp1 :=
    to_u64 (rh r + bsig1 (re r) + ch (re r) (rf r) (rg r) + at_ add_constant i + at_ w i) in
  let temp2 := to_u64 (bsig0 (ra r) + maj (ra r) (rb r) (rc r)) in
  Regs (mask_32bit (to_u64 (temp1 + temp2))) (ra r) (rb r) (rc r)
    (mask_32bit (to_u64 (rd r + temp1))) (re r) (rf r) (rg r).

Definition hash256_block (message_digest first : list Z) : list Z :=
  let r := fold_left (hash_round (message_schedule first)) (seq 0 64) (registers_of message_digest) in
  map mask_32bit (zip_with (fun x y => to_u64 (x + y)) message_digest (registers_list r)).

(** ** hash256_one_by_one *)

Record hash256_one_by_one := Hasher {
  buffer_ : list Z;
  data_length_digits_ : list Z;
  h_ : list Z
}.

Definition init : hash256_one_by_one := Hasher [] (repeat 0 4) initial_message_digest.

(** The loop of [add_to_data_length]; it stops at the first digit without a
    carry. *)
Fixpoint carry_digits (carry : Z) (digits : list Z) : list Z :=
  match digits with
  | [] => []
  | d :: digits =>
      let d := to_u64 (d + carry) in
      if 65536 <=? d then Z.land d 65535 :: carry_digits (Z.shiftr d 16) digits
      else d :: digits
  end.

Definition add_to_data_length (n : Z) (digits : list Z) : list Z :=
  match digits with
  | [] => []
  | d :: digits => carry_digits 0 (to_u64 (d + n) :: digits)
  end.

(** [for (; i + 64 <= buffer_.size(); i += 64) hash256_block(...)]: the last
    index and the digest. *)
Fixpoint process_blocks (fuel : nat) (buffer : list Z) (i : nat) (h : list Z) : nat * list Z :=
  match fuel with
  | O => (i, h)
  | S fuel =>
      if Nat.leb (i + 64) (length buffer)
      then process_blocks fuel buffer (i + 64) (hash256_block h (take 64 (drop i buffer)))
      else (i, h)
  end.

Definition process (data : list Z) (s : hash256_one_by_one) : hash256_one_by_one :=
  let digits := add_to_data_length (Z.of_nat (length data)) (data_length_digits_ s) in
  let buffer := buffer_ s ++ data in
  let '(i, h) := process_blocks (length buffer) buffer 0 (h_ s) in
  Hasher (drop i buffer) digits h.

(** The digits of the length in bits: a shift by 3 with its carries. *)
Fixpoint shift_digits (carry : Z) (digits : list Z) : list Z :=
  match digits with
  | [] => []
  | d :: digits =>
      Z.land (Z.lor (to_u64 (Z.shiftl d 3)) carry) 65535 ::
      shift_digits (Z.land (Z.shiftr d (16 - 3)) 65535) digits
  end.

(** A [byte_t] from a [word_t]. *)
Definition to_byte (x : Z) : Z := wrap_u 8 x.

(** The eight bytes [write_data_bit_length] stores, most significant digit
    first. *)
Definition data_bit_length (digits : list Z) : list Z :=
  concat (map (fun d => [to_byte (Z.shiftr d 8); to_byte d]) (rev (shift_digits 0 digits))).

(** [std::fill(temp + from, temp + to, 0)]. *)
Definition fill_zero (temp : list Z) (from to : nat) : list Z :=
  take from temp ++ repeat 0 (to - from) ++ drop (Nat.max from to) temp.

(** [std::copy(src, temp + at)]. *)
Definition copy_at (temp : list Z) (at0 : nat) (src : list Z) : list Z :=
  take at0 temp ++ src ++ drop (at0 + length src) temp.

Definition finish (s : hash256_one_by_one) : hash256_one_by_one :=
  let temp := copy_at (repeat 0 64) 0 (buffer_ s) in
  let remains := length (buffer_ s) in
  let remains := if Nat.leb 64 remains then 63%nat else remains in
  let temp := <[remains := 128]> temp in
  let '(temp, h) :=
    if Nat.ltb 55 remains then
      let temp := fill_zero temp (remains + 1) 64 in
      let h := hash256_block (h_ s) temp in
      (fill_zero temp 0 (64 - 4), h)
    else (fill_zero temp (remains + 1) (64 - 4), h_ s) in
  let temp := copy_at temp 56 (data_bit_length (data_length_digits_ s)) in
  Hasher (buffer_ s) (data_length_digits_ s) (hash256_block h temp).

(** The bytes of one word, and [get_hash_bytes] into [n] bytes. *)
Definition word_bytes (w : Z) : list Z :=
  map (fun i => mask_8bit (to_byte (Z.shiftr w (24 - 8 * i)))) [0; 1; 2; 3].

Definition get_hash_bytes (n : nat) (s : hash256_one_by_one) : list Z :=
  take n (concat (map word_bytes (h_ s))).

(** ** Whole messages *)

(** [hash256_impl] on random-access iterators. *)
Definition hash256_impl (data : list Z) (n : nat) : list Z :=
  get_hash_bytes n (finish (process data init)).

(** [hash256_impl] on input iterators: pieces of at most [buffer_size]. *)
Fixpoint process_input (fuel buffer_size : nat) (data : list Z) (s : hash256_one_by_one)
    : option hash256_one_by_one :=
  match data, fuel with
  | [], _ => Some s
  | _, O => None
  | _, S fuel => process_input fuel buffer_size (drop buffer_size data) (process (take buffer_size data) s)
  end.

Definition hash256_impl_input (fuel buffer_size : nat) (data : list Z) (n : nat) : option (list Z) :=
  option_map (fun s => get_hash_bytes n (finish s)) (process_input fuel buffer_size data init).

Definition hash256 (data : list Z) : list Z := hash256_impl data k_digest_size.

(** ** Hexadecimal output *)

Definition hex_digit (d : Z) : ascii :=
  chr (Z.to_nat (if d <? 10 then 48 + d else 87 + d)).

(** One byte with [hex], [width(2)], [fill('0')]. *)
Definition hex_byte (b : Z) : string :=
  String (hex_digit (b / 16)) (String (hex_digit (b mod 16)) EmptyString).

Fixpoint output_hex (bytes : list Z) : string :=
  match bytes with
  | [] => EmptyString
  | b :: bytes => hex_byte b +:+ output_hex bytes
  end.

Definition get_hash_hex_string (s : hash256_one_by_one) : string :=
  output_hex (get_hash_bytes k_digest_size s).

Definition bytes_of (s : string) : list Z :=
  map (fun a => Z.of_nat (Ascii.nat_of_ascii a)) (String.list_ascii_of_string s).

Definition hash256_hex_string (src : string) : string := output_hex (hash256 (bytes_of src)).

Example sha_abc : hash256_hex_string "abc" =
  "ba7816bf8f01cfea414140de5dae2223b00361a396177a9cb410ff61f20015ad".
Proof. vm_compute. reflexivity. Qed.

Example sha_two_blocks :
  hash256_hex_string "abcdbcdecdefdefgefghfghighijhijkijkljklmklmnlmnomnopnopq" =
  "248d6a61d20638b8e5c026930c3e6039a33ce45964ff2167f6ecedd419db06c1".
Proof. vm_compute. reflexivity. Qed.

(** ** The reference: FIPS 180-4 *)

Module Fips.

Definition w32 (z : Z) : Z := z mod 2 ^ 32.
Definition ROTR (n x : Z) : Z := w32 (x / 2 ^ n + x * 2 ^ (32 - n)).
Definition SHR (n x : Z) : Z := x / 2 ^ n.
Definition Ch (x y z : Z) : Z := Z.lxor (Z.land x y) (Z.land (2 ^ 32 - 1 - x) z).
Definition Maj (x y z : Z) : Z := Z.lxor (Z.lxor (Z.land x y) (Z.land x z)) (Z.land y z).
Definition Sum0 (x : Z) : Z := Z.lxor (Z.lxor (ROTR 2 x) (ROTR 13 x)) (ROTR 22 x).
Definition Sum1 (x : Z) : Z := Z.lxor (Z.lxor (ROTR 6 x) (ROTR 11 x)) (ROTR 25 x).
Definition sigma0 (x : Z) : Z := Z.lxor (Z.lxor (ROTR 7 x) (ROTR 18 x)) (SHR 3 x).
Definition sigma1 (x : Z) : Z := Z.lxor (Z.lxor (ROTR 17 x) (ROTR 19 x)) (SHR 10 x).

(** Big-endian words and numbers. *)
Definition word_at (block : list Z) (i : nat) : Z :=
  at_ block (i * 4) * 2 ^ 24 + at_ block (i * 4 + 1) * 2 ^ 16 + at_ block (i * 4 + 2) * 2 ^ 8 +
  at_ block (i * 4 + 3).

Fixpoint be (n : nat) (z : Z) : list Z :=
  match n with O => [] | S n => be n (z / 256) ++ [z mod 256] end.

(** W_t from the words before it, and the first [k] of them. *)
Definition next_word (w : list Z) : Z :=
  let t := length w in
  w32 (sigma1 (at_ w (t - 2)) + at_ w (t - 7) + sigma0 (at_ w (t - 15)) + at_ w (t - 16)).

Fixpoint schedule (k : nat) (w : list Z) : list Z :=
  match k with O => w | S k => schedule k (w ++ [next_word w]) end.

Definition round (w : list Z) (r : registers) (t : nat) : registers :=
  let T1 := w32 (rh r + Sum1 (re r) + Ch (re r) (rf r) (rg r) + at_ add_constant t + at_ w t) in
  let T2 := w32 (Sum0 (ra r) + Maj (ra r) (rb r) (rc r)) in
  Regs (w32 (T1 + T2)) (ra r) (rb r) (rc r) (w32 (rd r + T1)) (re r) (rf r) (rg r).

Definition compress (h block : list Z) : list Z :=
  let w := schedule 48 (map (word_at block) (seq 0 16)) in
  let r := fold_left (round w) (seq 0 64) (registers_of h) in
  zip_with (fun x y => w32 (x + y)) h (registers_list r).

(** The first [k] blocks of 64 bytes. *)
Fixpoint chunks (k : nat) (m : list Z) : list (list Z) :=
  match k with O => [] | S k => take 64 m :: chunks k (drop 64 m) end.

Definition pad (m : list Z) : list Z :=
  let l := Z.of_nat (length m) in
  m ++ 128 :: repeat 0 (Z.to_nat ((55 - l) mod 64)) ++ be 8 (8 * l).

Definition sha256 (m : list Z) : list Z :=
  let p := pad m in
  concat (map (be 4) (fold_left compress (chunks (length p / 64) p) initial_message_digest)).

End Fips.
Import Fips.

(** ** Lemmas: words *)

Definition word32 (x : Z) : Prop := 0 <= x < 2 ^ 32.
Definition byte8 (x : Z) : Prop := 0 <= x < 2 ^ 8.

Lemma mask_32bit_mod x : mask_32bit x = w32 x.
Proof. unfold mask_32bit. change 4294967295 with (Z.ones 32). by rewrite Z.land_ones. Qed.

Lemma mask_8bit_mod x : mask_8bit x = x mod 2 ^ 8.
Proof. unfold mask_8bit. change 255 with (Z.ones 8). by rewrite Z.land_ones. Qed.

Lemma w32_range x : word32 (w32 x).
Proof. unfold word32, w32. pose proof (Z.mod_pos_bound x (2 ^ 32)). lia. Qed.

Lemma w32_u64 x : w32 (to_u64 x) = w32 x.
Proof. unfold w32, to_u64, wrap_u. apply Z.mod_mod_divide. by exists (2 ^ 32). Qed.

Lemma mask_u64 x : mask_32bit (to_u64 x) = w32 x.
Proof. by rewrite mask_32bit_mod, w32_u64. Qed.

(** Sums may be reduced early or late. *)
Lemma w32_add_l x y : w32 (w32 x + y) = w32 (x + y).
Proof. unfold w32. by rewrite Zplus_mod_idemp_l. Qed.
Lemma w32_add_r x y : w32 (x + w32 y) = w32 (x + y).
Proof. unfold w32. by rewrite Zplus_mod_idemp_r. Qed.
Lemma u64_add_l x y : w32 (to_u64 x + y) = w32 (x + y).
Proof. by rewrite <- w32_add_l, w32_u64, w32_add_l. Qed.
Lemma u64_add_r x y : w32 (x + to_u64 y) = w32 (x + y).
Proof. by rewrite <- w32_add_r, w32_u64, w32_add_r. Qed.

#[local] Hint Rewrite mask_u64 w32_add_l w32_add_r u64_add_l u64_add_r : oj_rw.

(** Numbers that share no bit: [or] and exclusive [or] are addition. *)
Lemma land_disjoint a b k : 0 <= k -> 0 <= a < 2 ^ k -> Z.land a (b * 2 ^ k) = 0.
Proof.
  intros Hk Ha. apply Z.bits_inj'. intros n Hn. rewrite Z.land_spec, Z.bits_0.
  destruct (Z.ltb_spec n k).
  - by rewrite Z.mul_pow2_bits_low, andb_false_r by lia.
  - rewrite <- (Z.mod_small a (2 ^ k)) by lia. by rewrite Z.mod_pow2_bits_high by lia.
Qed.

Lemma lxor_disjoint a b k : 0 <= k -> 0 <= a < 2 ^ k -> Z.lxor a (b * 2 ^ k) = a + b * 2 ^ k.
Proof. intros Hk Ha. by rewrite Z.add_nocarry_lxor by (by apply land_disjoint). Qed.

Lemma lor_disjoint a b k : 0 <= k -> 0 <= a < 2 ^ k -> Z.lor a (b * 2 ^ k) = a + b * 2 ^ k.
Proof.
  intros Hk Ha. rewrite <- lxor_disjoint by done. by rewrite Z.lxor_lor by (by apply land_disjoint).
Qed.

Lemma rotr_ROTR x n : word32 x -> 0 < n < 32 -> rotr x n = ROTR n x.
Proof.
  unfold word32. intros Hx Hn. unfold rotr, ROTR.
  rewrite Z.shiftr_div_pow2, Z.shiftl_mul_pow2 by lia.
  assert (0 < 2 ^ n <= 2 ^ 32) by (split; [lia|apply Z.pow_le_mono_r; lia]).
  assert (2 ^ 32 = 2 ^ n * 2 ^ (32 - n)) as Hp by (rewrite <- Z.pow_add_r by lia; f_equal; lia).
  assert (0 < 2 ^ (32 - n) <= 2 ^ 32) by (split; [lia|apply Z.pow_le_mono_r; lia]).
  assert (to_u64 (x * 2 ^ (32 - n)) = x * 2 ^ (32 - n)) as ->.
  { apply to_u64_id. unfold ULLONG_MAX.
    pose proof (Z.mul_le_mono_nonneg x (2 ^ 32 - 1) (2 ^ (32 - n)) (2 ^ 32)). lia. }
  rewrite lor_disjoint; [apply mask_32bit_mod|lia|].
  split; [apply Z.div_pos; lia|]. apply Z.div_lt_upper_bound; lia.
Qed.

Lemma ch_Ch x y z : word32 x -> word32 z -> ch x y z = Ch x y z.
Proof.
  unfold word32. intros Hx Hz. unfold ch, Ch. f_equal.
  assert (forall a, Z.land a z = Z.land (w32 a) z) as H.
  { intros a. unfold w32. rewrite <- Z.land_ones, <- Z.land_assoc, (Z.land_comm (Z.ones 32)),
      Z.land_ones, (Z.mod_small z) by lia. done. }
  rewrite (H (word_not x)). unfold word_not. rewrite w32_u64. f_equal.
  unfold w32, Z.lnot. symmetry. apply Zmod_unique with (q := -1); lia.
Qed.

Lemma bsig0_Sum0 x : word32 x -> bsig0 x = Sum0 x.
Proof. intros. unfold bsig0, Sum0. rewrite !rotr_ROTR by (done || lia). done. Qed.
Lemma bsig1_Sum1 x : word32 x -> bsig1 x = Sum1 x.
Proof. intros. unfold bsig1, Sum1. rewrite !rotr_ROTR by (done || lia). done. Qed.
Lemma ssig0_sigma0 x : word32 x -> ssig0 x = sigma0 x.
Proof.
  intros. unfold ssig0, sigma0. rewrite !rotr_ROTR by (done || lia).
  unfold shr, SHR. by rewrite Z.shiftr_div_pow2.
Qed.
Lemma ssig1_sigma1 x : word32 x -> ssig1 x = sigma1 x.
Proof.
  intros. unfold ssig1, sigma1. rewrite !rotr_ROTR by (done || lia).
  unfold shr, SHR. by rewrite Z.shiftr_div_pow2.
Qed.

(** ** Lemmas: one block *)

Lemma at_byte l i : Forall byte8 l -> byte8 (at_ l i).
Proof.
  intros H. unfold at_. destruct (Nat.lt_ge_cases i (length l)) as [Hi|Hi].
  - rewrite Forall_forall in H. by apply H, list_elem_of_In, nth_In.
  - rewrite nth_overflow by lia. unfold byte8. lia.
Qed.

Lemma at_word l i : Forall word32 l -> word32 (at_ l i).
Proof.
  intros H. unfold at_. destruct (Nat.lt_ge_cases i (length l)) as [Hi|Hi].
  - rewrite Forall_forall in H. by apply H, list_elem_of_In, nth_In.
  - rewrite nth_overflow by lia. unfold word32. lia.
Qed.

Lemma load_word_spec block i :
  Forall byte8 block -> load_word block i = word_at block i /\ word32 (word_at block i).
Proof.
  intros Hb. unfold load_word, word_at.
  pose proof (at_byte block (i * 4) Hb) as H0. pose proof (at_byte block (i * 4 + 1) Hb) as H1.
  pose proof (at_byte block (i * 4 + 2) Hb) as H2. pose proof (at_byte block (i * 4 + 3) Hb) as H3.
  unfold byte8 in *. rewrite !mask_8bit_mod, !Z.mod_small by lia. rewrite !Z.shiftl_mul_pow2 by lia.
  set (a := at_ block (i * 4)) in *. set (b := at_ block (i * 4 + 1)) in *.
  set (c := at_ block (i * 4 + 2)) in *. set (d := at_ block (i * 4 + 3)) in *.
  split; [|unfold word32; lia].
  rewrite <- !Z.lor_assoc, (Z.lor_comm (c * _)), lor_disjoint by lia.
  rewrite (Z.lor_comm (b * _)), lor_disjoint by lia.
  rewrite (Z.lor_comm (a * _)), lor_disjoint by lia. lia.
Qed.

(** The array filled from the left is a list that grows. *)
Lemma schedule_grows k l :
  (16 <= length l)%nat -> Forall word32 l ->
  fold_left w_step (seq (length l) k) (l ++ repeat 0 k) = schedule k l.
Proof.
  revert l. induction k as [|k IH]; intros l Hl Hw; cbn [seq fold_left schedule repeat].
  { apply app_nil_r. }
  assert (w_step (l ++ 0 :: repeat 0 k) (length l) = (l ++ [next_word l]) ++ repeat 0 k) as ->.
  { unfold w_step. rewrite <- (Nat.add_0_r (length l)) at 1. rewrite insert_app_r. cbn.
    rewrite <- app_assoc. cbn. do 2 f_equal.
    assert (forall n, (n < length l)%nat -> at_ (l ++ 0 :: repeat 0 k) n = at_ l n) as Hat.
    { intros. unfold at_. by rewrite app_nth1. }
    rewrite !Hat by lia. rewrite mask_u64. unfold next_word.
    by rewrite ssig1_sigma1, ssig0_sigma0 by (by apply at_word). }
  rewrite <- IH.
  - rewrite length_app. cbn. by rewrite Nat.add_1_r.
  - rewrite length_app. lia.
  - rewrite Forall_app. split; [done|]. constructor; [apply w32_range|done].
Qed.

Lemma schedule_words k l : Forall word32 l -> Forall word32 (schedule k l).
Proof.
  revert l. induction k as [|k IH]; intros l Hl; [done|]. apply IH.
  rewrite Forall_app. split; [done|]. constructor; [apply w32_range|done].
Qed.

Lemma schedule_start block :
  fold_left (fun w i => <[i := load_word block i]> w) (seq 0 16) (repeat 0 64) =
  map (load_word block) (seq 0 16) ++ repeat 0 48.
Proof. reflexivity. Qed.

Definition word_regs (r : registers) : Prop := Forall word32 (registers_list r).

Lemma hash_round_spec w r i : word_regs r -> Forall word32 w -> hash_round w r i = round w r i.
Proof.
  unfold word_regs, registers_list. rewrite !Forall_cons. intros (?&?&?&?&?&?&?&?&_) Hw.
  unfold hash_round, round. autorewrite with oj_rw.
  by rewrite bsig1_Sum1, bsig0_Sum0, ch_Ch.
Qed.

Lemma round_words w r i : word_regs r -> word_regs (round w r i).
Proof.
  unfold word_regs, registers_list. rewrite !Forall_cons. intros (?&?&?&?&?&?&?&?&_).
  cbn. split_and!; first [done | apply w32_range | constructor].
Qed.

Lemma rounds_spec w l r :
  word_regs r -> Forall word32 w -> fold_left (hash_round w) l r = fold_left (round w) l r.
Proof.
  intros Hr Hw. revert r Hr. induction l as [|i l IH]; intros r Hr; [done|].
  cbn. rewrite hash_round_spec by done. by apply IH, round_words.
Qed.

Lemma registers_of_words h : Forall word32 h -> word_regs (registers_of h).
Proof. intros H. unfold word_regs. repeat constructor; cbn; by apply at_word. Qed.

Lemma zip_mask h r :
  map mask_32bit (zip_with (fun x y => to_u64 (x + y)) h r) = zip_with (fun x y => w32 (x + y)) h r.
Proof.
  revert r. induction h as [|x h IH]; intros [|y r]; cbn; auto. by rewrite mask_u64, IH.
Qed.

Lemma hash256_block_spec h block :
  Forall word32 h -> Forall byte8 block -> hash256_block h block = compress h block.
Proof.
  intros Hh Hb. unfold hash256_block, compress. rewrite zip_mask. do 2 f_equal.
  assert (map (load_word block) (seq 0 16) = map (word_at block) (seq 0 16)) as Hm.
  { apply map_ext. intros. by apply load_word_spec. }
  assert (Forall word32 (map (word_at block) (seq 0 16))) as Hw.
  { rewrite Forall_map. apply Forall_true. intros. by apply load_word_spec. }
  assert (message_schedule block = schedule 48 (map (word_at block) (seq 0 16))) as ->.
  { unfold message_schedule. rewrite schedule_start, Hm.
    rewrite <- schedule_grows; [by rewrite length_map|by rewrite length_map|done]. }
  apply rounds_spec; [by apply registers_of_words|by apply schedule_words].
Qed.

Lemma zip_words h r : Forall word32 (zip_with (fun x y => w32 (x + y)) h r).
Proof.
  revert r. induction h as [|x h IH]; intros [|y r]; cbn; constructor; [apply w32_range|apply IH].
Qed.

Lemma compress_words h block : Forall word32 (compress h block).
Proof. apply zip_words. Qed.

Lemma compress_length h block : length h = 8%nat -> length (compress h block) = 8%nat.
Proof. intros H. unfold compress. by rewrite length_zip_with, H. Qed.

(** ** Lemmas: the length counter *)

(** A number in [n] digits of 16 bits, least significant first. *)
Fixpoint digits_of (n : nat) (v : Z) : list Z :=
  match n with O => [] | S n => v mod 65536 :: digits_of n (v / 65536) end.

Lemma carry_digits_spec n v c :
  0 <= v -> 0 <= c < 2 ^ 63 -> carry_digits c (digits_of n v) = digits_of n (v + c).
Proof.
  revert v c. induction n as [|n IH]; intros v c Hv Hc; [done|]. cbn [digits_of carry_digits].
  pose proof (Z.mod_pos_bound v 65536 ltac:(lia)) as Hm.
  rewrite (to_u64_id (v mod 65536 + c)) by (unfold ULLONG_MAX; lia).
  change 65535 with (Z.ones 16). rewrite Z.land_ones, Z.shiftr_div_pow2 by lia.
  change (2 ^ 16) with 65536.
  pose proof (Z.div_mod v 65536 ltac:(lia)) as Hd.
  destruct (Z.leb_spec 65536 (v mod 65536 + c)) as [H|H].
  - f_equal.
    + by rewrite Zplus_mod_idemp_l.
    + rewrite IH; [f_equal|lia|].
      * symmetry. rewrite Hd at 1.
        replace (65536 * (v / 65536) + v mod 65536 + c) with (v mod 65536 + c + v / 65536 * 65536) by lia.
        rewrite Z.div_add by lia. lia.
      * split; [apply Z.div_pos; lia|]. apply Z.div_lt_upper_bound; lia.
  - f_equal.
    + apply Zmod_unique with (q := v / 65536); lia.
    + f_equal. apply Zdiv_unique with (r := v mod 65536 + c); lia.
Qed.

Lemma add_to_data_length_spec v n :
  0 <= v -> 0 <= n < 2 ^ 62 ->
  add_to_data_length n (digits_of 4 v) = digits_of 4 (v + n).
Proof.
  intros Hv Hn. rewrite <- (carry_digits_spec 4 v n) by lia. cbn [digits_of add_to_data_length].
  cbn [carry_digits]. rewrite Z.add_0_r.
  assert (to_u64 (to_u64 (v mod 65536 + n)) = to_u64 (v mod 65536 + n)) as ->; [|done].
  apply to_u64_id. pose proof (to_u64_range (v mod 65536 + n)). lia.
Qed.

Lemma shift_digits_spec n v c :
  0 <= v -> 0 <= c < 8 -> shift_digits c (digits_of n v) = digits_of n (8 * v + c).
Proof.
  revert v c. induction n as [|n IH]; intros v c Hv Hc; [done|]. cbn [digits_of shift_digits].
  pose proof (Z.mod_pos_bound v 65536 ltac:(lia)) as Hm.
  pose proof (Z.div_mod v 65536 ltac:(lia)) as Hd.
  rewrite Z.shiftl_mul_pow2, Z.shiftr_div_pow2 by lia. change (2 ^ (16 - 3)) with 8192.
  rewrite to_u64_id by (unfold ULLONG_MAX; lia).
  rewrite Z.lor_comm, lor_disjoint by lia.
  change 65535 with (Z.ones 16). rewrite !Z.land_ones by lia. change (2 ^ 16) with 65536.
  pose proof (Z.div_mod (v mod 65536) 8192 ltac:(lia)) as He.
  pose proof (Z.mod_pos_bound (v mod 65536) 8192 ltac:(lia)) as Hf.
  rewrite (Z.mod_small (v mod 65536 / 8192)) by lia.
  f_equal.
  - rewrite <- (Z.mod_add (c + v mod 65536 * 2 ^ 3) (8 * (v / 65536)) 65536) by lia. f_equal. lia.
  - rewrite IH by lia. f_equal.
    apply Zdiv_unique with (r := 8 * (v mod 65536 mod 8192) + c); lia.
Qed.

Lemma be_snoc n z : be (S n) z = be n (z / 256) ++ [z mod 256].
Proof. done. Qed.

Lemma data_bit_length_spec v : 0 <= v -> data_bit_length (digits_of 4 v) = be 8 (8 * v).
Proof.
  intros Hv. unfold data_bit_length. rewrite shift_digits_spec by lia. rewrite Z.add_0_r.
  set (u := 8 * v). unfold to_byte, wrap_u. change (2 ^ 8) with 256.
  assert (forall a, Z.shiftr (a mod 65536) 8 mod 256 = a / 256 mod 256) as H1.
  { intros a. rewrite Z.shiftr_div_pow2 by lia. change (2 ^ 8) with 256.
    pose proof (Z.div_mod a 65536 ltac:(lia)). pose proof (Z.mod_pos_bound a 65536 ltac:(lia)).
    rewrite Z.mod_small by (split; [apply Z.div_pos; lia|apply Z.div_lt_upper_bound; lia]).
    symmetry. replace a with (a mod 65536 + a / 65536 * 256 * 256) at 1 by lia.
    rewrite Z.div_add, Z.mod_add by lia. apply Z.mod_small.
    split; [apply Z.div_pos; lia|apply Z.div_lt_upper_bound; lia]. }
  assert (forall a, a mod 65536 mod 256 = a mod 256) as H2.
  { intros a. apply Z.mod_mod_divide. by exists 256. }
  cbn [digits_of rev app map concat]. rewrite !H1, !H2.
  rewrite !be_snoc. cbn [be app]. rewrite !Z.div_div by lia. done.
Qed.

(** ** Lemmas: a message fed in pieces *)

(** Arithmetic with quotients. *)
Ltac dlia := zify; Z.to_euclidean_division_equations; lia.

Lemma chunks_add j k l : chunks (j + k) l = chunks j l ++ chunks k (drop (64 * j) l).
Proof.
  revert l. induction j as [|j IH]; intros l; [by rewrite Nat.mul_0_r|].
  cbn [chunks Nat.add app]. rewrite IH, drop_drop. do 3 f_equal. f_equal. lia.
Qed.

Lemma chunks_prefix j l d : (64 * j <= length l)%nat -> chunks j (l ++ d) = chunks j l.
Proof.
  revert l. induction j as [|j IH]; intros l H; [done|]. cbn [chunks].
  rewrite take_app_le, drop_app_le by lia. f_equal. apply IH. rewrite length_drop. lia.
Qed.

Lemma process_blocks_spec fuel buf i h :
  (i <= length buf < i + 64 * S fuel)%nat ->
  process_blocks fuel buf i h =
    ((i + 64 * ((length buf - i) / 64))%nat,
     fold_left hash256_block (chunks ((length buf - i) / 64) (drop i buf)) h).
Proof.
  revert i h. induction fuel as [|fuel IH]; intros i h H; cbn [process_blocks].
  { rewrite (Nat.div_small (length buf - i)) by lia. cbn. f_equal. lia. }
  destruct (Nat.leb_spec (i + 64) (length buf)) as [Hle|Hgt].
  - rewrite IH by lia.
    assert ((length buf - i) / 64 = S ((length buf - (i + 64)) / 64))%nat as -> by dlia.
    cbn [chunks fold_left]. rewrite drop_drop. f_equal. lia.
  - rewrite (Nat.div_small (length buf - i)) by lia. cbn. f_equal. lia.
Qed.

(** The hasher that has absorbed [m]. *)
Definition absorbed (m : list Z) : hash256_one_by_one :=
  let q := (length m / 64)%nat in
  Hasher (drop (64 * q) m) (digits_of 4 (Z.of_nat (length m)))
    (fold_left hash256_block (chunks q m) initial_message_digest).

Lemma absorbed_nil : absorbed [] = init.
Proof. done. Qed.

Lemma absorbed_buffer m : (length (buffer_ (absorbed m)) = length m mod 64)%nat.
Proof. unfold absorbed. cbn [buffer_]. rewrite length_drop. dlia. Qed.

Lemma process_absorbed m d :
  Z.of_nat (length (m ++ d)) < 2 ^ 62 -> process d (absorbed m) = absorbed (m ++ d).
Proof.
  rewrite length_app. intros H. unfold process. cbn [buffer_ data_length_digits_ h_ absorbed].
  set (q := (length m / 64)%nat).
  assert (64 * q <= length m < 64 * q + 64)%nat as Hq by (unfold q; dlia).
  rewrite add_to_data_length_spec by lia. rewrite process_blocks_spec by lia.
  rewrite <- (drop_app_le m d (64 * q)) by lia.
  rewrite drop_0, length_drop, length_app, drop_drop, Nat.sub_0_r.
  set (k := ((length m + length d - 64 * q) / 64)%nat).
  assert ((length m + length d) / 64 = q + k)%nat as Hk by (unfold k; dlia).
  unfold absorbed. rewrite length_app, Hk. f_equal.
  - f_equal. lia.
  - f_equal. lia.
  - by rewrite chunks_add, fold_left_app, chunks_prefix by lia.
Qed.

Lemma process_init m : Z.of_nat (length m) < 2 ^ 62 -> process m init = absorbed m.
Proof. intros. rewrite <- absorbed_nil. by apply process_absorbed. Qed.

(** ** Lemmas: padding *)

(** The blocks [finish] compresses. *)
Definition last_blocks (buffer bits : list Z) : list (list Z) :=
  let r := length buffer in
  if Nat.ltb 55 r
  then [buffer ++ 128 :: repeat 0 (63 - r); repeat 0 56 ++ bits]
  else [buffer ++ 128 :: repeat 0 (55 - r) ++ bits].

Lemma be_length n z : length (be n z) = n.
Proof. revert z. induction n as [|n IH]; intros; [done|]. cbn. rewrite length_app, IH. cbn. lia. Qed.

Lemma repeat_split {A} (x : A) i n : (i <= n)%nat -> repeat x n = repeat x i ++ repeat x (n - i).
Proof. intros. rewrite <- repeat_app. f_equal. lia. Qed.

Lemma temp_start (buffer : list Z) :
  (length buffer < 64)%nat ->
  <[length buffer := 128]> (copy_at (repeat 0 64) 0 buffer) =
    (buffer ++ [128]) ++ repeat 0 (63 - length buffer).
Proof.
  intros H. unfold copy_at. cbn [take Nat.add].
  assert (forall n x, drop n (repeat 0 x) = repeat 0 (x - n)) as Hd.
  { induction n as [|n IH]; intros [|x]; cbn; auto. }
  rewrite Hd. cbn [app].
  replace (64 - length buffer)%nat with (S (63 - length buffer)) by lia. cbn [repeat].
  pose proof (insert_app_r buffer (0 :: repeat 0 (63 - length buffer)) 0 128) as E.
  rewrite Nat.add_0_r in E. rewrite take_0. cbn [app]. rewrite E. cbn. by rewrite <- app_assoc.
Qed.

Lemma fill_zero_zeros l k to :
  (to <= length l + k)%nat -> fill_zero (l ++ repeat 0 k) (length l) to = l ++ repeat 0 k.
Proof.
  intros H. unfold fill_zero. rewrite take_app_length.
  destruct (Nat.le_gt_cases to (length l)) as [Hle|Hgt].
  - rewrite (proj2 (Nat.sub_0_le to (length l)) Hle), Nat.max_l by done. cbn. by rewrite drop_app_length.
  - rewrite Nat.max_r by lia. rewrite (repeat_split 0 (to - length l) k) by lia.
    rewrite !app_assoc. f_equal.
    rewrite drop_app_ge; [|rewrite length_app, repeat_length; lia].
    by rewrite length_app, repeat_length, (proj2 (Nat.sub_0_le _ _)) by lia.
Qed.

Lemma copy_tail l x (src : list Z) :
  length l = 56%nat -> length x = 8%nat -> length src = 8%nat -> copy_at (l ++ x) 56 src = l ++ src.
Proof.
  intros Hl Hx Hs. unfold copy_at.
  rewrite take_app_le, drop_app_ge by lia.
  rewrite firstn_all2, (drop_ge x), app_nil_r by lia. done.
Qed.

Lemma data_bit_length_length ds : length ds = 4%nat -> length (data_bit_length ds) = 8%nat.
Proof. destruct ds as [|? [|? [|? [|? [|]]]]]; done. Qed.

Lemma finish_blocks s :
  (length (buffer_ s) < 64)%nat -> length (data_length_digits_ s) = 4%nat ->
  h_ (finish s) =
    fold_left hash256_block (last_blocks (buffer_ s) (data_bit_length (data_length_digits_ s))) (h_ s).
Proof.
  intros Hb Hd. unfold finish, last_blocks. set (r := length (buffer_ s)) in *.
  rewrite (proj2 (Nat.leb_gt 64 r)) by lia.
  assert (<[r := 128]> (copy_at (repeat 0 64) 0 (buffer_ s)) = (buffer_ s ++ [128]) ++ repeat 0 (63 - r)) as ->
    by (by apply temp_start).
  set (bits := data_bit_length _).
  assert (length bits = 8%nat) as Hbits by (by apply data_bit_length_length).
  assert (length (buffer_ s ++ [128]) = (r + 1)%nat) as Hl by (rewrite length_app; done).
  destruct (Nat.ltb_spec 55 r) as [H|H].
  - rewrite <- Hl, fill_zero_zeros by lia. cbn [h_ fold_left].
    rewrite <- app_assoc. cbn [app].
    set (block := buffer_ s ++ 128 :: repeat 0 (63 - r)).
    assert (length block = 64%nat) as Hblock.
    { unfold block. rewrite length_app. cbn. rewrite repeat_length. fold r. lia. }
    change (fill_zero block 0 (64 - 4)) with (repeat 0 56 ++ repeat 0 4 ++ drop 60 block).
    rewrite copy_tail; [done|done| |done]. rewrite length_app, repeat_length, length_drop, Hblock. done.
  - rewrite <- Hl, fill_zero_zeros by lia. cbn [h_ fold_left].
    rewrite (repeat_split 0 (55 - r) (63 - r)), app_assoc by lia.
    rewrite copy_tail; [|rewrite length_app, repeat_length; lia|rewrite repeat_length; lia|done].
    by rewrite <- !app_assoc.
Qed.

Lemma pad_blocks m :
  let q := (length m / 64)%nat in
  let bits := be 8 (8 * Z.of_nat (length m)) in
  chunks (length (pad m) / 64) (pad m) = chunks q m ++ last_blocks (drop (64 * q) m) bits.
Proof.
  intros q. cbv zeta. set (n := length m). unfold pad. cbv zeta. fold n.
  assert (64 * q <= n < 64 * q + 64)%nat as Hq by (unfold q, n; dlia).
  set (r := (n - 64 * q)%nat).
  assert (length (drop (64 * q) m) = r) as Hr by (rewrite length_drop; done).
  set (bits := be 8 (8 * Z.of_nat n)).
  assert (length bits = 8%nat) as Hbits by apply be_length. clearbody bits.
  set (z := Z.to_nat ((55 - Z.of_nat n) mod 64)).
  set (tail := 128 :: repeat 0 z ++ bits).
  assert (length (m ++ tail) = (n + z + 9)%nat) as Hlen.
  { rewrite length_app. unfold tail. cbn. rewrite length_app, repeat_length, Hbits. fold n. lia. }
  assert (drop (64 * q) (m ++ tail) = drop (64 * q) m ++ tail) as Hdrop by (apply drop_app_le; lia).
  unfold last_blocks. rewrite Hr. rewrite Hlen. destruct (Nat.ltb_spec 55 r) as [H|H].
  - assert (z = (63 - r) + 56)%nat as Hz by (unfold z, r in *; dlia).
    assert ((n + z + 9) / 64 = q + 2)%nat as -> by (unfold r in *; dlia).
    rewrite chunks_add, chunks_prefix, Hdrop by (fold n; lia). f_equal. cbn [chunks].
    unfold tail. rewrite Hz, repeat_app, <- app_assoc.
    set (b1 := drop (64 * q) m ++ 128 :: repeat 0 (63 - r)).
    assert (drop (64 * q) m ++ 128 :: repeat 0 (63 - r) ++ repeat 0 56 ++ bits =
            b1 ++ repeat 0 56 ++ bits) as -> by (unfold b1; by rewrite <- app_assoc).
    assert (length b1 = 64%nat) as Hb1.
    { unfold b1. rewrite length_app, Hr. cbn. rewrite repeat_length. lia. }
    rewrite take_app_length', drop_app_length' by done. do 2 f_equal.
    apply firstn_all2. rewrite length_app, repeat_length. lia.
  - assert (z = 55 - r)%nat as -> by (unfold z, r in *; dlia).
    assert ((n + (55 - r) + 9) / 64 = q + 1)%nat as -> by (unfold r in *; dlia).
    rewrite chunks_add, chunks_prefix, Hdrop by (fold n; lia). f_equal. cbn [chunks]. f_equal.
    apply firstn_all2. rewrite length_app, Hr. unfold tail. cbn. rewrite length_app, repeat_length. lia.
Qed.

(** ** Lemmas: the digest *)

Lemma chunks_bytes k m : Forall byte8 m -> Forall (Forall byte8) (chunks k m).
Proof.
  revert m. induction k as [|k IH]; intros m H; constructor; [by apply Forall_take|].
  by apply IH, Forall_drop.
Qed.

Lemma be_bytes n z : Forall byte8 (be n z).
Proof.
  revert z. induction n as [|n IH]; intros z; [constructor|]. cbn.
  rewrite Forall_app. split; [done|]. constructor; [|done]. unfold byte8.
  pose proof (Z.mod_pos_bound z 256). lia.
Qed.

Lemma pad_bytes m : Forall byte8 m -> Forall byte8 (pad m).
Proof.
  intros H. unfold pad. rewrite Forall_app. split; [done|]. constructor; [unfold byte8; lia|].
  rewrite Forall_app. split; [|apply be_bytes]. apply Forall_forall. intros x Hx.
  apply list_elem_of_In, repeat_spec in Hx as ->. unfold byte8. lia.
Qed.

Lemma blocks_spec bs h :
  Forall word32 h -> Forall (Forall byte8) bs ->
  fold_left hash256_block bs h = fold_left compress bs h.
Proof.
  intros Hh Hb. revert h Hh. induction Hb as [|b bs Hb _ IH]; intros h Hh; [done|].
  cbn. rewrite hash256_block_spec by done. apply IH, compress_words.
Qed.

Lemma initial_words : Forall word32 initial_message_digest.
Proof. unfold initial_message_digest, word32. repeat constructor; lia. Qed.

Lemma blocks_words bs :
  let h := fold_left compress bs initial_message_digest in Forall word32 h /\ length h = 8%nat.
Proof.
  cbn zeta. assert (forall h, Forall word32 h -> length h = 8%nat ->
    Forall word32 (fold_left compress bs h) /\ length (fold_left compress bs h) = 8%nat) as H.
  { induction bs as [|b bs IH]; intros h Hw Hl; [done|]. cbn.
    apply IH; [apply compress_words|by apply compress_length]. }
  apply H; [apply initial_words|done].
Qed.

Lemma word_bytes_be w : word32 w -> word_bytes w = be 4 w.
Proof.
  unfold word32. intros Hw. unfold word_bytes, to_byte, wrap_u. rewrite !be_snoc. cbn [be app map].
  rewrite !mask_8bit_mod. change (2 ^ 8) with 256. rewrite !Z.shiftr_div_pow2 by lia.
  rewrite !Z.mod_mod, !Z.div_div by lia. cbn [Z.mul Z.sub Z.add]. cbn -[Z.div Z.modulo].
  by rewrite Z.div_1_r.
Qed.

Lemma digest_bytes h :
  Forall word32 h -> length h = 8%nat -> take k_digest_size (concat (map word_bytes h)) = concat (map (be 4) h).
Proof.
  intros Hw Hl. assert (map word_bytes h = map (be 4) h) as ->.
  { apply map_ext_in. intros w Hin. apply word_bytes_be.
    rewrite Forall_forall in Hw. by apply Hw, list_elem_of_In. }
  apply firstn_all2. destruct h as [|? [|? [|? [|? [|? [|? [|? [|? [|]]]]]]]]]; try discriminate Hl.
  cbn [map concat]. rewrite !length_app, !be_length. unfold k_digest_size. cbn. lia.
Qed.

Lemma finish_digest m :
  Forall byte8 m -> Z.of_nat (length m) < 2 ^ 62 ->
  h_ (finish (process m init)) =
    fold_left compress (chunks (length (pad m) / 64) (pad m)) initial_message_digest.
Proof.
  intros Hm Hl. rewrite process_init by done. rewrite finish_blocks; [|rewrite absorbed_buffer; dlia|done].
  rewrite <- (blocks_spec (chunks _ (pad m))); [|apply initial_words|by apply chunks_bytes, pad_bytes].
  rewrite pad_blocks, fold_left_app. unfold absorbed. cbn [buffer_ data_length_digits_ h_].
  by rewrite data_bit_length_spec by lia.
Qed.

Lemma hash256_sha256 m :
  Forall byte8 m -> Z.of_nat (length m) < 2 ^ 61 -> hash256 m = sha256 m.
Proof.
  intros Hm Hl. unfold hash256, hash256_impl, get_hash_bytes, sha256.
  rewrite finish_digest by (done || lia). apply digest_bytes; apply blocks_words.
Qed.

(** ** Theorems *)

(** C36: The digest is SHA-256: on every message shorter than 2^61 bytes the
    whole-message function gives the function of FIPS 180-4, although the code
    computes on 64-bit words, pads in place and counts the length in 16-bit
    digits. *)
Theorem hash256_is_sha256 m :
  Forall byte8 m -> Z.of_nat (length m) < 2 ^ 61 -> hash256 m = sha256 m.
Proof. apply hash256_sha256. Qed.

(** Hashing in pieces is hashing at once: however a message shorter than
    2^62 bytes is cut, feeding the pieces in order leaves the hasher in the state
    that the whole message does. *)
Theorem process_pieces pieces :
  Z.of_nat (length (concat pieces)) < 2 ^ 62 ->
  fold_left (fun s d => process d s) pieces init = process (concat pieces) init.
Proof.
  assert (forall m, Z.of_nat (length (m ++ concat pieces)) < 2 ^ 62 ->
    fold_left (fun s d => process d s) pieces (absorbed m) = absorbed (m ++ concat pieces)) as H.
  { induction pieces as [|d pieces IH]; intros m Hl; cbn in *; [by rewrite app_nil_r|].
    rewrite app_assoc in Hl |- *. rewrite <- IH by done.
    rewrite process_absorbed; [done|]. rewrite length_app in Hl. lia. }
  intros Hl. rewrite process_init by done. apply (H []). done.
Qed.

Lemma process_input_absorbed fuel bs m data :
  (0 < bs)%nat -> (length data <= fuel)%nat -> Z.of_nat (length (m ++ data)) < 2 ^ 62 ->
  process_input fuel bs data (absorbed m) = Some (absorbed (m ++ data)).
Proof.
  revert m data. induction fuel as [|fuel IH]; intros m data Hbs Hf Hl.
  { destruct data; [cbn; by rewrite app_nil_r|cbn in Hf; lia]. }
  destruct data as [|x data]; [cbn; by rewrite app_nil_r|]. set (d := x :: data) in *.
  change (process_input (S fuel) bs d (absorbed m)) with
    (process_input fuel bs (drop bs d) (process (take bs d) (absorbed m))).
  rewrite length_app in Hl.
  rewrite process_absorbed by (rewrite length_app, length_take; lia).
  assert ((m ++ take bs d) ++ drop bs d = m ++ d) as Hc by (by rewrite <- app_assoc, take_drop).
  rewrite IH; [by rewrite Hc|done| |by rewrite Hc, length_app].
  rewrite length_drop. unfold d in *. cbn in *. lia.
Qed.

(** The version for input iterators, which copies pieces into a buffer,
    returns the digest of the version for random access whatever the positive
    size of the buffer; with an empty buffer it never ends on a message. *)
Theorem hash256_input_same fuel bs data n :
  Z.of_nat (length data) < 2 ^ 62 ->
  ((0 < bs)%nat -> (length data <= fuel)%nat ->
     hash256_impl_input fuel bs data n = Some (hash256_impl data n)) /\
  (data <> [] -> hash256_impl_input fuel 0 data n = None).
Proof.
  intros Hl. unfold hash256_impl_input, hash256_impl. split.
  - intros Hbs Hf. rewrite <- absorbed_nil, process_input_absorbed by done.
    cbn. by rewrite process_absorbed.
  - intros Hd. assert (forall s, process_input fuel 0 data s = None) as H; [|by rewrite H].
    induction fuel as [|fuel IH]; intros s; destruct data as [|x data]; try done.
    apply IH.
Qed.

(** Reading the output back. *)
Definition hex_val (a : ascii) : option Z :=
  let n := Z.of_nat (Ascii.nat_of_ascii a) in
  if (48 <=? n) && (n <=? 57) then Some (n - 48)
  else if (97 <=? n) && (n <=? 102) then Some (n - 87)
  else None.

Fixpoint parse_hex (s : string) : option (list Z) :=
  match s with
  | EmptyString => Some []
  | String a (String b s) =>
      match hex_val a, hex_val b, parse_hex s with
      | Some x, Some y, Some l => Some (16 * x + y :: l)
      | _, _, _ => None
      end
  | _ => None
  end.

Lemma hex_val_digit d : 0 <= d < 16 -> hex_val (hex_digit d) = Some d.
Proof.
  intros Hd. assert (In d (map Z.of_nat (seq 0 16))) as Hin.
  { rewrite in_map_iff. exists (Z.to_nat d). rewrite in_seq. lia. }
  clear Hd. cbn in Hin. repeat destruct Hin as [<-|Hin]; done.
Qed.

Lemma parse_output_hex bytes : Forall byte8 bytes -> parse_hex (output_hex bytes) = Some bytes.
Proof.
  unfold byte8. induction 1 as [|b bytes Hb _ IH]; [done|]. cbn [output_hex hex_byte String.append parse_hex].
  pose proof (Z.mod_pos_bound b 16 ltac:(lia)). pose proof (Z.div_mod b 16 ltac:(lia)).
  rewrite !hex_val_digit, IH by (lia || (split; [apply Z.div_pos; lia|apply Z.div_lt_upper_bound; lia])).
  do 2 f_equal. lia.
Qed.

Lemma output_hex_length bytes : String.length (output_hex bytes) = (2 * length bytes)%nat.
Proof. induction bytes as [|b bytes IH]; [done|]. cbn in *. lia. Qed.

Lemma bytes_of_bytes s : Forall byte8 (bytes_of s).
Proof.
  unfold bytes_of. rewrite Forall_map. apply Forall_true. intros a. unfold byte8.
  pose proof (Ascii.nat_ascii_bounded a). lia.
Qed.

Lemma bytes_of_length s : length (bytes_of s) = String.length s.
Proof. unfold bytes_of. rewrite length_map. induction s as [|a s IH]; cbn; auto. Qed.

Lemma sha256_form m : length (sha256 m) = 32%nat /\ Forall byte8 (sha256 m).
Proof.
  unfold sha256. destruct (blocks_words (chunks (length (pad m) / 64) (pad m))) as [_ Hl].
  revert Hl. generalize (fold_left compress (chunks (length (pad m) / 64) (pad m)) initial_message_digest).
  intros h Hl. split.
  - destruct h as [|? [|? [|? [|? [|? [|? [|? [|? [|]]]]]]]]]; try discriminate Hl. done.
  - clear Hl. induction h as [|w h IH]; [constructor|]. apply Forall_app. split; [apply be_bytes|done].
Qed.

(** The printed digest of a text is 64 hexadecimal digits from which the
    digest, that of FIPS 180-4, is read back. *)
Theorem hex_digest_reads_back src :
  Z.of_nat (String.length src) < 2 ^ 61 ->
  String.length (hash256_hex_string src) = 64%nat /\
  parse_hex (hash256_hex_string src) = Some (sha256 (bytes_of src)).
Proof.
  intros Hl. unfold hash256_hex_string.
  pose proof (bytes_of_bytes src) as Hb. rewrite <- bytes_of_length in Hl.
  rewrite hash256_sha256 by done.
  destruct (sha256_form (bytes_of src)) as [Hn Hd].
  rewrite output_hex_length, Hn. split; [done|]. by apply parse_output_hex.
Qed.

(** ** Witnesses *)

Lemma hash256_is_sha256_witness :
  length (bytes_of "abc") = 3%nat /\ hash256 (bytes_of "abc") = sha256 (bytes_of "abc").
Proof.
  split; [reflexivity|]. apply (hash256_is_sha256 (bytes_of "abc")); [apply bytes_of_bytes|reflexivity].
Defined.

Lemma process_pieces_witness :
  fold_left (fun s d => process d s) [[97]; [98; 99]] init = process [97; 98; 99] init.
Proof. apply (process_pieces [[97]; [98; 99]]). reflexivity. Defined.

Lemma hash256_input_same_witness :
  hash256_impl_input 3 2 [97; 98; 99] 32 = Some (hash256_impl [97; 98; 99] 32).
Proof. apply (hash256_input_same 3 2 [97; 98; 99] 32); [reflexivity|lia|cbn; lia]. Defined.

Lemma hex_digest_reads_back_witness :
  String.length (hash256_hex_string "abc") = 64%nat /\
  parse_hex (hash256_hex_string "abc") = Some (sha256 (bytes_of "abc")).
Proof. apply (hex_digest_reads_back "abc"). reflexivity. Defined.
