(* ===== verification/Base64.v ===== *)
(** * Base64: include/crow_all.h, crow::utility

    [base64encode], its URL-safe variant and [base64decode].  Bytes are [Z] from
    0 to 255, characters [ascii]; the size argument is the length of the list. *)

From Stdlib Require Import ZifyNat.
From S2P Require Import Prelude CInt.

(** ** Encoding *)

Definition std_key : list ascii :=
  String.list_ascii_of_string "ABCDEFGHIJKLMNOPQRSTUVWXYZabcdefghijklmnopqrstuvwxyz0123456789+/".
Definition url_key : list ascii :=
  String.list_ascii_of_string "ABCDEFGHIJKLMNOPQRSTUVWXYZabcdefghijklmnopqrstuvwxyz0123456789-_".

(** [key[i]]. *)
Definition key_at (key : list ascii) (i : Z) : ascii := nth (Z.to_nat i) key Ascii.zero.

(** The four indices: of the first byte, of the first two, of the last two, of
    the last. *)
Definition sextet1 (a : Z) : Z := Z.shiftr (Z.land a 252) 2.
Definition high2 (a : Z) : Z := wrap_u 8 (Z.shiftl (Z.land a 3) 4).
Definition sextet2 (a b : Z) : Z := Z.lor (high2 a) (Z.shiftr (Z.land b 240) 4).
Definition high4 (b : Z) : Z := wrap_u 8 (Z.shiftl (Z.land b 15) 2).
Definition sextet3 (b c : Z) : Z := Z.lor (high4 b) (Z.shiftr (Z.land c 192) 6).
Definition sextet4 (c : Z) : Z := Z.land c 63.

Definition pad_char : ascii := "="%char.

Fixpoint base64encode (key : list ascii) (data : list Z) : list ascii :=
  match data with
  | a :: b :: c :: data =>
      key_at key (sextet1 a) :: key_at key (sextet2 a b) :: key_at key (sextet3 b c) ::
      key_at key (sextet4 c) :: base64encode key data
  | [a] => [key_at key (sextet1 a); key_at key (high2 a); pad_char; pad_char]
  | [a; b] => [key_at key (sextet1 a); key_at key (sextet2 a b); key_at key (high4 b); pad_char]
  | [] => []
  end.

(** The size the result is given beforehand. *)
Definition encoded_size (size : nat) : nat := (size + 2) / 3 * 4.

Definition base64encode_urlsafe (data : list Z) : list ascii := base64encode url_key data.

(** ** Decoding *)

Definition char_in (lo hi : ascii) (c : ascii) : bool :=
  Nat.leb (Ascii.nat_of_ascii lo) (Ascii.nat_of_ascii c) &&
  Nat.leb (Ascii.nat_of_ascii c) (Ascii.nat_of_ascii hi).

Definition char_code (c : ascii) : Z := Z.of_nat (Ascii.nat_of_ascii c).

(** The lambda [key]. *)
Definition decode_key (c : ascii) : Z :=
  if char_in "A" "Z" c then char_code c - char_code "A"
  else if char_in "a" "z" c then char_code c - char_code "a" + 26
  else if char_in "0" "9" c then char_code c - char_code "0" + 52
  else if Ascii.eqb c "+" || Ascii.eqb c "-" then 62
  else if Ascii.eqb c "/" || Ascii.eqb c "_" then 63
  else 0.

(** The size of the result.  With fewer than two characters the index
    [size - 2] wraps around and the read is outside the data: [None]. *)
Definition decoded_size (data : list ascii) : option nat :=
  let size := length data in
  if Nat.eqb (size mod 4) 2 then Some (size / 4 * 3 + 1)%nat
  else if Nat.eqb (size mod 4) 3 then Some (size / 4 * 3 + 2)%nat
  else
    match size with
    | S (S n) =>
        Some (if Ascii.eqb (nth n data Ascii.zero) pad_char then size / 4 * 3 - 2
              else if Ascii.eqb (nth (S n) data Ascii.zero) pad_char then size / 4 * 3 - 1
              else size / 4 * 3)%nat
    | _ => None
    end.

(** The three bytes of four characters, as stored in a [char]. *)
Definition octet1 (odd even : Z) : Z := wrap_u 8 (Z.lor (Z.shiftl odd 2) (Z.shiftr (Z.land even 48) 4)).
Definition octet2 (even odd : Z) : Z :=
  wrap_u 8 (Z.lor (Z.shiftl (Z.land even 15) 4) (Z.shiftr (Z.land odd 60) 2)).
Definition octet3 (odd even : Z) : Z := wrap_u 8 (Z.lor (Z.shiftl (Z.land odd 3) 6) even).

(** [size] bytes from the characters; [None] is a read past their end. *)
Fixpoint decode_bytes (size : nat) (data : list ascii) : option (list Z) :=
  match size, data with
  | S (S (S size)), c1 :: c2 :: c3 :: c4 :: data =>
      option_map (fun l =>
        octet1 (decode_key c1) (decode_key c2) :: octet2 (decode_key c2) (decode_key c3) ::
        octet3 (decode_key c3) (decode_key c4) :: l) (decode_bytes size data)
  | 2%nat, c1 :: c2 :: c3 :: _ =>
      Some [octet1 (decode_key c1) (decode_key c2); octet2 (decode_key c2) (decode_key c3)]
  | 1%nat, c1 :: c2 :: _ => Some [octet1 (decode_key c1) (decode_key c2)]
  | O, _ => Some []
  | _, _ => None
  end.

Definition base64decode (data : list ascii) : option (list Z) :=
  match decoded_size data with
  | Some size => decode_bytes size data
  | None => None
  end.

Definition ascii_list : string -> list ascii := String.list_ascii_of_string.

Example encode_ab : base64encode std_key [97; 98] = ascii_list "YWI=".
Proof. reflexivity. Qed.
Example decode_ab : base64decode (ascii_list "YWI") = Some [97; 98].
Proof. reflexivity. Qed.

(** ** Lemmas *)

Definition byte8 (x : Z) : Prop := 0 <= x < 256.

(** Both alphabets are read back by the one decoding table. *)
Definition alphabet (key : list ascii) : Prop := key = std_key \/ key = url_key.

Definition all_bytes : list Z := map Z.of_nat (seq 0 256).

Lemma all_bytes_in x : byte8 x -> In x all_bytes.
Proof. intros H. apply in_map_iff. exists (Z.to_nat x). rewrite in_seq. unfold byte8 in H. lia. Qed.

Lemma check1 (P : Z -> bool) : forallb P all_bytes = true -> forall a, byte8 a -> P a = true.
Proof. intros H a Ha. by apply (forallb_In P all_bytes), all_bytes_in. Qed.

(** The values of a masked byte. *)
Lemma masked mask l x :
  forallb (fun x => existsb (Z.eqb (Z.land x mask)) l) all_bytes = true ->
  byte8 x -> In (Z.land x mask) l.
Proof.
  intros H Hx. apply (check1 _ H) in Hx. by apply existsb_exists in Hx as (y & Hy & ->%Z.eqb_eq).
Qed.

(** A check over a byte and the values of a masked one. *)
Lemma check2 (P : Z -> Z -> bool) mask l :
  forallb (fun x => existsb (Z.eqb (Z.land x mask)) l) all_bytes = true ->
  forallb (fun y => forallb (fun x => P x y) all_bytes) l = true ->
  forall a b, byte8 a -> byte8 b -> P a (Z.land b mask) = true.
Proof.
  intros Hm H a b Ha Hb. apply (check1 (fun a => P a (Z.land b mask))); [|done].
  by apply (forallb_In (fun y => forallb (fun x => P x y) all_bytes) l), masked.
Qed.

Definition low2 : list Z := [0; 1; 2; 3].
Definition high2s : list Z := [0; 64; 128; 192].
Definition low4 : list Z := map Z.of_nat (seq 0 16).
Definition high4s : list Z := map (Z.mul 16) low4.

Section Alphabet.
Context (key : list ascii) (Hkey : alphabet key).

#[local] Abbreviation code i := (decode_key (key_at key i)).

Lemma octet1_back a b : byte8 a -> byte8 b -> octet1 (code (sextet1 a)) (code (sextet2 a b)) = a.
Proof.
  intros Ha Hb.
  assert (sextet2 a b = sextet2 a (Z.land b 240)) as -> by (unfold sextet2; by rewrite <- Z.land_assoc).
  apply Z.eqb_eq.
  apply (check2 (fun a b => octet1 (code (sextet1 a)) (code (sextet2 a b)) =? a) 240 high4s); [by vm_compute| |done..].
  by destruct Hkey as [->| ->]; vm_compute.
Qed.

Lemma octet1_last a : byte8 a -> octet1 (code (sextet1 a)) (code (high2 a)) = a.
Proof.
  intros. apply Z.eqb_eq.
  apply (check1 (fun a => octet1 (code (sextet1 a)) (code (high2 a)) =? a)); [|done..].
  by destruct Hkey as [->| ->]; vm_compute.
Qed.

Lemma octet2_back a b c :
  byte8 a -> byte8 b -> byte8 c -> octet2 (code (sextet2 a b)) (code (sextet3 b c)) = b.
Proof.
  intros Ha Hb Hc.
  assert (sextet2 a b = sextet2 (Z.land a 3) b) as ->
    by (unfold sextet2, high2; by rewrite <- Z.land_assoc).
  assert (sextet3 b c = sextet3 b (Z.land c 192)) as -> by (unfold sextet3; by rewrite <- Z.land_assoc).
  apply Z.eqb_eq. revert c Hc. assert (In (Z.land a 3) low2) as Hx by (by apply masked).
  revert Hx. generalize (Z.land a 3). intros x Hx c Hc.
  apply (check2 (fun b y => octet2 (code (sextet2 x b)) (code (sextet3 b y)) =? b) 192 high2s); [by vm_compute| |done..].
  clear Ha Hb Hc. destruct Hkey as [->| ->]; repeat destruct Hx as [<-|Hx]; try (by destruct Hx); by vm_compute.
Qed.

Lemma octet2_last a b : byte8 a -> byte8 b -> octet2 (code (sextet2 a b)) (code (high4 b)) = b.
Proof.
  intros Ha Hb. assert (high4 b = sextet3 b 0) as -> by (unfold sextet3; cbn; by rewrite Z.lor_0_r).
  apply octet2_back; [done..|unfold byte8; lia].
Qed.

Lemma octet3_back b c : byte8 b -> byte8 c -> octet3 (code (sextet3 b c)) (code (sextet4 c)) = c.
Proof.
  intros Hb Hc.
  assert (sextet3 b c = sextet3 (Z.land b 15) c) as ->
    by (unfold sextet3, high4; by rewrite <- Z.land_assoc).
  apply Z.eqb_eq.
  apply (check2 (fun c b => octet3 (code (sextet3 b c)) (code (sextet4 c)) =? c) 15 low4); [by vm_compute| |done..].
  by destruct Hkey as [->| ->]; vm_compute.
Qed.

End Alphabet.

(** The characters without the padding. *)
Fixpoint significant (key : list ascii) (data : list Z) : list ascii :=
  match data with
  | a :: b :: c :: data =>
      key_at key (sextet1 a) :: key_at key (sextet2 a b) :: key_at key (sextet3 b c) ::
      key_at key (sextet4 c) :: significant key data
  | [a] => [key_at key (sextet1 a); key_at key (high2 a)]
  | [a; b] => [key_at key (sextet1 a); key_at key (sextet2 a b); key_at key (high4 b)]
  | [] => []
  end.

(** Induction by groups of three. *)
Lemma groups_ind (P : list Z -> Prop) :
  P [] -> (forall a, P [a]) -> (forall a b, P [a; b]) ->
  (forall a b c l, P l -> P (a :: b :: c :: l)) -> forall l, P l.
Proof.
  intros H0 H1 H2 H3 l. remember (length l) as n eqn:Hn. revert l Hn.
  induction (Nat.lt_wf_0 n) as [n _ IH]; intros [|a [|b [|c l]]] ->; auto.
  apply H3. apply (IH (length l)); [cbn; lia|done].
Qed.

Lemma encode_length key data : length (base64encode key data) = encoded_size (length data).
Proof.
  unfold encoded_size. remember (length data) as n eqn:Hn. revert data Hn.
  induction (Nat.lt_wf_0 n) as [n _ IH]; intros [|a [|b [|c data]]] ->; try done.
  cbn [base64encode length]. rewrite (IH (length data)) by (cbn; lia || done).
  replace (S (S (S (length data))) + 2)%nat with (1 * 3 + (length data + 2))%nat by lia.
  rewrite Nat.div_add_l by lia. lia.
Qed.

(** What was encoded is decoded, whatever follows the characters needed. *)
Lemma decode_bytes_significant key data rest :
  alphabet key -> Forall byte8 data ->
  decode_bytes (length data) (significant key data ++ rest) = Some data.
Proof.
  intros Hkey. induction data as [|a|a b|a b c l IH] using groups_ind; rewrite ?Forall_cons; cbn [length].
  - done.
  - intros [Ha _]. cbn. by rewrite octet1_last.
  - intros (Ha & Hb & _). cbn. by rewrite octet1_back, octet2_last.
  - intros (Ha & Hb & Hc & Hl). cbn [significant app decode_bytes]. rewrite IH by done. cbn.
    by rewrite octet1_back, octet2_back, octet3_back.
Qed.

Lemma encode_significant key data :
  base64encode key data = significant key data ++ repeat pad_char (length data * 2 mod 3).
Proof.
  induction data as [| | |a b c l IH] using groups_ind; try done.
  cbn [base64encode significant app length]. rewrite IH. do 6 f_equal.
  replace (S (S (S (length l))) * 2)%nat with (length l * 2 + 2 * 3)%nat by lia.
  by rewrite Nat.Div0.mod_add.
Qed.

Lemma key_not_pad key i : alphabet key -> Ascii.eqb (key_at key i) pad_char = false.
Proof.
  intros Hkey. unfold key_at.
  assert (forallb (fun c => negb (Ascii.eqb c pad_char)) key = true) as H by (by destruct Hkey as [->| ->]).
  destruct (nth_in_or_default (Z.to_nat i) key Ascii.zero) as [Hin| ->]; [|done].
  apply (forallb_In _ _ _ H) in Hin. by apply negb_true_iff.
Qed.

(** The last two characters decide the size. *)
Lemma last_two key data :
  alphabet key -> data <> [] ->
  exists l x y, base64encode key data = l ++ [x; y] /\
    Ascii.eqb x pad_char = Nat.eqb (length data mod 3) 1 /\
    Ascii.eqb y pad_char = negb (Nat.eqb (length data mod 3) 0).
Proof.
  intros Hkey. induction data as [|a|a b|a b c l IH] using groups_ind; intros Hne; [done|..].
  - eexists [_; _], _, _. split; [reflexivity|]. by rewrite Ascii.eqb_refl.
  - eexists [_; _], _, _. split; [reflexivity|]. by rewrite key_not_pad, Ascii.eqb_refl.
  - destruct l as [|d l].
    + eexists [_; _], _, _. split; [reflexivity|]. by rewrite !key_not_pad.
    + destruct IH as (l' & x & y & E & Hx & Hy); [done|].
      cbn [base64encode] in *. rewrite E. eexists (_ :: _ :: _ :: _ :: l'), x, y.
      split; [reflexivity|]. rewrite Hx, Hy. set (n := length (d :: l)).
      change (length (a :: b :: c :: d :: l)) with (3 + n)%nat.
      replace (3 + n)%nat with (n + 1 * 3)%nat by lia. by rewrite Nat.Div0.mod_add.
Qed.

Ltac dlia := zify; Z.to_euclidean_division_equations; lia.

Lemma decoded_size_padded key data :
  alphabet key -> data <> [] -> decoded_size (base64encode key data) = Some (length data).
Proof.
  intros Hkey Hne. unfold decoded_size. pose proof (encode_length key data) as Hl.
  unfold encoded_size in Hl. destruct (last_two key data Hkey Hne) as (l & x & y & E & Hx & Hy).
  rewrite E in *. rewrite Hl. rewrite length_app in Hl. cbn [length] in Hl.
  rewrite Nat.Div0.mod_mul. cbn [Nat.eqb]. set (n := length data) in *.
  assert (1 <= n)%nat by (unfold n; destruct data; [done|cbn; lia]).
  destruct ((n + 2) / 3 * 4)%nat as [|[|k]] eqn:Ek; [lia..|]. assert (k = length l) as -> by lia.
  rewrite !app_nth2, Nat.sub_diag by lia. replace (S (length l) - length l)%nat with 1%nat by lia.
  cbn [nth]. rewrite Hx, Hy. clear Hx Hy E x y. f_equal.
  destruct (Nat.eqb_spec (n mod 3) 1); [dlia|]. destruct (Nat.eqb_spec (n mod 3) 0); cbn [negb]; dlia.
Qed.

(** Characters needed for [n] bytes. *)
Definition needed (n : nat) : nat := (4 * n + 2) / 3.

Lemma needed_step n : needed (S (S (S n))) = (4 + needed n)%nat.
Proof. unfold needed. dlia. Qed.

Lemma significant_length key data : length (significant key data) = needed (length data).
Proof.
  induction data as [| | |a b c l IH] using groups_ind; try done.
  cbn [significant length]. by rewrite IH, needed_step.
Qed.

Lemma significant_no_pad key data :
  alphabet key -> Forall (fun c => Ascii.eqb c pad_char = false) (significant key data).
Proof.
  intros Hkey. induction data as [| | |a b c l IH] using groups_ind; cbn [significant];
    repeat constructor; by (apply key_not_pad || apply IH).
Qed.

Lemma decoded_size_plain key data :
  alphabet key -> data <> [] -> decoded_size (significant key data) = Some (length data).
Proof.
  intros Hkey Hne. unfold decoded_size. pose proof (significant_no_pad key data Hkey) as Hp.
  rewrite significant_length. set (n := length data).
  assert (1 <= n)%nat by (unfold n; destruct data; [done|cbn; lia]).
  assert (needed n = (4 * n + 2) / 3)%nat as Hm by done.
  destruct (Nat.eqb_spec (needed n mod 4) 2); [f_equal; dlia|].
  destruct (Nat.eqb_spec (needed n mod 4) 3); [f_equal; dlia|].
  assert (forall i, Ascii.eqb (nth i (significant key data) Ascii.zero) pad_char = false) as Hnth.
  { intros i. destruct (nth_in_or_default i (significant key data) Ascii.zero) as [Hin| ->]; [|done].
    rewrite Forall_forall in Hp. by apply Hp, list_elem_of_In. }
  destruct (needed n) as [|[|k]] eqn:Ek; [dlia..|]. rewrite !Hnth. f_equal. dlia.
Qed.

(** *** Decoding any text *)

Lemma decode_bytes_total size data :
  (needed size <= length data)%nat ->
  exists l, decode_bytes size data = Some l /\ length l = size /\ Forall byte8 l.
Proof.
  assert (forall x, byte8 (wrap_u 8 x)) as Hw.
  { intros x. unfold byte8, wrap_u. pose proof (Z.mod_pos_bound x (2 ^ 8)). lia. }
  revert data. induction (Nat.lt_wf_0 size) as [size _ IH]; intros data H.
  destruct size as [|[|[|size]]].
  - by exists [].
  - destruct data as [|c1 [|c2 data]]; [cbn in H; lia..|]. eexists. split; [reflexivity|].
    split; [done|]. constructor; [apply Hw|done].
  - destruct data as [|c1 [|c2 [|c3 data]]]; [cbn in H; lia..|]. eexists. split; [reflexivity|].
    split; [done|]. constructor; [apply Hw|]. constructor; [apply Hw|done].
  - rewrite needed_step in H. destruct data as [|c1 [|c2 [|c3 [|c4 data]]]]; [cbn in H; lia..|].
    cbn [length] in H. destruct (IH size ltac:(lia) data ltac:(lia)) as (l & E & Hl & Hb).
    cbn [decode_bytes]. rewrite E. eexists. split; [reflexivity|]. split; [cbn; lia|].
    repeat (constructor; [apply Hw|]). done.
Qed.

Lemma decoded_size_enough data :
  (2 <= length data)%nat -> exists size, decoded_size data = Some size /\ (needed size <= length data)%nat.
Proof.
  intros H. unfold decoded_size, needed. set (n := length data) in *.
  destruct (Nat.eqb_spec (n mod 4) 2); [eexists; split; [reflexivity|dlia]|].
  destruct (Nat.eqb_spec (n mod 4) 3); [eexists; split; [reflexivity|dlia]|].
  destruct n as [|[|k]]; [lia..|]. eexists. split; [reflexivity|].
  destruct (Ascii.eqb _ _); [|destruct (Ascii.eqb _ _)]; dlia.
Qed.

(** ** Theorems *)

(** C37: Decoding inverts encoding: with either alphabet, with the padding or
    without it, every non-empty sequence of bytes comes back; the encoder fills
    exactly the string it sized beforehand. *)
Theorem base64_roundtrip key data :
  alphabet key -> Forall byte8 data -> data <> [] ->
  base64decode (base64encode key data) = Some data /\
  base64decode (significant key data) = Some data /\
  length (base64encode key data) = encoded_size (length data).
Proof.
  intros Hkey Hb Hne. unfold base64decode.
  rewrite decoded_size_padded, decoded_size_plain by done. split_and!.
  - rewrite encode_significant. by apply decode_bytes_significant.
  - rewrite <- (app_nil_r (significant key data)). by apply decode_bytes_significant.
  - apply encode_length.
Qed.

(** The decoder is defined exactly on texts of two characters or more: there
    it returns the bytes it sized beforehand, reading only inside the text,
    whatever the characters are; on a shorter text it reads before the text. *)
Theorem base64decode_defined data :
  ((2 <= length data)%nat ->
     exists l, base64decode data = Some l /\ decoded_size data = Some (length l) /\ Forall byte8 l) /\
  ((length data < 2)%nat -> base64decode data = None).
Proof.
  unfold base64decode. split; intros H.
  - destruct (decoded_size_enough data H) as (size & -> & Hs).
    destruct (decode_bytes_total size data Hs) as (l & -> & <- & Hb). eauto.
  - by destruct data as [|c1 [|c2 data]]; [..|cbn in H; lia].
Qed.

(** ** Witnesses *)

Lemma base64_roundtrip_witness :
  base64decode (base64encode url_key [255; 254; 0; 7]) = Some [255; 254; 0; 7].
Proof.
  apply (base64_roundtrip url_key [255; 254; 0; 7]); [by right| |done].
  unfold byte8. repeat constructor; lia.
Defined.

Lemma base64decode_defined_witness :
  base64decode (ascii_list "=") = None /\
  exists l, base64decode (ascii_list "A=== ") = Some l /\
    decoded_size (ascii_list "A=== ") = Some (length l) /\ Forall byte8 l.
Proof.
  split.
  - apply (base64decode_defined (ascii_list "=")). cbn. lia.
  - apply (base64decode_defined (ascii_list "A=== ")). cbn. lia.
Defined.
