(* ===== verification/Sha1.v ===== *)
(** * SHA-1: include/crow_all.h, sha1::SHA1

    The hasher of the WebSocket handshake: bytes are stored one by one in a block
    of 64, a full block is compressed, and [getDigest] pads by feeding more
    bytes.  [Fips1] is the reference, the SHA-1 of FIPS 180-4; words, big-endian
    bytes, blocks and padding are those of [Sha256.Fips]. *)

From Stdlib Require Import ZifyNat.
From S2P Require Import Prelude CInt Sha256.
Import Fips.

(** ** The hasher *)

Definition LeftRotate (value count : Z) : Z :=
  Z.lxor (to_u32 (Z.shiftl value count)) (Z.shiftr value (32 - count)).

Record SHA1 := mkSHA1 {
  m_digest : list Z;
  m_block : list Z;
  m_blockByteIndex : nat;
  m_byteCount : Z
}.

Definition initial_digest : list Z := [0x67452301; 0xEFCDAB89; 0x98BADCFE; 0x10325476; 0xC3D2E1F0].

Definition reset (s : SHA1) : SHA1 := mkSHA1 initial_digest (m_block s) 0 0.

(** The constructor: the block is not initialised, [memory] is what it holds. *)
Definition SHA1_new (memory : list Z) : SHA1 := reset (mkSHA1 [] memory 0 0).

(** Copying takes every member. *)
Definition SHA1_assign (this s : SHA1) : SHA1 :=
  mkSHA1 (m_digest s) (m_block s) (m_blockByteIndex s) (m_byteCount s).

(** The word at [i * 4]; a byte shifted into the sign of an [int] is converted
    back to [uint32_t]. *)
Definition block_word (block : list Z) (i : nat) : Z :=
  Z.lor (Z.lor (Z.lor
    (to_u32 (Z.shiftl (at_ block (i * 4 + 0)) 24))
    (to_u32 (Z.shiftl (at_ block (i * 4 + 1)) 16)))
    (to_u32 (Z.shiftl (at_ block (i * 4 + 2)) 8)))
    (at_ block (i * 4 + 3)).

Definition sha1_w_step (w : list Z) (i : nat) : list Z :=
  <[i := LeftRotate (Z.lxor (Z.lxor (Z.lxor (at_ w (i - 3)) (at_ w (i - 8))) (at_ w (i - 14)))
                       (at_ w (i - 16))) 1]> w.

Definition sha1_schedule (block : list Z) : list Z :=
  let w := fold_left (fun w i => <[i := block_word block i]> w) (seq 0 16) (repeat 0 80) in
  fold_left sha1_w_step (seq 16 64) w.

(** The local variables [a] to [e]. *)
Record sha1_registers := SRegs { sa : Z; sb : Z; sc : Z; sd : Z; se : Z }.

Definition sha1_round (w : list Z) (r : sha1_registers) (i : nat) : sha1_registers :=
  let '(f, k) :=
    if Nat.ltb i 20 then
      (Z.lor (Z.land (sb r) (sc r)) (Z.land (to_u32 (Z.lnot (sb r))) (sd r)), 0x5A827999)
    else if Nat.ltb i 40 then (Z.lxor (Z.lxor (sb r) (sc r)) (sd r), 0x6ED9EBA1)
    else if Nat.ltb i 60 then
      (Z.lor (Z.lor (Z.land (sb r) (sc r)) (Z.land (sb r) (sd r))) (Z.land (sc r) (sd r)), 0x8F1BBCDC)
    else (Z.lxor (Z.lxor (sb r) (sc r)) (sd r), 0xCA62C1D6) in
  let temp := to_u32 (LeftRotate (sa r) 5 + f + se r + k + at_ w i) in
  SRegs temp (sa r) (LeftRotate (sb r) 30) (sc r) (sd r).

Definition sha1_registers_of (digest : list Z) : sha1_registers :=
  SRegs (at_ digest 0) (at_ digest 1) (at_ digest 2) (at_ digest 3) (at_ digest 4).

Definition sha1_registers_list (r : sha1_registers) : list Z := [sa r; sb r; sc r; sd r; se r].

(** The effect of [processBlock()] on [m_digest]. *)
Definition sha1_block (digest block : list Z) : list Z :=
  let r := fold_left (sha1_round (sha1_schedule block)) (seq 0 80) (sha1_registers_of digest) in
  zip_with (fun x y => to_u32 (x + y)) digest (sha1_registers_list r).

Definition processByte (s : SHA1) (octet : Z) : SHA1 :=
  let block := <[m_blockByteIndex s := octet]> (m_block s) in
  let index := S (m_blockByteIndex s) in
  let count := to_u64 (m_byteCount s + 1) in
  if Nat.eqb index 64
  then mkSHA1 (sha1_block (m_digest s) block) block 0 count
  else mkSHA1 (m_digest s) block index count.

Definition processBytes (data : list Z) (s : SHA1) : SHA1 := fold_left processByte data s.

(** [while (cond(m_blockByteIndex)) processByte(0);]. *)
Fixpoint feed_zeros (fuel : nat) (cond : nat -> bool) (s : SHA1) : SHA1 :=
  match fuel with
  | O => s
  | S fuel => if cond (m_blockByteIndex s) then feed_zeros fuel cond (processByte s 0) else s
  end.

(** [while (m_blockByteIndex < 56) processByte(0);]. *)
Definition zeros_to_56 : SHA1 -> SHA1 := feed_zeros 64 (fun i => Nat.ltb i 56).

(** [while (m_blockByteIndex != 0) processByte(0);]. *)
Definition zeros_to_0 : SHA1 -> SHA1 := feed_zeros 64 (fun i => negb (Nat.eqb i 0)).

(** The last eight bytes [getDigest] feeds. *)
Definition length_field (bitCount : Z) : list Z :=
  [0; 0; 0; 0; Z.land (Z.shiftr bitCount 24) 255; Z.land (Z.shiftr bitCount 16) 255;
   Z.land (Z.shiftr bitCount 8) 255; Z.land bitCount 255].

(** [getDigest]: the hasher after it; the digest is its [m_digest]. *)
Definition getDigest (s : SHA1) : SHA1 :=
  let bitCount := to_u64 (m_byteCount s * 8) in
  let s := processByte s 128 in
  let s := if Nat.ltb 56 (m_blockByteIndex s) then zeros_to_56 (zeros_to_0 s) else zeros_to_56 s in
  processBytes (length_field bitCount) s.

Definition digest_word_bytes (d : Z) : list Z :=
  [Z.land (Z.shiftr d 24) 255; Z.land (Z.shiftr d 16) 255; Z.land (Z.shiftr d 8) 255; Z.land d 255].

Definition getDigestBytes (s : SHA1) : list Z :=
  concat (map digest_word_bytes (m_digest (getDigest s))).

Example sha1_abc :
  output_hex (getDigestBytes (processBytes (bytes_of "abc") (SHA1_new (repeat 7 64)))) =
  "a9993e364706816aba3e25717850c26c9cd0d89d".
Proof. vm_compute. reflexivity. Qed.

(** ** The reference *)

Module Fips1.

Definition ROTL (n x : Z) : Z := w32 (x * 2 ^ n + x / 2 ^ (32 - n)).
Definition Parity (x y z : Z) : Z := Z.lxor (Z.lxor x y) z.

Definition f_t (t : nat) : Z -> Z -> Z -> Z :=
  if Nat.ltb t 20 then Ch else if Nat.ltb t 40 then Parity
  else if Nat.ltb t 60 then Maj else Parity.

Definition K_t (t : nat) : Z :=
  if Nat.ltb t 20 then 0x5a827999 else if Nat.ltb t 40 then 0x6ed9eba1
  else if Nat.ltb t 60 then 0x8f1bbcdc else 0xca62c1d6.

Definition next_word1 (w : list Z) : Z :=
  let t := length w in
  ROTL 1 (Z.lxor (Z.lxor (Z.lxor (at_ w (t - 3)) (at_ w (t - 8))) (at_ w (t - 14))) (at_ w (t - 16))).

Fixpoint schedule1 (k : nat) (w : list Z) : list Z :=
  match k with O => w | S k => schedule1 k (w ++ [next_word1 w]) end.

Definition round1 (w : list Z) (r : sha1_registers) (t : nat) : sha1_registers :=
  SRegs (w32 (ROTL 5 (sa r) + f_t t (sb r) (sc r) (sd r) + se r + K_t t + at_ w t))
    (sa r) (ROTL 30 (sb r)) (sc r) (sd r).

Definition compress1 (h block : list Z) : list Z :=
  let w := schedule1 64 (map (word_at block) (seq 0 16)) in
  let r := fold_left (round1 w) (seq 0 80) (sha1_registers_of h) in
  zip_with (fun x y => w32 (x + y)) h (sha1_registers_list r).

(** The digest of a padded message, and the hash. *)
Definition digest1 (padded : list Z) : list Z :=
  concat (map (be 4) (fold_left compress1 (chunks (length padded / 64) padded) initial_digest)).

Definition sha1 (m : list Z) : list Z := digest1 (pad m).

(** Padding with a given length field. *)
Definition pad_with (bits : Z) (m : list Z) : list Z :=
  m ++ 128 :: repeat 0 (Z.to_nat ((55 - Z.of_nat (length m)) mod 64)) ++ be 8 bits.

End Fips1.
Import Fips1.

(** ** Lemmas: one block *)

Lemma to_u32_w32 x : to_u32 x = w32 x.
Proof. done. Qed.

Lemma LeftRotate_ROTL x n : word32 x -> 0 < n < 32 -> LeftRotate x n = ROTL n x.
Proof.
  unfold word32. intros Hx Hn. unfold LeftRotate, ROTL. rewrite to_u32_w32.
  rewrite Z.shiftl_mul_pow2, Z.shiftr_div_pow2 by lia.
  assert (2 ^ 32 = 2 ^ (32 - n) * 2 ^ n) as Hp by (rewrite <- Z.pow_add_r by lia; f_equal; lia).
  assert (0 < 2 ^ n) by lia. assert (0 < 2 ^ (32 - n)) by lia.
  set (p := 2 ^ (32 - n)) in *. set (q := 2 ^ n) in *.
  assert (0 <= x / p < q) as Hd.
  { split; [apply Z.div_pos; lia|]. apply Z.div_lt_upper_bound; lia. }
  assert (w32 (x * q) = x mod p * q) as E by (unfold w32; rewrite Hp; apply Z.mul_mod_distr_r; lia).
  assert (Z.lxor (x / p) (x mod p * q) = x / p + x mod p * q) as Hx' by (apply lxor_disjoint; [lia|exact Hd]).
  rewrite <- w32_add_l, E, Z.lxor_comm, Hx'.
  unfold w32. rewrite (Z.mod_small (x mod p * q + x / p)); [lia|].
  pose proof (Z.mod_pos_bound x p ltac:(lia)).
  assert (x mod p * q <= (p - 1) * q) by (apply Z.mul_le_mono_nonneg_r; lia). lia.
Qed.

Lemma ROTL_word n x : word32 (ROTL n x).
Proof. apply w32_range. Qed.

Lemma not_word x : word32 x -> to_u32 (Z.lnot x) = 2 ^ 32 - 1 - x.
Proof.
  unfold word32. intros Hx. unfold to_u32, wrap_u, Z.lnot. symmetry.
  apply Zmod_unique with (q := -1); lia.
Qed.

Lemma choose_Ch x y z :
  word32 x -> Z.lor (Z.land x y) (Z.land (to_u32 (Z.lnot x)) z) = Ch x y z.
Proof.
  intros Hx. unfold Ch. rewrite <- (not_word x Hx). symmetry. apply Z.lxor_lor.
  unfold to_u32, wrap_u. rewrite <- Z.land_ones by lia.
  apply Z.bits_inj'. intros n Hn. rewrite !Z.land_spec, Z.lnot_spec, Z.bits_0 by done.
  by destruct (Z.testbit x n), (Z.testbit y n).
Qed.

Lemma majority_Maj x y z : Z.lor (Z.lor (Z.land x y) (Z.land x z)) (Z.land y z) = Maj x y z.
Proof.
  unfold Maj. apply Z.bits_inj'. intros n Hn. rewrite !Z.lor_spec, !Z.lxor_spec, !Z.land_spec.
  by destruct (Z.testbit x n), (Z.testbit y n), (Z.testbit z n).
Qed.

Lemma block_word_spec block i : Forall byte8 block -> block_word block i = word_at block i.
Proof.
  intros Hb. destruct (load_word_spec block i Hb) as [<- _]. unfold block_word, load_word.
  assert (forall j, mask_8bit (at_ block j) = at_ block j) as Hm.
  { intros j. pose proof (at_byte block j Hb) as H. unfold byte8 in H.
    by rewrite mask_8bit_mod, Z.mod_small. }
  rewrite !Hm, Nat.add_0_r. rewrite !Z.shiftl_mul_pow2 by lia.
  assert (forall j k, 0 <= k <= 24 -> to_u32 (at_ block j * 2 ^ k) = at_ block j * 2 ^ k) as Hu.
  { intros j k Hk. pose proof (at_byte block j Hb) as H. unfold byte8 in H. unfold to_u32, wrap_u.
    apply Z.mod_small. assert (0 < 2 ^ k <= 2 ^ 24) by (split; [lia|apply Z.pow_le_mono_r; lia]). nia. }
  by rewrite !Hu by lia.
Qed.

Lemma lxor_word x y : word32 x -> word32 y -> word32 (Z.lxor x y).
Proof.
  unfold word32. intros Hx Hy.
  assert (forall a, 0 <= a < 2 ^ 32 -> a = Z.land a (Z.ones 32)) as H.
  { intros a Ha. rewrite Z.land_ones, Z.mod_small by lia. done. }
  rewrite (H x Hx), (H y Hy).
  assert (Z.lxor (Z.land x (Z.ones 32)) (Z.land y (Z.ones 32)) = Z.land (Z.lxor x y) (Z.ones 32)) as ->.
  { apply Z.bits_inj'. intros n Hn. rewrite !Z.lxor_spec, !Z.land_spec, !Z.lxor_spec.
    by destruct (Z.testbit x n), (Z.testbit y n), (Z.testbit (Z.ones 32) n). }
  rewrite Z.land_ones by lia. pose proof (Z.mod_pos_bound (Z.lxor x y) (2 ^ 32)). lia.
Qed.

Lemma schedule1_grows k l :
  (16 <= length l)%nat -> Forall word32 l ->
  fold_left sha1_w_step (seq (length l) k) (l ++ repeat 0 k) = schedule1 k l.
Proof.
  revert l. induction k as [|k IH]; intros l Hl Hw; cbn [seq fold_left schedule1 repeat].
  { apply app_nil_r. }
  assert (sha1_w_step (l ++ 0 :: repeat 0 k) (length l) = (l ++ [next_word1 l]) ++ repeat 0 k) as ->.
  { unfold sha1_w_step. rewrite <- (Nat.add_0_r (length l)) at 1. rewrite insert_app_r. cbn.
    rewrite <- app_assoc. cbn. do 2 f_equal.
    assert (forall n, (n < length l)%nat -> at_ (l ++ 0 :: repeat 0 k) n = at_ l n) as Hat.
    { intros. unfold at_. by rewrite app_nth1. }
    rewrite !Hat by lia. unfold next_word1. apply LeftRotate_ROTL; [|lia].
    repeat apply lxor_word; by apply at_word. }
  rewrite <- IH.
  - rewrite length_app. cbn. by rewrite Nat.add_1_r.
  - rewrite length_app. lia.
  - rewrite Forall_app. split; [done|]. constructor; [apply ROTL_word|done].
Qed.

Definition word_sregs (r : sha1_registers) : Prop := Forall word32 (sha1_registers_list r).

Lemma sha1_round_spec w r i : word_sregs r -> sha1_round w r i = round1 w r i.
Proof.
  unfold word_sregs, sha1_registers_list. rewrite !Forall_cons. intros (Ha & Hb & _).
  unfold sha1_round, round1, f_t, K_t.
  destruct (Nat.ltb i 20); [|destruct (Nat.ltb i 40); [|destruct (Nat.ltb i 60)]];
    rewrite ?choose_Ch, ?majority_Maj, !LeftRotate_ROTL, to_u32_w32 by (done || lia); done.
Qed.

Lemma round1_words w r i : word_sregs r -> word_sregs (round1 w r i).
Proof.
  unfold word_sregs, sha1_registers_list. rewrite !Forall_cons. intros (? & ? & ? & ? & ? & _).
  cbn. split_and!; first [done | apply w32_range | constructor].
Qed.

Lemma sha1_rounds_spec w l r :
  word_sregs r -> fold_left (sha1_round w) l r = fold_left (round1 w) l r.
Proof.
  revert r. induction l as [|i l IH]; intros r Hr; [done|].
  cbn. rewrite sha1_round_spec by done. by apply IH, round1_words.
Qed.

Lemma sha1_schedule_start block :
  fold_left (fun w i => <[i := block_word block i]> w) (seq 0 16) (repeat 0 80) =
  map (block_word block) (seq 0 16) ++ repeat 0 64.
Proof. reflexivity. Qed.

Lemma sha1_block_spec h block :
  Forall word32 h -> Forall byte8 block -> sha1_block h block = compress1 h block.
Proof.
  intros Hh Hb. unfold sha1_block, compress1.
  assert (map (block_word block) (seq 0 16) = map (word_at block) (seq 0 16)) as Hm.
  { apply map_ext. intros. by apply block_word_spec. }
  assert (Forall word32 (map (word_at block) (seq 0 16))) as Hw.
  { rewrite Forall_map. apply Forall_true. intros. by apply load_word_spec. }
  assert (sha1_schedule block = schedule1 64 (map (word_at block) (seq 0 16))) as ->.
  { unfold sha1_schedule. rewrite sha1_schedule_start, Hm.
    rewrite <- schedule1_grows; [by rewrite length_map|by rewrite length_map|done]. }
  rewrite sha1_rounds_spec; [done|]. unfold word_sregs. repeat constructor; cbn; by apply at_word.
Qed.

Lemma compress1_words h block : Forall word32 (compress1 h block).
Proof. apply zip_words. Qed.

Lemma compress1_length h block : length h = 5%nat -> length (compress1 h block) = 5%nat.
Proof. intros H. unfold compress1. by rewrite length_zip_with, H. Qed.

(** ** Lemmas: bytes in order *)

(** The hasher has taken the bytes of [m]. *)
Record taken (m : list Z) (s : SHA1) : Prop := {
  taken_digest : m_digest s = fold_left sha1_block (chunks (length m / 64) m) initial_digest;
  taken_index : m_blockByteIndex s = (length m mod 64)%nat;
  taken_count : m_byteCount s = to_u64 (Z.of_nat (length m));
  taken_length : length (m_block s) = 64%nat;
  taken_block : take (length m mod 64) (m_block s) = drop (64 * (length m / 64)) m
}.

Lemma taken_new memory : length memory = 64%nat -> taken [] (SHA1_new memory).
Proof. intros H. by constructor. Qed.

Lemma take_insert_snoc (l : list Z) i x :
  (i < length l)%nat -> take (S i) (<[i := x]> l) = take i l ++ [x].
Proof.
  revert i. induction l as [|y l IH]; intros [|i] H; cbn in *; try lia; [done|].
  f_equal. apply IH. lia.
Qed.

Lemma to_u64_succ n : to_u64 (to_u64 n + 1) = to_u64 (n + 1).
Proof. unfold to_u64, wrap_u. by rewrite Zplus_mod_idemp_l. Qed.

Lemma taken_processByte m s b : taken m s -> taken (m ++ [b]) (processByte s b).
Proof.
  intros [Hd Hi Hc Hl Hb]. set (n := length m) in *.
  assert (length (m ++ [b]) = S n) as Hn by (rewrite length_app; cbn; lia).
  assert (n mod 64 < 64)%nat as Hlt by dlia.
  assert (take (S (n mod 64)) (<[(n mod 64)%nat := b]> (m_block s)) = drop (64 * (n / 64)) m ++ [b]) as Ht.
  { rewrite take_insert_snoc by lia. by rewrite Hb. }
  assert (to_u64 (m_byteCount s + 1) = to_u64 (Z.of_nat (S n))) as Hc'.
  { rewrite Hc, to_u64_succ. f_equal. lia. }
  assert (64 * (n / 64) <= length m)%nat as Hq by (fold n; dlia).
  unfold processByte. rewrite Hi, Hc'. destruct (Nat.eqb_spec (S (n mod 64)) 64) as [E|E].
  - assert (S n / 64 = n / 64 + 1)%nat as Hdiv by dlia. assert (S n mod 64 = 0)%nat as Hmod by dlia.
    constructor; cbn [m_digest m_block m_blockByteIndex m_byteCount]; rewrite ?Hn, ?Hdiv, ?Hmod; try done.
    + rewrite chunks_add, chunks_prefix, fold_left_app by lia. cbn [chunks fold_left].
      rewrite Hd, drop_app_le by done. f_equal. rewrite <- Ht, E.
      rewrite take_take. symmetry. apply firstn_all2. rewrite length_insert. lia.
    + by rewrite length_insert.
    + rewrite take_0, drop_ge; [done|]. rewrite Hn. dlia.
  - assert (S n / 64 = n / 64)%nat as Hdiv by dlia.
    assert (S n mod 64 = S (n mod 64))%nat as Hmod by dlia.
    constructor; cbn [m_digest m_block m_blockByteIndex m_byteCount]; rewrite ?Hn, ?Hdiv, ?Hmod; try done.
    + by rewrite chunks_prefix.
    + by rewrite length_insert.
    + by rewrite drop_app_le.
Qed.

Lemma taken_processBytes d m s : taken m s -> taken (m ++ d) (processBytes d s).
Proof.
  revert m s. induction d as [|b d IH]; intros m s H; cbn; [by rewrite app_nil_r|].
  rewrite (cons_middle b), app_assoc. by apply IH, taken_processByte.
Qed.

(** ** Lemmas: padding *)

Lemma index_processByte s b :
  (S (m_blockByteIndex s) < 64)%nat -> m_blockByteIndex (processByte s b) = S (m_blockByteIndex s).
Proof. intros H. unfold processByte. by rewrite (proj2 (Nat.eqb_neq _ 64)) by lia. Qed.

Lemma index_wraps s b : m_blockByteIndex s = 63%nat -> m_blockByteIndex (processByte s b) = 0%nat.
Proof. intros H. unfold processByte. by rewrite H. Qed.

Lemma feed_to_56 k fuel s :
  (m_blockByteIndex s + k = 56)%nat -> (k <= fuel)%nat ->
  feed_zeros fuel (fun i => Nat.ltb i 56) s = processBytes (repeat 0 k) s.
Proof.
  revert fuel s. induction k as [|k IH]; intros [|fuel] s Hi Hf; try done; cbn [feed_zeros].
  - by rewrite (proj2 (Nat.ltb_ge _ 56)) by lia.
  - lia.
  - rewrite (proj2 (Nat.ltb_lt _ 56)) by lia. cbn [repeat processBytes fold_left].
    apply IH; [|lia]. rewrite index_processByte; lia.
Qed.

Lemma feed_to_0 k fuel s :
  (m_blockByteIndex s + S k = 64)%nat -> (m_blockByteIndex s <> 0)%nat -> (S k <= fuel)%nat ->
  feed_zeros fuel (fun i => negb (Nat.eqb i 0)) s = processBytes (repeat 0 (S k)) s.
Proof.
  revert fuel s. induction k as [|k IH]; intros [|fuel] s Hi H0 Hf; try lia; cbn [feed_zeros].
  - rewrite (proj2 (Nat.eqb_neq _ 0)) by done. cbn.
    destruct fuel; cbn [feed_zeros]; [done|]. by rewrite index_wraps by lia.
  - rewrite (proj2 (Nat.eqb_neq _ 0)) by done. cbn [negb].
    apply IH; [| |lia]; rewrite index_processByte; lia.
Qed.

Lemma processBytes_app d1 d2 s : processBytes (d1 ++ d2) s = processBytes d2 (processBytes d1 s).
Proof. apply fold_left_app. Qed.

Lemma getDigest_feeds m s :
  taken m s ->
  getDigest s =
    processBytes (128 :: repeat 0 (Z.to_nat ((55 - Z.of_nat (length m)) mod 64)) ++
                  length_field (to_u64 (m_byteCount s * 8))) s.
Proof.
  intros H. pose proof (taken_processByte m s 128 H) as H1.
  pose proof (taken_index _ _ H1) as Hi. rewrite length_app in Hi. cbn [length] in Hi.
  unfold getDigest. cbv zeta.
  set (n := length m) in *. set (z := Z.to_nat _).
  change (processBytes (128 :: ?l) s) with (processBytes l (processByte s 128)).
  rewrite processBytes_app. set (s1 := processByte s 128) in *. f_equal.
  destruct (Nat.ltb_spec 56 (m_blockByteIndex s1)) as [Hc|Hc].
  - unfold zeros_to_0. rewrite (feed_to_0 (63 - m_blockByteIndex s1)) by lia.
    replace (S (63 - m_blockByteIndex s1)) with (64 - m_blockByteIndex s1)%nat by lia.
    pose proof (taken_processBytes (repeat 0 (64 - m_blockByteIndex s1)) _ _ H1) as H2.
    pose proof (taken_index _ _ H2) as Hi2. rewrite !length_app, repeat_length in Hi2.
    cbn [length] in Hi2. fold n in Hi2.
    unfold zeros_to_56. rewrite (feed_to_56 56); [|dlia|lia].
    rewrite <- processBytes_app, <- repeat_app. do 2 f_equal. unfold z. dlia.
  - unfold zeros_to_56. rewrite (feed_to_56 (56 - m_blockByteIndex s1)) by lia.
    do 2 f_equal. unfold z. dlia.
Qed.

Lemma land_byte x : Z.land x 255 = x mod 256.
Proof. change 255 with (Z.ones 8). by rewrite Z.land_ones. Qed.

(** Only 32 bits of the length are written. *)
Lemma length_field_be bc : length_field bc = be 8 (bc mod 2 ^ 32).
Proof.
  set (v := bc mod 2 ^ 32). assert (0 <= v < 2 ^ 32) as Hv by (apply Z.mod_pos_bound; lia).
  assert (forall k, In k [0; 8; 16; 24] -> Z.land (Z.shiftr bc k) 255 = v / 2 ^ k mod 256) as Hb.
  { intros k Hk. rewrite <- land_byte, <- Z.shiftr_div_pow2; [|cbn in Hk; lia].
    unfold v. rewrite <- Z.land_ones, Z.shiftr_land, <- Z.land_assoc by lia. f_equal.
    cbn in Hk. repeat destruct Hk as [<-|Hk]; done. }
  pose proof (Hb 0 ltac:(cbn; tauto)) as H0. rewrite Z.shiftr_0_r in H0.
  unfold length_field. rewrite H0, !Hb by (cbn; tauto).
  rewrite !be_snoc. cbn [be app]. rewrite !Z.div_div by lia.
  rewrite Z.div_1_r. repeat f_equal; symmetry; rewrite Z.div_small by lia; done.
Qed.

Lemma digest_word_be d : digest_word_bytes d = be 4 d.
Proof.
  unfold digest_word_bytes. rewrite !land_byte, !Z.shiftr_div_pow2 by lia.
  rewrite !be_snoc. cbn [be app]. by rewrite !Z.div_div by lia.
Qed.

Lemma sha1_blocks_spec bs h :
  Forall word32 h -> Forall (Forall byte8) bs -> fold_left sha1_block bs h = fold_left compress1 bs h.
Proof.
  intros Hh Hb. revert h Hh. induction Hb as [|b bs Hb _ IH]; intros h Hh; [done|].
  cbn. rewrite sha1_block_spec by done. apply IH, compress1_words.
Qed.

Lemma initial_digest_words : Forall word32 initial_digest.
Proof. unfold initial_digest, word32. repeat constructor; lia. Qed.

Lemma pad_with_pad m : pad_with (8 * Z.of_nat (length m)) m = pad m.
Proof. done. Qed.

Lemma be_mod n z : be n (z mod 2 ^ (8 * Z.of_nat n)) = be n z.
Proof.
  revert z. induction n as [|n IH]; intros z; [done|].
  rewrite !be_snoc. replace (8 * Z.of_nat (S n)) with (8 + 8 * Z.of_nat n) by lia.
  rewrite Z.pow_add_r by lia. change (2 ^ 8) with 256.
  assert (0 < 2 ^ (8 * Z.of_nat n)) by lia. f_equal.
  - rewrite <- (IH (z / 256)). f_equal. rewrite Z.rem_mul_r by lia.
    rewrite Z.add_comm, Z.mul_comm, Z.div_add_l by lia.
    rewrite (Z.div_small (z mod 256)) by (apply Z.mod_pos_bound; lia). lia.
  - f_equal. rewrite Z.mod_mod_divide; [done|]. by exists (2 ^ (8 * Z.of_nat n)); lia.
Qed.

Lemma be_inj n a b : 0 <= a < 256 ^ Z.of_nat n -> 0 <= b < 256 ^ Z.of_nat n -> be n a = be n b -> a = b.
Proof.
  revert a b. induction n as [|n IH]; intros a b Ha Hb E; [cbn in Ha, Hb; lia|].
  rewrite !be_snoc in E. apply app_inj_tail in E as [E Er].
  replace (Z.of_nat (S n)) with (1 + Z.of_nat n) in Ha, Hb by lia.
  rewrite Z.pow_add_r, Z.pow_1_r in Ha, Hb by lia.
  assert (a / 256 = b / 256) as Eq.
  { apply IH; [..|done]; (split; [apply Z.div_pos; lia|apply Z.div_lt_upper_bound; lia]). }
  pose proof (Z.div_mod a 256 ltac:(lia)). pose proof (Z.div_mod b 256 ltac:(lia)). lia.
Qed.

(** The digest of what was fed. *)
Lemma sha1_padded m memory :
  length memory = 64%nat -> Forall byte8 m -> Z.of_nat (length m) < 2 ^ 61 ->
  getDigestBytes (processBytes m (SHA1_new memory)) =
    digest1 (pad_with ((8 * Z.of_nat (length m)) mod 2 ^ 32) m).
Proof.
  intros Hmem Hm Hl. pose proof (taken_processBytes m [] _ (taken_new memory Hmem)) as H.
  cbn [app] in H. set (s := processBytes m (SHA1_new memory)) in *.
  unfold getDigestBytes. rewrite (getDigest_feeds m s H).
  rewrite (taken_count _ _ H), (to_u64_id (Z.of_nat (length m))) by (unfold ULLONG_MAX; lia).
  rewrite to_u64_id by (unfold ULLONG_MAX; lia). rewrite length_field_be, (Z.mul_comm _ 8).
  match goal with |- context [processBytes ?tail s] => pose proof (taken_processBytes tail m s H) as Ht end.
  fold (pad_with ((8 * Z.of_nat (length m)) mod 2 ^ 32) m) in Ht.
  rewrite (taken_digest _ _ Ht). unfold digest1. f_equal.
  rewrite sha1_blocks_spec; [|apply initial_digest_words|].
  - apply map_ext. intros. apply digest_word_be.
  - apply chunks_bytes. unfold pad_with. rewrite Forall_app. split; [done|].
    constructor; [unfold byte8; lia|]. rewrite Forall_app. split; [|apply be_bytes].
    apply Forall_forall. intros x Hx. apply list_elem_of_In, repeat_spec in Hx as ->. unfold byte8. lia.
Qed.

(** ** Theorems *)

(** The digest is SHA-1 below 2^29 bytes, whatever the uninitialised block
    held: the hasher fed byte by byte and padded by feeding returns the function
    of FIPS 180-4. *)
Theorem sha1_is_sha1 m memory :
  length memory = 64%nat -> Forall byte8 m -> Z.of_nat (length m) < 2 ^ 29 ->
  getDigestBytes (processBytes m (SHA1_new memory)) = sha1 m.
Proof.
  intros Hmem Hm Hl. rewrite sha1_padded by (done || lia). unfold sha1.
  by rewrite <- pad_with_pad, Z.mod_small by lia.
Qed.

(** From 2^29 bytes on it is not: the length field holds the number of bits
    modulo 2^32, so that what is hashed is the padded message of FIPS 180-4
    exactly when the message is shorter than 2^29 bytes. *)
Theorem sha1_length_truncated m memory :
  length memory = 64%nat -> Forall byte8 m -> Z.of_nat (length m) < 2 ^ 61 ->
  exists padded,
    getDigestBytes (processBytes m (SHA1_new memory)) = digest1 padded /\
    (padded = pad m <-> Z.of_nat (length m) < 2 ^ 29).
Proof.
  intros Hmem Hm Hl. eexists. split; [by apply sha1_padded|].
  rewrite <- pad_with_pad. split.
  - intros E. unfold pad_with in E. apply app_inv_head in E.
    apply (f_equal (@tl Z)) in E. cbn [tl] in E. apply app_inv_head in E.
    apply be_inj in E.
    + pose proof (Z.mod_pos_bound (8 * Z.of_nat (length m)) (2 ^ 32)). lia.
    + pose proof (Z.mod_pos_bound (8 * Z.of_nat (length m)) (2 ^ 32)).
      change (256 ^ Z.of_nat 8) with (2 ^ 64). lia.
    + change (256 ^ Z.of_nat 8) with (2 ^ 64). lia.
  - intros H. by rewrite Z.mod_small by lia.
Qed.

(** ** Witnesses *)

Lemma sha1_is_sha1_witness :
  getDigestBytes (processBytes [97; 98; 99] (SHA1_new (repeat 0 64))) = sha1 [97; 98; 99].
Proof.
  apply (sha1_is_sha1 [97; 98; 99] (repeat 0 64)); [reflexivity| |reflexivity].
  unfold byte8. repeat constructor; lia.
Defined.

Lemma sha1_length_truncated_witness :
  exists padded,
    getDigestBytes (processBytes [97] (SHA1_new (repeat 0 64))) = digest1 padded /\
    (padded = pad [97] <-> Z.of_nat (length [97]) < 2 ^ 29).
Proof.
  apply (sha1_length_truncated [97] (repeat 0 64)); [reflexivity| |reflexivity].
  unfold byte8. repeat constructor; lia.
Defined.
