(* ===== verification/Filename.v ===== *)
(** * File names: include/crow_all.h, crow::utility::sanitize_filename

    The function that makes the name of an uploaded file safe: it cuts the name
    at 255 bytes, replaces control and reserved characters, neutralises names of
    devices and parent directories at the start of each component, and forbids
    an absolute path.  A [std::string] is a list of bytes ([ascii]) here. *)

From S2P Require Import Prelude.

Definition code (c : ascii) : nat := Ascii.nat_of_ascii c.

(** ** The lambdas *)

Definition toUpper (c : ascii) : ascii :=
  if Nat.leb 97 (code c) && Nat.leb (code c) 122 then chr (code c - 32) else c.

(** Walk along the pattern: what follows it in [source]. *)
Fixpoint match_pattern (pattern : string) (source : list ascii) : option (list ascii) :=
  match pattern, source with
  | EmptyString, _ => Some source
  | String p pattern, c :: source =>
      if Ascii.eqb (toUpper c) p then match_pattern pattern source else None
  | _, [] => None
  end.

(** One digit from 1 to 9. *)
Definition match_number (source : list ascii) : option (list ascii) :=
  match source with
  | c :: source => if Nat.ltb (code c) 49 || Nat.ltb 57 (code c) then None else Some source
  | [] => None
  end.

Definition dangerous (c : ascii) : bool :=
  Ascii.eqb c "." || Ascii.eqb c ":" || Ascii.eqb c "/" || Ascii.eqb c (chr 92).

(** What follows a special name at the start of [source], when there is one. *)
Definition special_rest (pattern : string) (includeNumber : bool) (source : list ascii)
    : option (list ascii) :=
  match match_pattern pattern source with
  | None => None
  | Some rest =>
      match (if includeNumber then match_number rest else Some rest) with
      | None => None
      | Some rest =>
          match rest with
          | [] => Some rest
          | c :: _ => if dangerous c then Some rest else None
          end
      end
  end.

(** [sanitizeSpecialFile]: the name becomes one replacement character. *)
Definition sanitizeSpecialFile (source : list ascii) (ofs : nat) (pattern : string)
    (includeNumber : bool) (replacement : ascii) : list ascii :=
  match special_rest pattern includeNumber (drop ofs source) with
  | Some rest => take ofs source ++ replacement :: rest
  | None => source
  end.

(** ** sanitize_filename *)

(** The [switch] on the first character of a component. *)
Definition special_entries (replacement : ascii) (i : nat) (data : list ascii) : list ascii :=
  match data !! i with
  | None => data
  | Some c =>
      let u := toUpper c in
      if Ascii.eqb u "A" then sanitizeSpecialFile data i "AUX" false replacement
      else if Ascii.eqb u "C" then
        sanitizeSpecialFile (sanitizeSpecialFile data i "CON" false replacement) i "COM" true replacement
      else if Ascii.eqb u "L" then sanitizeSpecialFile data i "LPT" true replacement
      else if Ascii.eqb u "N" then sanitizeSpecialFile data i "NUL" false replacement
      else if Ascii.eqb u "P" then sanitizeSpecialFile data i "PRN" false replacement
      else if Ascii.eqb u "." then sanitizeSpecialFile data i ".." false replacement
      else data
  end.

Definition reserved (c : ascii) : bool :=
  Nat.ltb (code c) 32 || (Nat.leb 128 (code c) && Nat.leb (code c) 159) ||
  existsb (Ascii.eqb c) ["?"%char; "<"%char; ">"%char; ":"%char; "*"%char; "|"%char; chr 34].

Definition separator (c : ascii) : bool := Ascii.eqb c "/" || Ascii.eqb c (chr 92).

(** The loop over [i]; the string only shrinks, so its length is fuel enough. *)
Fixpoint sanitize_loop (fuel : nat) (replacement : ascii) (i : nat) (checkForSpecialEntries : bool)
    (data : list ascii) : list ascii :=
  match fuel with
  | O => data
  | S fuel =>
      let data := if checkForSpecialEntries then special_entries replacement i data else data in
      match data !! i with
      | None => data
      | Some c =>
          if reserved c then
            sanitize_loop fuel replacement (S i) false (<[i := replacement]> data)
          else if separator c then
            if Nat.eqb i 0
            then sanitize_loop fuel replacement (S i) false (<[i := replacement]> data)
            else sanitize_loop fuel replacement (S i) true data
          else sanitize_loop fuel replacement (S i) false data
      end
  end.

Definition sanitize_filename (data : list ascii) (replacement : ascii) : list ascii :=
  let data := if Nat.ltb 255 (length data) then take 255 data else data in
  sanitize_loop (length data) replacement 0 true data.

Definition sanitized (s : string) : string :=
  String.string_of_list_ascii (sanitize_filename (String.list_ascii_of_string s) "_").

Example sanitize_parent : sanitized "../etc/CON.d/../a?b" = "_/etc/_.d/_/a_b".
Proof. vm_compute. reflexivity. Qed.
Example sanitize_root : sanitized "/../x" = "_../x".
Proof. vm_compute. reflexivity. Qed.

(** ** What a clean name is *)

(** The special names with their digit. *)
Definition special_names : list (string * bool) :=
  [("AUX", false); ("CON", false); ("COM", true); ("LPT", true); ("NUL", false); ("PRN", false);
   ("..", false)].

Definition is_special (l : list ascii) : bool :=
  existsb (fun p => match special_rest (fst p) (snd p) l with Some _ => true | None => false end)
    special_names.

(** A replacement character that undoes nothing. *)
Definition neutral (r : ascii) : bool :=
  negb (reserved r) && negb (separator r) && negb (dangerous r) &&
  forallb (fun p => negb (Ascii.eqb (toUpper r) p))
    (String.list_ascii_of_string "AUXCONMLPTNRP.123456789").

(** Position [pre] starts a component. *)
Definition starts_component (pre : list ascii) : Prop :=
  pre = [] \/ exists p c, pre = p ++ [c] /\ separator c = true.

Definition clean (l : list ascii) : Prop :=
  (length l <= 255)%nat /\
  (forall c, In c l -> reserved c = false) /\
  (forall c l', l = c :: l' -> separator c = false) /\
  (forall pre post, l = pre ++ post -> starts_component pre -> is_special post = false).

(** ** Lemmas: matching a special name *)

(** Characters of the names: capital letters and the dot. *)
Definition name_char (p : ascii) : bool :=
  existsb (Ascii.eqb p) (String.list_ascii_of_string "AUXCONMLPTNRP.").

Definition name_chars (pattern : string) : bool := str_forall name_char pattern.

Section Neutral.
Context (r : ascii) (Hr : neutral r = true).

(** [l'] is [l] with some characters replaced up to the first separator. *)
Inductive agree : list ascii -> list ascii -> Prop :=
  | agree_nil : agree [] []
  | agree_sep c l l' : separator c = true -> agree (c :: l) (c :: l')
  | agree_same c l l' : agree l l' -> agree (c :: l) (c :: l')
  | agree_repl c l l' : agree l l' -> agree (c :: l) (r :: l').

Lemma neutral_parts :
  reserved r = false /\ separator r = false /\ dangerous r = false /\
  forall p, In p (String.list_ascii_of_string "AUXCONMLPTNRP.123456789") -> Ascii.eqb (toUpper r) p = false.
Proof.
  unfold neutral in Hr. b2p. split_and!; [done..|]. intros p Hp.
  match goal with H : forallb _ _ = true |- _ => apply (forallb_In _ _ _ H) in Hp end.
  by apply negb_true_iff.
Qed.

Lemma separator_toUpper c : separator c = true -> toUpper c = c.
Proof.
  unfold separator. intros H. apply orb_true_iff in H as [H|H]; apply Ascii.eqb_eq in H as ->; done.
Qed.

Lemma name_char_not_separator p : name_char p = true -> separator p = false.
Proof.
  unfold name_char. intros (x & Hx & ->%Ascii.eqb_eq)%existsb_exists.
  cbn in Hx. repeat destruct Hx as [<-|Hx]; done.
Qed.

Lemma name_char_not_r p : name_char p = true -> Ascii.eqb (toUpper r) p = false.
Proof.
  unfold name_char. intros (x & Hx & ->%Ascii.eqb_eq)%existsb_exists.
  apply neutral_parts. apply (in_app_iff (String.list_ascii_of_string "AUXCONMLPTNRP.")). by left.
Qed.

Lemma agree_match pattern l l' rest' :
  name_chars pattern = true -> agree l l' -> match_pattern pattern l' = Some rest' ->
  exists rest, match_pattern pattern l = Some rest /\ agree rest rest'.
Proof.
  revert l l'. induction pattern as [|p pattern IH]; intros l l' Hp Ha; cbn.
  { intros [= <-]. eauto. }
  cbn in Hp. apply andb_true_iff in Hp as [Hp Hps].
  destruct Ha as [|c l l' Hc|c l l' Ha|c l l' Ha]; [done|..].
  - destruct (Ascii.eqb (toUpper c) p) eqn:E; [|done]. apply Ascii.eqb_eq in E.
    rewrite separator_toUpper in E by done. subst. apply name_char_not_separator in Hp. congruence.
  - destruct (Ascii.eqb (toUpper c) p) eqn:E; [|done]. eauto.
  - by rewrite name_char_not_r.
Qed.

Lemma agree_number l l' rest' :
  agree l l' -> match_number l' = Some rest' -> exists rest, match_number l = Some rest /\ agree rest rest'.
Proof.
  intros Ha. destruct Ha as [|c l l' Hc|c l l' Ha|c l l' Ha]; cbn [match_number]; [done|..].
  - intros H. apply orb_true_iff in Hc as [Hc|Hc]; apply Ascii.eqb_eq in Hc as ->; done.
  - destruct (_ || _); [done|]. intros [= <-]. eauto.
  - assert (Nat.ltb (code r) 49 || Nat.ltb 57 (code r) = true) as ->; [|done].
    destruct (_ || _) eqn:E; [done|]. exfalso. apply orb_false_iff in E as [E1 E2].
    apply Nat.ltb_ge in E1, E2.
    assert (In r (map chr (seq 49 9))) as Hin.
    { apply in_map_iff. exists (code r). split; [apply Ascii.ascii_nat_embedding|]. apply in_seq. lia. }
    destruct neutral_parts as (_ & _ & _ & Hn). revert Hn. cbn in Hin.
    repeat destruct Hin as [<-|Hin]; try done; intros Hn;
      match type of Hn with context [toUpper ?c] => specialize (Hn c) end; cbn in Hn;
      discriminate Hn; tauto.
Qed.

Lemma agree_special p b c l l' :
  name_chars p = true -> agree l l' ->
  special_rest p b (c :: l) = None -> special_rest p b (c :: l') = None.
Proof.
  intros Hp Ha H. destruct (special_rest p b (c :: l')) as [rest'|] eqn:E; [|done]. exfalso.
  unfold special_rest in *.
  destruct (match_pattern p (c :: l')) as [m'|] eqn:Em; [|done].
  destruct (agree_match p _ _ _ Hp (agree_same c _ _ Ha) Em) as (m & Hm & Ham). rewrite Hm in H.
  destruct (if b then match_number m' else Some m') as [n'|] eqn:En; [|done].
  assert (exists n, (if b then match_number m else Some m) = Some n /\ agree n n') as (n & Hn & Han).
  { destruct b; [by apply (agree_number _ _ _ Ham)|]. injection En as <-. eauto. }
  rewrite Hn in H. destruct neutral_parts as (_ & _ & Hd & _).
  destruct Han as [|d n n' Hs|d n n' Han|d n n' Han]; [done|..].
  - by destruct (dangerous d).
  - by destruct (dangerous d).
  - by rewrite Hd in E.
Qed.

Lemma names_name_chars p : In p special_names -> name_chars (fst p) = true.
Proof. cbn. intros H. repeat destruct H as [<-|H]; done. Qed.

Lemma is_special_false l :
  is_special l = false <-> forall p, In p special_names -> special_rest (fst p) (snd p) l = None.
Proof.
  unfold is_special. split.
  - intros H p Hp. destruct (special_rest (fst p) (snd p) l) eqn:E; [|done].
    assert (is_special l = true) as Ht; [|unfold is_special in Ht; congruence].
    apply existsb_exists. exists p. by rewrite E.
  - intros H. apply not_true_is_false. intros (p & Hp & E)%existsb_exists. by rewrite H in E.
Qed.

Lemma agree_is_special c l l' : agree l l' -> is_special (c :: l) = false -> is_special (c :: l') = false.
Proof.
  rewrite !is_special_false. intros Ha H p Hp. eapply agree_special; eauto using names_name_chars.
Qed.

(** ** Lemmas: one component *)

Lemma sanitizeSpecialFile_at pre s p b :
  sanitizeSpecialFile (pre ++ s) (length pre) p b r =
    pre ++ match special_rest p b s with Some rest => r :: rest | None => s end.
Proof.
  unfold sanitizeSpecialFile. rewrite drop_app_length, take_app_length.
  by destruct (special_rest p b s).
Qed.

Lemma special_mismatch p0 ps b c l :
  Ascii.eqb (toUpper c) p0 = false -> special_rest (String p0 ps) b (c :: l) = None.
Proof. intros H. unfold special_rest. cbn. by rewrite H. Qed.

Lemma match_pattern_length p s rest :
  match_pattern p s = Some rest -> (length rest + String.length p = length s)%nat.
Proof.
  revert s. induction p as [|a p IH]; intros s; cbn; [intros [= <-]; lia|].
  destruct s as [|c s]; [done|]. destruct (Ascii.eqb _ _); [|done]. intros H%IH. cbn. lia.
Qed.

Lemma special_rest_length p0 ps b c l rest :
  special_rest (String p0 ps) b (c :: l) = Some rest -> (length rest <= length l)%nat.
Proof.
  unfold special_rest. destruct (match_pattern _ _) as [m|] eqn:E; [|done].
  apply match_pattern_length in E. cbn in E.
  destruct (if b then match_number m else Some m) as [n|] eqn:En; [|done].
  assert (length n <= length m)%nat as Hn.
  { destruct b; [|injection En as <-; done]. destruct m as [|d m]; [done|]. cbn in En.
    destruct (_ || _); [done|]. injection En as <-. cbn. lia. }
  destruct n as [|d n]; [intros [= <-]; cbn; lia|].
  destruct (dangerous d); [|done]. intros [= <-]. lia.
Qed.

(** The outcome at the start of a component. *)
Definition component_done (c : ascii) (l l2 : list ascii) : Prop :=
  (l2 = c :: l /\ is_special (c :: l) = false) \/
  (exists rest, l2 = r :: rest /\ (length rest <= length l)%nat).

Lemma one_name c l p0 ps b :
  (forall p, In p special_names -> p = (String p0 ps, b) \/ special_rest (fst p) (snd p) (c :: l) = None) ->
  component_done c l
    match special_rest (String p0 ps) b (c :: l) with Some rest => r :: rest | None => c :: l end.
Proof.
  intros H. destruct (special_rest (String p0 ps) b (c :: l)) as [rest|] eqn:E.
  - right. exists rest. split; [done|]. by apply special_rest_length in E.
  - left. split; [done|]. apply is_special_false. intros p Hp. by destruct (H p Hp) as [->|].
Qed.

Lemma special_entries_spec pre c l :
  exists l2, special_entries r (length pre) (pre ++ c :: l) = pre ++ l2 /\ component_done c l l2.
Proof.
  unfold special_entries. rewrite list_lookup_middle by done. cbv zeta.
  repeat (match goal with |- context [Ascii.eqb (toUpper c) ?p] => destruct (Ascii.eqb (toUpper c) p) eqn:? end;
    [|]).
  all: rewrite ?sanitizeSpecialFile_at.
  2: {
    eexists. split; [reflexivity|].
    assert (Ascii.eqb (toUpper c) "C" = true) as HC by done. apply Ascii.eqb_eq in HC.
    destruct (special_rest "CON" false (c :: l)) as [rest|] eqn:E.
    - rewrite special_mismatch by (by apply neutral_parts; cbn; tauto).
      right. exists rest. split; [done|]. by apply special_rest_length in E.
    - apply one_name. cbn. intros p Hp. repeat destruct Hp as [<-|Hp]; try done; cbn [fst snd];
        (by left) || (right; (exact E || (apply special_mismatch; by rewrite HC))). }
  all: eexists; (split; [reflexivity|]).
  1-5: match goal with H : Ascii.eqb (toUpper _) _ = true |- _ => apply Ascii.eqb_eq in H; rename H into HC end.
  1-5: apply one_name; cbn; intros p Hp; repeat destruct Hp as [<-|Hp]; try done; cbn [fst snd];
        (by left) || (right; apply special_mismatch; by rewrite HC).
  left. split; [done|]. apply is_special_false. cbn. intros p Hp.
  repeat destruct Hp as [<-|Hp]; try done; cbn [fst snd]; by apply special_mismatch.
Qed.

(** ** Lemmas: the loop *)

(** [clean] as a walk: [check] says whether a component starts here. *)
Fixpoint clean_from (check : bool) (l : list ascii) : bool :=
  match l with
  | [] => true
  | c :: l' => negb (check && is_special l) && negb (reserved c) && clean_from (separator c) l'
  end.

Lemma r_not_special l : is_special (r :: l) = false.
Proof.
  apply is_special_false. cbn. intros p Hp.
  repeat destruct Hp as [<-|Hp]; try done; cbn [fst snd]; apply special_mismatch;
    apply neutral_parts; cbn; tauto.
Qed.

Lemma separator_not_special c l : separator c = true -> is_special (c :: l) = false.
Proof.
  intros Hc. apply is_special_false. cbn. intros p Hp.
  assert (toUpper c = c) as E by (by apply separator_toUpper).
  repeat destruct Hp as [<-|Hp]; try done; cbn [fst snd]; apply special_mismatch; rewrite E;
    apply orb_true_iff in Hc as [Hc|Hc]; apply Ascii.eqb_eq in Hc as ->; done.
Qed.

Definition head_not_separator (l : list ascii) : Prop := forall c l', l = c :: l' -> separator c = false.

(** What the loop leaves of [post] after [pre]. *)
Definition walked (pre post post' : list ascii) (check : bool) : Prop :=
  (length post' <= length post)%nat /\ clean_from check post' = true /\
  (pre = [] -> head_not_separator post') /\
  (check = false -> pre <> [] -> agree post post').

Lemma replaced_walked pre c l c2 tl2 tail check :
  (check = false -> c2 :: tl2 = c :: l) -> (length tl2 <= length l)%nat ->
  walked (pre ++ [r]) tl2 tail false -> walked pre (c :: l) (r :: tail) check.
Proof.
  intros Hc Hl (H1 & H2 & _ & H4). destruct neutral_parts as (Hres & Hsep & _ & _).
  split_and!.
  - cbn. lia.
  - cbn [clean_from]. by rewrite r_not_special, andb_false_r, Hres, Hsep.
  - by intros _ ? ? [= <- _].
  - intros Hf _. injection (Hc Hf) as -> ->. apply agree_repl, H4; [done|]. by destruct pre.
Qed.

Lemma kept_walked pre c l c2 tl2 tail (check : bool) :
  reserved c2 = false -> (separator c2 = true -> pre <> []) ->
  (if check then component_done c l (c2 :: tl2) else c2 :: tl2 = c :: l) ->
  (length tl2 <= length l)%nat ->
  walked (pre ++ [c2]) tl2 tail (separator c2) -> walked pre (c :: l) (c2 :: tail) check.
Proof.
  intros Hres Hpre Hdone Hl (H1 & H2 & _ & H4).
  assert (separator c2 = false -> agree tl2 tail) as Ha.
  { intros Hs. apply H4; [done|]. by destruct pre. }
  split_and!.
  - cbn. lia.
  - cbn [clean_from]. rewrite Hres, H2. change (negb false) with true. rewrite !andb_true_r.
    destruct check; [|done]. rewrite andb_true_l. apply negb_true_iff.
    destruct (separator c2) eqn:Es; [by apply separator_not_special|].
    destruct Hdone as [[[= -> ->] Hs]|(rest & [= -> ->] & _)]; [|apply r_not_special].
    by apply (agree_is_special c l tail (Ha eq_refl)).
  - intros -> ? ? [= <- _]. destruct (separator c2); [by specialize (Hpre eq_refl)|done].
  - intros -> _. injection Hdone as -> ->.
    destruct (separator c) eqn:Es; [by apply agree_sep|by apply agree_same, Ha].
Qed.

Lemma sanitize_loop_spec fuel pre (check : bool) post :
  (length post <= fuel)%nat ->
  exists post', sanitize_loop fuel r (length pre) check (pre ++ post) = pre ++ post' /\
    walked pre post post' check.
Proof.
  revert pre check post. induction fuel as [|fuel IH]; intros pre check post Hf.
  { destruct post; [|cbn in Hf; lia]. exists []. split; [done|]. split_and!; try done. constructor. }
  destruct post as [|c l].
  { exists []. split.
    - assert ((pre ++ []) !! length pre = None) as E by (rewrite app_nil_r; by apply lookup_ge_None).
      cbn [sanitize_loop]. unfold special_entries. destruct check; by rewrite !E.
    - split_and!; try done. constructor. }
  cbn [length] in Hf.
  assert (exists c2 tl2,
    (if check then special_entries r (length pre) (pre ++ c :: l) else pre ++ c :: l) = pre ++ c2 :: tl2 /\
    (if check then component_done c l (c2 :: tl2) else c2 :: tl2 = c :: l) /\
    (length tl2 <= length l)%nat) as (c2 & tl2 & E & Hd & Hlen).
  { destruct check; [|by exists c, l].
    destruct (special_entries_spec pre c l) as (l2 & E & Hd). rewrite E.
    destruct Hd as [[-> Hs]|(rest & -> & Hl)]; eexists _, _; (split; [reflexivity|]).
    - split; [by left|done].
    - split; [right; eauto|done]. }
  cbn [sanitize_loop]. cbv zeta. rewrite E, list_lookup_middle by done.
  assert (<[length pre := r]> (pre ++ c2 :: tl2) = (pre ++ [r]) ++ tl2) as Ei.
  { pose proof (insert_app_r pre (c2 :: tl2) 0 r) as H. rewrite Nat.add_0_r in H.
    rewrite H. cbn. by rewrite <- app_assoc. }
  assert (forall x, S (length pre) = length (pre ++ [x])) as Hs by (intros; rewrite length_app; cbn; lia).
  assert (forall check' x, exists tail,
    sanitize_loop fuel r (S (length pre)) check' ((pre ++ [x]) ++ tl2) = pre ++ x :: tail /\
    walked (pre ++ [x]) tl2 tail check') as Hrec.
  { intros check' x. rewrite (Hs x). destruct (IH (pre ++ [x]) check' tl2 ltac:(lia)) as (tail & Et & Hw).
    exists tail. by rewrite Et, <- app_assoc. }
  assert (pre ++ c2 :: tl2 = (pre ++ [c2]) ++ tl2) as Ea by (by rewrite <- app_assoc).
  assert (check = false -> c2 :: tl2 = c :: l) as Hc by (by intros ->).
  destruct (reserved c2) eqn:Hres.
  { rewrite Ei. destruct (Hrec false r) as (tail & -> & Hw). eexists. split; [reflexivity|].
    by eapply replaced_walked. }
  destruct (separator c2) eqn:Hsep.
  - destruct (Nat.eqb_spec (length pre) 0) as [H0|H0].
    + rewrite Ei. destruct (Hrec false r) as (tail & -> & Hw). eexists. split; [reflexivity|].
      by eapply replaced_walked.
    + rewrite Ea. destruct (Hrec true c2) as (tail & -> & Hw). eexists. split; [reflexivity|].
      eapply kept_walked; eauto; [|by rewrite Hsep]. by intros _ ->.
  - rewrite Ea. destruct (Hrec false c2) as (tail & -> & Hw). eexists. split; [reflexivity|].
    eapply kept_walked; eauto; rewrite Hsep; done.
Qed.
End Neutral.

(** ** Theorems *)

Lemma starts_component_snoc pre c : separator c = true -> starts_component (pre ++ [c]).
Proof. intros H. right. eauto. Qed.

Lemma clean_from_spec check l :
  clean_from check l = true ->
  (forall c, In c l -> reserved c = false) /\
  (forall pre post, l = pre ++ post -> (pre = [] -> check = true) -> starts_component pre ->
     is_special post = false).
Proof.
  revert check. induction l as [|c l IH]; intros check H.
  { split; [done|]. intros pre post E _ _. symmetry in E. apply app_eq_nil in E as [-> ->]. done. }
  cbn [clean_from] in H. b2p. destruct (IH _ ltac:(eassumption)) as [Hr Hs]. split.
  - intros d [<-|Hd]; auto.
  - intros [|p pre] post E Hc Hst.
    + cbn in E. subst post. rewrite Hc in *; [|done]. done.
    + injection E as <- ->. apply (Hs pre post eq_refl).
      * intros ->. destruct Hst as [Hst|(q & d & E & Hd)]; [done|].
        destruct q as [|x q]; [by injection E as ->|by destruct q].
      * destruct Hst as [Hst|(q & d & E & Hd)]; [done|].
        destruct q as [|x q]; [injection E as -> ->; by left|]. injection E as -> ->.
        by apply starts_component_snoc.
Qed.

Lemma sanitized_clean data r : neutral r = true -> clean (sanitize_filename data r).
Proof.
  intros Hr. unfold sanitize_filename.
  set (d := if Nat.ltb 255 (length data) then take 255 data else data).
  assert (length d <= 255)%nat as Hd.
  { unfold d. destruct (Nat.ltb_spec 255 (length data)); [rewrite length_take|]; lia. }
  destruct (sanitize_loop_spec r Hr (length d) [] true d ltac:(lia)) as (l & E & Hl & Hc & Hh & _).
  cbn [length app] in E. rewrite E. destruct (clean_from_spec true l Hc) as [H1 H2].
  split_and!; [lia|done|by apply Hh|]. intros pre post El Hst. by apply (H2 pre post).
Qed.

(** A sanitised name is clean, for every neutral replacement character: at
    most 255 bytes, no control or reserved character, not an absolute path, and
    at no start of a component a device name or a parent directory. *)
Theorem sanitize_filename_clean data r :
  neutral r = true -> clean (sanitize_filename data r).
Proof. apply sanitized_clean. Qed.

Lemma special_entries_noop r i data : is_special (drop i data) = false -> special_entries r i data = data.
Proof.
  intros H. rewrite is_special_false in H.
  assert (forall p b, In (p, b) special_names -> sanitizeSpecialFile data i p b r = data) as Hn.
  { intros p b Hin. unfold sanitizeSpecialFile. apply H in Hin. cbn [fst snd] in Hin. by rewrite Hin. }
  unfold special_entries. destruct (data !! i) as [c|]; [|done]. cbv zeta.
  rewrite !Hn by (cbn; tauto). by repeat destruct (Ascii.eqb _ _).
Qed.

Lemma sanitize_loop_clean fuel r pre (check : bool) post :
  clean (pre ++ post) -> (check = true -> starts_component pre) ->
  sanitize_loop fuel r (length pre) check (pre ++ post) = pre ++ post.
Proof.
  revert pre check post. induction fuel as [|fuel IH]; intros pre check post Hc Hst; [done|].
  cbn [sanitize_loop]. cbv zeta. destruct Hc as (Hl & Hr & Hh & Hs).
  assert ((if check then special_entries r (length pre) (pre ++ post) else pre ++ post) = pre ++ post) as ->.
  { destruct check; [|done]. apply special_entries_noop. rewrite drop_app_length. by apply (Hs pre); auto. }
  destruct post as [|c post].
  { assert ((pre ++ []) !! length pre = None) as -> by (rewrite app_nil_r; by apply lookup_ge_None). done. }
  rewrite list_lookup_middle by done. rewrite (Hr c) by (apply in_app_iff; right; by left).
  assert (pre ++ c :: post = (pre ++ [c]) ++ post) as E by (by rewrite <- app_assoc).
  assert (S (length pre) = length (pre ++ [c])) as El by (rewrite length_app; cbn; lia).
  assert (clean ((pre ++ [c]) ++ post)) as Hc' by (rewrite <- E; by split_and!).
  destruct (separator c) eqn:Hsep.
  - destruct (Nat.eqb_spec (length pre) 0) as [H0|H0].
    + destruct pre; [|done]. rewrite (Hh c post eq_refl) in Hsep. done.
    + rewrite E, El. apply IH; [done|]. intros _. by apply starts_component_snoc.
  - rewrite E, El. by apply IH.
Qed.

(** A clean name is left as it is, whatever the replacement character; so
    sanitising twice is sanitising once. *)
Theorem sanitize_filename_fixed data r :
  clean data -> sanitize_filename data r = data.
Proof.
  intros Hc. unfold sanitize_filename. pose proof Hc as (Hl & _).
  rewrite (proj2 (Nat.ltb_ge 255 (length data))) by lia.
  apply (sanitize_loop_clean (length data) r [] true data); [done|]. intros _. by left.
Qed.

(** No directory traversal: where a component of a sanitised name begins
    with two dots, a further character that is not a separator follows, and the
    name itself does not begin with a separator. *)
Theorem sanitize_no_traversal data r pre post :
  neutral r = true -> sanitize_filename data r = pre ++ ["."%char; "."%char] ++ post ->
  starts_component pre ->
  (exists c post', post = c :: post' /\ separator c = false) /\
  head_not_separator (sanitize_filename data r).
Proof.
  intros Hr E Hst.
  destruct (sanitized_clean data r Hr) as (_ & _ & Hh & Hs).
  split; [|exact Hh]. specialize (Hs pre _ E Hst). rewrite is_special_false in Hs.
  specialize (Hs ("..", false) ltac:(cbn; tauto)).
  destruct post as [|c post]; [done|]. exists c, post. split; [done|].
  destruct (separator c) eqn:Hc; [|done]. exfalso. revert Hs.
  apply orb_true_iff in Hc as [Hc|Hc]; apply Ascii.eqb_eq in Hc as ->; done.
Qed.

(** ** Witnesses *)

Lemma sanitize_filename_clean_witness :
  clean (sanitize_filename (String.list_ascii_of_string "../con/x:y") "_").
Proof. apply (sanitize_filename_clean (String.list_ascii_of_string "../con/x:y") "_"). reflexivity. Defined.

Lemma sanitize_filename_fixed_witness :
  sanitize_filename ["a"%char] "_" = ["a"%char].
Proof.
  apply (sanitize_filename_fixed ["a"%char] "_"). split_and!.
  - cbn. lia.
  - intros c [<-|[]]. reflexivity.
  - intros c l' [= <- _]. reflexivity.
  - intros [|p pre] post E _; [cbn in E; subst post; reflexivity|].
    destruct pre; [|done]. injection E as _ <-. reflexivity.
Defined.

Lemma sanitize_no_traversal_witness :
  exists c post', ["a"%char] = c :: post' /\ separator c = false.
Proof.
  apply (sanitize_no_traversal (String.list_ascii_of_string "..a") "_" [] ["a"%char]);
    [reflexivity|vm_compute; reflexivity|by left].
Defined.
