(* ===== verification/CArray.v ===== *)
(** * Characters and arrays of them

    A [char] is an [ascii]; where the code compares characters by their number,
    the bounds are those of ASCII letters or digits, so signed and unsigned
    [char] agree.  An array is the list of its bytes, a pointer into it an
    offset, and a read or a write outside it is [None]. *)

From S2P Require Import Prelude CInt.

(** The number of a character, as an [unsigned char]. *)
Definition uc (c : ascii) : Z := Z.of_N (Ascii.N_of_ascii c).

(** [c >= lo && c <= hi]. *)
Definition between (lo hi c : ascii) : bool := (uc lo <=? uc c) && (uc c <=? uc hi).

Definition dquote : string := String (chr 34) EmptyString.

Lemma uc_range c : 0 <= uc c < 256.
Proof. unfold uc. pose proof (Ascii.N_ascii_bounded c). lia. Qed.

Lemma uc_inj a b : uc a = uc b -> a = b.
Proof.
  unfold uc. intros H. apply (f_equal Z.to_N) in H. rewrite !N2Z.id in H.
  apply (f_equal Ascii.ascii_of_N) in H. by rewrite !Ascii.ascii_N_embedding in H.
Qed.

#[local] Open Scope nat_scope.

(** ** Arrays *)

Abbreviation bytes := (list ascii).

Definition peek (s : bytes) (i : nat) : option ascii := s !! i.

Definition poke (s : bytes) (i : nat) (c : ascii) : option bytes :=
  if decide (i < length s) then Some (<[i := c]> s) else None.

Lemma peek_app (A l : bytes) i : peek (A ++ l) (length A + i) = l !! i.
Proof. unfold peek. by rewrite lookup_app_r, Nat.add_comm, Nat.add_sub by lia. Qed.

Lemma poke_app (A l : bytes) i c : i < length l -> poke (A ++ l) (length A + i) c = Some (A ++ <[i := c]> l).
Proof.
  intros Hi. unfold poke. rewrite decide_True by (rewrite length_app; lia).
  by rewrite insert_app_r.
Qed.

Lemma peek_head (A : bytes) c l : peek (A ++ c :: l) (length A) = Some c.
Proof. unfold peek. by rewrite lookup_app_r, Nat.sub_diag by lia. Qed.

(** Characters already decoded, then [gap] others, and the rest. *)
Lemma poke_gap (A out gap rest : bytes) c k : k < length rest ->
  exists gap', length gap' = length gap + k /\
    poke (A ++ out ++ gap ++ rest) (length A + length out) c =
      Some (A ++ (out ++ [c]) ++ gap' ++ drop (S k) rest).
Proof.
  intros Hk. assert (Hl : length (gap ++ take (S k) rest) = length gap + S k).
  { rewrite length_app, length_take. lia. }
  rewrite poke_app by (rewrite !length_app; lia).
  assert (Hs : gap ++ rest = (gap ++ take (S k) rest) ++ drop (S k) rest) by by rewrite <- app_assoc, take_drop.
  rewrite Hs. clear Hs. destruct (gap ++ take (S k) rest) as [|g l]; cbn in Hl; [lia|].
  exists l. split; [lia|]. rewrite <- (Nat.add_0_r (length out)), insert_app_r, <- app_assoc. done.
Qed.

Lemma poke_stop (A out gap rest : bytes) x : exists junk, length junk = length gap /\
    poke (A ++ out ++ gap ++ x :: rest) (length A + length out) NUL =
      Some (A ++ out ++ NUL :: junk ++ rest).
Proof.
  destruct (poke_gap A out gap (x :: rest) NUL 0) as (gap' & Hl & ->); [cbn; lia|].
  exists gap'. split; [lia|]. by rewrite <- (app_assoc out).
Qed.
