(* ===== verification/Query.v ===== *)
(** * Query strings: include/crow_all.h, qs_parse and crow::query_string

    The pairs of a query string are pointers into a copy of the URL, whose values
    are decoded in place.  Here the copy is the array of its bytes, the
    terminator included, a pointer is an offset, and a read or a write outside the
    array is [None].  [qs_parse_spec] relates what the array holds after
    [qs_parse] to a decoding of each pair by itself; [get_spec] says what a lookup
    finds. *)

From S2P Require Import Prelude CInt CArray.
#[local] Open Scope nat_scope.

(** ** Arrays *)

(** [strcspn(s + i, reject)]. *)
Fixpoint cspn (reject : list ascii) (l : bytes) : option nat :=
  match l with
  | [] => None
  | c :: l => if bool_decide (c = NUL \/ c ∈ reject) then Some 0 else S <$> cspn reject l
  end.

Definition strcspn (s : bytes) (i : nat) (reject : list ascii) : option nat := cspn reject (drop i s).

(** The C string at an offset. *)
Fixpoint c_text (l : bytes) : bytes :=
  match l with
  | [] => []
  | c :: l => if bool_decide (c = NUL) then [] else c :: c_text l
  end.

Definition text_at (s : bytes) (i : nat) : bytes := c_text (drop i s).

(** ** Characters *)

Definition CROW_QS_ISHEX (x : ascii) : bool := between "0" "9" x || between "A" "F" x || between "a" "f" x.

Definition CROW_QS_HEX2DEC (x : ascii) : Z :=
  (if between "0" "9" x then uc x - 48
   else if between "A" "F" x then uc x - 55
   else if between "a" "f" x then uc x - 87
   else 0)%Z.

Definition CROW_QS_ISQSCHR (x : ascii) : bool :=
  negb (Ascii.eqb x "=" || Ascii.eqb x "#" || Ascii.eqb x "&" || Ascii.eqb x NUL).

(** [(CROW_QS_HEX2DEC(a) * 16) + CROW_QS_HEX2DEC(b)], stored in a byte. *)
Definition hex_byte (a b : ascii) : ascii :=
  Ascii.ascii_of_N (Z.to_N ((CROW_QS_HEX2DEC a * 16 + CROW_QS_HEX2DEC b) mod 256)).

(** ** The functions on arrays *)

(** The two steps of [qs_strncmp] on a character that was read: an escaped one is
    replaced, and the pointer is behind it. *)
Definition unescape (s : bytes) (i : nat) (u : ascii) : option (ascii * nat) :=
  if Ascii.eqb u "+" then Some (" "%char, i)
  else if Ascii.eqb u "%" then
    unyb ← peek s i;
    lnyb ← peek s (i + 1);
    Some (if CROW_QS_ISHEX unyb && CROW_QS_ISHEX lnyb then hex_byte unyb lnyb else NUL, i + 2)
  else Some (u, i).

Definition qs_char (u : ascii) : ascii := if CROW_QS_ISQSCHR u then u else NUL.

Fixpoint qs_strncmp (s : bytes) (i : nat) (qs : bytes) (j : nat) (n : nat) : option Z :=
  match n with
  | O =>
      c ← peek qs j;
      Some (if CROW_QS_ISQSCHR c then -1 else 0)%Z
  | S n =>
      u1 ← peek s i;
      u2 ← peek qs j;
      '(u1, i) ← unescape s (i + 1) (qs_char u1);
      '(u2, j) ← unescape qs (j + 1) (qs_char u2);
      if negb (Ascii.eqb u1 u2) then Some (uc u1 - uc u2)%Z
      else if Ascii.eqb u1 NUL then Some 0%Z
      else qs_strncmp s i qs j n
  end.

(** [qs_decode(s + base)]: the loop, with its indices [i] and [j]. *)
Fixpoint decode_loop (fuel : nat) (s : bytes) (base i j : nat) : option (bytes * nat) :=
  match fuel with
  | O => None
  | S fuel =>
      c ← peek s (base + j);
      let stop := s ← poke s (base + i) NUL; Some (s, i) in
      if negb (CROW_QS_ISQSCHR c) then stop
      else if Ascii.eqb c "+" then
        s ← poke s (base + i) " "; decode_loop fuel s base (i + 1) (j + 1)
      else if Ascii.eqb c "%" then
        c1 ← peek s (base + j + 1);
        if negb (CROW_QS_ISHEX c1) then stop
        else
          c2 ← peek s (base + j + 2);
          if negb (CROW_QS_ISHEX c2) then stop
          else
            s ← poke s (base + i) (hex_byte c1 c2); decode_loop fuel s base (i + 1) (j + 3)
      else
        s ← poke s (base + i) c; decode_loop fuel s base (i + 1) (j + 1)
  end.

Definition qs_decode (s : bytes) (base : nat) : option (bytes * nat) := decode_loop (S (length s)) s base 0 0.

(** [while(i<qs_kv_size)]: the offsets of the pairs; [n] of them at most. *)
Fixpoint split_pairs (n : nat) (s : bytes) (substr_ptr : nat) : option (list nat) :=
  match n with
  | O => Some []
  | S n =>
      j ← strcspn s substr_ptr ["&"%char];
      c ← peek s (substr_ptr + j);
      if Ascii.eqb c NUL then Some [substr_ptr]
      else cons substr_ptr <$> split_pairs n s (substr_ptr + j + 1)
  end.

(** The value of one pair is decoded. *)
Definition decode_pair (s : bytes) (kv : nat) : option bytes :=
  skip ← strcspn s kv ["="; "&"; "#"]%char;
  let substr_ptr := kv + skip in
  c ← peek s substr_ptr;
  if Ascii.eqb c "&" || Ascii.eqb c NUL then poke s substr_ptr NUL
  else fst <$> qs_decode s (substr_ptr + 1).

Fixpoint decode_pairs (s : bytes) (kvs : list nat) : option bytes :=
  match kvs with
  | [] => Some s
  | kv :: kvs => s ← decode_pair s kv; decode_pairs s kvs
  end.

Definition qs_parse (qs : bytes) (qs_kv_size : nat) : option (bytes * list nat) :=
  substr_ptr ← strcspn qs 0 ["?"; "#"]%char;
  c ← peek qs substr_ptr;
  if Ascii.eqb c NUL then Some (qs, [])
  else
    kvs ← split_pairs qs_kv_size qs (substr_ptr + 1);
    qs ← decode_pairs qs kvs;
    Some (qs, kvs).

(** [qs_k2v]: the outer option is for reads outside an array, the inner one for
    the null pointer. *)
Fixpoint qs_k2v (key : bytes) (key_len : nat) (s : bytes) (qs_kv : list nat) (nth : nat) : option (option nat) :=
  match qs_kv with
  | [] => Some None
  | kv :: qs_kv =>
      r ← qs_strncmp key 0 s kv key_len;
      if (r =? 0)%Z then
        skip ← strcspn s kv ["="%char];
        c ← peek s (kv + skip);
        let skip := if Ascii.eqb c "=" then skip + 1 else skip in
        match nth with
        | O => Some (Some (kv + skip))
        | S nth => qs_k2v key key_len s qs_kv nth
        end
      else qs_k2v key key_len s qs_kv nth
  end.

(** [skip_to_...]: past the character, where there is one. *)
Definition skip_to (s : bytes) (kv : nat) (c : ascii) (past : bool) : option nat :=
  skip ← strcspn s kv [c];
  c' ← peek s (kv + skip);
  Some (if past && Ascii.eqb c' c then skip + 1 else skip).

(** [strncmp(name, s + kv, strlen(name)) == 0], for a [name] without NUL. *)
Definition starts_with (name : bytes) (l : bytes) : bool := bool_decide (take (length name) l = name).

Fixpoint qs_dict_name2kv (dict_name : bytes) (s : bytes) (qs_kv : list nat) (nth : Z)
    : option (option (bytes * bytes)) :=
  match qs_kv with
  | [] => Some None
  | kv :: qs_kv =>
      if starts_with dict_name (text_at s kv) then
        skip_to_eq ← skip_to s kv "=" true;
        skip_to_brace_open ← skip_to s kv "[" true;
        skip_to_brace_close ← skip_to s kv "]" false;
        if bool_decide (skip_to_brace_open <= skip_to_brace_close) && bool_decide (0 < skip_to_brace_open) &&
           bool_decide (0 < skip_to_brace_close) && (nth =? 0)%Z
        then Some (Some (take (skip_to_brace_close - skip_to_brace_open) (drop (kv + skip_to_brace_open) s),
                         text_at s (kv + skip_to_eq)))
        else qs_dict_name2kv dict_name s qs_kv (nth - 1)
      else qs_dict_name2kv dict_name s qs_kv nth
  end.

(** ** The class *)

Record query_string := QueryString {
  url_ : bytes;
  key_value_pairs_ : list nat
}.

Definition MAX_KEY_VALUE_PAIRS_COUNT : nat := 256.

(** The constructor from a URL; [None] for a read outside the array. *)
Definition query_string_of (url : bytes) : option query_string :=
  if decide (url = []) then Some (QueryString [NUL] [])
  else
    '(s, kvs) ← qs_parse (url ++ [NUL]) MAX_KEY_VALUE_PAIRS_COUNT;
    Some (QueryString s kvs).

(** The copy: every pointer is moved to the new array. *)
Definition query_string_copy (qs : query_string) : query_string :=
  QueryString (url_ qs) ((fun p => p - 0 + 0) <$> key_value_pairs_ qs).

Definition clear (qs : query_string) : query_string := QueryString [NUL] [].

(** [operator<<]: the pairs as C strings, their values cut off after the first NUL. *)
Definition print_pairs (qs : query_string) : bytes :=
  ["["; " "]%char ++
  concat (imap (fun i kv => (if decide (i = 0) then [] else [","; " "]%char) ++ text_at (url_ qs) kv)
               (key_value_pairs_ qs)) ++
  [" "; "]"]%char.

(** [name.c_str()], with its terminator, and [strlen] of it. *)
Definition lookup_key (name : bytes) (qs : query_string) (nth : nat) : option (option nat) :=
  qs_k2v (name ++ [NUL]) (length (c_text name)) (url_ qs) (key_value_pairs_ qs) nth.

Definition get (name : bytes) (qs : query_string) : option (option nat) := lookup_key name qs 0.

(** Pairs whose text starts as given are erased, the first only or all. *)
Fixpoint erase_first (f : nat -> bool) (kvs : list nat) : list nat :=
  match kvs with
  | [] => []
  | kv :: kvs => if f kv then kvs else kv :: erase_first f kvs
  end.

Definition has_prefix (qs : query_string) (prefix : bytes) (kv : nat) : bool :=
  starts_with prefix (text_at (url_ qs) kv).

Definition pop (name : bytes) (qs : query_string) : option (option nat * query_string) :=
  ret ← get name qs;
  Some (ret, match ret with
    | None => qs
    | Some _ =>
        QueryString (url_ qs) (erase_first (has_prefix qs (name ++ ["="%char])) (key_value_pairs_ qs))
    end).

(** [while(1)] with the count; a list of pairs has no more matches than pairs. *)
Fixpoint list_from (fuel : nat) (plus : bytes) (qs : query_string) (count : nat) : option (list nat) :=
  match fuel with
  | O => None
  | S fuel =>
      element ← lookup_key plus qs count;
      match element with
      | None => Some []
      | Some e => cons e <$> list_from fuel plus qs (count + 1)
      end
  end.

Definition list_key (name : bytes) (use_brackets : bool) : bytes :=
  name ++ (if use_brackets then ["["; "]"]%char else []).

Definition get_list (name : bytes) (use_brackets : bool) (qs : query_string) : option (list nat) :=
  list_from (S (length (key_value_pairs_ qs))) (list_key name use_brackets) qs 0.

Definition erase_all (f : nat -> bool) (kvs : list nat) : list nat := List.filter (fun kv => negb (f kv)) kvs.

Definition pop_list (name : bytes) (use_brackets : bool) (qs : query_string) : option (list nat * query_string) :=
  ret ← get_list name use_brackets qs;
  Some (ret,
    if decide (ret = []) then qs
    else QueryString (url_ qs)
           (erase_all (has_prefix qs (list_key name use_brackets ++ ["="%char])) (key_value_pairs_ qs))).

(** [std::unordered_map::insert]: a key that is there already is left alone. *)
Definition dict_insert (kv : bytes * bytes) (d : list (bytes * bytes)) : list (bytes * bytes) :=
  if bool_decide (kv.1 ∈ d.*1) then d else d ++ [kv].

Fixpoint dict_from (fuel : nat) (name : bytes) (qs : query_string) (count : Z) (ret : list (bytes * bytes))
    : option (list (bytes * bytes)) :=
  match fuel with
  | O => None
  | S fuel =>
      element ← qs_dict_name2kv (c_text name) (url_ qs) (key_value_pairs_ qs) count;
      match element with
      | None => Some ret
      | Some e => dict_from fuel name qs (count + 1) (dict_insert e ret)
      end
  end.

Definition get_dict (name : bytes) (qs : query_string) : option (list (bytes * bytes)) :=
  dict_from (S (length (key_value_pairs_ qs))) name qs 0 [].

Definition pop_dict (name : bytes) (qs : query_string) : option (list (bytes * bytes) * query_string) :=
  ret ← get_dict name qs;
  Some (ret,
    if decide (ret = []) then qs
    else QueryString (url_ qs) (erase_all (has_prefix qs (name ++ ["["%char])) (key_value_pairs_ qs))).

(** [str_element.substr(0, str_element.find('='))]. *)
Fixpoint before_eq (l : bytes) : bytes :=
  match l with
  | [] => []
  | c :: l => if Ascii.eqb c "=" then [] else c :: before_eq l
  end.

Definition keys (qs : query_string) : list bytes :=
  (fun kv => before_eq (text_at (url_ qs) kv)) <$> key_value_pairs_ qs.

(** The search of [qs_scanvalue] for the key: where it stops. *)
Fixpoint scan_pairs (fuel : nat) (key : bytes) (key_len : nat) (qs : bytes) (p : nat) : option nat :=
  match fuel with
  | O => None
  | S fuel =>
      c ← peek qs p;
      if Ascii.eqb c "#" || Ascii.eqb c NUL then Some p
      else
        r ← qs_strncmp key 0 qs p key_len;
        if (r =? 0)%Z then Some p
        else
          skip ← strcspn qs p ["&"%char];
          scan_pairs fuel key key_len qs (p + skip + 1)
  end.

(** [strncpy(val, s + p, n)]: the text is padded with NUL, and not terminated when it
    has [n] characters or more. *)
Definition strncpy (val s : bytes) (p n : nat) : option bytes :=
  if decide (n <= length val) then Some (take n (text_at s p ++ replicate n NUL) ++ drop n val) else None.

(** [val_len - 1] in [size_t], and the smaller of it and [i + 1]. *)
Definition copied (val_len i : nat) : nat :=
  Z.to_nat (Z.min (wrap_u 64 (Z.of_nat val_len - 1)) (Z.of_nat (i + 1))).

(** [qs_scanvalue(key, qs, val, val_len)] for a buffer [val] of [val_len] bytes; the
    inner option is for the null pointer. *)
Definition qs_scanvalue (key qs val : bytes) : option (option bytes) :=
  q ← strcspn qs 0 ["?"%char];
  c ← peek qs q;
  let start := if Ascii.eqb c "?" then q + 1 else 0 in
  p ← scan_pairs (S (length qs)) key (length (c_text key)) qs start;
  c ← peek qs p;
  if Ascii.eqb c NUL then Some None
  else
    skip ← strcspn qs p ["="; "&"; "#"]%char;
    c ← peek qs (p + skip);
    if Ascii.eqb c "=" then
      i ← strcspn qs (p + skip + 1) ["&"; "="; "#"]%char;
      val ← strncpy val qs (p + skip + 1) (copied (length val) i);
      '(val, _) ← qs_decode val 0;
      Some (Some val)
    else if bool_decide (0 < length val) then
      val ← poke val 0 NUL; Some (Some val)
    else Some (Some val).

(** ** What the functions come to *)

(** The decoding of a value by itself, up to a character that ends it. *)
Fixpoint decode (l : bytes) : bytes :=
  match l with
  | [] => []
  | c :: l =>
      if negb (CROW_QS_ISQSCHR c) then []
      else if Ascii.eqb c "+" then " "%char :: decode l
      else if Ascii.eqb c "%" then
        match l with
        | a :: b :: l => if CROW_QS_ISHEX a && CROW_QS_ISHEX b then hex_byte a b :: decode l else []
        | _ => []
        end
      else c :: decode l
  end.

Definition qs_text (l : bytes) : Prop := Forall (fun c => CROW_QS_ISQSCHR c = true) l.

Lemma hex_not_stop c : CROW_QS_ISHEX c = true -> CROW_QS_ISQSCHR c = true.
Proof. destruct c as [[] [] [] [] [] [] [] []]; done. Qed.

Lemma decode_loop_run fuel (A out gap t : bytes) x r : length t < fuel -> qs_text t -> CROW_QS_ISQSCHR x = false ->
  exists junk, length (decode t) + length junk = length gap + length t /\
    decode_loop fuel (A ++ out ++ gap ++ t ++ x :: r) (length A) (length out) (length out + length gap) =
      Some (A ++ (out ++ decode t) ++ NUL :: junk ++ r, length out + length (decode t)).
Proof.
  revert out gap t. induction fuel as [|fuel IH]; intros out gap t Hf Ht Hx; [lia|].
  assert (Hpeek : forall i, peek (A ++ out ++ gap ++ t ++ x :: r) (length A + (length out + length gap) + i) =
    (t ++ x :: r) !! i).
  { intros i. rewrite <- Nat.add_assoc, peek_app, <- Nat.add_assoc, (lookup_app_r out), (lookup_app_r gap) by lia.
    f_equal. lia. }
  assert (Hstop : forall k, k <= length t -> length (decode t) = 0 ->
    exists junk, length (decode t) + length junk = length gap + length t /\
    (s ← poke (A ++ out ++ gap ++ t ++ x :: r) (length A + length out) NUL; Some (s, length out)) =
      Some (A ++ (out ++ decode t) ++ NUL :: junk ++ r, length out + length (decode t))).
  { intros k Hk Hd. destruct (decode t); [|done]. destruct (poke_stop A out (gap ++ t) r x) as (junk & Hl & Hp).
    exists junk. rewrite length_app in Hl. split; [cbn; lia|]. rewrite <- app_assoc in Hp. rewrite Hp. cbn.
    by rewrite app_nil_r, Nat.add_0_r. }
  assert (Hgo : forall c k t', k < length t -> t' = drop (S k) t -> decode t = c :: decode t' ->
    exists junk, length (decode t) + length junk = length gap + length t /\
    (s ← poke (A ++ out ++ gap ++ t ++ x :: r) (length A + length out) c;
     decode_loop fuel s (length A) (length out + 1) (length out + length gap + S k)) =
      Some (A ++ (out ++ decode t) ++ NUL :: junk ++ r, length out + length (decode t))).
  { intros c k t' Hk -> Hd. destruct (poke_gap A out gap (t ++ x :: r) c k) as (gap' & Hl & Hp); [rewrite length_app; lia|].
    rewrite Hp. cbn [mbind option_bind]. rewrite drop_app_le by lia.
    destruct (IH (out ++ [c]) gap' (drop (S k) t)) as (junk & Hj & Hr);
      [rewrite length_drop; lia|by apply Forall_drop|done|].
    exists junk. rewrite Hd. cbn [length]. rewrite length_drop in Hj. split; [lia|].
    rewrite length_app in Hr. cbn [length] in Hr.
    replace (length out + length gap + S k) with (length out + 1 + length gap') by lia.
    rewrite Hr. rewrite <- (app_assoc out [c]). do 2 f_equal. cbn. lia. }
  cbn [decode_loop]. pose proof (Hpeek 0) as H0. rewrite Nat.add_0_r in H0. rewrite H0.
  destruct t as [|c t]; cbn [lookup list_lookup app] in *.
  { cbn [mbind option_bind]. rewrite Hx. cbn [negb]. apply (Hstop 0); cbn; lia. }
  cbn [mbind option_bind]. apply Forall_cons in Ht as Ht'. destruct Ht' as [Hc Ht1]. rewrite Hc. cbn [negb].
  destruct (Ascii.eqb c "+") eqn:E1.
  { apply (Hgo " "%char 0 t); [cbn; lia|done|]. cbn. by rewrite Hc, E1. }
  destruct (Ascii.eqb c "%") eqn:E2.
  - rewrite !(Hpeek 1), !(Hpeek 2).
    assert (Hnx : CROW_QS_ISHEX x = false).
    { destruct (CROW_QS_ISHEX x) eqn:E; [|done]. apply hex_not_stop in E. congruence. }
    destruct t as [|a t]; cbn [app lookup list_lookup mbind option_bind] in *.
    { rewrite Hnx. cbn [negb]. apply (Hstop 0); [lia|]. cbn. by rewrite Hc, E1, E2. }
    destruct (CROW_QS_ISHEX a) eqn:Ea; cbn [negb].
    2: { apply (Hstop 0); [lia|]. cbn. rewrite Hc, E1, E2. cbn. destruct t; [done|]. by rewrite Ea. }
    destruct t as [|b t]; cbn [app lookup list_lookup mbind option_bind] in *.
    { rewrite Hnx. cbn [negb]. apply (Hstop 0); [lia|]. cbn. by rewrite Hc, E1, E2. }
    destruct (CROW_QS_ISHEX b) eqn:Eb; cbn [negb].
    2: { apply (Hstop 0); [lia|]. cbn. rewrite Hc, E1, E2. cbn. by rewrite Ea, Eb. }
    apply (Hgo _ 2 t); [cbn; lia|done|]. cbn. rewrite Hc, E1, E2. cbn. by rewrite Ea, Eb.
  - apply (Hgo c 0 t); [cbn; lia|done|]. cbn. by rewrite Hc, E1, E2.
Qed.

Lemma qs_decode_run (A t : bytes) x r : qs_text t -> CROW_QS_ISQSCHR x = false ->
  exists junk, length (decode t) + length junk = length t /\
    qs_decode (A ++ t ++ x :: r) (length A) = Some (A ++ decode t ++ NUL :: junk ++ r, length (decode t)).
Proof.
  intros Ht Hx. unfold qs_decode.
  destruct (decode_loop_run (S (length (A ++ t ++ x :: r))) A [] [] t x r) as (junk & Hl & Hr);
    [rewrite !length_app; lia|done|done|].
  exists junk. split; [exact Hl|exact Hr].
Qed.

(** ** One pair *)

Definition is_sep (c : ascii) : bool := Ascii.eqb c "=" || Ascii.eqb c "#".

(** The part before the first [=] or [#], and from it on. *)
Fixpoint key_part (t : bytes) : bytes :=
  match t with
  | [] => []
  | c :: t => if is_sep c then [] else c :: key_part t
  end.

Fixpoint value_part (t : bytes) : bytes :=
  match t with
  | [] => []
  | c :: t' => if is_sep c then t else value_part t'
  end.

(** The characters of a pair up to one that ends its value. *)
Fixpoint qs_prefix (l : bytes) : bytes :=
  match l with
  | [] => []
  | c :: l => if CROW_QS_ISQSCHR c then c :: qs_prefix l else []
  end.

(** A pair as it is seen in the array after [qs_parse], the value decoded. *)
Definition seen (t : bytes) : bytes :=
  key_part t ++ match value_part t with [] => [] | c :: v => c :: c_text (decode v) end.

Definition pair_text (t : bytes) : Prop := Forall (fun c => c <> NUL /\ c <> "&"%char) t.

Lemma parts t : key_part t ++ value_part t = t.
Proof. induction t as [|c t IH]; cbn; [done|]. destruct (is_sep c); cbn; [done|]. by rewrite IH. Qed.

Lemma value_part_sep t c v : value_part t = c :: v -> is_sep c = true.
Proof. induction t as [|a t IH]; cbn; [done|]. destruct (is_sep a) eqn:E; [by intros [= -> _]|done]. Qed.

Lemma key_part_text t : pair_text t ->
  Forall (fun c => c <> NUL /\ c <> "&"%char /\ is_sep c = false) (key_part t).
Proof.
  induction t as [|c t IH]; cbn; [constructor|]. intros [[] Ht]%Forall_cons. destruct (is_sep c) eqn:E; [constructor|].
  constructor; [done|by apply IH].
Qed.

Lemma qs_prefix_split l : exists r, l = qs_prefix l ++ r /\ qs_text (qs_prefix l) /\
  (r = [] \/ exists x r', r = x :: r' /\ CROW_QS_ISQSCHR x = false).
Proof.
  induction l as [|c l (r & Hl & Ht & Hr)]; cbn; [exists []; split; [done|]; split; [constructor|by left]|].
  destruct (CROW_QS_ISQSCHR c) eqn:E.
  - exists r. split; [by rewrite Hl at 1|]. split; [by constructor|done].
  - exists (c :: l). split; [done|]. split; [constructor|]. right. eauto.
Qed.

(** Decoding looks at nothing behind the end of a value. *)
Lemma decode_end (t : bytes) x r : qs_text t -> CROW_QS_ISQSCHR x = false -> decode (t ++ x :: r) = decode t.
Proof.
  intros Ht Hx. assert (Hnx : CROW_QS_ISHEX x = false).
  { destruct (CROW_QS_ISHEX x) eqn:E; [|done]. apply hex_not_stop in E. congruence. }
  remember (length t) as n eqn:Hn. revert t Hn Ht.
  induction n as [n IH] using lt_wf_ind. intros t -> Ht. destruct t as [|c t]; cbn; [by rewrite Hx|].
  apply Forall_cons in Ht as [Hc Ht]. rewrite Hc. cbn [negb].
  assert (IHt : decode (t ++ x :: r) = decode t) by (eapply IH; [|reflexivity|done]; cbn; lia).
  destruct (Ascii.eqb c "+"); [by rewrite IHt|]. destruct (Ascii.eqb c "%"); [|by rewrite IHt].
  destruct t as [|a t]; cbn; [destruct r; [done|]; by rewrite Hnx|].
  destruct t as [|b t]; cbn; [by rewrite Hnx, andb_false_r|].
  destruct (_ && _); [|done]. f_equal. apply Forall_cons in Ht as [_ Ht]. apply Forall_cons in Ht as [_ Ht].
  eapply IH; [|reflexivity|done]; cbn; lia.
Qed.

Lemma cspn_app reject (a : bytes) x r : Forall (fun c => c <> NUL /\ c ∉ reject) a -> (x = NUL \/ x ∈ reject) ->
  cspn reject (a ++ x :: r) = Some (length a).
Proof.
  intros Ha Hx. induction Ha as [|c a [Hc Hr] _ IH]; cbn.
  - by rewrite bool_decide_true.
  - rewrite bool_decide_false by tauto. by rewrite IH.
Qed.

Lemma c_text_nul (a r : bytes) : c_text (a ++ NUL :: r) = c_text a.
Proof. induction a as [|c a IH]; cbn; [done|]. by rewrite IH. Qed.

Lemma c_text_app (a l : bytes) : Forall (fun c => c <> NUL) a -> c_text (a ++ l) = a ++ c_text l.
Proof. induction 1 as [|c a Hc _ IH]; cbn; [done|]. by rewrite bool_decide_false, IH. Qed.

Lemma strcspn_app (A l : bytes) reject : strcspn (A ++ l) (length A) reject = cspn reject l.
Proof. unfold strcspn. by rewrite drop_app_length. Qed.

Definition ends_pair (x : ascii) : Prop := x = NUL \/ x = "&"%char.

Lemma ends_pair_stop x : ends_pair x -> CROW_QS_ISQSCHR x = false.
Proof. by intros [-> | ->]. Qed.

Lemma value_spec (A v : bytes) x r : ends_pair x -> exists junk,
  fst <$> qs_decode (A ++ v ++ x :: r) (length A) = Some (A ++ decode v ++ NUL :: junk ++ r) /\
  length (decode v) + length junk = length v.
Proof.
  intros Hx. destruct (qs_prefix_split v) as (r1 & Hv & Ht & Hr). rewrite Hv. set (t := qs_prefix v) in *. clearbody t.
  destruct Hr as [-> | (y & r' & -> & Hy)].
  - rewrite app_nil_r. destruct (qs_decode_run A t x r Ht (ends_pair_stop x Hx)) as (junk & Hl & ->).
    by exists junk.
  - rewrite decode_end by done. rewrite <- app_assoc. cbn [app].
    destruct (qs_decode_run A t y (r' ++ x :: r) Ht Hy) as (junk & Hl & ->).
    exists (junk ++ r' ++ [x]). cbn. split; [by rewrite <- !app_assoc|]. rewrite !length_app. cbn. lia.
Qed.

(** What one pair becomes. *)
Lemma decode_pair_spec (A t : bytes) x r : pair_text t -> ends_pair x -> exists B,
  decode_pair (A ++ t ++ x :: r) (length A) = Some (A ++ B ++ r) /\ length B = S (length t) /\
  NUL ∈ B /\ forall r', c_text (B ++ r') = seen t.
Proof.
  intros Ht Hx. unfold decode_pair, seen. rewrite strcspn_app.
  assert (Hk := key_part_text t Ht). assert (Hp := parts t).
  assert (Hsp : Forall (fun c => c <> NUL /\ c ∉ ["="; "&"; "#"]%char) (key_part t)).
  { eapply Forall_impl; [exact Hk|]. intros c (H0 & H1 & H2). split; [done|].
    unfold is_sep in H2. rewrite !not_elem_of_cons. b2p. rewrite Ascii.eqb_neq in *.
    repeat split; [done..|]. apply not_elem_of_nil. }
  assert (Hc0 : Forall (fun c => c <> NUL) (key_part t)) by (eapply Forall_impl; [exact Hk|]; by intros ? []).
  destruct (value_part t) as [|c v] eqn:Ev.
  - rewrite app_nil_r in Hp. rewrite Hp in *. rewrite cspn_app by (done || (destruct Hx as [-> | ->]; [by left|right; repeat constructor])).
    cbn [mbind option_bind]. rewrite peek_app, lookup_app_r, Nat.sub_diag by lia. cbn [lookup list_lookup mbind option_bind].
    assert (Ascii.eqb x "&" || Ascii.eqb x NUL = true) as -> by by destruct Hx as [-> | ->].
    exists (t ++ [NUL]). rewrite poke_app by (rewrite length_app; cbn; lia).
    rewrite <- (Nat.add_0_r (length t)), insert_app_r. split; [by rewrite <- app_assoc|].
    rewrite length_app. split; [cbn; lia|]. split; [apply elem_of_app; right; constructor|]. intros r'. by rewrite <- app_assoc, c_text_app.
  - assert (Hs := value_part_sep _ _ _ Ev). clear Ev. set (k := key_part t) in *. clearbody k. subst t.
    assert (Hcs : c ∈ ["="; "&"; "#"]%char).
    { unfold is_sep in Hs. apply orb_true_iff in Hs as [E|E]; apply Ascii.eqb_eq in E; subst; repeat constructor. }
    rewrite <- app_assoc. cbn [app]. rewrite cspn_app by (done || by right).
    cbn [mbind option_bind]. rewrite peek_app, lookup_app_r, Nat.sub_diag by lia. cbn [lookup list_lookup mbind option_bind].
    assert (Ascii.eqb c "&" || Ascii.eqb c NUL = false) as ->.
    { unfold is_sep in Hs. apply orb_true_iff in Hs as [E|E]; apply Ascii.eqb_eq in E; by subst. }
    destruct (value_spec (A ++ k ++ [c]) v x r Hx) as (junk & Hd & Hl).
    rewrite !length_app, <- !app_assoc in Hd. cbn [length app] in Hd. rewrite Nat.add_assoc in Hd. rewrite Hd.
    exists (k ++ c :: decode v ++ NUL :: junk). rewrite !length_app. cbn [length]. rewrite !length_app. cbn [length].
    split; [by rewrite <- !app_assoc; cbn; rewrite <- app_assoc|]. split; [lia|].
    split; [apply elem_of_app; right; right; apply elem_of_app; right; constructor|].
    intros r'. rewrite <- app_assoc, c_text_app by done. f_equal. cbn.
    rewrite bool_decide_false by (unfold is_sep in Hs; intros ->; done).
    rewrite <- app_assoc. cbn [app]. by rewrite c_text_nul.
Qed.

(** ** All pairs *)

(** The pairs of a query, between the [&]s; [n] of them at most. *)
Fixpoint until_amp (q : bytes) : bytes :=
  match q with
  | [] => []
  | c :: q => if Ascii.eqb c "&" then [] else c :: until_amp q
  end.

Fixpoint after_amp (q : bytes) : option bytes :=
  match q with
  | [] => None
  | c :: q => if Ascii.eqb c "&" then Some q else after_amp q
  end.

Fixpoint pieces (n : nat) (q : bytes) : list bytes :=
  match n with
  | O => []
  | S n => until_amp q :: match after_amp q with Some q => pieces n q | None => [] end
  end.

(** What is in the array from the first pair on, with the pairs where they are. *)
Fixpoint joined (ts : list bytes) (r : bytes) : bytes :=
  match ts with
  | [] => r
  | [t] => t ++ r
  | t :: ts => t ++ "&"%char :: joined ts r
  end.

Fixpoint offsets (o : nat) (ts : list bytes) : list nat :=
  match ts with
  | [] => []
  | t :: ts => o :: offsets (o + length t + 1) ts
  end.

Lemma amp_split q : match after_amp q with Some q' => q = until_amp q ++ "&"%char :: q' | None => q = until_amp q end.
Proof.
  induction q as [|c q IH]; cbn; [done|]. destruct (Ascii.eqb_spec c "&") as [->|]; [done|].
  destruct (after_amp q); cbn; by f_equal.
Qed.

Lemma until_amp_text q : Forall (fun c => c <> NUL) q -> pair_text (until_amp q).
Proof.
  induction 1 as [|c q Hc Hq IH]; cbn; [constructor|]. destruct (Ascii.eqb_spec c "&"); [constructor|]. by constructor; [split|].
Qed.

Lemma after_amp_text q q' : after_amp q = Some q' -> Forall (fun c => c <> NUL) q -> Forall (fun c => c <> NUL) q'.
Proof.
  intros E Hq. pose proof (amp_split q) as H. rewrite E in H. rewrite H in Hq.
  by apply Forall_app in Hq as [_ [_ ?]%Forall_cons].
Qed.

Lemma pieces_text n q : Forall (fun c => c <> NUL) q -> Forall pair_text (pieces n q).
Proof.
  revert q. induction n as [|n IH]; intros q Hq; cbn; constructor; [by apply until_amp_text|].
  destruct (after_amp q) eqn:E; [|constructor]. by eapply IH, after_amp_text.
Qed.

Lemma split_pairs_spec n (P q R : bytes) : 0 < n -> Forall (fun c => c <> NUL) q -> exists x r,
  split_pairs n (P ++ q ++ NUL :: R) (length P) = Some (offsets (length P) (pieces n q)) /\
  q ++ NUL :: R = joined (pieces n q) (x :: r) /\ ends_pair x.
Proof.
  revert P q. induction n as [|n IH]; intros P q Hn Hq; [lia|]. cbn [split_pairs pieces].
  assert (Ht := until_amp_text q Hq). assert (Hs := amp_split q). assert (Ha := after_amp_text q).
  assert (Hsp : Forall (fun c => c <> NUL /\ c ∉ ["&"%char]) (until_amp q)).
  { eapply Forall_impl; [exact Ht|]. intros c []. split; [done|]. rewrite not_elem_of_cons. split; [done|by apply not_elem_of_nil]. }
  rewrite strcspn_app. destruct (after_amp q) as [q'|] eqn:E.
  - set (t := until_amp q) in *. clearbody t. specialize (Ha q' eq_refl Hq). subst q.
    rewrite <- !app_assoc. cbn [app].
    rewrite cspn_app by (done || right; constructor). cbn [mbind option_bind].
    rewrite peek_app, lookup_app_r, Nat.sub_diag by lia. cbn [lookup list_lookup mbind option_bind].
    change (Ascii.eqb "&" NUL) with false. cbv match.
    destruct n as [|n].
    { exists "&"%char, (q' ++ NUL :: R). split; [done|]. split; [done|by right]. }
    destruct (IH (P ++ t ++ ["&"%char]) q' ltac:(lia) Ha) as (x & r & H1 & H2 & Hx).
    rewrite !length_app, <- !app_assoc in H1. cbn [length app] in H1. rewrite Nat.add_assoc in H1. rewrite H1.
    exists x, r. cbn [fmap option_fmap option_map offsets]. split; [done|]. split; [|done].
    rewrite H2. cbn [joined]. by destruct (pieces (S n) q') eqn:Ep.
  - rewrite <- Hs in *. rewrite cspn_app by (done || by left). cbn [mbind option_bind].
    rewrite peek_app, lookup_app_r, Nat.sub_diag by lia. cbn [lookup list_lookup mbind option_bind].
    exists NUL, R. split; [done|]. split; [done|by left].
Qed.

Lemma decode_pairs_spec ts (P : bytes) x r : Forall pair_text ts -> ends_pair x -> ts <> [] -> exists B,
  decode_pairs (P ++ joined ts (x :: r)) (offsets (length P) ts) = Some (P ++ B ++ r) /\
  length B = length (joined ts [x]) /\
  Forall2 (fun o t => forall r', NUL ∈ drop o (P ++ B ++ r') /\ text_at (P ++ B ++ r') o = seen t)
    (offsets (length P) ts) ts.
Proof.
  intros Hts Hx. revert P. induction Hts as [|t ts Ht Hts IH]; intros P Hne; [done|].
  assert (Hone : exists y r1, P ++ joined (t :: ts) (x :: r) = P ++ t ++ y :: r1 /\ ends_pair y /\
    r1 = (match ts with [] => r | _ => joined ts (x :: r) end)).
  { destruct ts as [|t2 ts]; [by exists x, r|]. exists "&"%char, (joined (t2 :: ts) (x :: r)). split; [done|]. split; [by right|done]. }
  destruct Hone as (y & r1 & -> & Hy & Hr1). cbn [decode_pairs offsets].
  destruct (decode_pair_spec P t y r1 Ht Hy) as (B1 & -> & Hl1 & Hn1 & Hs1). cbn [mbind option_bind].
  destruct ts as [|t2 ts].
  - subst r1. exists B1. cbn [decode_pairs offsets]. split; [done|]. split; [rewrite Hl1; cbn; rewrite length_app; cbn; lia|].
    constructor; [|constructor]. intros r'. unfold text_at. rewrite drop_app_length. split; [apply elem_of_app; by left|done].
  - subst r1. destruct (IH (P ++ B1)) as (B2 & H1 & H2 & H3); [done|].
    rewrite length_app, Hl1, <- app_assoc in H1. replace (length P + S (length t)) with (length P + length t + 1) in H1 by lia.
    exists (B1 ++ B2). rewrite H1, <- !app_assoc. split; [done|].
    split; [rewrite length_app, H2, Hl1; cbn [joined]; rewrite length_app; cbn; lia|].
    constructor.
    + intros r'. unfold text_at. rewrite drop_app_length, <- app_assoc. split; [apply elem_of_app; by left|apply Hs1].
    + rewrite length_app, Hl1 in H3. replace (length P + S (length t)) with (length P + length t + 1) in H3 by lia.
      eapply Forall2_impl; [exact H3|]. intros o t' Ho r'. specialize (Ho r'). by rewrite <- !app_assoc in *.
Qed.

(** The query of a URL: what follows the first [?] or [#]. *)
Fixpoint query_of (url : bytes) : option bytes :=
  match url with
  | [] => None
  | c :: url => if Ascii.eqb c "?" || Ascii.eqb c "#" then Some url else query_of url
  end.

Lemma query_of_split u :
  match query_of u with
  | Some q => exists p c, u = p ++ c :: q /\ Forall (fun c => c ∉ ["?"; "#"]%char) p /\ c ∈ ["?"; "#"]%char
  | None => Forall (fun c => c ∉ ["?"; "#"]%char) u
  end.
Proof.
  induction u as [|c u IH]; cbn; [constructor|].
  destruct (Ascii.eqb_spec c "?") as [->|H1]; [exists [], "?"%char; split; [done|]; split; [constructor|constructor]|].
  destruct (Ascii.eqb_spec c "#") as [->|H2]; [exists [], "#"%char; split; [done|]; split; [constructor|repeat constructor]|].
  assert (Hc : c ∉ ["?"; "#"]%char) by (rewrite !not_elem_of_cons; repeat split; [done|done|apply not_elem_of_nil]).
  cbn. destruct (query_of u) as [q|]; [|by constructor].
  destruct IH as (p & c' & -> & Hp & Hc'). exists (c :: p), c'. split; [done|]. split; [by constructor|done].
Qed.

Lemma c_text_split (l : bytes) : NUL ∈ l -> exists R, l = c_text l ++ NUL :: R.
Proof.
  induction l as [|c l IH]; intros H; [by apply not_elem_of_nil in H|]. cbn. case_bool_decide as Hc.
  - subst. by exists l.
  - apply elem_of_cons in H as [H|H]; [congruence|]. destruct (IH H) as [R HR]. exists R. cbn. by f_equal.
Qed.

Lemma c_text_free (l : bytes) : Forall (fun c => c <> NUL) (c_text l).
Proof. induction l as [|c l IH]; cbn; [constructor|]. case_bool_decide; by constructor. Qed.

Lemma c_text_terminated (url : bytes) : exists R, url ++ [NUL] = c_text url ++ NUL :: R.
Proof.
  destruct (c_text_split (url ++ [NUL])) as [R HR]; [apply elem_of_app; right; constructor|].
  exists R. by rewrite HR at 1; rewrite c_text_nul.
Qed.

(** The pairs of a URL. *)
Definition pairs_of (n : nat) (url : bytes) : list bytes :=
  match query_of (c_text url) with Some q => pieces n q | None => [] end.

(** A pair in an array: its text from an offset on, terminated. *)
Definition stands (s : bytes) (o : nat) (l : bytes) : Prop := exists R, drop o s = l ++ NUL :: R.

Lemma qs_parse_run n url : 0 < n -> exists s kvs,
  qs_parse (url ++ [NUL]) n = Some (s, kvs) /\ length s = S (length url) /\
  Forall2 (stands s) kvs (map seen (pairs_of n url)).
Proof.
  intros Hn. destruct (c_text_terminated url) as [R HR].
  assert (Hlen := f_equal length HR). rewrite !length_app in Hlen. cbn in Hlen.
  rewrite HR. unfold qs_parse, pairs_of. assert (Hfree := c_text_free url).
  set (u := c_text url) in *. clearbody u. assert (Hq := query_of_split u).
  rewrite (strcspn_app [] (u ++ NUL :: R)). destruct (query_of u) as [q|].
  - destruct Hq as (p & c & -> & Hp & Hc). apply Forall_app in Hfree as [Hfp [Hcn Hfq]%Forall_cons].
    rewrite <- app_assoc. cbn [app]. rewrite cspn_app; [|apply Forall_and; by split|by right].
    cbn [mbind option_bind]. unfold peek at 1. rewrite lookup_app_r, Nat.sub_diag by lia.
    cbn [lookup list_lookup mbind option_bind]. rewrite (proj2 (Ascii.eqb_neq c NUL)) by done.
    destruct (split_pairs_spec n (p ++ [c]) q R Hn Hfq) as (x & r & H1 & H2 & Hx).
    rewrite length_app, <- app_assoc in H1. cbn [length app] in H1. rewrite H1. cbn [mbind option_bind].
    assert (Hne : pieces n q <> []) by (destruct n; [lia|done]).
    destruct (decode_pairs_spec (pieces n q) (p ++ [c]) x r (pieces_text n q Hfq) Hx Hne) as (B & H3 & H4 & H5).
    rewrite length_app, <- !app_assoc, <- H2 in H3. cbn [length app] in H3. rewrite H3. cbn [mbind option_bind].
    eexists _, _. split; [done|]. split.
    { rewrite length_app in *. cbn [length]. rewrite length_app, H4. apply (f_equal length) in H2.
      assert (Hj : length (joined (pieces n q) (x :: r)) = length (joined (pieces n q) [x]) + length r).
      { clear. induction (pieces n q) as [|t ts IH]; [done|]. destruct ts as [|t2 ts]; cbn [joined] in *;
          rewrite ?length_app; cbn [length] in *; lia. }
      rewrite ?length_app in *. cbn [length] in *. rewrite ?length_app in *. cbn [length] in *. lia. }
    rewrite length_app in H5. cbn [length] in H5. rewrite Forall2_fmap_r. eapply Forall2_impl; [exact H5|].
    intros o t Ho. destruct (Ho r) as [Hn0 Ht]. rewrite <- app_assoc in *. cbn [app] in *.
    destruct (c_text_split _ Hn0) as [R' HR']. exists R'. rewrite HR'. unfold text_at in Ht. by rewrite Ht.
  - rewrite cspn_app; [|apply Forall_and; by split|by left].
    cbn [mbind option_bind]. unfold peek at 1. rewrite lookup_app_r, Nat.sub_diag by lia.
    cbn [lookup list_lookup mbind option_bind]. change (Ascii.eqb NUL NUL) with true. cbv match.
    eexists _, _. split; [done|]. split; [rewrite length_app; cbn; lia|constructor].
Qed.

(** ** Lookups *)

(** The decoded key of a pair; [None] where an escape is not one. *)
Fixpoint decode_key (l : bytes) : option bytes :=
  match l with
  | [] => Some []
  | c :: l =>
      if negb (CROW_QS_ISQSCHR c) then Some []
      else if Ascii.eqb c "+" then cons " "%char <$> decode_key l
      else if Ascii.eqb c "%" then
        match l with
        | a :: b :: l => if CROW_QS_ISHEX a && CROW_QS_ISHEX b then cons (hex_byte a b) <$> decode_key l else None
        | _ => None
        end
      else cons c <$> decode_key l
  end.

(** A character of a name that stands for itself. *)
Definition plain_char (c : ascii) : Prop := CROW_QS_ISQSCHR c = true /\ c <> "+"%char /\ c <> "%"%char.

Lemma plain_step (N : bytes) a l : plain_char a ->
  qs_char a = a /\ unescape (N ++ a :: l) (length N + 1) a = Some (a, length (N ++ [a])) /\ a <> NUL.
Proof.
  intros (H1 & H2 & H3). unfold qs_char, unescape. rewrite H1.
  rewrite (proj2 (Ascii.eqb_neq _ _) H2), (proj2 (Ascii.eqb_neq _ _) H3), length_app.
  split; [done|]. split; [done|]. by intros ->.
Qed.

Lemma compare_chars a u2 (next : option Z) (Q : Prop) : a <> NUL -> (a <> u2 -> ~ Q) ->
  (a = u2 -> exists r, next = Some r /\ (r = 0%Z <-> Q)) ->
  exists r, (if negb (Ascii.eqb a u2) then Some (uc a - uc u2)%Z
    else if Ascii.eqb a NUL then Some 0%Z else next) = Some r /\ (r = 0%Z <-> Q).
Proof.
  intros Ha Hne Heq. destruct (Ascii.eqb_spec a u2) as [->|Hn]; cbn [negb].
  - rewrite (proj2 (Ascii.eqb_neq _ _) Ha). by apply Heq.
  - eexists. split; [done|]. split; [|by intros ?%Hne]. intros H. exfalso. apply Hn, uc_inj. lia.
Qed.

Lemma strncmp_spec name : forall (N P l R : bytes) k, Forall plain_char name -> Forall (fun c => c <> NUL) l ->
  decode_key l = Some k -> exists r,
    qs_strncmp (N ++ name ++ [NUL]) (length N) (P ++ l ++ NUL :: R) (length P) (length name) = Some r /\
    (r = 0%Z <-> k = name).
Proof.
  induction name as [|a name IH]; intros N P l R k Hname Hl Hk; cbn [length qs_strncmp].
  - destruct l as [|c l]; cbn [app]; rewrite peek_head; cbn [mbind option_bind].
    + injection Hk as <-. by exists 0%Z.
    + eexists. split; [done|]. cbn in Hk. destruct (CROW_QS_ISQSCHR c); cbn in Hk; [|by injection Hk as <-].
      split; [done|]. intros ->. repeat case_match; try done; by destruct (decode_key _).
  - apply Forall_cons in Hname as [Ha Hname]. cbn [app]. rewrite peek_head. cbn [mbind option_bind].
    destruct (plain_step N a (name ++ [NUL]) Ha) as (-> & -> & Ha0). cbn [mbind option_bind].
    destruct l as [|c l]; cbn [app]; rewrite peek_head; cbn [mbind option_bind].
    { injection Hk as <-. change (unescape _ _ (qs_char NUL)) with (Some (NUL, length P + 1)). cbn [mbind option_bind].
      by apply compare_chars. }
    apply Forall_cons in Hl as [Hc Hl]. cbn [decode_key] in Hk. unfold qs_char.
    destruct (CROW_QS_ISQSCHR c) eqn:Eq; cbn [negb] in Hk.
    2: { injection Hk as <-. change (unescape _ _ NUL) with (Some (NUL, length P + 1)). cbn [mbind option_bind].
      by apply compare_chars. }
    assert (Hnext : forall u2 skipped l' k', c :: l = skipped ++ l' -> decode_key l' = Some k' -> k = u2 :: k' ->
      exists r, (if negb (Ascii.eqb a u2) then Some (uc a - uc u2)%Z
        else if Ascii.eqb a NUL then Some 0%Z
        else qs_strncmp (N ++ a :: name ++ [NUL]) (length (N ++ [a])) (P ++ c :: l ++ NUL :: R)
               (length P + length skipped) (length name)) = Some r /\ (r = 0%Z <-> k = a :: name)).
    { intros u2 skipped l' k' Hs Hk' ->. apply compare_chars; [done|congruence|]. intros <-.
      destruct (IH (N ++ [a]) (P ++ skipped) l' R k' Hname) as (r & Hr & Hr'); [|done|].
      { assert (Hx : Forall (fun c => c <> NUL) (skipped ++ l')) by (rewrite <- Hs; by constructor).
        by apply Forall_app in Hx as [_ ?]. }
      exists r. rewrite <- !app_assoc, (app_assoc skipped), <- Hs, (length_app P) in Hr. cbn [app] in Hr.
      split; [exact Hr|]. rewrite Hr'. split; [by intros ->|congruence]. }
    unfold unescape. destruct (Ascii.eqb c "+") eqn:E1.
    { destruct (decode_key l) as [k'|] eqn:Ek; [|done]. injection Hk as <-. cbn [mbind option_bind].
      by apply (Hnext " "%char [c] l k'). }
    destruct (Ascii.eqb c "%") eqn:E2.
    + destruct l as [|x [|y l]]; try done. destruct (CROW_QS_ISHEX x && CROW_QS_ISHEX y) eqn:Eh; [|done].
      destruct (decode_key l) as [k'|] eqn:Ek; [|done]. injection Hk as <-.
      assert (Hp1 : peek (P ++ c :: (x :: y :: l) ++ NUL :: R) (length P + 1) = Some x) by by rewrite peek_app.
      assert (Hp2 : peek (P ++ c :: (x :: y :: l) ++ NUL :: R) (length P + 1 + 1) = Some y).
      { rewrite <- Nat.add_assoc. by rewrite peek_app. }
      rewrite Hp1. cbn [mbind option_bind]. rewrite Hp2. cbn [mbind option_bind]. rewrite Eh.
      replace (length P + 1 + 2) with (length P + 3) by lia.
      by apply (Hnext (hex_byte x y) [c; x; y] l k').
    + destruct (decode_key l) as [k'|] eqn:Ek; [|done]. injection Hk as <-. cbn [mbind option_bind].
      by apply (Hnext c [c] l k').
Qed.

(** What stands behind the first [=]. *)
Fixpoint after_eq (l : bytes) : bytes :=
  match l with
  | [] => []
  | c :: l => if Ascii.eqb c "=" then l else after_eq l
  end.

Lemma skip_eq (l R : bytes) : Forall (fun c => c <> NUL) l -> exists j,
  cspn ["="%char] (l ++ NUL :: R) = Some j /\
  exists c, (l ++ NUL :: R) !! j = Some c /\
    drop (if Ascii.eqb c "=" then j + 1 else j) (l ++ NUL :: R) = after_eq l ++ NUL :: R.
Proof.
  induction 1 as [|c l Hc Hl IH]; cbn.
  - exists 0. split; [done|]. by exists NUL.
  - destruct (Ascii.eqb_spec c "=") as [->|Hne].
    + exists 0. rewrite bool_decide_true by (right; constructor). split; [done|]. by exists "="%char.
    + rewrite bool_decide_false.
      2: { intros [?|Hin]; [done|]. apply elem_of_cons in Hin as [?|Hin]; [done|]. by apply not_elem_of_nil in Hin. }
      destruct IH as (j & Hj & c' & Hc' & Hd). exists (S j). rewrite Hj. split; [done|]. exists c'. split; [done|].
      by destruct (Ascii.eqb c' "=").
Qed.

Lemma after_eq_free l : Forall (fun c => c <> NUL) l -> Forall (fun c => c <> NUL) (after_eq l).
Proof. induction 1 as [|c l Hc Hl IH]; cbn; [constructor|]. by destruct (Ascii.eqb c "="). Qed.

Lemma c_text_id l : Forall (fun c => c <> NUL) l -> c_text l = l.
Proof. intros Hl. rewrite <- (app_nil_r l) at 1. rewrite c_text_app by done. cbn. by rewrite app_nil_r. Qed.

(** A pair whose key is well formed. *)
Definition keyed (l : bytes) : Prop := Forall (fun c => c <> NUL) l /\ is_Some (decode_key l).

Lemma qs_k2v_spec name s kvs ls nth : Forall plain_char name -> Forall2 (stands s) kvs ls -> Forall keyed ls ->
  exists r, qs_k2v (name ++ [NUL]) (length name) s kvs nth = Some r /\
    option_map (text_at s) r =
      option_map after_eq (List.filter (fun l => bool_decide (decode_key l = Some name)) ls !! nth).
Proof.
  intros Hname Hst. revert nth. induction Hst as [|kv l kvs ls [R HR] Hst IH]; intros nth Hls; cbn [qs_k2v].
  { by exists None. }
  apply Forall_cons in Hls as [[Hl [k Hk]] Hls].
  assert (Hs : s = take kv s ++ l ++ NUL :: R) by (rewrite <- HR; by rewrite take_drop).
  assert (Hkv : length (take kv s) = kv).
  { rewrite length_take. apply (f_equal length) in HR. rewrite length_drop, length_app in HR. cbn in HR. lia. }
  destruct (strncmp_spec name [] (take kv s) l R k Hname Hl Hk) as (r & Hr & Hr').
  rewrite Hkv in Hr. cbn [app length] in Hr. rewrite <- Hs in Hr. rewrite Hr. cbn [mbind option_bind List.filter].
  rewrite Hk. destruct (Z.eqb_spec r 0) as [Hz|Hz].
  - apply Hr' in Hz as ->. rewrite bool_decide_true by done.
    destruct (skip_eq l R Hl) as (j & Hj & c & Hc & Hd). unfold strcspn. rewrite HR, Hj. cbn [mbind option_bind].
    assert (Hpk : peek s (kv + j) = Some c).
    { rewrite Hs. rewrite <- Hkv at 2. rewrite Hkv. rewrite <- Hkv at 2. rewrite peek_app. done. }
    rewrite Hpk. cbn [mbind option_bind]. destruct nth as [|nth]; [|by apply IH].
    eexists. split; [done|]. cbn. f_equal. unfold text_at. rewrite <- drop_drop, HR, Hd, c_text_nul.
    by apply c_text_id, after_eq_free.
  - rewrite bool_decide_false by (intros [= ->]; by apply Hz, Hr'). by apply IH.
Qed.

(** ** The theorems *)

Lemma decode_key_end (t : bytes) x r : qs_text t -> CROW_QS_ISQSCHR x = false ->
  decode_key (t ++ x :: r) = decode_key t.
Proof.
  intros Ht Hx. assert (Hnx : CROW_QS_ISHEX x = false).
  { destruct (CROW_QS_ISHEX x) eqn:E; [|done]. apply hex_not_stop in E. congruence. }
  remember (length t) as n eqn:Hn. revert t Hn Ht.
  induction n as [n IH] using lt_wf_ind. intros t -> Ht. destruct t as [|c t]; cbn; [by rewrite Hx|].
  apply Forall_cons in Ht as [Hc Ht]. rewrite Hc. cbn [negb].
  assert (IHt : decode_key (t ++ x :: r) = decode_key t) by (eapply IH; [|reflexivity|done]; cbn; lia).
  destruct (Ascii.eqb c "+"); [by rewrite IHt|]. destruct (Ascii.eqb c "%"); [|by rewrite IHt].
  destruct t as [|a t]; cbn; [destruct r; [done|]; by rewrite Hnx|].
  destruct t as [|b t]; cbn; [by rewrite Hnx, andb_false_r|].
  destruct (_ && _); [|done]. f_equal. apply Forall_cons in Ht as [_ Ht]. apply Forall_cons in Ht as [_ Ht].
  eapply IH; [|reflexivity|done]; cbn; lia.
Qed.

Lemma key_qs_text t : pair_text t -> qs_text (key_part t).
Proof.
  intros Ht. eapply Forall_impl; [apply key_part_text, Ht|]. intros c (H0 & H1 & H2).
  unfold CROW_QS_ISQSCHR, is_sep in *. apply orb_false_iff in H2 as [-> ->].
  by rewrite (proj2 (Ascii.eqb_neq _ _) H0), (proj2 (Ascii.eqb_neq _ _) H1).
Qed.

Lemma sep_stop c : is_sep c = true -> CROW_QS_ISQSCHR c = false.
Proof. unfold is_sep, CROW_QS_ISQSCHR. by intros ->. Qed.

Lemma seen_key t : pair_text t -> decode_key (seen t) = decode_key t.
Proof.
  intros Ht. assert (Hk := key_qs_text t Ht). assert (Hp := parts t). unfold seen.
  destruct (value_part t) as [|c v] eqn:Ev; [by rewrite Hp|].
  assert (Hs := sep_stop _ (value_part_sep _ _ _ Ev)). rewrite <- Hp at 2. by rewrite !decode_key_end.
Qed.

Lemma seen_free t : pair_text t -> Forall (fun c => c <> NUL) (seen t).
Proof.
  intros Ht. unfold seen. apply Forall_app. split.
  - eapply Forall_impl; [apply key_part_text, Ht|]. by intros c [].
  - destruct (value_part t) as [|c v] eqn:Ev; constructor; [|apply c_text_free].
    intros ->. by apply value_part_sep in Ev.
Qed.

(** C38: [qs_parse] of a URL with its terminator stays inside the array, does not
    change its length, and finds the pairs of the query, at most as many as asked for,
    where they are: what stands at the offset of a pair is its key as it was written,
    the separator, and the decoding of its value by itself up to the first NUL. *)
Theorem qs_parse_spec n url : 0 < n -> exists s kvs,
  qs_parse (url ++ [NUL]) n = Some (s, kvs) /\ length s = S (length url) /\ length kvs <= n /\
  map (text_at s) kvs = map seen (pairs_of n url).
Proof.
  intros Hn. destruct (qs_parse_run n url Hn) as (s & kvs & H & Hl & Hs). exists s, kvs. split; [done|]. split; [done|].
  assert (Hp : Forall pair_text (pairs_of n url)).
  { unfold pairs_of. assert (Hf := c_text_free url). assert (Hq := query_of_split (c_text url)).
    destruct (query_of (c_text url)) as [q|]; [|constructor]. destruct Hq as (p & c & Hu & _). rewrite Hu in Hf.
    apply Forall_app in Hf as [_ [_ Hf]%Forall_cons]. by apply pieces_text. }
  split.
  { apply Forall2_length in Hs. rewrite Hs, length_map. unfold pairs_of. destruct (query_of _) as [q|]; cbn; [|lia].
    clear. revert q. induction n as [|n IH]; intros q; cbn; [lia|]. destruct (after_amp q); cbn; [|lia].
    by apply le_n_S. }
  clear - Hs Hp. revert kvs Hs. induction Hp as [|t ts Ht _ IH]; intros kvs Hs; inversion Hs as [|o ? kvs' ? [R HR]]; subst.
  - done.
  - cbn. f_equal; [|by apply IH]. unfold text_at. rewrite HR, c_text_nul. by apply c_text_id, seen_free.
Qed.

(** The value of a pair, as it is looked up. *)
Definition value_of (t : bytes) : bytes := after_eq (seen t).

Lemma filter_map {A B} (f : A -> B) (p : B -> bool) l :
  List.filter p (map f l) = map f (List.filter (fun a => p (f a)) l).
Proof. induction l as [|a l IH]; cbn; [done|]. destruct (p (f a)); cbn; by rewrite IH. Qed.

Lemma pairs_text n url : Forall pair_text (pairs_of n url).
Proof.
  unfold pairs_of. assert (Hf := c_text_free url). assert (Hq := query_of_split (c_text url)).
  destruct (query_of (c_text url)) as [q|]; [|constructor]. destruct Hq as (p & c & Hu & _). rewrite Hu in Hf.
  apply Forall_app in Hf as [_ [_ Hf]%Forall_cons]. by apply pieces_text.
Qed.

(** The values of a name in a URL. *)
Definition values (name url : bytes) : list bytes :=
  map value_of (List.filter (fun t => bool_decide (decode_key t = Some name))
    (pairs_of MAX_KEY_VALUE_PAIRS_COUNT url)).

Lemma plain_free name : Forall plain_char name -> Forall (fun c => c <> NUL) name.
Proof. intros H. eapply Forall_impl; [exact H|]. intros c (Hc & _) ->. by vm_compute in Hc. Qed.

Lemma lookup_spec name url nth qs : query_string_of url = Some qs -> url <> [] -> Forall plain_char name ->
  Forall (fun t => is_Some (decode_key t)) (pairs_of MAX_KEY_VALUE_PAIRS_COUNT url) ->
  exists r, lookup_key name qs nth = Some r /\ option_map (text_at (url_ qs)) r = values name url !! nth.
Proof.
  intros Hqs Hurl Hname Hkeys. unfold query_string_of in Hqs. rewrite decide_False in Hqs by done.
  destruct (qs_parse_run MAX_KEY_VALUE_PAIRS_COUNT url ltac:(unfold MAX_KEY_VALUE_PAIRS_COUNT; lia))
    as (s & kvs & H & Hl & Hs).
  rewrite H in Hqs. injection Hqs as <-. unfold lookup_key. cbn [url_ key_value_pairs_].
  rewrite (c_text_id name) by by apply plain_free.
  assert (Ht := pairs_text MAX_KEY_VALUE_PAIRS_COUNT url).
  destruct (qs_k2v_spec name s kvs _ nth Hname Hs) as (r & -> & Hr).
  { apply Forall_fmap. clear - Hkeys Ht. induction Ht as [|t ts Ht _ IH]; [constructor|].
    apply Forall_cons in Hkeys as [Hk Hkeys]. constructor; [|by apply IH].
    split; [by apply seen_free|by rewrite seen_key]. }
  exists r. split; [done|]. rewrite Hr. unfold values. rewrite filter_map.
  rewrite (filter_ext_in _ (fun t => bool_decide (decode_key t = Some name))).
  2: { intros t Hin. rewrite seen_key; [done|]. rewrite Forall_forall in Ht. apply Ht, list_elem_of_In, Hin. }
  change (map value_of ?l) with ((fun t => after_eq (seen t)) <$> l). rewrite list_lookup_fmap.
  change (map seen ?l) with (seen <$> l). rewrite list_lookup_fmap. clear Hr. by destruct (List.filter _ _ !! nth).
Qed.

(** A lookup of a name made of unreserved characters stays inside the
    arrays and returns the value of the first pair with that key, decoded, or the
    null pointer when there is none, for every URL whose keys are well formed. *)
Theorem get_spec name url : url <> [] -> Forall plain_char name ->
  Forall (fun t => is_Some (decode_key t)) (pairs_of MAX_KEY_VALUE_PAIRS_COUNT url) ->
  exists qs r, query_string_of url = Some qs /\ get name qs = Some r /\
    option_map (text_at (url_ qs)) r = head (values name url).
Proof.
  intros Hurl Hname Hkeys.
  destruct (qs_parse_run MAX_KEY_VALUE_PAIRS_COUNT url ltac:(unfold MAX_KEY_VALUE_PAIRS_COUNT; lia)) as (s & kvs & H & _).
  assert (Hqs : query_string_of url = Some (QueryString s kvs)).
  { unfold query_string_of. by rewrite decide_False, H by done. }
  destruct (lookup_spec name url 0 _ Hqs Hurl Hname Hkeys) as (r & Hr & Hv).
  exists (QueryString s kvs), r. split; [done|]. split; [done|]. rewrite Hv. by destruct (values name url).
Qed.

Lemma pairs_bound n url : length (pairs_of n url) <= n.
Proof.
  unfold pairs_of. destruct (query_of _) as [q|]; cbn; [|lia].
  revert q. induction n as [|n IH]; intros q; cbn; [lia|]. destruct (after_amp q); cbn; [|lia]. by apply le_n_S.
Qed.

Lemma list_from_spec fuel plus qs count vs : length vs < count + fuel -> count <= length vs ->
  (forall nth, exists r, lookup_key plus qs nth = Some r /\ option_map (text_at (url_ qs)) r = vs !! nth) ->
  exists l, list_from fuel plus qs count = Some l /\ map (text_at (url_ qs)) l = drop count vs.
Proof.
  revert count. induction fuel as [|fuel IH]; intros count Hf Hc Hl; [lia|]. cbn [list_from].
  destruct (Hl count) as (r & -> & Hr). cbn [mbind option_bind]. destruct r as [o|]; cbn in Hr.
  - assert (count < length vs) by (apply lookup_lt_is_Some; eauto).
    destruct (IH (count + 1)) as (l & -> & Hm); [lia|lia|done|]. exists (o :: l). split; [done|].
    cbn. rewrite Hm. by rewrite (drop_S vs (text_at (url_ qs) o) count), Nat.add_1_r.
  - exists []. split; [done|]. symmetry in Hr. apply lookup_ge_None in Hr. by rewrite drop_ge.
Qed.

(** C39: Let the name be of characters that stand for themselves (no separator, "+" or
    "%"), and let every key among the first 256 pairs of the URL (as many as are kept)
    be well formed: each "%" in it begins a complete escape.  Then [get_list] ends
    within its arrays, and returns the values of all of these pairs whose decoded key
    is the name, with "[]" behind it where brackets are asked for, in order.  A key
    with an incomplete escape is read past its end ([strncmp_past_end]). *)
Theorem get_list_spec name use_brackets url : Forall plain_char name ->
  Forall (fun t => is_Some (decode_key t)) (pairs_of MAX_KEY_VALUE_PAIRS_COUNT url) ->
  exists qs l, query_string_of url = Some qs /\ get_list name use_brackets qs = Some l /\
    map (text_at (url_ qs)) l = values (list_key name use_brackets) url.
Proof.
  intros Hname Hkeys. destruct (decide (url = [])) as [->|Hurl]; [by exists (QueryString [NUL] []), []|].
  destruct (qs_parse_run MAX_KEY_VALUE_PAIRS_COUNT url ltac:(unfold MAX_KEY_VALUE_PAIRS_COUNT; lia)) as (s & kvs & H & _ & Hs).
  assert (Hqs : query_string_of url = Some (QueryString s kvs)).
  { unfold query_string_of. by rewrite decide_False, H by done. }
  assert (Hplus : Forall plain_char (list_key name use_brackets)).
  { unfold list_key. apply Forall_app. split; [done|]. destruct use_brackets; [|constructor].
    constructor; [by split_and!|]. constructor; [by split_and!|constructor]. }
  destruct (list_from_spec (S (length kvs)) (list_key name use_brackets) (QueryString s kvs) 0
    (values (list_key name use_brackets) url)) as (l & Hl & Hm).
  - apply Forall2_length in Hs. rewrite length_map in Hs. unfold values. rewrite length_map, Hs.
    pose proof (filter_length_le (fun t => bool_decide (decode_key t = Some (list_key name use_brackets)))
      (pairs_of MAX_KEY_VALUE_PAIRS_COUNT url)). lia.
  - lia.
  - intros nth. by apply lookup_spec.
  - exists (QueryString s kvs), l. by rewrite Hm, drop_0.
Qed.

(** *** What is encoded is found again *)

Definition hex_digit (n : N) : ascii := Ascii.ascii_of_N (if decide (n < 10)%N then 48 + n else 55 + n)%N.

Definition encode_char (c : ascii) : bytes :=
  ["%"%char; hex_digit (Ascii.N_of_ascii c / 16); hex_digit (Ascii.N_of_ascii c mod 16)]%N.

(** Every character of a value escaped. *)
Definition encode (v : bytes) : bytes := List.flat_map encode_char v.

Definition pair_of (kv : bytes * bytes) : bytes := kv.1 ++ "="%char :: encode kv.2.

Definition url_of (path : bytes) (kvs : list (bytes * bytes)) : bytes :=
  path ++ "?"%char :: joined (map pair_of kvs) [].

Lemma encode_char_ok c : exists a b, encode_char c = ["%"%char; a; b] /\ CROW_QS_ISHEX a = true /\
  CROW_QS_ISHEX b = true /\ hex_byte a b = c.
Proof. eexists _, _. split; [done|]. by destruct c as [[] [] [] [] [] [] [] []]. Qed.

Lemma decode_encode v : decode (encode v) = v.
Proof.
  induction v as [|c v IH]; [done|]. change (encode (c :: v)) with (encode_char c ++ encode v).
  destruct (encode_char_ok c) as (a & b & -> & Ha & Hb & Hh). cbn. by rewrite Ha, Hb, Hh, IH.
Qed.

Definition text_char (c : ascii) : Prop := CROW_QS_ISQSCHR c = true.

Lemma encode_text v : Forall text_char (encode v).
Proof.
  induction v as [|c v IH]; [constructor|]. change (encode (c :: v)) with (encode_char c ++ encode v).
  destruct (encode_char_ok c) as (a & b & -> & Ha & Hb & _). repeat constructor; [by apply hex_not_stop..|done].
Qed.

Lemma qschr_not c : CROW_QS_ISQSCHR c = true -> c <> NUL /\ c <> "&"%char /\ is_sep c = false.
Proof. destruct c as [[] [] [] [] [] [] [] []]; try done; by split_and!. Qed.

Lemma key_part_app k c v : Forall text_char k -> is_sep c = true -> key_part (k ++ c :: v) = k /\ value_part (k ++ c :: v) = c :: v.
Proof.
  intros Hk Hc. induction Hk as [|a k Ha _ [IH1 IH2]]; cbn; [by rewrite Hc|].
  destruct (qschr_not a Ha) as (_ & _ & ->). by rewrite IH1, IH2.
Qed.

Lemma decode_key_plain k : Forall plain_char k -> decode_key k = Some k.
Proof.
  induction 1 as [|c k (H1 & H2 & H3) _ IH]; cbn; [done|].
  rewrite H1, (proj2 (Ascii.eqb_neq _ _) H2), (proj2 (Ascii.eqb_neq _ _) H3), IH. done.
Qed.

Lemma plain_text k : Forall plain_char k -> Forall text_char k.
Proof. intros H. eapply Forall_impl; [exact H|]. by intros c []. Qed.

Lemma pair_of_spec k v : Forall plain_char k -> Forall (fun c => c <> NUL) v ->
  decode_key (pair_of (k, v)) = Some k /\ value_of (pair_of (k, v)) = v.
Proof.
  intros Hk Hv. assert (Hk' := plain_text k Hk). unfold pair_of. cbn [fst snd]. split.
  - rewrite decode_key_end by (exact Hk' || done). by apply decode_key_plain.
  - unfold value_of, seen. destruct (key_part_app k "=" (encode v) Hk' eq_refl) as [-> ->].
    rewrite decode_encode, (c_text_id v Hv). clear Hk. induction Hk' as [|c k Hc _ IH]; cbn; [done|].
    destruct (qschr_not c Hc) as (_ & _ & Hs). unfold is_sep in Hs. apply orb_false_iff in Hs as [-> _]. done.
Qed.

Lemma amp_free t : Forall (fun c => c <> "&"%char) t -> until_amp t = t /\ after_amp t = None.
Proof.
  induction 1 as [|c t Hc _ [IH1 IH2]]; cbn; [done|]. by rewrite (proj2 (Ascii.eqb_neq _ _) Hc), IH1, IH2.
Qed.

Lemma amp_app t q : Forall (fun c => c <> "&"%char) t ->
  until_amp (t ++ "&"%char :: q) = t /\ after_amp (t ++ "&"%char :: q) = Some q.
Proof.
  induction 1 as [|c t Hc _ [IH1 IH2]]; cbn; [done|]. by rewrite (proj2 (Ascii.eqb_neq _ _) Hc), IH1, IH2.
Qed.

Lemma pieces_joined n ts : ts <> [] -> length ts <= n -> Forall (Forall (fun c => c <> "&"%char)) ts ->
  pieces n (joined ts []) = ts.
Proof.
  revert n. induction ts as [|t ts IH]; intros n Hne Hn Hts; [done|].
  destruct n as [|n]; [cbn in Hn; lia|]. apply Forall_cons in Hts as [Ht Hts]. cbn [pieces].
  destruct ts as [|t2 ts].
  - cbn [joined]. rewrite app_nil_r. destruct (amp_free t Ht) as [-> ->]. done.
  - change (joined (t :: t2 :: ts) []) with (t ++ "&"%char :: joined (t2 :: ts) []).
    destruct (amp_app t (joined (t2 :: ts) []) Ht) as [-> ->]. f_equal. apply IH; [done|cbn in *; lia|done].
Qed.

Lemma query_of_app path q : Forall (fun c => c ∉ ["?"; "#"]%char) path -> query_of (path ++ "?"%char :: q) = Some q.
Proof.
  induction 1 as [|c p Hc _ IH]; [done|]. cbn. rewrite !not_elem_of_cons in Hc. destruct Hc as (H1 & H2 & _).
  by rewrite (proj2 (Ascii.eqb_neq _ _) H1), (proj2 (Ascii.eqb_neq _ _) H2).
Qed.

(** Names of unreserved characters and values without NUL, and a path in front. *)
Definition encodable (path : bytes) (kvs : list (bytes * bytes)) : Prop :=
  Forall (fun c => c <> NUL /\ c ∉ ["?"; "#"]%char) path /\ kvs <> [] /\
  length kvs <= MAX_KEY_VALUE_PAIRS_COUNT /\
  Forall (fun kv => Forall plain_char kv.1 /\ Forall (fun c => c <> NUL) kv.2) kvs.

Lemma pair_of_text k v : Forall plain_char k -> Forall text_char k -> pair_text (pair_of (k, v)).
Proof.
  intros _ Hk. unfold pair_of, pair_text. cbn. apply Forall_app. split; [|constructor; [by split|]].
  - eapply Forall_impl; [exact Hk|]. intros c Hc. destruct (qschr_not c Hc) as (? & ? & _). by split.
  - eapply Forall_impl; [apply encode_text|]. intros c Hc. destruct (qschr_not c Hc) as (? & ? & _). by split.
Qed.

Lemma joined_free ts r : Forall (Forall (fun c => c <> NUL)) ts -> Forall (fun c => c <> NUL) r ->
  Forall (fun c => c <> NUL) (joined ts r).
Proof.
  intros Hts Hr. induction Hts as [|t ts Ht _ IH]; [done|]. destruct ts as [|t2 ts]; cbn [joined] in *.
  - by apply Forall_app.
  - apply Forall_app. split; [done|]. by constructor.
Qed.

Lemma pairs_of_url path kvs : encodable path kvs ->
  pairs_of MAX_KEY_VALUE_PAIRS_COUNT (url_of path kvs) = map pair_of kvs.
Proof.
  intros (Hpath & Hne & Hlen & Hkvs). unfold pairs_of.
  assert (Ht : Forall pair_text (map pair_of kvs)).
  { apply Forall_fmap. eapply Forall_impl; [exact Hkvs|]. intros [k v] [Hk _]. cbn in *.
    by apply pair_of_text, plain_text. }
  rewrite c_text_id.
  - unfold url_of. rewrite query_of_app by (eapply Forall_impl; [exact Hpath|]; by intros ? []).
    apply pieces_joined; [by destruct kvs|by rewrite length_map|].
    eapply Forall_impl; [exact Ht|]. intros t Htt. eapply Forall_impl; [exact Htt|]. by intros ? [].
  - unfold url_of. apply Forall_app. split; [eapply Forall_impl; [exact Hpath|]; by intros ? []|].
    constructor; [done|]. apply joined_free; [|constructor].
    eapply Forall_impl; [exact Ht|]. intros t Htt. eapply Forall_impl; [exact Htt|]. by intros ? [].
Qed.

(** C40: Let a URL be written as a path without NUL, "?" and "#", and one to 256 pairs
    of a name of characters that stand for themselves and a value without NUL, every
    character of which is escaped ([encodable]).  Then the values are returned
    unchanged: [get] finds the value of the first pair with a name, and [get_list]
    those of all of them, in order.  (An escaped NUL would end the value it is in, and
    a pair behind the 256th is not kept.) *)
Theorem query_roundtrip path kvs name : encodable path kvs -> Forall plain_char name ->
  let vs := map snd (List.filter (fun kv => bool_decide (kv.1 = name)) kvs) in
  exists qs r l, query_string_of (url_of path kvs) = Some qs /\
    get name qs = Some r /\ option_map (text_at (url_ qs)) r = head vs /\
    get_list name false qs = Some l /\ map (text_at (url_ qs)) l = vs.
Proof.
  intros He Hname vs. assert (Hp := pairs_of_url path kvs He). destruct He as (_ & _ & _ & Hkvs).
  assert (Hkeys : Forall (fun t => is_Some (decode_key t)) (pairs_of MAX_KEY_VALUE_PAIRS_COUNT (url_of path kvs))).
  { rewrite Hp. apply Forall_fmap. eapply Forall_impl; [exact Hkvs|]. intros [k v] [Hk Hv]. cbn [fst snd] in Hk, Hv. unfold compose.
    destruct (pair_of_spec k v Hk Hv) as [-> _]. done. }
  assert (Hvs : values name (url_of path kvs) = vs).
  { unfold values, vs. rewrite Hp, filter_map, map_map. clear - Hkvs.
    induction Hkvs as [|[k v] kvs [Hk Hv] _ IH]; [done|]. cbn [List.filter fst]. cbn in Hk, Hv.
    destruct (pair_of_spec k v Hk Hv) as [-> Hval].
    rewrite (bool_decide_ext (Some k = Some name) (k = name)) by naive_solver.
    destruct (bool_decide (k = name)); [cbn [map snd]; rewrite Hval; by f_equal|done]. }
  assert (Hurl : url_of path kvs <> []) by by destruct path.
  assert (Hk : list_key name false = name) by apply app_nil_r.
  destruct (qs_parse_run MAX_KEY_VALUE_PAIRS_COUNT (url_of path kvs) ltac:(unfold MAX_KEY_VALUE_PAIRS_COUNT; lia))
    as (s & kvs' & H & _ & Hs).
  set (qs := QueryString s kvs').
  assert (Hqs : query_string_of (url_of path kvs) = Some qs).
  { unfold query_string_of. by rewrite decide_False, H by done. }
  destruct (lookup_spec name _ 0 qs Hqs Hurl Hname Hkeys) as (r & Hr & Hv).
  destruct (list_from_spec (S (length kvs')) name qs 0 vs) as (l & Hl & Hm).
  - apply Forall2_length in Hs. rewrite length_map, Hp, length_map in Hs. unfold vs. rewrite length_map, Hs.
    pose proof (filter_length_le (fun kv => bool_decide (kv.1 = name)) kvs). lia.
  - lia.
  - intros nth. rewrite <- Hvs. by apply lookup_spec.
  - exists qs, r, l. split; [done|]. split; [done|]. rewrite Hv, Hvs. split; [by destruct vs|].
    unfold get_list. rewrite Hk. split; [exact Hl|by rewrite Hm, drop_0].
Qed.

(** *** On concrete URLs *)

Definition chars (s : string) : bytes := String.list_ascii_of_string s.

Lemma plainb_ok l : forallb (fun c => CROW_QS_ISQSCHR c && negb (Ascii.eqb c "+") && negb (Ascii.eqb c "%")) l = true ->
  Forall plain_char l.
Proof.
  intros H. apply Forall_forall. intros c Hc%list_elem_of_In. rewrite forallb_forall in H. specialize (H c Hc).
  apply andb_true_iff in H as [[H1 H2]%andb_true_iff H3].
  split; [done|]. split; intros ->; done.
Qed.

Lemma keysb_ok l : forallb (fun t => bool_decide (is_Some (decode_key t))) l = true ->
  Forall (fun t => is_Some (decode_key t)) l.
Proof.
  intros H. apply Forall_forall. intros t Ht%list_elem_of_In. rewrite forallb_forall in H. specialize (H t Ht).
  by apply bool_decide_eq_true in H.
Qed.

Definition sample_url : bytes := chars "/p?a=1&b=x%3dy+z&a=2#f".

Lemma qs_parse_spec_witness : exists s kvs,
  qs_parse (sample_url ++ [NUL]) 256 = Some (s, kvs) /\
  map (text_at s) kvs = [chars "a=1"; chars "b=x=y z"; chars "a=2"].
Proof.
  destruct (qs_parse_spec 256 sample_url ltac:(lia)) as (s & kvs & H & _ & _ & Hm).
  exists s, kvs. split; [exact H|]. rewrite Hm. by vm_compute.
Defined.

Lemma get_spec_witness : exists qs r, query_string_of sample_url = Some qs /\ get (chars "b") qs = Some r /\
  option_map (text_at (url_ qs)) r = Some (chars "x=y z").
Proof.
  destruct (get_spec (chars "b") sample_url) as (qs & r & H1 & H2 & H3);
    [done|by apply plainb_ok|by apply keysb_ok; vm_compute|].
  exists qs, r. split; [exact H1|]. split; [exact H2|]. rewrite H3. by vm_compute.
Defined.

Lemma get_list_spec_witness : exists qs l, query_string_of sample_url = Some qs /\
  get_list (chars "a") false qs = Some l /\ map (text_at (url_ qs)) l = [chars "1"; chars "2"].
Proof.
  destruct (get_list_spec (chars "a") false sample_url) as (qs & l & H1 & H2 & H3);
    [by apply plainb_ok|by apply keysb_ok; vm_compute|].
  exists qs, l. split; [exact H1|]. split; [exact H2|]. rewrite H3. by vm_compute.
Defined.

Lemma query_roundtrip_witness :
  let kvs := [(chars "k", chars "a&b=c"); (chars "n", []); (chars "k", chars "%")] in
  encodable (chars "/p") kvs /\
  exists qs r l, query_string_of (url_of (chars "/p") kvs) = Some qs /\ get (chars "k") qs = Some r /\
    option_map (text_at (url_ qs)) r = Some (chars "a&b=c") /\
    get_list (chars "k") false qs = Some l /\ map (text_at (url_ qs)) l = [chars "a&b=c"; chars "%"].
Proof.
  intros kvs. assert (He : encodable (chars "/p") kvs).
  { split; [repeat constructor; try done; rewrite !not_elem_of_cons; split_and!; try done; apply not_elem_of_nil|].
    split; [done|]. split; [cbn; unfold MAX_KEY_VALUE_PAIRS_COUNT; lia|].
    do 3 (apply Forall_cons; split; [split; [by apply plainb_ok|by repeat constructor]|]). constructor. }
  split; [exact He|]. exact (query_roundtrip (chars "/p") kvs (chars "k") He (plainb_ok (chars "k") eq_refl)).
Defined.

(** A key that ends in an incomplete escape is read past its terminator. *)
Example strncmp_past_end : qs_strncmp (chars "ab" ++ [NUL]) 0 (chars "a%" ++ [NUL]) 0 2 = None.
Proof. reflexivity. Qed.

(** [qs_scanvalue] reads past the end of a query that lacks the key. *)
Example scan_past_end : scan_pairs 10 (chars "z" ++ [NUL]) 1 (chars "a=1" ++ [NUL]) 0 = None.
Proof. reflexivity. Qed.

(** A pair with an escaped key is found by [pop], and stays. *)
Example pop_keeps_escaped :
  (qs ← query_string_of (chars "/?%61=1"); r ← pop (chars "a") qs; Some (is_Some r.1, length (key_value_pairs_ r.2)))
  = Some (is_Some (Some 6), 1).
Proof. reflexivity. Qed.

(** [get_dict] takes the pairs of every name that starts with the one asked for. *)
Example dict_prefix :
  (qs ← query_string_of (chars "/?ab[x]=1&a[y]=2"); get_dict (chars "a") qs) =
  Some [(chars "x", chars "1"); (chars "y", chars "2")].
Proof. reflexivity. Qed.

(** [qs_scanvalue] on a key that is there, and its answer for a pair without a value. *)
Example scan_value :
  (text_at (default [] (mjoin (qs_scanvalue (chars "b" ++ [NUL]) (chars "/p?a=1&b=x+%41&c#f" ++ [NUL]) (chars "..........")))) 0,
   text_at (default [] (mjoin (qs_scanvalue (chars "c" ++ [NUL]) (chars "/p?a=1&b=x+%41&c#f" ++ [NUL]) (chars "..........")))) 0) =
  (chars "x A", []).
Proof. reflexivity. Qed.

(** A value that fills the buffer is not terminated, and its decoding runs past the end. *)
Example scan_unterminated :
  qs_scanvalue (chars "a" ++ [NUL]) (chars "/p?a=12345" ++ [NUL]) (chars "......") = None.
Proof. reflexivity. Qed.
