(* ===== verification/JsonText.v ===== *)
(** * JSON text: include/crow_all.h, crow::json::escape and rvalue::unescape

    [escape] writes a string as the body of a JSON string; [unescape] turns such
    a body back, in place, in the array the parser works on.  [body] is the
    reference: the texts a JSON string may have between its quotes, and the bytes
    they stand for.  [unescape_run] shows that the loop with its two pointers
    computes them, and [escape_body] that every string has such a text. *)

From S2P Require Import Prelude CInt CArray.

Definition quote : ascii := chr 34.
Definition backslash : ascii := "\"%char.

(** ** Writing *)

(** [to_hex], on the low four bits. *)
Definition to_hex (c : Z) : ascii :=
  let c := Z.land c 15 in
  Ascii.ascii_of_N (Z.to_N (if c <? 10 then 48 + c else 97 + c - 10)).

Definition escape_char (c : ascii) : list ascii :=
  if Ascii.eqb c quote then [backslash; quote]
  else if Ascii.eqb c backslash then [backslash; backslash]
  else if Ascii.eqb c (chr 10) then [backslash; "n"%char]
  else if Ascii.eqb c (chr 8) then [backslash; "b"%char]
  else if Ascii.eqb c (chr 12) then [backslash; "f"%char]
  else if Ascii.eqb c (chr 13) then [backslash; "r"%char]
  else if Ascii.eqb c (chr 9) then [backslash; "t"%char]
  else if uc c <? 32 then
    [backslash; "u"; "0"; "0"; to_hex (uc c / 16); to_hex (uc c mod 16)]%char
  else [c].

(** [escape(str, ret)] appends to [ret]. *)
Fixpoint escape (str ret : list ascii) : list ascii :=
  match str with
  | [] => ret
  | c :: str => escape str (ret ++ escape_char c)
  end.

(** ** Reading *)

(** A [char], which is signed. *)
Definition schar (c : ascii) : Z := if uc c <? 128 then uc c else uc c - 256.

Definition from_hex (c : ascii) : Z :=
  if 97 <=? schar c then schar c - 97 + 10
  else if 65 <=? schar c then schar c - 65 + 10
  else schar c - 48.

Definition is_hex (c : ascii) : bool := between "0" "9" c || between "a" "f" c || between "A" "F" c.

Definition hex4 (a b c d : ascii) : Z :=
  to_u32 (Z.shiftl (from_hex a) 12 + Z.shiftl (from_hex b) 8 + Z.shiftl (from_hex c) 4 + from_hex d).

(** What is stored in a [char]. *)
Definition to_char (z : Z) : ascii := Ascii.ascii_of_N (Z.to_N (z mod 256)).

Definition utf8 (code : Z) : list ascii :=
  if 0x800 <=? code then
    [to_char (Z.lor 0xE0 (Z.shiftr code 12)); to_char (Z.lor 0x80 (Z.land (Z.shiftr code 6) 0x3F));
     to_char (Z.lor 0x80 (Z.land code 0x3F))]
  else if 0x80 <=? code then
    [to_char (Z.lor 0xC0 (Z.shiftr code 6)); to_char (Z.lor 0x80 (Z.land code 0x3F))]
  else [to_char code].

(** The escapes of one character. *)
Definition simple_escape (c : ascii) : option ascii :=
  if Ascii.eqb c quote then Some quote
  else if Ascii.eqb c backslash then Some backslash
  else if Ascii.eqb c "/" then Some "/"%char
  else if Ascii.eqb c "b" then Some (chr 8)
  else if Ascii.eqb c "f" then Some (chr 12)
  else if Ascii.eqb c "n" then Some (chr 10)
  else if Ascii.eqb c "r" then Some (chr 13)
  else if Ascii.eqb c "t" then Some (chr 9)
  else None.

#[local] Open Scope nat_scope.

(** [*tail++ = ...], one after the other. *)
Fixpoint poke_all (s : bytes) (tail : nat) (l : bytes) : option bytes :=
  match l with
  | [] => Some s
  | c :: l => s ← poke s tail c; poke_all s (tail + 1) l
  end.

(** [while (head != end_)]; the array and the end of what was written. *)
Fixpoint unescape_loop (fuel : nat) (s : bytes) (head tail end_ : nat) : option (bytes * nat) :=
  match fuel with
  | O => None
  | S fuel =>
      if decide (head = end_) then Some (s, tail)
      else
        c ← peek s head;
        if Ascii.eqb c backslash then
          e ← peek s (head + 1);
          match simple_escape e with
          | Some x => s ← poke s tail x; unescape_loop fuel s (head + 2) (tail + 1) end_
          | None =>
              if Ascii.eqb e "u" then
                a ← peek s (head + 2); b ← peek s (head + 3);
                c ← peek s (head + 4); d ← peek s (head + 5);
                let out := utf8 (hex4 a b c d) in
                s ← poke_all s tail out;
                unescape_loop fuel s (head + 6) (tail + length out) end_
              else unescape_loop fuel s (head + 2) tail end_
          end
        else s ← poke s tail c; unescape_loop fuel s (head + 1) (tail + 1) end_
  end.

(** [rvalue::unescape]: the byte before the text says whether there is anything
    to do; the new [end_] is returned. *)
Definition unescape (s : bytes) (start_ end_ : nat) : option (bytes * nat) :=
  match start_ with
  | O => None
  | S before =>
      flag ← peek s before;
      if Ascii.eqb flag NUL then Some (s, end_)
      else
        '(s, tail) ← unescape_loop (S (length s)) s start_ start_ end_;
        s ← poke s tail NUL;
        s ← poke s before NUL;
        Some (s, tail)
  end.

(** ** The reference *)

(** One character of a string: its text and its bytes. *)
Inductive unit_text : bytes -> bytes -> Prop :=
  | unit_plain c : c <> quote -> c <> backslash -> c <> NUL -> unit_text [c] [c]
  | unit_escape e x : simple_escape e = Some x -> unit_text [backslash; e] [x]
  | unit_hex a b c d : is_hex a = true -> is_hex b = true -> is_hex c = true -> is_hex d = true ->
      unit_text [backslash; "u"%char; a; b; c; d] (utf8 (hex4 a b c d)).

(** The text between the quotes, and the string it stands for. *)
Inductive body : bytes -> bytes -> Prop :=
  | body_nil : body [] []
  | body_cons t v t' v' : unit_text t v -> body t' v' -> body (t ++ t') (v ++ v').

Lemma poke_all_gap (A out gap rest l : bytes) : length l <= length gap ->
  exists gap', length gap' + length l = length gap /\
    poke_all (A ++ out ++ gap ++ rest) (length A + length out) l = Some (A ++ (out ++ l) ++ gap' ++ rest).
Proof.
  revert out gap. induction l as [|c l IH]; intros out gap Hl; cbn in *.
  { exists gap. split; [lia|]. by rewrite app_nil_r. }
  destruct gap as [|g gap]; cbn in Hl; [lia|].
  rewrite poke_app by (rewrite length_app; cbn; lia). cbn [mbind option_bind].
  rewrite insert_app_r_alt, Nat.sub_diag by lia. cbn.
  destruct (IH (out ++ [c]) gap) as (gap' & Hg & Hp); [lia|]. exists gap'. cbn. split; [lia|].
  rewrite length_app, <- !app_assoc, Nat.add_assoc in Hp. cbn in Hp. rewrite Hp. by rewrite <- !app_assoc.
Qed.

Lemma utf8_length code : length (utf8 code) <= 3.
Proof. unfold utf8. repeat case_match; cbn; lia. Qed.

Lemma unit_length t v : unit_text t v -> length v <= length t /\ 0 < length t.
Proof.
  intros Hu. destruct Hu as [ | |a b c d]. 1,2: cbn; lia. cbn [length]. pose proof (utf8_length (hex4 a b c d)). lia.
Qed.

Lemma unescaped_length t v : body t v -> length v <= length t.
Proof. induction 1 as [|???? Hu _ IH]; [done|]. rewrite !length_app. apply unit_length in Hu. lia. Qed.

(** What the loop does with one character. *)
Lemma unescape_unit t v fuel (s : bytes) head tail end_ : unit_text t v -> head <> end_ ->
  (forall i, i < length t -> peek s (head + i) = t !! i) ->
  unescape_loop (S fuel) s head tail end_ =
    (s ← poke_all s tail v; unescape_loop fuel s (head + length t) (tail + length v) end_).
Proof.
  intros Hu Hne Hp. assert (H0 : peek s head = t !! 0).
  { rewrite <- Hp, Nat.add_0_r; [done|]. by destruct (unit_length _ _ Hu). }
  cbn [unescape_loop]. rewrite decide_False by done.
  destruct Hu as [c _ Hb _|e x Hx|a b c d]; cbn [length lookup list_lookup] in *; rewrite H0; cbn [mbind option_bind].
  - rewrite (proj2 (Ascii.eqb_neq _ _)) by done. cbn. by destruct (poke s tail c).
  - rewrite Ascii.eqb_refl, (Hp 1) by lia. cbn [lookup list_lookup mbind option_bind]. rewrite Hx. cbn.
    by destruct (poke s tail x).
  - rewrite Ascii.eqb_refl, (Hp 1), (Hp 2), (Hp 3), (Hp 4), (Hp 5) by lia.
    cbn [lookup list_lookup mbind option_bind]. done.
Qed.

Lemma unescape_loop_run t v : body t v -> forall fuel (A out gap rest : bytes), length t < fuel ->
  exists gap', length v + length gap' = length gap + length t /\
    unescape_loop fuel (A ++ out ++ gap ++ t ++ rest) (length A + (length out + length gap)) (length A + length out)
      (length A + (length out + length gap) + length t) =
    Some (A ++ (out ++ v) ++ gap' ++ rest, length A + length (out ++ v)).
Proof.
  induction 1 as [|t v t' v' Hu Hb IH]; intros [|fuel] A out gap rest Hf; cbn [length] in Hf; try lia.
  { exists gap. cbn. rewrite decide_True by lia. rewrite app_nil_r. split; [lia|done]. }
  destruct (unit_length _ _ Hu) as [Hl Hl0]. rewrite length_app in Hf.
  assert (Hpeek : forall i, i < length t ->
    peek (A ++ out ++ gap ++ (t ++ t') ++ rest) (length A + (length out + length gap) + i) = t !! i).
  { intros i Hi. rewrite <- Nat.add_assoc, peek_app, <- Nat.add_assoc, (lookup_app_r out), (lookup_app_r gap) by lia.
    replace (length out + (length gap + i) - length out - length gap) with i by lia.
    by rewrite <- app_assoc, lookup_app_l. }
  rewrite (unescape_unit t v) by (done || rewrite length_app; lia). clear Hpeek.
  rewrite <- !app_assoc, (app_assoc gap t).
  destruct (poke_all_gap A out (gap ++ t) (t' ++ rest) v) as (gap1 & Hg1 & ->); [rewrite length_app; lia|].
  cbn [mbind option_bind]. rewrite length_app in Hg1.
  destruct (IH fuel A (out ++ v) gap1 rest) as (gap2 & Hg2 & Hr); [lia|].
  exists gap2. rewrite !length_app in *. split; [lia|].
  replace (length A + (length out + length gap) + length t) with
    (length A + (length out + length v + length gap1)) by lia.
  replace (length A + length out + length v) with (length A + (length out + length v)) by lia.
  replace (length A + (length out + length gap) + (length t + length t')) with
    (length A + (length out + length v + length gap1) + length t') by lia.
  rewrite Hr, <- !app_assoc. do 2 f_equal. lia.
Qed.

(** [unescape] on an array that holds [A], the flag, the text, the NUL that
    replaced the closing quote, and the rest. *)
Lemma unescape_run (A rest : bytes) flag t v : flag <> NUL -> body t v ->
  exists junk, length v + length junk = length t /\
    unescape (A ++ flag :: t ++ NUL :: rest) (S (length A)) (S (length A) + length t) =
      Some (A ++ NUL :: v ++ NUL :: junk ++ rest, S (length A) + length v).
Proof.
  intros Hf Hb. unfold unescape. rewrite peek_head. cbn [mbind option_bind].
  rewrite (proj2 (Ascii.eqb_neq _ _)) by done.
  destruct (unescape_loop_run t v Hb (S (length (A ++ flag :: t ++ NUL :: rest))) (A ++ [flag]) [] [] (NUL :: rest))
    as (gap & Hg & Hr).
  { rewrite !length_app. cbn. rewrite length_app. lia. }
  assert (Hs : length (A ++ [flag]) = S (length A)) by (rewrite length_app; cbn; lia).
  rewrite Hs, !Nat.add_0_r, <- !app_assoc in Hr. cbn [length app] in *. rewrite ?Nat.add_0_r in Hr.
  rewrite Hr. cbn [mbind option_bind].
  destruct (poke_stop (A ++ [flag]) v gap rest NUL) as (junk & Hj & Hp).
  rewrite Hs, <- !app_assoc in Hp. cbn [length app] in Hp.
  rewrite Hp. cbn [mbind option_bind]. exists junk. split; [lia|].
  rewrite <- (Nat.add_0_r (length A)) at 1. rewrite poke_app by (cbn; lia). done.
Qed.

Lemma unescape_plain (A rest : bytes) end_ : unescape (A ++ NUL :: rest) (S (length A)) end_ = Some (A ++ NUL :: rest, end_).
Proof. unfold unescape. rewrite peek_head. done. Qed.

(** ** What [escape] writes *)

Lemma escape_flat str ret : escape str ret = ret ++ List.flat_map escape_char str.
Proof.
  revert ret. induction str as [|c str IH]; intros ret; cbn; [by rewrite app_nil_r|].
  by rewrite IH, app_assoc.
Qed.

Lemma to_hex_is_hex z : is_hex (to_hex z) = true.
Proof.
  assert (H : (0 <= Z.land z 15 < 16)%Z).
  { change 15%Z with (Z.ones 4). rewrite Z.land_ones by lia. apply Z.mod_pos_bound. lia. }
  unfold to_hex. set (n := Z.land z 15) in *. clearbody n.
  assert (Hn : n ∈ seqZ 0 16) by (apply elem_of_seqZ; lia). clear H.
  assert (Hall : forallb (fun n => is_hex (Ascii.ascii_of_N (Z.to_N (if (n <? 10)%Z then 48 + n else 97 + n - 10))%Z)) (seqZ 0 16) = true)
    by reflexivity.
  apply forallb_In with (x := n) in Hall; [exact Hall|]. by apply list_elem_of_In.
Qed.

Lemma escape_control c : (uc c < 32)%Z -> utf8 (hex4 "0" "0" (to_hex (uc c / 16)) (to_hex (uc c mod 16))) = [c].
Proof. destruct c as [[] [] [] [] [] [] [] []]; done || (intros H; exfalso; revert H; done). Qed.

Lemma escape_unit c : unit_text (escape_char c) [c].
Proof.
  unfold escape_char.
  destruct (Ascii.eqb_spec c quote) as [->|Hq]; [by apply unit_escape|].
  destruct (Ascii.eqb_spec c backslash) as [->|Hb]; [by apply unit_escape|].
  do 5 (match goal with |- context [Ascii.eqb c ?x] => destruct (Ascii.eqb_spec c x) as [->|_] end;
        [by apply unit_escape|]).
  destruct (uc c <? 32)%Z eqn:E.
  - apply Z.ltb_lt in E. pose proof (escape_control c E) as Hc. set (a := to_hex _) in *. set (b := to_hex _) in *.
    rewrite <- Hc. by apply unit_hex; try apply to_hex_is_hex.
  - apply Z.ltb_ge in E. apply unit_plain; try done. by intros ->.
Qed.

(** Every string, NUL included, has a text between quotes. *)
Lemma escape_body str : body (List.flat_map escape_char str) str.
Proof.
  induction str as [|c str IH]; cbn; [constructor|].
  change (c :: str) with ([c] ++ str). constructor; [apply escape_unit|done].
Qed.
