(* ===== verification/JsonRead.v ===== *)
(** * The JSON reader: include/crow_all.h, crow::json::rvalue and load

    [load] copies a text into an array of its own, with a terminator, and parses
    it there: the quote that ends a string is overwritten with NUL, the quote
    before it with a flag that says whether the string holds escapes, and escapes
    are replaced in place when the string is first looked at.  An [rvalue] holds
    pointers into that array, here offsets; an access outside the array is
    [None]. *)

From S2P Require Import Prelude CInt CArray JsonText.

(** ** Data *)

Inductive type := Null | False_ | True_ | Number | String_ | List_ | Object | Function.

Inductive num_type := Signed_integer | Unsigned_integer | Floating_point | Null_num.

#[global] Instance type_eq_dec : EqDecision type.
Proof. solve_decision. Defined.
#[global] Instance num_type_eq_dec : EqDecision num_type.
Proof. solve_decision. Defined.

Definition get_type_str (t : type) : string :=
  match t with
  | Number => "Number"
  | False_ => "False"
  | True_ => "True"
  | List_ => "List"
  | String_ => "String"
  | Object => "Object"
  | Function => "Function"
  | _ => "Unknown"
  end.

(** Pointers into the text. *)
Record r_string := RString { s_ : nat; e_ : nat; owned_ : bool }.

(** Members a constructor leaves unset are [None], or 0 where they are only read
    together with one that is set.  [l_] holds the elements up to [lsize_], and
    [cells_] is the size of the array behind it. *)
Inductive rvalue := RValue {
  start_ : option nat;
  end_ : option nat;
  key_ : option r_string;
  l_ : list rvalue;
  cells_ : Z;
  lremain_ : Z;
  t_ : type;
  nt_ : num_type;
  option_ : Z
}.

Definition lsize_ (r : rvalue) : Z := Z.of_nat (length (l_ r)).

Definition cached_bit : Z := 2.
Definition error_bit : Z := 4.

Definition set_option (o : Z) (r : rvalue) : rvalue :=
  RValue (start_ r) (end_ r) (key_ r) (l_ r) (cells_ r) (lremain_ r) (t_ r) (nt_ r) o.

Definition set_key (k : r_string) (r : rvalue) : rvalue :=
  RValue (start_ r) (end_ r) (Some k) (l_ r) (cells_ r) (lremain_ r) (t_ r) (nt_ r) (option_ r).

Definition set_end (e : nat) (r : rvalue) : rvalue :=
  RValue (start_ r) (Some e) (key_ r) (l_ r) (cells_ r) (lremain_ r) (t_ r) (nt_ r) (option_ r).

(** [rvalue()], [rvalue(type)] and [rvalue(type, char*, char* )]. *)
Definition rvalue_invalid : rvalue := RValue None None None [] 0 0 Null Null_num error_bit.

Definition rvalue_of (t : type) : rvalue := RValue None None None [] 0 0 t Null_num 0.

Definition has_char (c : ascii) (text : bytes) : bool := existsb (Ascii.eqb c) text.

Definition determine_num_type (t : type) (text : bytes) : num_type :=
  if negb (bool_decide (t = Number)) then Null_num
  else if has_char "." text || (has_char "e" text || has_char "E" text) then Floating_point
  else if has_char "-" text then Signed_integer
  else Unsigned_integer.

(** The bytes from [s] up to [e]. *)
Definition slice (s e : nat) (buf : bytes) : bytes := take (e - s) (drop s buf).

Definition rvalue_span (t : type) (s e : nat) (buf : bytes) : rvalue :=
  RValue (Some s) (Some e) None [] 0 0 t (determine_num_type t (slice s e buf)) 0.

Definition error (r : rvalue) : bool := negb (Z.land (option_ r) error_bit =? 0).
Definition set_error (r : rvalue) : rvalue := set_option (Z.lor (option_ r) error_bit) r.

(** [emplace_back]: the array grows to twice its size, by 60000 at most; a write
    behind it is [None]. *)
Definition new_size (lsize : Z) : Z :=
  let n := to_i32 (to_u32 (lsize + lsize)) in
  let n := if 60000 <? to_u32 (n - lsize) then to_i32 (to_u32 (lsize + 60000)) else n in
  if n <? 4 then 4 else n.

Definition emplace_back (r v : rvalue) : option rvalue :=
  let '(cells, lremain) :=
    if lremain_ r =? 0
    then (new_size (lsize_ r), wrap_u 16 (to_u32 (new_size (lsize_ r) - lsize_ r)))
    else (cells_ r, lremain_ r) in
  if lsize_ r <? cells then
    Some (RValue (start_ r) (end_ r) (key_ r) (l_ r ++ [v]) cells (wrap_u 16 (lremain - 1)) (t_ r) (nt_ r) (option_ r))
  else None.

(** ** The parser *)

Definition max_depth : Z := 10000.

#[local] Open Scope nat_scope.

Definition consume (buf : bytes) (data : nat) (c : ascii) : option (bool * nat) :=
  x ← peek buf data;
  Some (if Ascii.eqb x c then (true, data + 1) else (false, data)).

Definition is_ws (c : ascii) : bool :=
  Ascii.eqb c " " || Ascii.eqb c (chr 9) || Ascii.eqb c (chr 13) || Ascii.eqb c (chr 10).

Fixpoint ws_loop (fuel : nat) (buf : bytes) (data : nat) : option nat :=
  match fuel with
  | O => None
  | S fuel =>
      c ← peek buf data;
      if is_ws c then ws_loop fuel buf (data + 1) else Some data
  end.

Definition ws_skip (buf : bytes) (data : nat) : option nat := ws_loop (S (length buf)) buf data.

(** [check(data[1]) && ... && check(data[4])], which reads no further than the
    first that fails. *)
Fixpoint all_hex (n : nat) (buf : bytes) (i : nat) : option bool :=
  match n with
  | O => Some true
  | S n => c ← peek buf i; if is_hex c then all_hex n buf (i + 1) else Some false
  end.

(** [while (1)] of [decode_string], with the text from [start] on. *)
Fixpoint string_loop (fuel : nat) (start : nat) (has_escaping : bool) (buf : bytes) (data : nat)
    : option (rvalue * bytes * nat) :=
  match fuel with
  | O => None
  | S fuel =>
      let invalid := Some (rvalue_invalid, buf, data) in
      c ← peek buf data;
      if Ascii.eqb c quote then
        buf ← poke buf data NUL;
        buf ← poke buf (start - 1) (if has_escaping then chr 1 else NUL);
        Some (rvalue_span String_ start data buf, buf, data + 1)
      else if Ascii.eqb c backslash then
        e ← peek buf (data + 1);
        if Ascii.eqb e "u" then
          ok ← all_hex 4 buf (data + 2);
          if (ok : bool) then string_loop fuel start true buf (data + 6)
          else Some (rvalue_invalid, buf, data + 1)
        else
          match simple_escape e with
          | Some _ => string_loop fuel start true buf (data + 2)
          | None => Some (rvalue_invalid, buf, data + 1)
          end
      else if Ascii.eqb c NUL then invalid
      else string_loop fuel start has_escaping buf (data + 1)
  end.

Definition decode_string (buf : bytes) (data : nat) : option (rvalue * bytes * nat) :=
  '(ok, data) ← consume buf data quote;
  if negb ok then Some (rvalue_invalid, buf, data)
  else string_loop (S (length buf)) data false buf data.

(** *** Numbers *)

Inductive NumberParsingState :=
  | Minus | AfterMinus | ZeroFirst | Digits | DigitsAfterPoints | E | DigitsAfterE | Invalid.

#[global] Instance NumberParsingState_eq_dec : EqDecision NumberParsingState.
Proof. solve_decision. Defined.

Definition states : list NumberParsingState :=
  [Minus; AfterMinus; ZeroFirst; Digits; DigitsAfterPoints; E; DigitsAfterE; Invalid].

Definition state_number (s : NumberParsingState) : nat :=
  match s with
  | Minus => 0 | AfterMinus => 1 | ZeroFirst => 2 | Digits => 3
  | DigitsAfterPoints => 4 | E => 5 | DigitsAfterE => 6 | Invalid => 7
  end.

(** The string literals that are indexed by the state, by the case they are in. *)
Definition number_table (c : ascii) : option (list nat) :=
  if Ascii.eqb c "0" then Some [2; 2; 7; 3; 4; 6; 6]
  else if between "1" "9" c then Some [3; 3; 7; 3; 4; 6; 6]
  else if Ascii.eqb c "." then Some [7; 7; 4; 4; 7; 7; 7]
  else if Ascii.eqb c "-" then Some [1; 7; 7; 7; 7; 6; 7]
  else if Ascii.eqb c "+" then Some [7; 7; 7; 7; 7; 6; 7]
  else if Ascii.eqb c "e" || Ascii.eqb c "E" then Some [7; 7; 7; 5; 5; 7; 7]
  else None.

(** [static_cast<NumberParsingState>(table[state])]; the literal ends in a NUL. *)
Definition next_state (table : list nat) (s : NumberParsingState) : NumberParsingState :=
  nth (nth (state_number s) table 0) states Minus.

Definition accepting (s : NumberParsingState) : bool :=
  bool_decide (s = ZeroFirst \/ s = Digits \/ s = DigitsAfterPoints \/ s = DigitsAfterE).

(** [while (data[1] >= '0' && data[1] <= '9') data++;] *)
Fixpoint digits_loop (fuel : nat) (buf : bytes) (data : nat) : option nat :=
  match fuel with
  | O => None
  | S fuel =>
      c ← peek buf (data + 1);
      if between "0" "9" c then digits_loop fuel buf (data + 1) else Some data
  end.

Fixpoint number_loop (fuel : nat) (buf : bytes) (start : nat) (state : NumberParsingState) (data : nat)
    : option (rvalue * nat) :=
  match fuel with
  | O => None
  | S fuel =>
      if bool_decide (state = Invalid) then Some (rvalue_invalid, data)
      else
        c ← peek buf data;
        match number_table c with
        | Some table =>
            let state := next_state table state in
            data ← (if between "1" "9" c then digits_loop (S (length buf)) buf data else Some data);
            number_loop fuel buf start state (data + 1)
        | None =>
            if accepting state then Some (rvalue_span Number start data buf, data)
            else Some (rvalue_invalid, data)
        end
  end.

Definition decode_number (buf : bytes) (data : nat) : option (rvalue * nat) :=
  number_loop (S (length buf)) buf data Minus data.

(** *** Values *)

(** [data[1] == 'r' && data[2] == 'u' && ...]. *)
Fixpoint follows (word : bytes) (buf : bytes) (i : nat) : option bool :=
  match word with
  | [] => Some true
  | w :: word => c ← peek buf i; if Ascii.eqb c w then follows word buf (i + 1) else Some false
  end.

Definition keyword (word : bytes) (t : type) (buf : bytes) (data : nat) : option (rvalue * bytes * nat) :=
  ok ← follows word buf (data + 1);
  Some (if (ok : bool) then (rvalue_of t, buf, data + 1 + length word) else (rvalue_invalid, buf, data)).

(** [t.s()] of a string just read: its bytes, with the escapes replaced. *)
Definition string_of (r : rvalue) (buf : bytes) : option (r_string * bytes) :=
  s ← start_ r;
  e ← end_ r;
  '(buf, e) ← unescape buf s e;
  Some (RString s e false, buf).

Fixpoint decode_value (fuel : nat) (depth : Z) (buf : bytes) (data : nat) : option (rvalue * bytes * nat) :=
  match fuel with
  | O => None
  | S fuel =>
      c ← peek buf data;
      if Ascii.eqb c "[" then decode_list fuel (depth + 1) buf data
      else if Ascii.eqb c "{" then decode_object fuel (depth + 1) buf data
      else if Ascii.eqb c quote then decode_string buf data
      else if Ascii.eqb c "t" then keyword ["r"; "u"; "e"]%char True_ buf data
      else if Ascii.eqb c "f" then keyword ["a"; "l"; "s"; "e"]%char False_ buf data
      else if Ascii.eqb c "n" then keyword ["u"; "l"; "l"]%char Null buf data
      else '(r, data) ← decode_number buf data; Some (r, buf, data)
  end

with decode_list (fuel : nat) (depth : Z) (buf : bytes) (data : nat) : option (rvalue * bytes * nat) :=
  match fuel with
  | O => None
  | S fuel =>
      let ret := rvalue_of List_ in
      '(ok, data) ← consume buf data "[";
      if negb ok || (max_depth <? depth)%Z then Some (set_error ret, buf, data)
      else
        data ← ws_skip buf data;
        c ← peek buf data;
        if Ascii.eqb c "]" then Some (ret, buf, data + 1)
        else list_loop fuel depth ret buf data
  end

with list_loop (fuel : nat) (depth : Z) (ret : rvalue) (buf : bytes) (data : nat)
    : option (rvalue * bytes * nat) :=
  match fuel with
  | O => None
  | S fuel =>
      '(v, buf, data) ← decode_value fuel (depth + 1) buf data;
      if error v then Some (set_error ret, buf, data)
      else
        data ← ws_skip buf data;
        ret ← emplace_back ret v;
        c ← peek buf data;
        if Ascii.eqb c "]" then Some (ret, buf, data + 1)
        else
          '(ok, data) ← consume buf data ",";
          if negb ok then Some (set_error ret, buf, data)
          else
            data ← ws_skip buf data;
            list_loop fuel depth ret buf data
  end

with decode_object (fuel : nat) (depth : Z) (buf : bytes) (data : nat) : option (rvalue * bytes * nat) :=
  match fuel with
  | O => None
  | S fuel =>
      let ret := rvalue_of Object in
      '(ok, data) ← consume buf data "{";
      if negb ok || (max_depth <? depth)%Z then Some (set_error ret, buf, data)
      else
        data ← ws_skip buf data;
        c ← peek buf data;
        if Ascii.eqb c "}" then Some (ret, buf, data + 1)
        else object_loop fuel depth ret buf data
  end

with object_loop (fuel : nat) (depth : Z) (ret : rvalue) (buf : bytes) (data : nat)
    : option (rvalue * bytes * nat) :=
  match fuel with
  | O => None
  | S fuel =>
      '(t, buf, data) ← decode_string buf data;
      if error t then Some (set_error ret, buf, data)
      else
        data ← ws_skip buf data;
        '(ok, data) ← consume buf data ":";
        if negb ok then Some (set_error ret, buf, data)
        else
          '(key, buf) ← string_of t buf;
          data ← ws_skip buf data;
          '(v, buf, data) ← decode_value fuel (depth + 1) buf data;
          if error v then Some (set_error ret, buf, data)
          else
            data ← ws_skip buf data;
            ret ← emplace_back ret (set_key key v);
            c ← peek buf data;
            if Ascii.eqb c "}" then Some (ret, buf, data + 1)
            else
              '(ok, data) ← consume buf data ",";
              if negb ok then Some (set_error ret, buf, data)
              else
                data ← ws_skip buf data;
                object_loop fuel depth ret buf data
  end.

(** Four calls per byte at most. *)
Definition parse (buf : bytes) : option (rvalue * bytes) :=
  data ← ws_skip buf 0;
  '(ret, buf, data) ← decode_value (4 * length buf + 4) 0 buf data;
  data ← ws_skip buf data;
  c ← peek buf data;
  Some (if negb (error ret) && negb (Ascii.eqb c NUL) then set_error ret else ret, buf).

(** [load]: the array belongs to the key of the value, or is freed. *)
Definition load (text : bytes) : option (rvalue * bytes) :=
  '(ret, s) ← parse (text ++ [NUL]);
  Some (if error ret then ret
        else set_key (RString 0 (Z.to_nat (to_u32 (Z.of_nat (length text)))) true) ret, s).
