(* ===== verification/JsonSpec.v ===== *)
(** * What a JSON text means

    [json] is a JSON document by itself, without an array or pointers; numbers are
    kept as their text.  [read_document] reads one off a list of characters, the
    way the parser goes over the array; [fuel_enough] shows that it always ends.
    JsonRefine shows that the parser computes it, JsonGrammar what it accepts. *)

From S2P Require Import Prelude CInt CArray JsonText JsonRead.

Inductive json :=
  | JNull
  | JBool (b : bool)
  | JNumber (text : bytes)
  | JString (s : bytes)
  | JList (js : list json)
  | JObject (ms : list (bytes * json)).

Lemma json_ind' (P : json -> Prop) : P JNull -> (forall b, P (JBool b)) -> (forall t, P (JNumber t)) ->
  (forall s, P (JString s)) -> (forall js, Forall P js -> P (JList js)) ->
  (forall ms, Forall (fun m => P m.2) ms -> P (JObject ms)) -> forall j, P j.
Proof.
  intros Hn Hb Hnum Hs Hl Ho. fix IH 1. intros [|b|t|s|js|ms]; [done..| |].
  - apply Hl. induction js as [|j js IHl]; constructor; [apply IH|done].
  - apply Ho. induction ms as [|[k j] ms IHl]; constructor; [apply IH|done].
Qed.

#[local] Open Scope nat_scope.

(** How many containers are around the innermost value. *)
Fixpoint nest (j : json) : nat :=
  match j with
  | JList js => S (list_max (nest <$> js))
  | JObject ms => S (list_max ((fun m => nest m.2) <$> ms))
  | _ => 0
  end.

(** ** Reading a list of characters *)

Fixpoint drop_ws (l : bytes) : bytes :=
  match l with
  | c :: l' => if is_ws c then drop_ws l' else l
  | [] => []
  end.

(** The rest of a string after its opening quote: the string, and what follows
    the closing quote. *)
Fixpoint read_body (l : bytes) : option (bytes * bytes) :=
  match l with
  | [] => None
  | c :: l =>
      if Ascii.eqb c quote then Some ([], l)
      else if Ascii.eqb c backslash then
        match l with
        | [] => None
        | e :: l =>
            if Ascii.eqb e "u" then
              match l with
              | a :: b :: c :: d :: l =>
                  if is_hex a && is_hex b && is_hex c && is_hex d then
                    '(s, r) ← read_body l; Some (utf8 (hex4 a b c d) ++ s, r)
                  else None
              | _ => None
              end
            else x ← simple_escape e; '(s, r) ← read_body l; Some (x :: s, r)
        end
      else if Ascii.eqb c NUL then None
      else '(s, r) ← read_body l; Some (c :: s, r)
  end.

Definition read_string (l : bytes) : option (bytes * bytes) :=
  match l with
  | c :: l => if Ascii.eqb c quote then read_body l else None
  | [] => None
  end.

(** The longest run of characters a number may have. *)
Definition number_char (c : ascii) : bool := match number_table c with Some _ => true | None => false end.

Fixpoint number_run (l : bytes) : bytes :=
  match l with
  | c :: l => if number_char c then c :: number_run l else []
  | [] => []
  end.

(** The automaton, one character at a time. *)
Fixpoint accepts (s : NumberParsingState) (t : bytes) : bool :=
  match t with
  | [] => accepting s
  | c :: t =>
      match number_table c with
      | None => false
      | Some table =>
          let s := next_state table s in
          if bool_decide (s = Invalid) then false else accepts s t
      end
  end.

Definition read_number (l : bytes) : option (json * bytes) :=
  let t := number_run l in
  if accepts Minus t then Some (JNumber t, drop (length t) l) else None.

Definition read_word (word : bytes) (j : json) (l : bytes) : option (json * bytes) :=
  if bool_decide (take (length word) l = word) then Some (j, drop (length word) l) else None.

Definition expect (c : ascii) (l : bytes) : option bytes :=
  match l with
  | x :: l => if Ascii.eqb x c then Some l else None
  | [] => None
  end.

(** The outer option is for fuel. *)
Fixpoint read_value (fuel : nat) (depth : Z) (l : bytes) : option (option (json * bytes)) :=
  match fuel with
  | O => None
  | S fuel =>
      match l with
      | [] => Some None
      | c :: l' =>
          if Ascii.eqb c "[" then read_list fuel (depth + 1) l'
          else if Ascii.eqb c "{" then read_object fuel (depth + 1) l'
          else if Ascii.eqb c quote then Some ('(s, r) ← read_body l'; Some (JString s, r))
          else if Ascii.eqb c "t" then Some (read_word ["r"; "u"; "e"]%char (JBool true) l')
          else if Ascii.eqb c "f" then Some (read_word ["a"; "l"; "s"; "e"]%char (JBool false) l')
          else if Ascii.eqb c "n" then Some (read_word ["u"; "l"; "l"]%char JNull l')
          else Some (read_number l)
      end
  end

with read_list (fuel : nat) (depth : Z) (l : bytes) : option (option (json * bytes)) :=
  match fuel with
  | O => None
  | S fuel =>
      if (max_depth <? depth)%Z then Some None
      else
        match expect "]" (drop_ws l) with
        | Some r => Some (Some (JList [], r))
        | None =>
            r ← read_elements fuel depth (drop_ws l);
            Some ('(js, l) ← r; Some (JList js, l))
        end
  end

with read_elements (fuel : nat) (depth : Z) (l : bytes) : option (option (list json * bytes)) :=
  match fuel with
  | O => None
  | S fuel =>
      r ← read_value fuel (depth + 1) l;
      match r with
      | None => Some None
      | Some (j, l) =>
          let l := drop_ws l in
          match expect "]" l with
          | Some r => Some (Some ([j], r))
          | None =>
              match expect "," l with
              | None => Some None
              | Some l =>
                  r ← read_elements fuel depth (drop_ws l);
                  Some ('(js, l) ← r; Some (j :: js, l))
              end
          end
      end
  end

with read_object (fuel : nat) (depth : Z) (l : bytes) : option (option (json * bytes)) :=
  match fuel with
  | O => None
  | S fuel =>
      if (max_depth <? depth)%Z then Some None
      else
        match expect "}" (drop_ws l) with
        | Some r => Some (Some (JObject [], r))
        | None =>
            r ← read_members fuel depth (drop_ws l);
            Some ('(ms, l) ← r; Some (JObject ms, l))
        end
  end

with read_members (fuel : nat) (depth : Z) (l : bytes) : option (option (list (bytes * json) * bytes)) :=
  match fuel with
  | O => None
  | S fuel =>
      match read_string l with
      | None => Some None
      | Some (k, l) =>
          match expect ":" (drop_ws l) with
          | None => Some None
          | Some l =>
              r ← read_value fuel (depth + 1) (drop_ws l);
              match r with
              | None => Some None
              | Some (j, l) =>
                  let l := drop_ws l in
                  match expect "}" l with
                  | Some r => Some (Some ([(k, j)], r))
                  | None =>
                      match expect "," l with
                      | None => Some None
                      | Some l =>
                          r ← read_members fuel depth (drop_ws l);
                          Some ('(ms, l) ← r; Some ((k, j) :: ms, l))
                      end
                  end
              end
          end
      end
  end.

(** A document, up to the first NUL. *)
Definition read_document (l : bytes) : option (option json) :=
  r ← read_value (4 * length l + 4) 0 (drop_ws l);
  Some ('(j, l) ← r; _ ← expect NUL (drop_ws l); Some j).

(** ** Fuel *)

Lemma drop_ws_length l : length (drop_ws l) <= length l.
Proof. induction l as [|c l IH]; cbn; [done|]. destruct (is_ws c); cbn; lia. Qed.

Lemma expect_length c l r : expect c l = Some r -> length l = S (length r).
Proof. destruct l as [|x l]; cbn; [done|]. destruct (Ascii.eqb x c); [|done]. by intros [= ->]. Qed.

Lemma read_body_length l s r : read_body l = Some (s, r) -> length r < length l.
Proof.
  remember (length l) as n eqn:En. revert l En s r. induction n as [n IH] using lt_wf_ind. intros l -> s r.
  destruct l as [|c l]; [done|]. cbn [read_body].
  assert (Hgo : forall l' u, length l' <= length l -> ('(s, r) ← read_body l'; Some (u ++ s, r)) = Some (s, r) ->
    length r < length (c :: l)).
  { intros l' u Hl' H. destruct (read_body l') as [[s' r']|] eqn:E; [|done]. injection H as _ ->.
    apply (IH (length l')) in E; cbn; [lia|lia|done]. }
  destruct (Ascii.eqb c quote); [intros [= _ ->]; cbn; lia|].
  destruct (Ascii.eqb c backslash).
  - destruct l as [|e l]; [done|]. destruct (Ascii.eqb e "u").
    + destruct l as [|x1 [|x2 [|x3 [|x4 l]]]]; try done.
      destruct (is_hex x1 && is_hex x2 && is_hex x3 && is_hex x4); [|done]. apply Hgo. cbn. lia.
    + destruct (simple_escape e) as [x|]; [|done]. apply (Hgo l [x]). cbn. lia.
  - destruct (Ascii.eqb c NUL); [done|]. by apply (Hgo l [c]).
Qed.

Lemma read_string_length l s r : read_string l = Some (s, r) -> length r < length l.
Proof.
  destruct l as [|c l]; [done|]. cbn. destruct (Ascii.eqb c quote); [|done]. intros H%read_body_length. lia.
Qed.

Lemma read_word_length word j l j' r : read_word word j l = Some (j', r) -> length r <= length l.
Proof. unfold read_word. destruct (bool_decide _); [|done]. intros [= _ <-]. rewrite length_drop. lia. Qed.

Lemma read_number_length l j r : read_number l = Some (j, r) -> length r < length l.
Proof.
  unfold read_number. destruct (accepts Minus (number_run l)) eqn:E; [|done]. intros [= _ <-].
  rewrite length_drop. destruct l as [|c l]; [done|]. cbn in *. destruct (number_char c); [cbn; lia|done].
Qed.

(** What is read is taken off the text, and the fuel lasts. *)
Definition reads {A} (n : nat) (strict : bool) (x : option (option (A * bytes))) : Prop :=
  match x with
  | None => False
  | Some None => True
  | Some (Some (_, r)) => if strict then length r < n else length r <= n
  end.

Lemma reads_turn {A} closing n (a : A) l1 (rd : bytes -> option (option (list A * bytes))) :
  length l1 < n -> (forall l, length l < length l1 -> reads (length l) true (rd l)) ->
  reads n true
    (match expect closing (drop_ws l1) with
     | Some r => Some (Some ([a], r))
     | None =>
         match expect "," (drop_ws l1) with
         | None => Some None
         | Some l => r ← rd (drop_ws l); Some ('(js, l) ← r; Some (a :: js, l))
         end
     end).
Proof.
  intros Hl Hrd. pose proof (drop_ws_length l1) as Hd.
  destruct (expect closing (drop_ws l1)) as [r|] eqn:E1; [apply expect_length in E1; cbn; lia|].
  destruct (expect "," (drop_ws l1)) as [l|] eqn:E2; [|done]. apply expect_length in E2.
  pose proof (drop_ws_length l) as Hd2. specialize (Hrd (drop_ws l) ltac:(lia)).
  destruct (rd (drop_ws l)) as [[[js r]|]|]; cbn in *; [lia|done|done].
Qed.

Lemma fuel_enough f :
  (forall depth l, 3 * length l + 1 <= f -> reads (length l) true (read_value f depth l)) /\
  (forall depth l, 3 * length l + 3 <= f -> reads (length l) false (read_list f depth l)) /\
  (forall depth l, 3 * length l + 2 <= f -> reads (length l) true (read_elements f depth l)) /\
  (forall depth l, 3 * length l + 3 <= f -> reads (length l) false (read_object f depth l)) /\
  (forall depth l, 3 * length l + 2 <= f -> reads (length l) true (read_members f depth l)).
Proof.
  induction f as [|f (Hv & Hl & He & Ho & Hm)]; [repeat split; intros; lia|]. repeat split; intros depth l Hf.
  - cbn [read_value]. destruct l as [|c l]; [done|]. cbn [length] in *.
    assert (Hweak : forall x : option (option (json * bytes)), reads (length l) false x -> reads (S (length l)) true x).
    { intros [[[j r]|]|]; cbn; [lia|done|done]. }
    destruct (Ascii.eqb c "["); [apply Hweak, Hl; lia|]. destruct (Ascii.eqb c "{"); [apply Hweak, Ho; lia|].
    destruct (Ascii.eqb c quote).
    { destruct (read_body l) as [[s r]|] eqn:E; [|done]. apply read_body_length in E. cbn. lia. }
    do 3 (destruct (Ascii.eqb c _);
      [destruct (read_word _ _ l) as [[j r]|] eqn:E; [|done]; apply read_word_length in E; cbn; lia|]).
    destruct (read_number _) as [[j r]|] eqn:E; [|done]. by apply read_number_length in E.
  - cbn [read_list]. destruct (max_depth <? depth)%Z; [done|]. pose proof (drop_ws_length l) as Hd.
    destruct (expect "]" (drop_ws l)) as [r|] eqn:E; [apply expect_length in E; cbn; lia|].
    specialize (He depth (drop_ws l) ltac:(lia)). destruct (read_elements f depth _) as [[[js r]|]|]; cbn in *; [lia|done|done].
  - cbn [read_elements]. specialize (Hv (depth + 1)%Z l ltac:(lia)).
    destruct (read_value f (depth + 1) l) as [[[j l1]|]|]; [|done|done]. cbn [mbind option_bind].
    apply reads_turn; [done|]. intros l' Hl'. cbn in Hv. apply He. lia.
  - cbn [read_object]. destruct (max_depth <? depth)%Z; [done|]. pose proof (drop_ws_length l) as Hd.
    destruct (expect "}" (drop_ws l)) as [r|] eqn:E; [apply expect_length in E; cbn; lia|].
    specialize (Hm depth (drop_ws l) ltac:(lia)). destruct (read_members f depth _) as [[[js r]|]|]; cbn in *; [lia|done|done].
  - cbn [read_members]. destruct (read_string l) as [[k l1]|] eqn:E1; [|done]. apply read_string_length in E1.
    pose proof (drop_ws_length l1) as Hd1. destruct (expect ":" (drop_ws l1)) as [l2|] eqn:E2; [|done].
    apply expect_length in E2. pose proof (drop_ws_length l2) as Hd2.
    specialize (Hv (depth + 1)%Z (drop_ws l2) ltac:(lia)).
    destruct (read_value f (depth + 1) (drop_ws l2)) as [[[j l3]|]|]; [|done|done]. cbn [mbind option_bind].
    cbn in Hv. apply reads_turn; [lia|]. intros l' Hl'. apply Hm. lia.
Qed.

Lemma read_document_total l : exists x, read_document l = Some x.
Proof.
  unfold read_document. pose proof (drop_ws_length l) as Hd.
  pose proof (proj1 (fuel_enough (4 * length l + 4)) 0%Z (drop_ws l) ltac:(lia)) as H.
  destruct (read_value _ 0 (drop_ws l)) as [[[j r]|]|]; cbn; [|by eexists|done]. by eexists.
Qed.
