(* ===== verification/JsonRefine.v ===== *)
(** * The parser against the meaning of its text

    [load_refines]: on every text the parser on the array ends, stays inside the
    array, and yields what [read_document] reads off the text: an invalid value
    where that fails, and otherwise a value that shows the document, with every
    pointer inside the array. *)

From S2P Require Import Prelude CInt CArray JsonText JsonRead JsonSpec.
#[local] Open Scope nat_scope.

(** ** Positions in the array *)

(** From [d] on the array holds [l], which ends in NUL. *)
Definition at_ (buf : bytes) (d : nat) (l : bytes) : Prop := drop d buf = l /\ exists l0, l = l0 ++ [NUL].

Lemma at_length buf d l : at_ buf d l -> length buf = d + length l /\ 0 < length l.
Proof.
  intros [Hd [l0 ->]]. apply (f_equal length) in Hd. rewrite length_drop, length_app in Hd. cbn in Hd.
  rewrite length_app. cbn. lia.
Qed.

Lemma at_next buf d c l : drop d buf = c :: l -> peek buf d = Some c /\ drop (d + 1) buf = l.
Proof.
  intros H. unfold peek. split.
  - rewrite <- (Nat.add_0_r d), <- lookup_drop, H. done.
  - by rewrite <- drop_drop, H.
Qed.

Lemma at_peek buf d l : at_ buf d l ->
  exists c l', l = c :: l' /\ peek buf d = Some c /\ (c <> NUL -> at_ buf (d + 1) l').
Proof.
  intros [Hd [l0 Hl]]. destruct l as [|c l']; [by destruct l0|].
  destruct (at_next _ _ _ _ Hd) as [Hp Hn]. exists c, l'. split; [done|]. split; [done|].
  intros Hc. split; [done|]. destruct l0 as [|c0 l0]; cbn in Hl; [by injection Hl as ->|].
  injection Hl as _ ->. by exists l0.
Qed.

(** A loop that skips a character while [f] holds of it. *)
Lemma expect_run buf d l c : at_ buf d l -> c <> NUL ->
  match expect c l with
  | Some r => consume buf d c = Some (true, d + 1) /\ at_ buf (d + 1) r
  | None => consume buf d c = Some (false, d)
  end.
Proof.
  intros Ha Hc. destruct (at_peek _ _ _ Ha) as (x & l' & -> & Hp & Hn). unfold consume. rewrite Hp. cbn.
  destruct (Ascii.eqb_spec x c) as [->|]; [|done]. split; [done|]. by apply Hn.
Qed.

Lemma expect_peek buf d l c : at_ buf d l -> c <> NUL ->
  exists x, peek buf d = Some x /\
    match expect c l with
    | Some r => Ascii.eqb x c = true /\ at_ buf (d + 1) r
    | None => Ascii.eqb x c = false
    end.
Proof.
  intros Ha Hc. destruct (at_peek _ _ _ Ha) as (x & l' & -> & Hp & Hn). exists x. split; [done|]. cbn.
  destruct (Ascii.eqb_spec x c) as [->|]; [|done]. split; [done|]. by apply Hn.
Qed.

Lemma ws_loop_run fuel buf d l : at_ buf d l -> length l < fuel ->
  exists d', ws_loop fuel buf d = Some d' /\ at_ buf d' (drop_ws l) /\ d <= d'.
Proof.
  revert d l. induction fuel as [|fuel IH]; intros d l Ha Hf; [lia|].
  destruct (at_peek _ _ _ Ha) as (c & l' & -> & Hp & Hn). cbn. rewrite Hp. cbn.
  destruct (is_ws c) eqn:Ec; [|by exists d].
  destruct (IH (d + 1) l') as (d' & -> & Ha' & Hd); [apply Hn; by intros ->|cbn in Hf; lia|].
  exists d'. split; [done|]. split; [done|lia].
Qed.

Lemma ws_skip_run buf d l : at_ buf d l ->
  exists d', ws_skip buf d = Some d' /\ at_ buf d' (drop_ws l) /\ d <= d'.
Proof. intros Ha. apply ws_loop_run; [done|]. apply at_length in Ha. lia. Qed.

(** ** What a call leaves unchanged *)

(** The array is the same before [d] and from [d'] on. *)
Definition grows (buf : bytes) (d : nat) (buf' : bytes) (d' : nat) : Prop :=
  d <= d' /\ length buf' = length buf /\ forall i, i < d \/ d' <= i -> buf' !! i = buf !! i.

Lemma grows_refl buf d d' : d <= d' -> grows buf d buf d'.
Proof. by split. Qed.

Lemma grows_trans b d b1 d1 b2 d2 : grows b d b1 d1 -> grows b1 d1 b2 d2 -> grows b d b2 d2.
Proof.
  intros (H1 & L1 & K1) (H2 & L2 & K2). split; [lia|]. split; [congruence|].
  intros i Hi. rewrite K2, K1 by lia. done.
Qed.

Lemma grows_wider b d b' d' lo hi : grows b d b' d' -> lo <= d -> d' <= hi -> grows b lo b' hi.
Proof. intros (H & L & K) Hlo Hhi. split; [lia|]. split; [done|]. intros i Hi. apply K. lia. Qed.

Lemma grows_poke b d c d' : d < d' -> d' <= length b -> exists b', poke b d c = Some b' /\ grows b d b' d' /\ peek b' d = Some c.
Proof.
  intros Hd Hl. exists (<[d := c]> b). unfold poke. rewrite decide_True by lia. split; [done|].
  split; [|unfold peek; apply list_lookup_insert_eq; lia]. split; [lia|]. split; [by rewrite length_insert|].
  intros i Hi. apply list_lookup_insert_ne. lia.
Qed.

Lemma grows_at b d b' d' l : grows b d b' d' -> at_ b d' l -> at_ b' d' l.
Proof.
  intros (_ & _ & K) [Hd He]. split; [|done]. rewrite <- Hd. apply list_eq. intros i.
  rewrite !lookup_drop. apply K. lia.
Qed.

Lemma slice_lookup s e b i : slice s e b !! i = if decide (i < e - s) then b !! (s + i) else None.
Proof.
  unfold slice. destruct (decide _) as [Hi|Hi]; [by rewrite lookup_take_lt, lookup_drop|].
  apply lookup_take_ge. lia.
Qed.

Lemma slice_same b b' s e : (forall i, s <= i -> i < e -> b' !! i = b !! i) -> slice s e b' = slice s e b.
Proof.
  intros H. apply list_eq. intros i. rewrite !slice_lookup. destruct (decide _); [|done]. apply H; lia.
Qed.

Lemma slice_snoc s e b c : s <= e -> peek b e = Some c -> slice s (e + 1) b = slice s e b ++ [c].
Proof.
  intros Hs Hp. unfold slice. replace (e + 1 - s) with (S (e - s)) by lia.
  apply take_S_r. rewrite lookup_drop, <- Hp. unfold peek. f_equal. lia.
Qed.

Lemma slice_nil s b : slice s s b = [].
Proof. unfold slice. by rewrite Nat.sub_diag. Qed.

Lemma slice_at b d l n : at_ b d l -> slice d (d + n) b = take n l.
Proof. intros [<- _]. unfold slice. f_equal. lia. Qed.

(** ** Values in the array *)

Definition typed (t : type) (v : rvalue) : Prop := t_ v = t /\ option_ v = 0%Z.

(** A string from [s] to [e]: between a flag and a NUL. *)
Definition string_at (b : bytes) (s e : nat) (str : bytes) : Prop :=
  0 < s /\ s <= e /\ peek b e = Some NUL /\ exists flag, peek b (s - 1) = Some flag /\
    (flag = NUL -> slice s e b = str) /\ (flag <> NUL -> body (slice s e b) str).

(** The key of a member: its bytes, as they are. *)
Definition keyed (b : bytes) (lo hi : nat) (k : bytes) (v : rvalue) : Prop :=
  exists s e, key_ v = Some (RString s e false) /\ lo <= s /\ s <= e /\ e <= hi /\ slice s e b = k.

(** [v] shows the document in the array, all of it between [lo] and [hi]. *)
Inductive shows (b : bytes) (lo hi : nat) : json -> rvalue -> Prop :=
  | shows_null v : typed Null v -> shows b lo hi JNull v
  | shows_bool (x : bool) v : typed (if x then True_ else False_) v -> shows b lo hi (JBool x) v
  | shows_number v s e : typed Number v -> start_ v = Some s -> end_ v = Some e ->
      lo <= s -> s <= e -> e <= hi -> nt_ v = determine_num_type Number (slice s e b) ->
      shows b lo hi (JNumber (slice s e b)) v
  | shows_string v s e str : typed String_ v -> start_ v = Some s -> end_ v = Some e ->
      lo < s -> e < hi -> string_at b s e str -> shows b lo hi (JString str) v
  | shows_list v js : typed List_ v -> Forall2 (shows b lo hi) js (l_ v) -> shows b lo hi (JList js) v
  | shows_object v ms : typed Object v ->
      Forall2 (fun m v => keyed b lo hi m.1 v /\ shows b lo hi m.2 v) ms (l_ v) -> shows b lo hi (JObject ms) v.

Lemma shows_valid b lo hi j v : shows b lo hi j v -> error v = false.
Proof.
  assert (H : forall t, typed t v -> error v = false) by (intros t [_ Ho]; unfold error; by rewrite Ho).
  by destruct 1; eapply H.
Qed.

Lemma shows_set_key b lo hi j v k : shows b lo hi j v -> shows b lo hi j (set_key k v).
Proof. destruct 1; econstructor; eauto. Qed.

Lemma string_same b b' s e str : (forall i, s - 1 <= i -> i <= e -> b' !! i = b !! i) ->
  string_at b s e str -> string_at b' s e str.
Proof.
  intros H (Hs & He & Hz & flag & Hf & H1 & H2). split; [done|]. split; [done|].
  assert (Hsl : slice s e b' = slice s e b) by (apply slice_same; intros; apply H; lia).
  split; [unfold peek in *; rewrite H; [done|lia|done]|]. exists flag. rewrite Hsl.
  split; [unfold peek in *; rewrite H; [done|lia|lia]|done].
Qed.

Lemma Forall2_weaken {A B} (R S : A -> B -> Prop) l k :
  Forall2 R l k -> Forall (fun x => forall y, R x y -> S x y) l -> Forall2 S l k.
Proof. induction 1; intros Hf; inversion Hf; subst; constructor; auto. Qed.

(** What is shown stays so as long as its region does, and in every wider one. *)
Lemma shows_same b b' lo hi lo' hi' j v : (forall i, lo <= i -> i < hi -> b' !! i = b !! i) -> lo' <= lo -> hi <= hi' ->
  shows b lo hi j v -> shows b' lo' hi' j v.
Proof.
  intros H Hlo Hhi. revert v. induction j as [|x|t|s|js IH|ms IH] using json_ind'; intros v Hv; inversion Hv; subst.
  - by constructor.
  - by constructor.
  - assert (Hs : slice s e b' = slice s e b) by (apply slice_same; intros; apply H; lia).
    rewrite <- Hs in *. by eapply shows_number; eauto; lia.
  - eapply shows_string; eauto; [lia..|]. eapply string_same; [|done]. intros i Hi He. apply H; lia.
  - constructor; [done|]. eapply Forall2_weaken; [eassumption|]. exact IH.
  - constructor; [done|]. eapply Forall2_weaken; [eassumption|]. eapply Forall_impl; [exact IH|].
    cbn. intros [k j] Hj w [(s & e & Hk & ? & ? & ? & Hsl) Hw]. split; [|by apply Hj].
    exists s, e. repeat (split; [done || lia|]). rewrite <- Hsl. apply slice_same. intros; apply H; cbn in *; lia.
Qed.

(** An invalid value, with the parser still inside the array. *)
Definition failed (buf : bytes) (out : option (rvalue * bytes * nat)) : Prop :=
  exists v b d' l, out = Some (v, b, d') /\ error v = true /\ at_ b d' l /\ length b = length buf.

Lemma failed_intro buf v b d' l : error v = true -> at_ b d' l -> length b = length buf -> failed buf (Some (v, b, d')).
Proof. intros. by exists v, b, d', l. Qed.

Lemma set_error_error v : error (set_error v) = true.
Proof.
  unfold error, set_error. cbn. rewrite Z.land_lor_distr_l, Z.land_diag.
  destruct (Z.eqb_spec (Z.lor (Z.land (option_ v) error_bit) error_bit) 0) as [E|]; [|done].
  by apply Z.lor_eq_0_iff in E as [_ E].
Qed.

Lemma failed_grows buf d b d' out : grows buf d b d' -> failed b out -> failed buf out.
Proof. intros (_ & Hl & _) (v & b' & d2 & l & ? & ? & ? & ?). exists v, b', d2, l. by rewrite <- Hl. Qed.

(** ** Strings *)

Lemma slice_middle s b d l n : at_ b d l -> s <= d -> n <= length l -> slice s (d + n) b = slice s d b ++ take n l.
Proof.
  intros [Hl _] Hs Hn. unfold slice. rewrite <- Hl at 1.
  replace (d + n - s) with ((d - s) + n) by lia. rewrite <- take_take_drop. f_equal.
  rewrite drop_drop. do 2 f_equal. lia.
Qed.

Lemma body_snoc t s u x : body t s -> unit_text u x -> body (t ++ u) (s ++ x).
Proof.
  intros Hb Hu. induction Hb as [|t v t' v' Hu' _ IH]; cbn.
  - rewrite <- (app_nil_r u), <- (app_nil_r x). by repeat constructor.
  - rewrite <- !app_assoc. by constructor.
Qed.

Lemma not_hex_NUL : is_hex NUL = false.
Proof. reflexivity. Qed.

Lemma all_hex_run n buf i l : at_ buf i l ->
  all_hex n buf i = Some (forallb is_hex (take n l) && (n <=? length l)) /\
  (forallb is_hex (take n l) && (n <=? length l) = true -> at_ buf (i + n) (drop n l)).
Proof.
  revert i l. induction n as [|n IH]; intros i l Ha; cbn.
  { split; [done|]. intros _. by rewrite Nat.add_0_r. }
  destruct (at_peek _ _ _ Ha) as (c & l' & -> & Hp & Hn). rewrite Hp. cbn.
  destruct (is_hex c) eqn:Ec; cbn; [|done].
  destruct (IH (i + 1) l') as [-> Hd]; [apply Hn; by intros ->|].
  split; [done|]. intros H. replace (i + S n) with (i + 1 + n) by lia. by apply Hd.
Qed.

Lemma read_unicode l : match l with
    | a :: b :: c :: d :: l =>
        if is_hex a && is_hex b && is_hex c && is_hex d then
          '(s, r) ← read_body l; Some (utf8 (hex4 a b c d) ++ s, r)
        else None
    | _ => None
    end =
  (if forallb is_hex (take 4 l) && (4 <=? length l) then
     '(s, r) ← read_body (drop 4 l);
     Some (match l with a :: b :: c :: d :: _ => utf8 (hex4 a b c d) | _ => [] end ++ s, r)
   else None).
Proof.
  destruct l as [|a [|b [|c [|d l]]]]; cbn; try by rewrite ?andb_false_r.
  by destruct (is_hex a), (is_hex b), (is_hex c), (is_hex d).
Qed.

Lemma grows_both b b1 b2 lo hi : grows b lo b1 hi -> grows b1 lo b2 hi -> grows b lo b2 hi.
Proof.
  intros (H1 & L1 & K1) (_ & L2 & K2). split; [done|]. split; [congruence|]. intros i Hi. by rewrite K2, K1.
Qed.

(** What the loop has so far, [t0] for [s0], and what is to come. *)
Definition string_sim (start : nat) (s0 : bytes) (buf : bytes) (out : option (rvalue * bytes * nat))
    (x : option (bytes * bytes)) : Prop :=
  match x with
  | None => failed buf out
  | Some (s, r) => exists v b e, out = Some (v, b, e + 1) /\ typed String_ v /\ start_ v = Some start /\
      end_ v = Some e /\ start <= e /\ grows buf (start - 1) b (e + 1) /\ at_ b (e + 1) r /\
      string_at b start e (s0 ++ s)
  end.

Lemma string_sim_more start s0 u buf out x : string_sim start (s0 ++ u) buf out x ->
  string_sim start s0 buf out ('(s, r) ← x; Some (u ++ s, r)).
Proof. destruct x as [[s r]|]; cbn; [|done]. by rewrite <- app_assoc. Qed.

Lemma string_end fuel start (esc : bool) buf d l s0 : at_ buf d (quote :: l) -> 0 < start -> start <= d ->
  body (slice start d buf) s0 -> (esc = false -> s0 = slice start d buf) ->
  string_sim start s0 buf (string_loop (S fuel) start esc buf d) (Some ([], l)).
Proof.
  intros Ha H0 Hd Hb He. destruct (at_peek _ _ _ Ha) as (c & l' & [= <- <-] & Hp & Hn).
  pose proof (at_length _ _ _ Ha) as [Hl _]. cbn [length] in Hl.
  cbn [string_loop]. rewrite Hp. cbn [mbind option_bind]. rewrite Ascii.eqb_refl.
  destruct (grows_poke buf d NUL (d + 1)) as (b1 & -> & G1 & P1); [lia..|]. cbn [mbind option_bind].
  destruct (grows_poke b1 (start - 1) (if esc then chr 1 else NUL) start) as (b2 & -> & G2 & P2); [lia| |].
  { destruct G1 as (_ & -> & _). lia. }
  cbn [mbind option_bind].
  assert (G : grows buf (start - 1) b2 (d + 1)).
  { eapply grows_both; [apply (grows_wider _ _ _ _ _ _ G1); lia|apply (grows_wider _ _ _ _ _ _ G2); lia]. }
  assert (Hs : slice start d b2 = slice start d buf).
  { destruct G1 as (_ & _ & K1). destruct G2 as (_ & _ & K2). apply slice_same. intros i Hi Hi'.
    rewrite K2, K1; [done|lia..]. }
  assert (P : peek b2 d = Some NUL).
  { destruct G2 as (_ & _ & K2). unfold peek in *. rewrite K2; [done|lia]. }
  eexists _, b2, d. do 5 (split; [done|]). split; [done|]. split; [eapply grows_at; [done|by apply Hn]|].
  rewrite app_nil_r. split; [done|]. split; [done|]. split; [done|]. eexists. split; [exact P2|]. rewrite Hs.
  destruct esc; split; try done. intros _. by rewrite He.
Qed.

Lemma string_loop_run fuel start (esc : bool) buf d l s0 : at_ buf d l -> length l < fuel -> 0 < start -> start <= d ->
  body (slice start d buf) s0 -> (esc = false -> s0 = slice start d buf) ->
  string_sim start s0 buf (string_loop fuel start esc buf d) (read_body l).
Proof.
  revert esc d l s0. induction fuel as [fuel IH] using lt_wf_ind; intros esc d l s0 Ha Hf H0 Hd Hb He.
  destruct fuel as [|fuel]; [lia|].
  destruct (at_peek _ _ _ Ha) as (c & l' & -> & Hp & Hn). cbn [read_body].
  assert (Hgo : forall esc' n u x, unit_text u x -> u = take n (c :: l') -> n = length u -> n <= length (c :: l') ->
    at_ buf (d + n) (drop n (c :: l')) -> (esc' = false -> esc = false /\ u = x) ->
    string_sim start s0 buf (string_loop fuel start esc' buf (d + n))
      ('(s, r) ← read_body (drop n (c :: l')); Some (x ++ s, r))).
  { intros esc' n u x Hu Ht Hl Hle Hat Hesc. pose proof (unit_length _ _ Hu). apply string_sim_more.
    assert (Hs : slice start (d + n) buf = slice start d buf ++ u) by (rewrite (slice_middle _ _ _ _ _ Ha), Ht by lia; done).
    apply IH; [lia|done|rewrite length_drop; cbn in *; lia|done|lia| |].
    - rewrite Hs. by apply body_snoc.
    - intros [E ->]%Hesc. rewrite Hs. by rewrite He. }
  destruct (Ascii.eqb_spec c quote) as [->|Hq]; [by apply string_end|].
  cbn [string_loop]. rewrite Hp. cbn [mbind option_bind]. rewrite (proj2 (Ascii.eqb_neq _ _) Hq).
  destruct (Ascii.eqb_spec c backslash) as [->|Hbs].
  - destruct (at_peek _ _ _ (Hn ltac:(done))) as (e & l2 & -> & Hp2 & Hn2). rewrite Hp2. cbn [mbind option_bind].
    destruct (Ascii.eqb_spec e "u") as [->|Hu].
    + rewrite read_unicode.
      replace (d + 2) with (d + 1 + 1) by lia.
      destruct (all_hex_run 4 buf (d + 1 + 1) l2) as [-> Hat]; [by apply Hn2|]. cbn [mbind option_bind].
      destruct (forallb is_hex (take 4 l2) && (4 <=? length l2)) eqn:Ex; [|by eapply failed_intro; [|apply Hn|]].
      destruct l2 as [|x1 [|x2 [|x3 [|x4 l4]]]]; cbn in Ex; rewrite ?andb_false_r in Ex; try done.
      apply (Hgo true 6 [backslash; "u"%char; x1; x2; x3; x4]); [|done|done|cbn; lia| |done].
      * rewrite !andb_true_r in Ex. repeat (apply andb_prop in Ex as [? Ex]). by constructor.
      * replace (d + 6) with (d + 1 + 1 + 4) by lia. by apply Hat.
    + destruct (simple_escape e) as [x|] eqn:Ex; [|by eapply failed_intro; [|apply Hn|]]. cbn [mbind option_bind].
      apply (Hgo true 2 [backslash; e] [x]); [by constructor|done|done|cbn; lia| |done].
      replace (d + 2) with (d + 1 + 1) by lia. apply Hn2. intros ->. discriminate Ex.
  - destruct (Ascii.eqb_spec c NUL) as [->|Hz]; [by eapply failed_intro|].
    apply (Hgo esc 1 [c] [c]); [by constructor|done|done|cbn; lia|by apply Hn|done].
Qed.

(** The result of [decode_string]: a string between two quotes. *)
Definition string_out (buf : bytes) (d : nat) (out : option (rvalue * bytes * nat)) (x : option (bytes * bytes)) : Prop :=
  match x with
  | None => failed buf out
  | Some (str, r) => exists v b s e, out = Some (v, b, e + 1) /\ typed String_ v /\ start_ v = Some s /\
      end_ v = Some e /\ d < s /\ s <= e /\ grows buf d b (e + 1) /\ at_ b (e + 1) r /\ string_at b s e str
  end.

Lemma decode_string_run buf d l : at_ buf d l -> string_out buf d (decode_string buf d) (read_string l).
Proof.
  intros Ha. unfold decode_string. pose proof (expect_run buf d l quote Ha ltac:(done)) as Hc.
  destruct l as [|c l]; [destruct (at_length _ _ _ Ha) as [_ H0]; cbn in H0; lia|]. cbn [read_string].
  cbn [expect] in Hc. destruct (Ascii.eqb c quote).
  - destruct Hc as [-> Hat]. cbn [mbind option_bind negb].
    pose proof (at_length _ _ _ Hat) as [Hl _].
    pose proof (string_loop_run (S (length buf)) (d + 1) false buf (d + 1) l [] Hat) as H.
    rewrite slice_nil in H. destruct (read_body l) as [[s r]|]; cbn in *.
    + destruct H as (v & b & e & ? & ? & ? & ? & ? & G & ? & ?); [lia..|constructor|done|].
      exists v, b, (d + 1), e. replace (d + 1 - 1) with d in G by lia.
      do 8 (split; [done || lia|]). done.
    + apply H; [lia..|constructor|done].
  - rewrite Hc. by eapply failed_intro.
Qed.

Lemma slice_shape (A : bytes) c str r : slice (S (length A)) (S (length A) + length str) (A ++ c :: str ++ r) = str.
Proof.
  unfold slice. replace (S (length A) + length str - S (length A)) with (length str) by lia.
  replace (S (length A)) with (length (A ++ [c])) by (rewrite length_app; cbn; lia).
  change (c :: str ++ r) with ([c] ++ str ++ r). by rewrite (app_assoc A), drop_app_length, take_app_length.
Qed.

(** [t.s()]: the escapes are replaced, and the key is what was read. *)
Lemma string_of_run b v s e str : start_ v = Some s -> end_ v = Some e -> string_at b s e str ->
  exists b' e', string_of v b = Some (RString s e' false, b') /\ s <= e' /\ e' <= e /\
    grows b (s - 1) b' (e + 1) /\ slice s e' b' = str.
Proof.
  intros Hs He (H0 & Hle & Hz & flag & Hf & H1 & H2). unfold string_of. rewrite Hs, He. cbn [mbind option_bind].
  destruct s as [|s0]; [lia|]. replace (S s0 - 1) with s0 in * by lia.
  assert (Hb : b = take s0 b ++ flag :: slice (S s0) e b ++ NUL :: drop (e + 1) b).
  { rewrite <- (take_drop s0 b) at 1. f_equal. 
    rewrite (drop_S _ flag) by done. f_equal.
    rewrite <- (take_drop (e - S s0) (drop (S s0) b)) at 1. f_equal.
    rewrite drop_drop. replace (S s0 + (e - S s0)) with e by lia. rewrite (drop_S _ NUL) by done.
    by rewrite Nat.add_1_r. }
  assert (Hl0 : length (take s0 b) = s0).
  { rewrite length_take. unfold peek in Hf. apply lookup_lt_Some in Hf. lia. }
  assert (Hl1 : length (slice (S s0) e b) = e - S s0).
  { unfold slice. rewrite length_take, length_drop. unfold peek in Hz. apply lookup_lt_Some in Hz. lia. }
  set (A := take s0 b) in *. set (R := drop (e + 1) b) in *. destruct (decide (flag = NUL)) as [->|Hn].
  - exists b, e. rewrite Hb at 1. rewrite <- Hl0 at 2. rewrite unescape_plain. cbn [mbind option_bind].
    rewrite <- Hb. do 3 (split; [done || lia|]). split; [apply grows_refl; lia|]. by apply H1.
  - destruct (unescape_run A R flag _ _ Hn (H2 Hn)) as (junk & Hj & Hr). rewrite <- Hb, Hl0, Hl1 in Hr.
    replace (S s0 + (e - S s0)) with e in Hr by lia. rewrite Hr. cbn [mbind option_bind].
    pose proof (unescaped_length _ _ (H2 Hn)) as Hlen. rewrite Hl1 in *.
    eexists _, (S s0 + length str). do 3 (split; [done || lia|]).
    split; [|rewrite <- Hl0; apply slice_shape].
    assert (Hx : length (A ++ NUL :: str ++ NUL :: junk) = e + 1).
    { rewrite length_app. cbn. rewrite length_app. cbn. lia. }
    assert (Hy : length (A ++ flag :: slice (S s0) e b ++ [NUL]) = e + 1).
    { rewrite length_app. cbn. rewrite length_app, Hl1. cbn. lia. }
    assert (Eb : b = (A ++ flag :: slice (S s0) e b ++ [NUL]) ++ R) by (rewrite Hb at 1; by rewrite <- !app_assoc, <- app_comm_cons, <- app_assoc).
    assert (Eb' : A ++ NUL :: str ++ NUL :: junk ++ R = (A ++ NUL :: str ++ NUL :: junk) ++ R)
      by by rewrite <- !app_assoc, <- app_comm_cons, <- app_assoc.
    rewrite Eb'. split; [lia|]. split; [rewrite Eb at 1; by rewrite !(length_app _ R), Hx, Hy|].
    intros i Hi. rewrite Eb at 1. destruct Hi as [Hi|Hi].
    + rewrite <- !app_assoc, !(lookup_app_l A) by lia. done.
    + rewrite !(lookup_app_r _ R) by lia. by rewrite Hx, Hy.
Qed.

(** ** Numbers *)

Lemma digits_loop_run fuel buf d c l : at_ buf d (c :: l) -> c <> NUL -> length l < fuel ->
  exists ds l', l = ds ++ l' /\ Forall (fun c => between "0" "9" c = true) ds /\
    digits_loop fuel buf d = Some (d + length ds) /\ at_ buf (d + length ds + 1) l'.
Proof.
  revert d c l. induction fuel as [|fuel IH]; intros d c l Ha Hc Hf; [lia|].
  destruct (at_peek _ _ _ Ha) as (c' & l2 & [= <- <-] & _ & Hn). specialize (Hn Hc).
  destruct (at_peek _ _ _ Hn) as (x & l3 & -> & Hp & _). cbn [digits_loop]. rewrite Hp. cbn [mbind option_bind].
  destruct (between "0" "9" x) eqn:Ex.
  - destruct (IH (d + 1) x l3) as (ds & l' & -> & Hds & -> & Ha'); [done|by intros ->|cbn in Hf; lia|].
    exists (x :: ds), l'. split; [done|]. split; [by constructor|]. cbn [length].
    split; [f_equal; lia|]. by replace (d + S (length ds) + 1) with (d + 1 + length ds + 1) by lia.
  - exists [], (x :: l3). cbn. rewrite Nat.add_0_r. done.
Qed.

(** In a state that digits lead to, they lead back to it. *)
Definition digit_state (s : NumberParsingState) : bool := bool_decide (s = Digits \/ s = DigitsAfterPoints \/ s = DigitsAfterE).

Lemma digit_table c : between "0" "9" c = true -> exists table, number_table c = Some table /\
  forall s, digit_state s = true -> next_state table s = s.
Proof.
  intros H. assert (Hc : number_table c = Some [2; 2; 7; 3; 4; 6; 6] \/ number_table c = Some [3; 3; 7; 3; 4; 6; 6]).
  { destruct c as [[] [] [] [] [] [] [] []]; done || (by left) || by right. }
  destruct Hc as [-> | ->]; eexists; (split; [done|]); by intros [].
Qed.

Lemma nonzero_next c s table : between "1" "9" c = true -> number_table c = Some table ->
  next_state table s = Invalid \/ digit_state (next_state table s) = true \/ s = Invalid.
Proof.
  intros H Ht. assert (Hc : number_table c = Some [3; 3; 7; 3; 4; 6; 6]).
  { revert H. clear. by destruct c as [[] [] [] [] [] [] [] []]. }
  rewrite Ht in Hc. injection Hc as ->. destruct s; cbn; auto.
Qed.

Lemma accepts_digits s ds t : digit_state s = true -> Forall (fun c => between "0" "9" c = true) ds ->
  accepts s (ds ++ t) = accepts s t.
Proof.
  intros Hs. induction 1 as [|c ds Hc _ IH]; [done|]. cbn [accepts app]. destruct (digit_table c Hc) as (table & -> & Ht).
  rewrite Ht by done. rewrite bool_decide_eq_false_2; [done|]. by intros ->.
Qed.

Lemma number_run_digits ds l : Forall (fun c => between "0" "9" c = true) ds -> number_run (ds ++ l) = ds ++ number_run l.
Proof.
  induction 1 as [|c ds Hc _ IH]; [done|]. cbn. unfold number_char. destruct (digit_table c Hc) as (table & -> & _).
  by rewrite IH.
Qed.

Lemma number_table_NUL : number_table NUL = None.
Proof. reflexivity. Qed.

Lemma number_loop_run fuel buf start s d l : at_ buf d l -> length l < fuel -> s <> Invalid ->
  let d' := d + length (number_run l) in
  if accepts s (number_run l)
  then number_loop fuel buf start s d = Some (rvalue_span Number start d' buf, d') /\ at_ buf d' (drop (length (number_run l)) l)
  else exists d' l', number_loop fuel buf start s d = Some (rvalue_invalid, d') /\ at_ buf d' l'.
Proof.
  cbn zeta. revert s d l. induction fuel as [fuel IH] using lt_wf_ind; intros s d l Ha Hf Hs.
  destruct fuel as [|fuel]; [lia|].
  destruct (at_peek _ _ _ Ha) as (c & l' & -> & Hp & Hn). cbn [number_loop number_run].
  rewrite bool_decide_eq_false_2 by done. rewrite Hp. cbn [mbind option_bind]. unfold number_char.
  destruct (number_table c) as [table|] eqn:Et.
  2:{ cbn [accepts length]. rewrite Nat.add_0_r, drop_0. destruct (accepting s); eauto. }
  assert (Hc : c <> NUL) by by intros ->.
  cbn [accepts]. rewrite Et.
  assert (Hdead : forall d2 l2, next_state table s = Invalid ->
    at_ buf d2 l2 -> exists d' l', number_loop fuel buf start Invalid d2 = Some (rvalue_invalid, d') /\ at_ buf d' l').
  { intros d2 l2 _ Ha2. destruct fuel as [|fuel]; [cbn in Hf; lia|]. by exists d2, l2. }
  destruct (between "1" "9" c) eqn:E9.
  - destruct (digits_loop_run (S (length buf)) buf d c l' Ha Hc) as (ds & l2 & -> & Hds & -> & Ha').
    { apply at_length in Ha. cbn in Ha. lia. }
    cbn [mbind option_bind]. destruct (nonzero_next c s table E9 Et) as [Hi|[Hd|Hi]]; [|idtac|done].
    + rewrite Hi, bool_decide_eq_true_2 by done. by eapply Hdead.
    + rewrite bool_decide_eq_false_2 by (by intros Hx; rewrite Hx in Hd).
      rewrite number_run_digits, accepts_digits by done.
      specialize (IH fuel ltac:(lia) (next_state table s) (d + length ds + 1) l2 Ha').
      cbn [length drop]. rewrite !length_app in *. cbn in Hf. rewrite length_app in Hf.
      replace (d + S (length ds + length (number_run l2))) with (d + length ds + 1 + length (number_run l2)) by lia.
      rewrite <- drop_drop, drop_app_length.
      apply IH; [lia|]. by intros Hx; rewrite Hx in Hd.
  - cbn [mbind option_bind]. destruct (decide (next_state table s = Invalid)) as [Hi|Hi].
    + rewrite Hi, bool_decide_eq_true_2 by done. by eapply Hdead; [|apply Hn].
    + rewrite bool_decide_eq_false_2 by done. specialize (IH fuel ltac:(lia) (next_state table s) (d + 1) l' (Hn Hc)).
      cbn [length drop]. replace (d + S (length (number_run l'))) with (d + 1 + length (number_run l')) by lia.
      apply IH; [cbn in Hf; lia|done].
Qed.

(** ** Words *)

Lemma follows_run word j buf i l : at_ buf i l -> Forall (fun c => c <> NUL) word ->
  match read_word word j l with
  | Some (j', r) => follows word buf i = Some true /\ j' = j /\ at_ buf (i + length word) r
  | None => follows word buf i = Some false
  end.
Proof.
  intros Ha Hw. unfold read_word. revert i l Ha. induction Hw as [|w word Hw _ IH]; intros i l Ha; cbn.
  { rewrite bool_decide_eq_true_2, drop_0, Nat.add_0_r by done. done. }
  destruct (at_peek _ _ _ Ha) as (c & l' & -> & Hp & Hn). rewrite Hp. cbn [mbind option_bind take drop].
  destruct (Ascii.eqb_spec c w) as [->|Hne].
  - specialize (IH (i + 1) l' (Hn Hw)). replace (i + S (length word)) with (i + 1 + length word) by lia.
    destruct (decide (take (length word) l' = word)) as [E|E].
    + rewrite bool_decide_eq_true_2 in IH by done. rewrite bool_decide_eq_true_2 by congruence. done.
    + rewrite bool_decide_eq_false_2 in IH by done. rewrite bool_decide_eq_false_2 by congruence. done.
  - rewrite bool_decide_eq_false_2 by congruence. done.
Qed.

(** ** The array of elements *)

(** The cells behind the last element are the ones [lremain_] counts. *)
Definition fits (r : rvalue) : Prop := cells_ r = (lsize_ r + lremain_ r)%Z /\ (0 <= lremain_ r < 65536)%Z.

Definition max_elements : Z := 2 ^ 31 - 2 ^ 16.

Lemma new_size_spec n : (0 <= n < max_elements)%Z -> (n < new_size n <= n + 60000)%Z.
Proof.
  unfold max_elements. intros Hn. unfold new_size.
  assert (E : to_u32 (to_i32 (to_u32 (n + n)) - n) = n).
  { unfold to_i32, to_u32, wrap_s, wrap_u. rewrite <- Zminus_mod_idemp_l.
    replace (((n + n) mod 2 ^ 32 + 2 ^ (32 - 1)) mod 2 ^ 32 - 2 ^ (32 - 1))%Z
      with (((n + n) mod 2 ^ 32 + 2 ^ (32 - 1)) mod 2 ^ 32 - 2 ^ (32 - 1))%Z by done.
    rewrite (Zminus_mod _ (2 ^ (32 - 1))), Zmod_mod, <- Zminus_mod, Z.add_simpl_r, Zmod_mod.
    rewrite Zminus_mod_idemp_l. rewrite Z.add_simpl_r. apply Z.mod_small. lia. }
  rewrite E. destruct (60000 <? n)%Z eqn:E1.
  - apply Z.ltb_lt in E1. unfold to_u32, wrap_u. rewrite Z.mod_small by lia.
    rewrite to_i32_id by (unfold INT_MIN, INT_MAX; lia). destruct (_ <? 4)%Z eqn:E2; lia.
  - apply Z.ltb_ge in E1. unfold to_u32, wrap_u. rewrite Z.mod_small by lia.
    rewrite to_i32_id by (unfold INT_MIN, INT_MAX; lia). destruct (_ <? 4)%Z eqn:E2; lia.
Qed.

Lemma emplace_back_run r v t : fits r -> typed t r -> (lsize_ r < max_elements)%Z ->
  exists r', emplace_back r v = Some r' /\ l_ r' = l_ r ++ [v] /\ fits r' /\ typed t r'.
Proof.
  intros [Hc Hr] Ht Hn. unfold emplace_back. assert (H0 : (0 <= lsize_ r)%Z) by (unfold lsize_; lia).
  pose proof (new_size_spec (lsize_ r) (conj H0 Hn)) as Hs.
  assert (Hw : wrap_u 16 (to_u32 (new_size (lsize_ r) - lsize_ r)) = (new_size (lsize_ r) - lsize_ r)%Z).
  { unfold to_u32, wrap_u. rewrite (Z.mod_small _ (2 ^ 32)), Z.mod_small by lia. done. }
  rewrite Hw. clear Hw. set (n := new_size _) in *. clearbody n.
  assert (Hgo : forall cells lremain, cells = (lsize_ r + lremain)%Z -> (0 < lremain < 65536)%Z ->
    exists r', (if (lsize_ r <? cells)%Z then
        Some (RValue (start_ r) (end_ r) (key_ r) (l_ r ++ [v]) cells (wrap_u 16 (lremain - 1)) (t_ r) (nt_ r) (option_ r))
      else None) = Some r' /\ l_ r' = l_ r ++ [v] /\ fits r' /\ typed t r').
  { intros cells lremain -> Hl. rewrite (proj2 (Z.ltb_lt _ _)) by lia. eexists. split; [done|]. split; [done|].
    split; [|done]. unfold fits, wrap_u, lsize_. cbn. rewrite length_app, Z.mod_small by lia. cbn. lia. }
  destruct (lremain_ r =? 0)%Z eqn:E; [|apply Z.eqb_neq in E]; apply Hgo; lia.
Qed.

(** ** Values *)

(** A call from [d] on, against what the text means. *)
Definition sim (buf : bytes) (d : nat) (out : option (rvalue * bytes * nat)) (x : option (json * bytes)) : Prop :=
  match x with
  | None => failed buf out
  | Some (j, r) => exists v b d', out = Some (v, b, d') /\ at_ b d' r /\ d < d' /\ grows buf d b d' /\ shows b d d' j v
  end.

(** A loop that appends to [items] what [R] relates to the items of the text. *)
Definition items_sim {A} (R : bytes -> nat -> nat -> A -> rvalue -> Prop) (t : type) (items : list rvalue)
    (buf : bytes) (d : nat) (out : option (rvalue * bytes * nat)) (x : option (list A * bytes)) : Prop :=
  match x with
  | None => failed buf out
  | Some (js, r) => exists v b d' vs, out = Some (v, b, d') /\ at_ b d' r /\ d < d' /\ grows buf d b d' /\
      typed t v /\ l_ v = items ++ vs /\ Forall2 (R b d d') js vs
  end.

Definition member (b : bytes) (lo hi : nat) (m : bytes * json) (v : rvalue) : Prop :=
  keyed b lo hi m.1 v /\ shows b lo hi m.2 v.

Definition stable {A} (R : bytes -> nat -> nat -> A -> rvalue -> Prop) : Prop :=
  forall b b' lo hi lo' hi' a v, (forall i, lo <= i -> i < hi -> b' !! i = b !! i) -> lo' <= lo -> hi <= hi' ->
    R b lo hi a v -> R b' lo' hi' a v.

Lemma shows_stable : stable shows.
Proof. intros b b' lo hi lo' hi' a v H Hlo Hhi. by apply shows_same. Qed.

Lemma member_stable : stable member.
Proof.
  intros b b' lo hi lo' hi' [k j] v H Hlo Hhi [(s & e & Hk & ? & ? & ? & Hsl) Hv]. split; [|by eapply shows_same].
  exists s, e. do 4 (split; [done || lia|]). rewrite <- Hsl. apply slice_same. intros; apply H; cbn in *; lia.
Qed.

Definition small (buf : bytes) : Prop := (Z.of_nat (length buf) < max_elements)%Z.

Lemma grows_ws b d b' d1 d2 : grows b d b' d1 -> d1 <= d2 -> grows b d b' d2.
Proof. intros G H. by apply (grows_wider _ _ _ _ _ _ G). Qed.

(** The end of a turn of either loop: the item is appended, and a comma means one
    more turn. *)
Lemma turn_run {A} (R : bytes -> nat -> nat -> A -> rvalue -> Prop) closing t ret v a buf d b1 d1 l1
    (next : rvalue -> bytes -> nat -> option (rvalue * bytes * nat)) (rd : bytes -> option (option (list A * bytes))) x :
  stable R -> closing <> NUL -> at_ b1 d1 l1 -> d < d1 -> grows buf d b1 d1 -> R b1 d d1 a v ->
  fits ret -> typed t ret -> length (l_ ret) <= d -> small b1 ->
  (forall ret' d4 l4 x', at_ b1 d4 l4 -> rd l4 = Some x' -> fits ret' -> typed t ret' -> length (l_ ret') <= d4 ->
    items_sim R t (l_ ret') b1 d4 (next ret' b1 d4) x') ->
  match expect closing (drop_ws l1) with
  | Some r => Some (Some ([a], r))
  | None =>
      match expect "," (drop_ws l1) with
      | None => Some None
      | Some l => r ← rd (drop_ws l); Some ('(js, l) ← r; Some (a :: js, l))
      end
  end = Some x ->
  items_sim R t (l_ ret) buf d
    (data ← ws_skip b1 d1;
     ret ← emplace_back ret v;
     c ← peek b1 data;
     if Ascii.eqb c closing then Some (ret, b1, data + 1)
     else
       '(ok, data) ← consume b1 data ",";
       if negb ok then Some (set_error ret, b1, data)
       else data ← ws_skip b1 data; next ret b1 data) x.
Proof.
  intros HR Hcl Ha Hd G Hv Hf Ht Hn Hs Hnext Hx.
  destruct (ws_skip_run _ _ _ Ha) as (d2 & -> & Ha2 & Hd2). cbn [mbind option_bind].
  pose proof (at_length _ _ _ Ha) as [Hlen _].
  destruct (emplace_back_run ret v t Hf Ht) as (ret' & -> & Hl' & Hf' & Ht').
  { unfold small in Hs. unfold lsize_. lia. }
  cbn [mbind option_bind]. destruct (expect_peek _ _ _ closing Ha2 Hcl) as (c & -> & Hc). cbn [mbind option_bind].
  destruct (expect closing (drop_ws l1)) as [r|].
  { destruct Hc as [-> Ha3]. injection Hx as <-. exists ret', b1, (d2 + 1), [v]. split; [done|]. split; [done|].
    split; [lia|]. split; [by apply (grows_ws _ _ _ _ _ G); lia|]. split; [done|]. split; [done|].
    constructor; [|done]. apply (HR b1 b1 d d1); [done|lia|lia|done]. }
  rewrite Hc. pose proof (expect_run _ _ _ ","%char Ha2 ltac:(done)) as Hcomma.
  destruct (expect "," (drop_ws l1)) as [l3|].
  2:{ injection Hx as <-. rewrite Hcomma. eapply failed_intro; [apply set_error_error|exact Ha2|by destruct G as (_ & ? & _)]. }
  destruct Hcomma as [-> Ha3]. cbn [mbind option_bind negb].
  destruct (ws_skip_run _ _ _ Ha3) as (d4 & -> & Ha4 & Hd4). cbn [mbind option_bind].
  destruct (rd (drop_ws l3)) as [x'|] eqn:Erd; [|done]. cbn [mbind option_bind] in Hx. injection Hx as <-.
  assert (Hsim : items_sim R t (l_ ret') b1 d4 (next ret' b1 d4) x').
  { eapply Hnext; try done. rewrite Hl', length_app. cbn. lia. }
  destruct x' as [[js r]|]; cbn in Hsim |- *; [|by eapply failed_grows].
  destruct Hsim as (w & b2 & d5 & vs & -> & Ha5 & Hd5 & G5 & Htw & Hlw & Hvs).
  exists w, b2, d5, (v :: vs). split; [done|]. split; [done|]. split; [lia|].
  split; [eapply grows_trans; [apply (grows_ws _ _ _ _ d4 G); lia|done]|]. split; [done|].
  split; [by rewrite Hlw, Hl', <- app_assoc|]. constructor.
  - apply (HR b1 b2 d d1); [|lia|lia|done]. intros i _ Hi. apply G5. lia.
  - eapply Forall2_impl; [exact Hvs|]. intros y w' Hw. apply (HR b2 b2 d4 d5); [done|lia|lia|done].
Qed.

Definition value_sim (f : nat) : Prop := forall depth buf d l x, at_ buf d l -> small buf ->
  read_value f depth l = Some x -> sim buf d (decode_value f depth buf d) x.
Definition list_sim (f : nat) : Prop := forall depth buf d l x, at_ buf d ("["%char :: l) -> small buf ->
  read_list f depth l = Some x -> sim buf d (decode_list f depth buf d) x.
Definition object_sim (f : nat) : Prop := forall depth buf d l x, at_ buf d ("{"%char :: l) -> small buf ->
  read_object f depth l = Some x -> sim buf d (decode_object f depth buf d) x.
Definition elements_sim (f : nat) : Prop := forall depth ret buf d l x, at_ buf d l -> small buf ->
  fits ret -> typed List_ ret -> length (l_ ret) <= d -> read_elements f depth l = Some x ->
  items_sim shows List_ (l_ ret) buf d (list_loop f depth ret buf d) x.
Definition members_sim (f : nat) : Prop := forall depth ret buf d l x, at_ buf d l -> small buf ->
  fits ret -> typed Object ret -> length (l_ ret) <= d -> read_members f depth l = Some x ->
  items_sim member Object (l_ ret) buf d (object_loop f depth ret buf d) x.

Lemma grows_small b d b' d' : grows b d b' d' -> small b -> small b'.
Proof. unfold small. by intros (_ & -> & _). Qed.

Lemma elements_step f : value_sim f -> elements_sim f -> elements_sim (S f).
Proof.
  intros IHv IHe depth ret buf d l x Ha Hs Hf Ht Hn Hx. cbn [read_elements list_loop] in *.
  destruct (read_value f (depth + 1) l) as [y|] eqn:Ey; [|done]. cbn [mbind option_bind] in Hx.
  pose proof (IHv _ _ _ _ _ Ha Hs Ey) as Hv. destruct y as [[j l1]|].
  - destruct Hv as (v & b1 & d1 & -> & Ha1 & Hd1 & G1 & Hj). cbn [mbind option_bind].
    rewrite (shows_valid _ _ _ _ _ Hj).
    eapply (turn_run shows "]"%char) with (rd := read_elements f depth) (next := list_loop f depth);
      try done; [apply shows_stable|by eapply grows_small|].
    intros ret' d4 l4 x' Ha4 Hx' Hf' Ht' Hn'. apply (IHe depth ret' b1 d4 l4); try done. by eapply grows_small.
  - injection Hx as <-. destruct Hv as (v & b1 & d1 & l1 & -> & He & Ha1 & Hl1). cbn [mbind option_bind]. rewrite He.
    by eapply failed_intro; [apply set_error_error| |].
Qed.

Lemma members_step f : value_sim f -> members_sim f -> members_sim (S f).
Proof.
  intros IHv IHe depth ret buf d l x Ha Hs Hf Ht Hn Hx. cbn [read_members object_loop] in *.
  assert (Hfail : forall b d' l', at_ b d' l' -> length b = length buf -> failed buf (Some (set_error ret, b, d'))).
  { intros b d' l' Ha' Hl'. by eapply failed_intro; [apply set_error_error| |]. }
  pose proof (decode_string_run _ _ _ Ha) as Hk. destruct (read_string l) as [[k l1]|]; cbn in Hk.
  2:{ injection Hx as <-. destruct Hk as (v & b1 & d1 & l1 & -> & He & Ha1 & Hl1). cbn [mbind option_bind]. rewrite He. by eapply Hfail. }
  destruct Hk as (t & b1 & s & e & -> & Htt & Hts & Hte & Hds & Hse & G1 & Ha1 & Hstr). cbn [mbind option_bind].
  replace (error t) with false by (destruct Htt as [_ Ho]; unfold error; by rewrite Ho).
  destruct (ws_skip_run _ _ _ Ha1) as (d2 & -> & Ha2 & Hd2). cbn [mbind option_bind].
  pose proof (expect_run _ _ _ ":"%char Ha2 ltac:(done)) as Hcolon.
  destruct (expect ":" (drop_ws l1)) as [l3|].
  2:{ injection Hx as <-. rewrite Hcolon. eapply Hfail; [exact Ha2|]. by destruct G1 as (_ & ? & _). }
  destruct Hcolon as [-> Ha3]. cbn [mbind option_bind negb].
  destruct (string_of_run b1 t s e k Hts Hte Hstr) as (b2 & e2 & -> & Hs2 & He2 & G2 & Hsl). cbn [mbind option_bind].
  assert (G12 : grows buf d b2 (e + 1)).
  { eapply grows_both; [done|]. apply (grows_wider _ _ _ _ _ _ G2); lia. }
  assert (Ha4 : at_ b2 (d2 + 1) l3).
  { eapply grows_at; [|done]. apply (grows_ws _ _ _ _ _ G2). lia. }
  destruct (ws_skip_run _ _ _ Ha4) as (d4 & -> & Ha5 & Hd4). cbn [mbind option_bind].
  destruct (read_value f (depth + 1) (drop_ws l3)) as [y|] eqn:Ey; [|done]. cbn [mbind option_bind] in Hx.
  pose proof (IHv _ _ _ _ _ Ha5 (grows_small _ _ _ _ G12 Hs) Ey) as Hv. destruct y as [[j l5]|].
  2:{ injection Hx as <-. destruct Hv as (v & b3 & d3 & l4 & -> & He & Ha6 & Hl6). cbn [mbind option_bind]. rewrite He.
    eapply Hfail; [exact Ha6|]. destruct G12 as (_ & ? & _). congruence. }
  destruct Hv as (v & b3 & d5 & -> & Ha6 & Hd5 & G3 & Hj). cbn [mbind option_bind].
  rewrite (shows_valid _ _ _ _ _ Hj).
  assert (G : grows buf d b3 d5) by (eapply grows_trans; [apply (grows_ws _ _ _ _ d4 G12); lia|done]).
  eapply (turn_run member "}"%char) with (rd := read_members f depth) (next := object_loop f depth) (a := (k, j)) (l1 := l5) (d := d) (d1 := d5);
    try done; [apply member_stable|lia| |by eapply grows_small|].
  - split; [|apply shows_set_key; apply (shows_same b3 b3 d4 d5); [done|lia|lia|exact Hj]].
    exists s, e2. do 4 (split; [done || lia|]). rewrite <- Hsl. apply slice_same. intros i _ Hi. apply G3. lia.
  - intros ret' d6 l6 x' Ha7 Hx' Hf' Ht' Hn'. apply (IHe depth ret' b3 d6 l6); try done. by eapply grows_small.
Qed.

Lemma fits_empty t : fits (rvalue_of t).
Proof. by split. Qed.

Lemma list_step f : elements_sim f -> list_sim (S f).
Proof.
  intros IH depth buf d l x Ha Hs Hx. cbn [read_list decode_list] in *.
  destruct (expect_run _ _ _ "["%char Ha ltac:(done)) as [-> Ha1]. cbn [mbind option_bind negb orb].
  destruct (max_depth <? depth)%Z.
  { injection Hx as <-. by eapply failed_intro; [apply set_error_error|exact Ha1|]. }
  destruct (ws_skip_run _ _ _ Ha1) as (d2 & -> & Ha2 & Hd2). cbn [mbind option_bind].
  destruct (expect_peek _ _ _ "]"%char Ha2 ltac:(done)) as (c & -> & Hc). cbn [mbind option_bind].
  destruct (expect "]" (drop_ws l)) as [r|].
  - destruct Hc as [-> Ha3]. injection Hx as <-. do 3 eexists. split; [done|]. split; [done|].
    split; [lia|]. split; [apply grows_refl; lia|]. by constructor.
  - rewrite Hc. destruct (read_elements f depth (drop_ws l)) as [y|] eqn:Ey; [|done]. injection Hx as <-.
    pose proof (IH depth (rvalue_of List_) buf d2 _ y Ha2 Hs (fits_empty _) ltac:(done) ltac:(cbn; lia) Ey) as H.
    destruct y as [[js r]|]; [|exact H]. destruct H as (v & b & d' & vs & -> & Ha' & Hd' & G & Ht & Hl & Hvs).
    exists v, b, d'. split; [done|]. split; [done|]. split; [lia|]. split; [apply (grows_wider _ _ _ _ _ _ G); lia|].
    constructor; [done|]. rewrite Hl. eapply Forall2_impl; [exact Hvs|]. intros j w. apply shows_same; [done|lia|lia].
Qed.

Lemma object_step f : members_sim f -> object_sim (S f).
Proof.
  intros IH depth buf d l x Ha Hs Hx. cbn [read_object decode_object] in *.
  destruct (expect_run _ _ _ "{"%char Ha ltac:(done)) as [-> Ha1]. cbn [mbind option_bind negb orb].
  destruct (max_depth <? depth)%Z.
  { injection Hx as <-. by eapply failed_intro; [apply set_error_error|exact Ha1|]. }
  destruct (ws_skip_run _ _ _ Ha1) as (d2 & -> & Ha2 & Hd2). cbn [mbind option_bind].
  destruct (expect_peek _ _ _ "}"%char Ha2 ltac:(done)) as (c & -> & Hc). cbn [mbind option_bind].
  destruct (expect "}" (drop_ws l)) as [r|].
  - destruct Hc as [-> Ha3]. injection Hx as <-. do 3 eexists. split; [done|]. split; [done|].
    split; [lia|]. split; [apply grows_refl; lia|]. by constructor.
  - rewrite Hc. destruct (read_members f depth (drop_ws l)) as [y|] eqn:Ey; [|done]. injection Hx as <-.
    pose proof (IH depth (rvalue_of Object) buf d2 _ y Ha2 Hs (fits_empty _) ltac:(done) ltac:(cbn; lia) Ey) as H.
    destruct y as [[js r]|]; [|exact H]. destruct H as (v & b & d' & vs & -> & Ha' & Hd' & G & Ht & Hl & Hvs).
    exists v, b, d'. split; [done|]. split; [done|]. split; [lia|]. split; [apply (grows_wider _ _ _ _ _ _ G); lia|].
    constructor; [done|]. rewrite Hl. eapply Forall2_impl; [exact Hvs|]. intros j w. apply member_stable; [done|lia|lia].
Qed.

Lemma keyword_sim word t j buf d c l : at_ buf d (c :: l) -> c <> NUL -> Forall (fun c => c <> NUL) word ->
  (forall b lo hi, shows b lo hi j (rvalue_of t)) -> sim buf d (keyword word t buf d) (read_word word j l).
Proof.
  intros Ha Hc Hw Hj. destruct (at_peek _ _ _ Ha) as (c' & l' & [= <- <-] & _ & Hn).
  pose proof (follows_run word j buf (d + 1) l (Hn Hc) Hw) as H. unfold keyword.
  destruct (read_word word j l) as [[j' r]|]; [destruct H as (-> & -> & Ha')|rewrite H]; cbn.
  - do 3 eexists. split; [done|]. split; [done|]. split; [lia|]. split; [apply grows_refl; lia|done].
  - by eapply failed_intro.
Qed.

Lemma number_sim buf d l : at_ buf d l ->
  sim buf d ('(r, data) ← decode_number buf d; Some (r, buf, data)) (read_number l).
Proof.
  intros Ha. pose proof (at_length _ _ _ Ha) as [Hl _].
  pose proof (number_loop_run (S (length buf)) buf d Minus d l Ha ltac:(lia) ltac:(done)) as H.
  unfold decode_number, read_number. cbn zeta in *.
  destruct (accepts Minus (number_run l)) eqn:E; [destruct H as [-> Ha']|destruct H as (d' & l' & -> & Ha')]; cbn [mbind option_bind].
  2:{ by eapply failed_intro. }
  assert (Hr : 0 < length (number_run l)) by (destruct (number_run l); [done|cbn; lia]).
  assert (Hs : slice d (d + length (number_run l)) buf = number_run l).
  { rewrite (slice_at _ _ _ _ Ha). clear. induction l as [|c l IH]; [done|]. cbn.
    destruct (number_char c); [|done]. cbn. by rewrite IH. }
  do 3 eexists. split; [done|]. split; [done|]. split; [lia|]. split; [apply grows_refl; lia|].
  set (d' := d + length (number_run l)) in *. pose proof (shows_number buf d d' (rvalue_span Number d d' buf) d d') as H.
  rewrite Hs in H. apply H; try done; [lia|]. cbn [nt_ rvalue_span]. by rewrite Hs.
Qed.

Lemma value_step f : list_sim f -> object_sim f -> value_sim (S f).
Proof.
  intros IHl IHo depth buf d l x Ha Hs Hx. cbn [read_value decode_value] in *.
  destruct (at_peek _ _ _ Ha) as (c & l' & -> & Hp & Hn). rewrite Hp. cbn [mbind option_bind].
  destruct (Ascii.eqb_spec c "[") as [->|_]; [by eapply IHl|].
  destruct (Ascii.eqb_spec c "{") as [->|_]; [by eapply IHo|].
  destruct (Ascii.eqb_spec c quote) as [->|_].
  { injection Hx as <-. pose proof (decode_string_run _ _ _ Ha) as H. cbn in H.
    destruct (read_body l') as [[s r]|]; cbn in *; [|exact H].
    destruct H as (v & b & s0 & e & -> & Ht & Hst & Hen & ? & ? & G & Ha' & Hstr).
    exists v, b, (e + 1). split; [done|]. split; [done|]. split; [lia|]. split; [done|].
    eapply shows_string; eauto; lia. }
  destruct (Ascii.eqb_spec c "t") as [->|_]; [injection Hx as <-; apply (keyword_sim _ _ _ _ _ _ _ Ha); [done|by repeat constructor|by constructor]|].
  destruct (Ascii.eqb_spec c "f") as [->|_]; [injection Hx as <-; apply (keyword_sim _ _ _ _ _ _ _ Ha); [done|by repeat constructor|by constructor]|].
  destruct (Ascii.eqb_spec c "n") as [->|_]; [injection Hx as <-; apply (keyword_sim _ _ _ _ _ _ _ Ha); [done|by repeat constructor|by constructor]|].
  injection Hx as <-. by apply number_sim.
Qed.

Lemma all_sim f : value_sim f /\ list_sim f /\ elements_sim f /\ object_sim f /\ members_sim f.
Proof.
  induction f as [|f (Hv & Hl & He & Ho & Hm)]; [by repeat split|].
  repeat split; [by apply value_step|by apply list_step|by apply elements_step|by apply object_step|by apply members_step].
Qed.

(** ** The theorem *)

(** The value [load] returns with its copy of the text, for what the text means. *)
Definition agrees (x : option json) (r : rvalue) (buf : bytes) : Prop :=
  match x with
  | None => error r = true
  | Some j => error r = false /\ shows buf 0 (length buf) j r
  end.

Lemma load_agrees text x : (Z.of_nat (length text) < max_elements - 1)%Z -> read_document (text ++ [NUL]) = Some x ->
  exists r buf, load text = Some (r, buf) /\ length buf = S (length text) /\ agrees x r buf.
Proof.
  intros Hs Hx. unfold load, parse. set (b := text ++ [NUL]) in *.
  assert (Hb : length b = S (length text)) by (unfold b; rewrite length_app; cbn; lia).
  assert (Ha : at_ b 0 b) by (split; [done|by exists text]).
  destruct (ws_skip_run _ _ _ Ha) as (d1 & -> & Ha1 & _). cbn [mbind option_bind].
  unfold read_document in Hx. set (fuel := 4 * length b + 4) in *. clearbody fuel.
  destruct (read_value fuel 0 (drop_ws b)) as [y|] eqn:Ey; [|done].
  cbn [mbind option_bind] in Hx. injection Hx as <-.
  assert (Hsm : small b) by (unfold small; lia).
  pose proof (proj1 (all_sim fuel) 0%Z b d1 _ y Ha1 Hsm Ey) as H. destruct y as [[j r]|]; cbn in H.
  - destruct H as (v & b2 & d2 & -> & Ha2 & _ & G & Hj). cbn [mbind option_bind] in *.
    destruct (ws_skip_run _ _ _ Ha2) as (d3 & -> & Ha3 & _). cbn [mbind option_bind].
    destruct (at_peek _ _ _ Ha3) as (c & l' & Hl & -> & _). cbn [mbind option_bind].
    rewrite Hl. cbn. rewrite (shows_valid _ _ _ _ _ Hj). cbn [negb andb].
    pose proof G as (_ & Hlen & _). destruct (Ascii.eqb c NUL); cbn in *.
    + rewrite (shows_valid _ _ _ _ _ Hj). eexists _, b2. split; [done|]. split; [congruence|].
      assert (Hj' : shows b2 0 (length b2) j v).
      { apply (shows_same b2 b2 d1 d2); [done|lia| |done]. apply at_length in Ha2. lia. }
      split; [|by apply shows_set_key]. eapply shows_valid. by apply shows_set_key.
    + rewrite set_error_error. eexists _, b2. split; [done|]. split; [congruence|]. apply set_error_error.
  - destruct H as (v & b2 & d2 & l & -> & He & Ha2 & Hlen). cbn [mbind option_bind] in *.
    destruct (ws_skip_run _ _ _ Ha2) as (d3 & -> & Ha3 & _). cbn [mbind option_bind].
    destruct (at_peek _ _ _ Ha3) as (c & l' & _ & -> & _). cbn [mbind option_bind]. rewrite He. cbn [negb andb].
    rewrite He. eexists _, b2. split; [done|]. split; [congruence|]. done.
Qed.

(** C14: On every text of less than 2^31 - 2^16 bytes [json::load] ends, does not
    access memory outside its copy of the text nor outside the arrays of elements
    it grows, and agrees with the reference [read_document]: the value is invalid
    where that finds no document, and otherwise it shows the document found, its
    pointers inside the copy. *)
Theorem load_refines text : (Z.of_nat (length text) < max_elements - 1)%Z ->
  exists r buf x, load text = Some (r, buf) /\ length buf = S (length text) /\
    read_document (text ++ [NUL]) = Some x /\ agrees x r buf.
Proof.
  intros Hs. destruct (read_document_total (text ++ [NUL])) as [x Hx].
  destruct (load_agrees text x Hs Hx) as (r & buf & Hl & Hb & Ha). by exists r, buf, x.
Qed.

(** The empty object. *)
Lemma load_refines_witness : exists r buf x,
  load (String.list_ascii_of_string "{}") = Some (r, buf) /\ length buf = 3 /\
    read_document (String.list_ascii_of_string "{}" ++ [NUL]) = Some x /\ agrees x r buf.
Proof. apply (load_refines (String.list_ascii_of_string "{}")). by vm_compute. Defined.
