(* ===== verification/JsonGrammar.v ===== *)
(** * The grammar the JSON reader accepts

    [value_text j t]: the characters [t] are a text of the value [j].  The grammar
    is JSON's, except for numbers: [number_text] says which are taken, and
    [accepts_number] that the automaton takes just those.  [document_read] relates
    the reference reader to the grammar, [load_grammar] the parser in its array. *)

From S2P Require Import Prelude CInt CArray JsonText JsonRead JsonSpec JsonRefine.
#[local] Open Scope nat_scope.

(** ** Numbers *)

Definition digits (t : bytes) : Prop := Forall (fun c => between "0" "9" c = true) t.

(** A point, with digits or without. *)
Definition fraction (t : bytes) : Prop := t = [] \/ exists ds, t = "."%char :: ds /\ digits ds.

(** [e], then digits or a sign with digits or without. *)
Definition exponent (t : bytes) : Prop := t = [] \/ exists e ds, (e = "e"%char \/ e = "E"%char) /\ digits ds /\
  (ds <> [] /\ t = e :: ds \/ exists s, (s = "+"%char \/ s = "-"%char) /\ t = e :: s :: ds).

(** No leading zero; and after a zero an exponent only behind a point. *)
Inductive number_text : bytes -> Prop :=
  | number_zero sign : sign = [] \/ sign = ["-"%char] -> number_text (sign ++ ["0"%char])
  | number_zero_point sign f x : sign = [] \/ sign = ["-"%char] -> fraction f -> f <> [] -> exponent x ->
      number_text (sign ++ "0"%char :: f ++ x)
  | number_nonzero sign d ds f x : sign = [] \/ sign = ["-"%char] -> between "1" "9" d = true -> digits ds ->
      fraction f -> exponent x -> number_text (sign ++ d :: ds ++ f ++ x).

Lemma digit_step c s : between "0" "9" c = true -> exists table, number_table c = Some table /\
  (s = Digits \/ s = DigitsAfterPoints \/ s = DigitsAfterE -> next_state table s = s) /\
  (s = E -> next_state table s = DigitsAfterE) /\ (s = ZeroFirst -> next_state table s = Invalid).
Proof.
  intros H. assert (Hc : number_table c = Some [2; 2; 7; 3; 4; 6; 6] \/ number_table c = Some [3; 3; 7; 3; 4; 6; 6]).
  { destruct c as [[] [] [] [] [] [] [] []]; done || (by left) || by right. }
  destruct Hc as [-> | ->]; eexists; (split; [done|]);
    (split; [by intros [-> | [-> | ->]]|]); (split; by intros ->).
Qed.

Lemma accepts_cons s c t table : number_table c = Some table -> next_state table s <> Invalid ->
  accepts s (c :: t) = accepts (next_state table s) t.
Proof. intros Hc Hn. cbn [accepts]. rewrite Hc. by rewrite bool_decide_eq_false_2. Qed.

Lemma accepts_dead s c t table : number_table c = Some table -> next_state table s = Invalid -> accepts s (c :: t) = false.
Proof. intros Hc Hn. cbn [accepts]. rewrite Hc. by rewrite bool_decide_eq_true_2. Qed.

Lemma accepts_other s c t : number_table c = None -> accepts s (c :: t) = false.
Proof. intros Hc. cbn. by rewrite Hc. Qed.

(** The characters, by the case they are in. *)
Lemma char_cases c : between "0" "9" c = true \/ c = "."%char \/ c = "-"%char \/ c = "+"%char \/
  (c = "e"%char \/ c = "E"%char) \/ number_table c = None.
Proof.
  unfold number_table. destruct (Ascii.eqb_spec c "0") as [->|]; [by left|].
  destruct (between "1" "9" c) eqn:E; [left; revert E; clear; by destruct c as [[] [] [] [] [] [] [] []]|].
  destruct (Ascii.eqb_spec c "."); [auto|]. destruct (Ascii.eqb_spec c "-"); [auto|].
  destruct (Ascii.eqb_spec c "+"); [auto 6|]. destruct (Ascii.eqb_spec c "e"); [auto 8|].
  destruct (Ascii.eqb_spec c "E"); [auto 8|]. by do 5 right.
Qed.

Ltac dead := erewrite accepts_dead; [|reflexivity|reflexivity].
Ltac lead := erewrite accepts_cons; [|reflexivity|discriminate]; cbn [next_state state_number states nth].

(** Digits to the end. *)
Lemma accepts_after_e t : accepts DigitsAfterE t = true <-> digits t.
Proof.
  induction t as [|c t IH]; [split; [constructor|done]|].
  destruct (char_cases c) as [H|[->|[->|[->|[[-> | ->]|H]]]]].
  - destruct (digit_step c DigitsAfterE H) as (table & Ht & Hn & _). rewrite (accepts_cons _ _ _ _ Ht) by (by rewrite Hn; auto).
    rewrite Hn, IH by auto. unfold digits. rewrite Forall_cons. tauto.
  - dead. split; [done|]. by inversion 1.
  - dead. split; [done|]. by inversion 1.
  - dead. split; [done|]. by inversion 1.
  - dead. split; [done|]. by inversion 1.
  - dead. split; [done|]. by inversion 1.
  - rewrite accepts_other by done. split; [done|]. inversion 1 as [|? ? Hd]; subst.
    destruct (digit_step c E Hd) as (table & Ht & _). congruence.
Qed.

Lemma not_digit_sign c : between "0" "9" c = true -> c <> "+"%char /\ c <> "-"%char /\ c <> "."%char /\ c <> "e"%char /\ c <> "E"%char.
Proof. intros H. repeat split; by intros ->. Qed.

Lemma accepts_e t : accepts E t = true <->
  digits t /\ t <> [] \/ exists s ds, (s = "+"%char \/ s = "-"%char) /\ t = s :: ds /\ digits ds.
Proof.
  destruct t as [|c t]; [split; [done|intros [[]|(s & ds & _ & [=] & _)]; done]|].
  destruct (char_cases c) as [H|[->|[->|[->|[[-> | ->]|H]]]]].
  - destruct (digit_step c E H) as (table & Ht & _ & Hn & _). rewrite (accepts_cons _ _ _ _ Ht) by (by rewrite Hn).
    rewrite Hn, accepts_after_e by done. split.
    + intros Hd. left. by split; [constructor|].
    + intros [[Hd _]|(s & ds & Hs & [= -> ->] & Hd)]; [by inversion Hd|done].
  - dead. split; [done|]. intros [[Hd _]|(s & ds & Hs & [= <- <-] & Hd)]; [by inversion Hd|by destruct Hs].
  - lead. rewrite accepts_after_e. split; [intros Hd; right; eauto 6|].
    intros [[Hd _]|(s & ds & Hs & [= <- <-] & Hd)]; [by inversion Hd|done].
  - lead. rewrite accepts_after_e. split; [intros Hd; right; eauto 6|].
    intros [[Hd _]|(s & ds & Hs & [= <- <-] & Hd)]; [by inversion Hd|done].
  - dead. split; [done|]. intros [[Hd _]|(s & ds & Hs & [= <- <-] & Hd)]; [by inversion Hd|by destruct Hs].
  - dead. split; [done|]. intros [[Hd _]|(s & ds & Hs & [= <- <-] & Hd)]; [by inversion Hd|by destruct Hs].
  - rewrite accepts_other by done. split; [done|]. intros [[Hd _]|(s & ds & Hs & [= <- <-] & Hd)].
    + inversion Hd as [|? ? Hd']; subst. destruct (digit_step c E Hd') as (table & Ht & _). congruence.
    + by destruct Hs as [-> | ->].
Qed.

(** An exponent, behind the digits of either part. *)
Lemma accepts_exponent s t : s = Digits \/ s = DigitsAfterPoints -> exponent t -> accepts s t = true.
Proof.
  intros Hs [->|(e & ds & He & Hd & Ht)]; [by destruct Hs as [-> | ->]|].
  assert (H : forall r, t = e :: r -> accepts E r = true -> accepts s t = true).
  { intros r -> Hr. destruct Hs as [-> | ->], He as [-> | ->]; by lead. }
  destruct Ht as [[Hne Ht]|(sg & Hsg & Ht)]; eapply H; try exact Ht; apply accepts_e; [by left|right; eauto].
Qed.

Lemma accepts_run s ds t : s = Digits \/ s = DigitsAfterPoints -> digits ds -> accepts s (ds ++ t) = accepts s t.
Proof.
  intros Hs. induction 1 as [|c ds Hc _ IH]; [done|].
  destruct (digit_step c s Hc) as (table & Ht & Hn & _). cbn [app].
  rewrite (accepts_cons _ _ _ _ Ht); rewrite Hn by tauto; [done|]. by destruct Hs as [-> | ->].
Qed.

Lemma accepts_exponent_inv s c t : s = Digits \/ s = DigitsAfterPoints -> c = "e"%char \/ c = "E"%char ->
  accepts s (c :: t) = true -> exponent (c :: t).
Proof.
  intros Hs Hc H. assert (He : accepts E t = true).
  { destruct Hs as [-> | ->], Hc as [-> | ->]; revert H; by lead. }
  apply accepts_e in He as [[Hd Hne]|(s' & ds & Hs' & -> & Hd)]; right; [exists c, t|exists c, ds]; eauto 10.
Qed.

Lemma accepts_point t : accepts DigitsAfterPoints t = true -> exists ds x, t = ds ++ x /\ digits ds /\ exponent x.
Proof.
  induction t as [|c t IH]; [by exists [], []; repeat constructor|]. intros H.
  destruct (char_cases c) as [Hc|[->|[->|[->|[Hc|Hc]]]]].
  - destruct (digit_step c DigitsAfterPoints Hc) as (table & Ht & Hn & _). rewrite (accepts_cons _ _ _ _ Ht), Hn in H by (rewrite ?Hn; auto).
    destruct (IH H) as (ds & x & -> & Hd & Hx). exists (c :: ds), x. split; [done|]. by split; [constructor|].
  - revert H. by dead.
  - revert H. by dead.
  - revert H. by dead.
  - exists [], (c :: t). split; [done|]. split; [constructor|]. by apply (accepts_exponent_inv DigitsAfterPoints); [right| |].
  - by rewrite accepts_other in H.
Qed.

Lemma accepts_rest t : accepts Digits t = true -> exists ds f x, t = ds ++ f ++ x /\ digits ds /\ fraction f /\ exponent x.
Proof.
  induction t as [|c t IH]; [exists [], [], []; split; [done|]; split; [constructor|]; by split; left|]. intros H.
  destruct (char_cases c) as [Hc|[->|[->|[->|[Hc|Hc]]]]].
  - destruct (digit_step c Digits Hc) as (table & Ht & Hn & _). rewrite (accepts_cons _ _ _ _ Ht), Hn in H by (rewrite ?Hn; auto).
    destruct (IH H) as (ds & f & x & -> & Hd & Hx). exists (c :: ds), f, x. split; [done|]. by split; [constructor|].
  - revert H. lead. intros (ds & x & -> & Hd & Hx)%accepts_point. exists [], ("."%char :: ds), x.
    split; [done|]. split; [constructor|]. split; [right; eauto|done].
  - revert H. by dead.
  - revert H. by dead.
  - exists [], [], (c :: t). split; [done|]. split; [constructor|]. split; [by left|]. by apply (accepts_exponent_inv Digits); [left| |].
  - by rewrite accepts_other in H.
Qed.

(** After an optional sign. *)
Lemma accepts_start s t : s = Minus \/ s = AfterMinus -> head t <> Some "-"%char -> accepts s t = true ->
  t = ["0"%char] \/
  (exists f x, t = "0"%char :: f ++ x /\ fraction f /\ f <> [] /\ exponent x) \/
  (exists d ds f x, t = d :: ds ++ f ++ x /\ between "1" "9" d = true /\ digits ds /\ fraction f /\ exponent x).
Proof.
  intros Hs Hm H. destruct t as [|c t]; [by destruct Hs as [-> | ->]|].
  destruct (char_cases c) as [Hc|[->|[->|[->|[Hc|Hc]]]]].
  - destruct (Ascii.eqb_spec c "0") as [->|Hne].
    + assert (Hz : accepts ZeroFirst t = true) by (destruct Hs as [-> | ->]; revert H; by lead).
      destruct t as [|c t]; [by left|]. destruct (char_cases c) as [Hc'|[->|[->|[->|[Hc'|Hc']]]]].
      * destruct (digit_step c ZeroFirst Hc') as (table & Ht & _ & _ & Hn). by rewrite (accepts_dead _ _ _ _ Ht) in Hz by auto.
      * right; left. revert Hz. lead. intros (ds & x & -> & Hd & Hx)%accepts_point.
        exists ("."%char :: ds), x. split; [done|]. split; [right; eauto|done].
      * revert Hz. by dead.
      * revert Hz. by dead.
      * destruct Hc' as [-> | ->]; revert Hz; by dead.
      * by rewrite accepts_other in Hz.
    + right; right. assert (H9 : between "1" "9" c = true).
      { revert Hc Hne. clear. destruct c as [[] [] [] [] [] [] [] []]; done. }
      assert (Hd : accepts Digits t = true).
      { assert (Ht : number_table c = Some [3; 3; 7; 3; 4; 6; 6]) by (revert H9; clear; by destruct c as [[] [] [] [] [] [] [] []]).
        destruct Hs as [-> | ->]; rewrite (accepts_cons _ _ _ _ Ht) in H by done; exact H. }
      apply accepts_rest in Hd as (ds & f & x & -> & Hds & Hf & Hx). by exists c, ds, f, x.
  - destruct Hs as [-> | ->]; revert H; by dead.
  - done.
  - destruct Hs as [-> | ->]; revert H; by dead.
  - destruct Hs as [-> | ->], Hc as [-> | ->]; revert H; by dead.
  - by rewrite accepts_other in H.
Qed.

Lemma number_signed sign t : sign = [] \/ sign = ["-"%char] ->
  t = ["0"%char] \/
  (exists f x, t = "0"%char :: f ++ x /\ fraction f /\ f <> [] /\ exponent x) \/
  (exists d ds f x, t = d :: ds ++ f ++ x /\ between "1" "9" d = true /\ digits ds /\ fraction f /\ exponent x) ->
  number_text (sign ++ t).
Proof.
  intros Hs [->|[(f & x & -> & Hf & Hne & Hx)|(d & ds & f & x & -> & Hd & Hds & Hf & Hx)]]; by constructor.
Qed.

Lemma accepts_fraction s f x : s = Digits \/ s = ZeroFirst /\ f <> [] -> fraction f -> exponent x -> accepts s (f ++ x) = true.
Proof.
  intros Hs [->|(ds & -> & Hd)] Hx.
  - destruct Hs as [->|[_ ?]]; [|done]. apply accepts_exponent; auto.
  - assert (H : accepts DigitsAfterPoints (ds ++ x) = true) by (rewrite accepts_run by auto; apply accepts_exponent; auto).
    destruct Hs as [->|[-> _]]; cbn [app]; by lead.
Qed.

(** The automaton of [decode_number], its transitions the string literals of the
    code, accepts the texts of [number_text] and no others.  That is JSON's numbers,
    without an exponent right after a lone zero, and with digits optional after a
    point and after the sign of an exponent. *)
Theorem accepts_number t : accepts Minus t = true <-> number_text t.
Proof.
  split.
  - intros H. destruct (decide (head t = Some "-"%char)) as [Hh|Hh].
    + destruct t as [|c t]; [done|]. injection Hh as ->. apply (number_signed ["-"%char]); [by right|].
      revert H. lead. intros H. apply (accepts_start AfterMinus); [by right| |done].
      destruct t as [|c t]; [done|]. intros [= ->]. revert H. by dead.
    + apply (number_signed []); [by left|]. by apply (accepts_start Minus); [left| |].
  - assert (Hsign : forall sign r, sign = [] \/ sign = ["-"%char] -> accepts Minus r = true -> accepts AfterMinus r = true ->
      accepts Minus (sign ++ r) = true).
    { intros sign r [-> | ->] H1 H2; [done|]. cbn [app]. by lead. }
    destruct 1 as [sign Hs|sign f x Hs Hf Hne Hx|sign d ds f x Hs Hd Hds Hf Hx]; apply Hsign; try done.
    + lead. apply accepts_fraction; auto.
    + lead. apply accepts_fraction; auto.
    + assert (Ht : number_table d = Some [3; 3; 7; 3; 4; 6; 6]) by (revert Hd; clear; by destruct d as [[] [] [] [] [] [] [] []]).
      rewrite (accepts_cons _ _ _ _ Ht) by done. change (next_state _ Minus) with Digits.
      rewrite accepts_run by auto. apply accepts_fraction; auto.
    + assert (Ht : number_table d = Some [3; 3; 7; 3; 4; 6; 6]) by (revert Hd; clear; by destruct d as [[] [] [] [] [] [] [] []]).
      rewrite (accepts_cons _ _ _ _ Ht) by done. change (next_state _ AfterMinus) with Digits.
      rewrite accepts_run by auto. apply accepts_fraction; auto.
Qed.

(** ** Values *)

Definition blank (w : bytes) : Prop := Forall (fun c => is_ws c = true) w.

Inductive value_text : json -> bytes -> Prop :=
  | text_null : value_text JNull ["n"; "u"; "l"; "l"]%char
  | text_true : value_text (JBool true) ["t"; "r"; "u"; "e"]%char
  | text_false : value_text (JBool false) ["f"; "a"; "l"; "s"; "e"]%char
  | text_number t : number_text t -> value_text (JNumber t) t
  | text_string t s : body t s -> value_text (JString s) (quote :: t ++ [quote])
  | text_list_empty w : blank w -> value_text (JList []) ("["%char :: w ++ ["]"%char])
  | text_list w js t : blank w -> elements_text js t -> value_text (JList js) ("["%char :: w ++ t ++ ["]"%char])
  | text_object_empty w : blank w -> value_text (JObject []) ("{"%char :: w ++ ["}"%char])
  | text_object w ms t : blank w -> members_text ms t -> value_text (JObject ms) ("{"%char :: w ++ t ++ ["}"%char])

with elements_text : list json -> bytes -> Prop :=
  | elements_last j t w : value_text j t -> blank w -> elements_text [j] (t ++ w)
  | elements_more j t w w' js t' : value_text j t -> blank w -> blank w' -> elements_text js t' ->
      elements_text (j :: js) (t ++ w ++ ","%char :: w' ++ t')

with members_text : list (bytes * json) -> bytes -> Prop :=
  | members_last kt k w1 w2 j t w : body kt k -> blank w1 -> blank w2 -> value_text j t -> blank w ->
      members_text [(k, j)] (quote :: kt ++ quote :: w1 ++ ":"%char :: w2 ++ t ++ w)
  | members_more kt k w1 w2 j t w w' ms t' : body kt k -> blank w1 -> blank w2 -> value_text j t -> blank w ->
      blank w' -> members_text ms t' ->
      members_text ((k, j) :: ms) (quote :: kt ++ quote :: w1 ++ ":"%char :: w2 ++ t ++ w ++ ","%char :: w' ++ t').

Scheme value_text_mut := Minimality for value_text Sort Prop
  with elements_text_mut := Minimality for elements_text Sort Prop
  with members_text_mut := Minimality for members_text Sort Prop.
Combined Scheme text_mut from value_text_mut, elements_text_mut, members_text_mut.

Definition document_text (j : json) (t : bytes) : Prop :=
  exists w v w', t = w ++ v ++ w' /\ blank w /\ value_text j v /\ blank w'.

(** ** The pieces *)

Lemma drop_ws_split l : exists w, l = w ++ drop_ws l /\ blank w.
Proof.
  induction l as [|c l (w & Hl & Hw)]; [by exists []; split; [|constructor]|]. cbn. destruct (is_ws c) eqn:E.
  - exists (c :: w). split; [by rewrite Hl at 1|by constructor].
  - by exists []; split; [|constructor].
Qed.

Definition no_ws (l : bytes) : Prop := match l with c :: _ => is_ws c = false | [] => True end.

Lemma drop_ws_app w l : blank w -> no_ws l -> drop_ws (w ++ l) = l.
Proof.
  intros Hw Hl. induction Hw as [|c w Hc _ IH]; cbn; [|by rewrite Hc]. destruct l as [|c l]; [done|]. cbn in *. by rewrite Hl.
Qed.

Lemma expect_split c l r : expect c l = Some r <-> l = c :: r.
Proof.
  destruct l as [|x l]; cbn; [done|]. destruct (Ascii.eqb_spec x c) as [->|Hne]; split; congruence.
Qed.

Lemma expect_head c r : expect c (c :: r) = Some r.
Proof. by apply expect_split. Qed.

Lemma expect_other c x r : x <> c -> expect c (x :: r) = None.
Proof. intros H. cbn. by rewrite (proj2 (Ascii.eqb_neq _ _)). Qed.

Lemma hexes a b c d : is_hex a && is_hex b && is_hex c && is_hex d = true ->
  is_hex a = true /\ is_hex b = true /\ is_hex c = true /\ is_hex d = true.
Proof. intros H. repeat (apply andb_prop in H as [H ?]). done. Qed.

Lemma read_body_split l s r : read_body l = Some (s, r) -> exists t, l = t ++ quote :: r /\ body t s.
Proof.
  remember (length l) as n eqn:En. revert l En s r. induction n as [n IH] using lt_wf_ind. intros l -> s r.
  destruct l as [|c l]; [done|]. cbn [read_body].
  assert (Hgo : forall l' u v, length l' <= length l -> unit_text u v -> c :: l = u ++ l' ->
    ('(s, r) ← read_body l'; Some (v ++ s, r)) = Some (s, r) -> exists t, c :: l = t ++ quote :: r /\ body t s).
  { intros l' u v Hl' Hu Hs H. destruct (read_body l') as [[s' r']|] eqn:E; [|done]. injection H as <- ->.
    apply (IH (length l')) in E as (t & -> & Ht); [|cbn; lia|done]. exists (u ++ t).
    split; [by rewrite Hs, <- app_assoc|by constructor]. }
  destruct (Ascii.eqb_spec c quote) as [->|Hq]; [intros [= <- ->]; exists []; split; [done|constructor]|].
  destruct (Ascii.eqb_spec c backslash) as [->|Hb].
  - destruct l as [|e l]; [done|]. destruct (Ascii.eqb_spec e "u") as [->|He].
    + destruct l as [|x1 [|x2 [|x3 [|x4 l]]]]; try done.
      destruct (is_hex x1 && is_hex x2 && is_hex x3 && is_hex x4) eqn:Ex; [|done].
      apply hexes in Ex as (? & ? & ? & ?).
      apply (Hgo l [backslash; "u"%char; x1; x2; x3; x4]); [cbn; lia|by constructor|done].
    + destruct (simple_escape e) as [x|] eqn:Ex; [|done].
      apply (Hgo l [backslash; e] [x]); [cbn; lia|by constructor|done].
  - destruct (Ascii.eqb_spec c NUL) as [->|Hz]; [done|]. by apply (Hgo l [c] [c]); [|constructor|].
Qed.

Lemma read_body_text t s r : body t s -> read_body (t ++ quote :: r) = Some (s, r).
Proof.
  induction 1 as [|t v t' v' Hu _ IH]; [done|]. rewrite <- app_assoc.
  destruct Hu as [c Hq Hb Hz|e x Hx|a b c d Ha Hb Hc Hd]; cbn [app read_body].
  - rewrite (proj2 (Ascii.eqb_neq _ _) Hq), (proj2 (Ascii.eqb_neq _ _) Hb), (proj2 (Ascii.eqb_neq _ _) Hz). by rewrite IH.
  - cbn [Ascii.eqb]. replace (Ascii.eqb backslash quote) with false by done. rewrite Ascii.eqb_refl.
    destruct (Ascii.eqb_spec e "u") as [->|He]; [done|]. rewrite Hx. cbn. by rewrite IH.
  - replace (Ascii.eqb backslash quote) with false by done. rewrite !Ascii.eqb_refl, Ha, Hb, Hc, Hd. cbn [andb].
    by rewrite IH.
Qed.

(** What may follow a number. *)
Definition no_number (l : bytes) : Prop := match l with c :: _ => number_char c = false | [] => True end.

Lemma accepts_chars s t : accepts s t = true -> Forall (fun c => number_char c = true) t.
Proof.
  revert s. induction t as [|c t IH]; intros s H; [constructor|]. cbn in H. unfold number_char.
  destruct (number_table c) as [table|] eqn:E; [|done]. destruct (bool_decide _); [done|].
  constructor; [by unfold number_char; rewrite E|by eapply IH].
Qed.

Lemma number_run_app t r : Forall (fun c => number_char c = true) t -> no_number r -> number_run (t ++ r) = t.
Proof.
  intros Ht Hr. induction Ht as [|c t Hc _ IH]; cbn; [|by rewrite Hc, IH].
  destruct r as [|c r]; [done|]. cbn in *. by rewrite Hr.
Qed.

Lemma number_run_split l : l = number_run l ++ drop (length (number_run l)) l.
Proof. induction l as [|c l IH]; [done|]. cbn. destruct (number_char c); [cbn; by rewrite <- IH|done]. Qed.

(** ** From the text read to the grammar *)

(** The room for containers at a depth. *)
Definition room (depth : Z) (n : nat) : Prop := (depth + 2 * Z.of_nat n <= max_depth + 1)%Z.

Lemma room_list depth js : (depth <= max_depth)%Z -> Forall (fun j => room (depth + 1) (nest j)) js <->
  (depth <= max_depth /\ room (depth - 1) (nest (JList js)))%Z.
Proof.
  intros Hd. unfold room. cbn [nest]. set (k := list_max (nest <$> js)).
  assert (Hk : forall n : Z, (Forall (fun j => Z.of_nat (nest j) <= n)%Z js <-> (js = [] \/ Z.of_nat k <= n)%Z)).
  { intros n. unfold k. clear. induction js as [|j js IH]; [by split; [left|]|]. rewrite Forall_cons, IH. cbn.
    destruct js; cbn; [rewrite Nat.max_0_r; naive_solver lia|]. split; [intros [? [?|?]]; [done|right; lia]|].
    intros [?|?]; [done|]. split; [lia|right; lia]. }
  split.
  - intros H. split; [done|]. assert (H' : Forall (fun j => Z.of_nat (nest j) <= (max_depth - depth) / 2)%Z js).
    { eapply Forall_impl; [exact H|]. cbn. intros j Hj. apply Z.div_le_lower_bound; lia. }
    apply Hk in H' as [->|H']; [cbn; lia|].
    pose proof (Z.mul_div_le (max_depth - depth) 2). lia.
  - intros [_ H]. assert (H' : Forall (fun j => Z.of_nat (nest j) <= (max_depth - depth) / 2)%Z js).
    { apply Hk. right. apply Z.div_le_lower_bound; lia. }
    eapply Forall_impl; [exact H'|]. cbn. intros j Hj. pose proof (Z.mul_div_le (max_depth - depth) 2). lia.
Qed.

Lemma nest_object ms : nest (JObject ms) = nest (JList ms.*2).
Proof. cbn. do 2 f_equal. by rewrite <- list_fmap_compose. Qed.

Lemma room_object depth ms : (depth <= max_depth)%Z -> Forall (fun m => room (depth + 1) (nest m.2)) ms <->
  (depth <= max_depth /\ room (depth - 1) (nest (JObject ms)))%Z.
Proof. intros Hd. rewrite nest_object, <- room_list by done. by rewrite Forall_fmap. Qed.

Definition value_sound (f : nat) : Prop := forall depth l j r, (depth <= max_depth + 1)%Z ->
  read_value f depth l = Some (Some (j, r)) -> exists t, l = t ++ r /\ value_text j t /\ room depth (nest j).
Definition list_sound (f : nat) : Prop := forall depth l j r,
  read_list f depth l = Some (Some (j, r)) -> exists t, l = t ++ r /\ value_text j ("["%char :: t) /\ room (depth - 1) (nest j).
Definition elements_sound (f : nat) : Prop := forall depth l js r, (depth <= max_depth)%Z ->
  read_elements f depth l = Some (Some (js, r)) ->
  exists t, l = t ++ "]"%char :: r /\ elements_text js t /\ Forall (fun j => room (depth + 1) (nest j)) js.
Definition object_sound (f : nat) : Prop := forall depth l j r,
  read_object f depth l = Some (Some (j, r)) -> exists t, l = t ++ r /\ value_text j ("{"%char :: t) /\ room (depth - 1) (nest j).
Definition members_sound (f : nat) : Prop := forall depth l ms r, (depth <= max_depth)%Z ->
  read_members f depth l = Some (Some (ms, r)) ->
  exists t, l = t ++ "}"%char :: r /\ members_text ms t /\ Forall (fun m => room (depth + 1) (nest m.2)) ms.

Lemma read_word_split word j l j' r : read_word word j l = Some (j', r) -> j' = j /\ l = word ++ r.
Proof.
  unfold read_word. destruct (decide (take (length word) l = word)) as [E|E].
  - rewrite bool_decide_eq_true_2 by done. intros [= <- <-]. split; [done|]. by rewrite <- E at 1; rewrite take_drop.
  - by rewrite bool_decide_eq_false_2.
Qed.

Lemma value_sound_step f : list_sound f -> object_sound f -> value_sound (S f).
Proof.
  intros Hl Ho depth l j r Hd H. cbn [read_value] in H. destruct l as [|c l]; [done|].
  assert (Hroom : room depth 0) by (unfold room; lia).
  destruct (Ascii.eqb_spec c "[") as [->|_].
  { apply Hl in H as (t & -> & Ht & Hr). exists ("["%char :: t). split; [done|]. split; [done|].
    by replace (depth + 1 - 1)%Z with depth in Hr by lia. }
  destruct (Ascii.eqb_spec c "{") as [->|_].
  { apply Ho in H as (t & -> & Ht & Hr). exists ("{"%char :: t). split; [done|]. split; [done|].
    by replace (depth + 1 - 1)%Z with depth in Hr by lia. }
  destruct (Ascii.eqb_spec c quote) as [->|_].
  { destruct (read_body l) as [[s r']|] eqn:E; [|done]. injection H as <- ->.
    apply read_body_split in E as (t & -> & Ht). exists (quote :: t ++ [quote]). split; [by cbn; rewrite <- app_assoc|].
    by split; [constructor|]. }
  assert (Hword : forall c word j', read_word word j' l = Some (j, r) -> value_text j' (c :: word) -> nest j' = 0 ->
    exists t, c :: l = t ++ r /\ value_text j t /\ room depth (nest j)).
  { intros c' word j' [-> ->]%read_word_split Ht Hn. exists (c' :: word). rewrite Hn. by split. }
  destruct (Ascii.eqb_spec c "t") as [->|_]; [injection H as H; eapply Hword; [exact H|constructor|done]|].
  destruct (Ascii.eqb_spec c "f") as [->|_]; [injection H as H; eapply Hword; [exact H|constructor|done]|].
  destruct (Ascii.eqb_spec c "n") as [->|_]; [injection H as H; eapply Hword; [exact H|constructor|done]|].
  injection H as H. unfold read_number in H. destruct (accepts Minus (number_run (c :: l))) eqn:E; [|done].
  injection H as <- <-. exists (number_run (c :: l)). split; [apply number_run_split|].
  split; [by constructor; apply accepts_number|done].
Qed.

Lemma list_sound_step f : elements_sound f -> list_sound (S f).
Proof.
  intros IH depth l j r H. cbn [read_list] in H. destruct (max_depth <? depth)%Z eqn:Ed; [done|]. apply Z.ltb_ge in Ed.
  destruct (drop_ws_split l) as (w & Hl & Hw). destruct (expect "]" (drop_ws l)) as [r'|] eqn:E.
  - injection H as <- ->. apply expect_split in E. exists (w ++ ["]"%char]). split; [by rewrite Hl, E, <- app_assoc|].
    split; [by constructor|]. unfold room. cbn. lia.
  - destruct (read_elements f depth (drop_ws l)) as [[[js r']|]|] eqn:E2; try done. injection H as <- ->.
    apply IH in E2 as (t & E2 & Ht & Hr); [|done]. exists (w ++ t ++ ["]"%char]).
    split; [by rewrite Hl, E2, <- !app_assoc|]. split; [by constructor|]. by apply room_list in Hr as [_ ?].
Qed.

Lemma object_sound_step f : members_sound f -> object_sound (S f).
Proof.
  intros IH depth l j r H. cbn [read_object] in H. destruct (max_depth <? depth)%Z eqn:Ed; [done|]. apply Z.ltb_ge in Ed.
  destruct (drop_ws_split l) as (w & Hl & Hw). destruct (expect "}" (drop_ws l)) as [r'|] eqn:E.
  - injection H as <- ->. apply expect_split in E. exists (w ++ ["}"%char]). split; [by rewrite Hl, E, <- app_assoc|].
    split; [by constructor|]. unfold room. cbn. lia.
  - destruct (read_members f depth (drop_ws l)) as [[[js r']|]|] eqn:E2; try done. injection H as <- ->.
    apply IH in E2 as (t & E2 & Ht & Hr); [|done]. exists (w ++ t ++ ["}"%char]).
    split; [by rewrite Hl, E2, <- !app_assoc|]. split; [by constructor|]. by apply room_object in Hr as [_ ?].
Qed.

Lemma elements_sound_step f : value_sound f -> elements_sound f -> elements_sound (S f).
Proof.
  intros IHv IHe depth l js r Hd H. cbn [read_elements] in H.
  destruct (read_value f (depth + 1) l) as [[[j l1]|]|] eqn:Ev; try done. cbn [mbind option_bind] in H.
  apply IHv in Ev as (t & -> & Ht & Hr); [|lia]. destruct (drop_ws_split l1) as (w & Hl1 & Hw).
  destruct (expect "]" (drop_ws l1)) as [r'|] eqn:E1.
  { injection H as <- ->. apply expect_split in E1. exists (t ++ w). split; [by rewrite Hl1, E1, <- app_assoc|].
    by split; constructor. }
  destruct (expect "," (drop_ws l1)) as [l2|] eqn:E2; [|done]. apply expect_split in E2.
  destruct (drop_ws_split l2) as (w' & Hl2 & Hw').
  destruct (read_elements f depth (drop_ws l2)) as [[[js' r']|]|] eqn:Ee; try done. injection H as <- ->.
  apply IHe in Ee as (t' & Ee & Ht' & Hr'); [|done]. exists (t ++ w ++ ","%char :: w' ++ t').
  split; [rewrite Hl1, E2, Hl2, Ee; by rewrite <- !app_assoc; cbn; rewrite <- app_assoc|].
  by split; constructor.
Qed.

Lemma members_sound_step f : value_sound f -> members_sound f -> members_sound (S f).
Proof.
  intros IHv IHm depth l ms r Hd H. cbn [read_members] in H.
  destruct l as [|c l]; [done|]. cbn [read_string] in H. destruct (Ascii.eqb_spec c quote) as [->|]; [|done].
  destruct (read_body l) as [[k l1]|] eqn:Ek; [|done]. apply read_body_split in Ek as (kt & -> & Hk).
  destruct (drop_ws_split l1) as (w1 & Hl1 & Hw1).
  destruct (expect ":" (drop_ws l1)) as [l2|] eqn:Ec; [|done]. apply expect_split in Ec.
  destruct (drop_ws_split l2) as (w2 & Hl2 & Hw2).
  destruct (read_value f (depth + 1) (drop_ws l2)) as [[[j l3]|]|] eqn:Ev; try done. cbn [mbind option_bind] in H.
  apply IHv in Ev as (t & Ev & Ht & Hr); [|lia]. destruct (drop_ws_split l3) as (w & Hl3 & Hw).
  destruct (expect "}" (drop_ws l3)) as [r'|] eqn:E1.
  { injection H as <- ->. apply expect_split in E1. exists (quote :: kt ++ quote :: w1 ++ ":"%char :: w2 ++ t ++ w).
    split; [|by split; repeat constructor]. rewrite Hl1, Ec, Hl2, Ev, Hl3, E1.
    repeat (cbn [app]; rewrite <- app_assoc). done. }
  destruct (expect "," (drop_ws l3)) as [l4|] eqn:E2; [|done]. apply expect_split in E2.
  destruct (drop_ws_split l4) as (w' & Hl4 & Hw').
  destruct (read_members f depth (drop_ws l4)) as [[[ms' r']|]|] eqn:Ee; try done. injection H as <- ->.
  apply IHm in Ee as (t' & Ee & Ht' & Hr'); [|done].
  exists (quote :: kt ++ quote :: w1 ++ ":"%char :: w2 ++ t ++ w ++ ","%char :: w' ++ t').
  split; [|by split; constructor]. rewrite Hl1, Ec, Hl2, Ev, Hl3, E2, Hl4, Ee.
  repeat (cbn [app]; rewrite <- app_assoc). done.
Qed.

Lemma all_sound f : value_sound f /\ list_sound f /\ elements_sound f /\ object_sound f /\ members_sound f.
Proof.
  induction f as [|f (Hv & Hl & He & Ho & Hm)]; [by repeat split|].
  repeat split; [by apply value_sound_step|by apply list_sound_step|by apply elements_sound_step|
    by apply object_sound_step|by apply members_sound_step].
Qed.

(** ** From the grammar to the text read *)

Lemma value_head j t : value_text j t -> exists c t', t = c :: t' /\ is_ws c = false /\ c <> "]"%char.
Proof.
  destruct 1 as [| | |t Ht| | | | |]; try by do 2 eexists; split; [done|].
  destruct Ht as [s [-> | ->]|s f x [-> | ->]|s d ds f x [-> | ->] Hd]; try by do 2 eexists; split; [done|].
  do 2 eexists. split; [done|]. clear -Hd. by destruct d as [[] [] [] [] [] [] [] []].
Qed.

(** The first character of a number is none of those that lead elsewhere. *)
Lemma number_dispatch t f depth r : number_text t -> no_number r ->
  read_value (S f) depth (t ++ r) = Some (Some (JNumber t, r)).
Proof.
  intros Ht Hr. pose proof (proj2 (accepts_number t) Ht) as Ha. pose proof (accepts_chars _ _ Ha) as Hc.
  assert (Hrun : read_number (t ++ r) = Some (JNumber t, r)).
  { unfold read_number. by rewrite number_run_app, Ha, drop_app_length. }
  destruct t as [|c t]; [done|]. inversion Hc as [|? ? Hcc _]; subst. cbn [app read_value] in *. rewrite Hrun. clear -Hcc Ha.
  assert (Hn : (c <> "[" /\ c <> "{" /\ c <> quote /\ c <> "t" /\ c <> "f" /\ c <> "n")%char).
  { clear Ha. unfold quote. repeat split; by intros ->. }
  destruct Hn as (H1 & H2 & H3 & H4 & H5 & H6). by rewrite !(proj2 (Ascii.eqb_neq _ _)).
Qed.

Lemma blank_no_number w c r : blank w -> number_char c = false -> no_number (w ++ c :: r).
Proof.
  intros Hw Hc. destruct Hw as [|x w Hx _]; [done|]. cbn. revert Hx. unfold is_ws, number_char, number_table.
  by destruct x as [[] [] [] [] [] [] [] []].
Qed.

Lemma read_word_app word j r : read_word word j (word ++ r) = Some (j, r).
Proof. unfold read_word. by rewrite take_app_length, bool_decide_eq_true_2, drop_app_length. Qed.

Definition value_complete (j : json) (t : bytes) : Prop := forall f depth r x, room depth (nest j) -> no_number r ->
  read_value f depth (t ++ r) = Some x -> x = Some (j, r).
Definition elements_complete (js : list json) (t : bytes) : Prop := (exists c t', t = c :: t' /\ is_ws c = false /\ c <> "]"%char) /\
  forall f depth r x, Forall (fun j => room (depth + 1) (nest j)) js ->
    read_elements f depth (t ++ "]"%char :: r) = Some x -> x = Some (js, r).
Definition members_complete (ms : list (bytes * json)) (t : bytes) : Prop := head t = Some quote /\
  forall f depth r x, Forall (fun m => room (depth + 1) (nest m.2)) ms ->
    read_members f depth (t ++ "}"%char :: r) = Some x -> x = Some (ms, r).

Lemma room_pos depth n : room depth (S n) -> (max_depth <? depth + 1)%Z = false.
Proof. unfold room. intros H. apply Z.ltb_ge. lia. Qed.

Lemma list_empty_complete w : blank w -> value_complete (JList []) ("["%char :: w ++ ["]"%char]).
Proof.
  intros Hw f depth r x Hr _. destruct f as [|[|f]]; try done. cbn [app read_value read_list].
  rewrite Ascii.eqb_refl, (room_pos depth 0 Hr), <- app_assoc, drop_ws_app by done. cbn [app]. rewrite expect_head. by intros [= <-].
Qed.

Lemma object_empty_complete w : blank w -> value_complete (JObject []) ("{"%char :: w ++ ["}"%char]).
Proof.
  intros Hw f depth r x Hr _. destruct f as [|[|f]]; try done. cbn [app read_value read_object].
  replace (Ascii.eqb "{" "[") with false by done.
  rewrite Ascii.eqb_refl, (room_pos depth 0 Hr), <- app_assoc, drop_ws_app by done. cbn [app]. rewrite expect_head. by intros [= <-].
Qed.

Lemma list_complete w js t : blank w -> elements_complete js t -> value_complete (JList js) ("["%char :: w ++ t ++ ["]"%char]).
Proof.
  intros Hw [(c & t' & -> & Hc & Hne) He] f depth r x Hr _. destruct f as [|[|f]]; try done. cbn [app read_value read_list].
  rewrite Ascii.eqb_refl, (room_pos depth _ Hr). repeat (rewrite <- app_assoc; cbn [app]).
  rewrite drop_ws_app by done.
  rewrite expect_other by done.
  destruct (read_elements f (depth + 1) _) as [y|] eqn:E; [|done]. apply He in E as ->; [by intros [= <-]|].
  pose proof (room_pos _ _ Hr) as Hd. apply Z.ltb_ge in Hd. apply room_list; [done|]. split; [done|].
  by replace (depth + 1 - 1)%Z with depth by lia.
Qed.

Lemma object_complete w ms t : blank w -> members_complete ms t -> value_complete (JObject ms) ("{"%char :: w ++ t ++ ["}"%char]).
Proof.
  intros Hw [Hh Hm] f depth r x Hr _. destruct f as [|[|f]]; try done. cbn [app read_value read_object].
  destruct t as [|c t']; [done|]. injection Hh as ->.
  replace (Ascii.eqb "{" "[") with false by done.
  rewrite Ascii.eqb_refl, (room_pos depth _ Hr). repeat (rewrite <- app_assoc; cbn [app]).
  rewrite drop_ws_app by done.
  rewrite expect_other by done.
  destruct (read_members f (depth + 1) _) as [y|] eqn:E; [|done]. apply Hm in E as ->; [by intros [= <-]|].
  pose proof (room_pos _ _ Hr) as Hd. apply Z.ltb_ge in Hd. apply room_object; [done|]. split; [done|].
  by replace (depth + 1 - 1)%Z with depth by lia.
Qed.

Lemma elements_last_complete j t w : value_text j t -> value_complete j t -> blank w -> elements_complete [j] (t ++ w).
Proof.
  intros Ht Hj Hw. split.
  { destruct (value_head _ _ Ht) as (c & t' & -> & ? & ?). by exists c, (t' ++ w). }
  intros f depth r x Hr. destruct f as [|f]; [done|]. cbn [read_elements]. rewrite <- app_assoc. inversion Hr; subst.
  destruct (read_value f (depth + 1) _) as [y|] eqn:E; [|done]. apply Hj in E as ->; [|done|by apply blank_no_number].
  cbn [mbind option_bind]. rewrite drop_ws_app by done. rewrite expect_head. by intros [= <-].
Qed.

Lemma elements_more_complete j t w w' js t' : value_text j t -> value_complete j t -> blank w -> blank w' ->
  elements_complete js t' -> elements_complete (j :: js) (t ++ w ++ ","%char :: w' ++ t').
Proof.
  intros Ht Hj Hw Hw' [(c & t2 & -> & Hc & _) He]. split.
  { destruct (value_head _ _ Ht) as (c0 & t0 & -> & ? & ?). cbn [app]. by do 2 eexists. }
  intros f depth r x Hr. destruct f as [|f]; [done|]. cbn [read_elements]. inversion Hr as [|? ? Hr1 Hr2]; subst.
  rewrite <- !app_assoc. destruct (read_value f (depth + 1) _) as [y|] eqn:E; [|done].
  apply Hj in E as ->; [|done|by cbn [app]; apply blank_no_number].
  cbn [mbind option_bind]. rewrite drop_ws_app by done. cbn [app]. rewrite expect_other, expect_head by done.
  rewrite <- app_assoc, drop_ws_app by done.
  destruct (read_elements f depth _) as [y|] eqn:E2; [|done]. apply He in E2 as ->; [by intros [= <-]|done].
Qed.

Lemma members_last_complete kt k w1 w2 j t w : body kt k -> blank w1 -> blank w2 -> value_text j t -> value_complete j t ->
  blank w -> members_complete [(k, j)] (quote :: kt ++ quote :: w1 ++ ":"%char :: w2 ++ t ++ w).
Proof.
  intros Hk Hw1 Hw2 Ht Hj Hw. split; [done|]. intros f depth r x Hr. destruct f as [|f]; [done|].
  cbn [read_members app read_string]. rewrite Ascii.eqb_refl. inversion Hr as [|? ? Hr1 _]; subst.
  repeat (rewrite <- app_assoc; cbn [app]). rewrite (read_body_text _ _ _ Hk).
  rewrite drop_ws_app, expect_head by done. destruct (value_head _ _ Ht) as (c & t' & -> & Hc & _).
  rewrite drop_ws_app by done. destruct (read_value f (depth + 1) _) as [y|] eqn:E; [|done].
  apply Hj in E as ->; [|done|by apply blank_no_number].
  cbn [mbind option_bind]. rewrite drop_ws_app by done. rewrite expect_head. by intros [= <-].
Qed.

Lemma members_more_complete kt k w1 w2 j t w w' ms t' : body kt k -> blank w1 -> blank w2 -> value_text j t ->
  value_complete j t -> blank w -> blank w' -> members_complete ms t' ->
  members_complete ((k, j) :: ms) (quote :: kt ++ quote :: w1 ++ ":"%char :: w2 ++ t ++ w ++ ","%char :: w' ++ t').
Proof.
  intros Hk Hw1 Hw2 Ht Hj Hw Hw' [Hh Hm]. split; [done|]. intros f depth r x Hr. destruct f as [|f]; [done|].
  cbn [read_members app read_string]. rewrite Ascii.eqb_refl. inversion Hr as [|? ? Hr1 Hr2]; subst.
  repeat (rewrite <- app_assoc; cbn [app]). rewrite (read_body_text _ _ _ Hk).
  rewrite drop_ws_app, expect_head by done. destruct (value_head _ _ Ht) as (c & t2 & -> & Hc & _).
  rewrite drop_ws_app by done. destruct (read_value f (depth + 1) _) as [y|] eqn:E; [|done].
  apply Hj in E as ->; [|done|by apply blank_no_number].
  cbn [mbind option_bind]. rewrite drop_ws_app by done. rewrite expect_other, expect_head by done.
  assert (Hn : no_ws (t' ++ "}"%char :: r)) by (destruct t'; [done|by injection Hh as ->]).
  rewrite drop_ws_app by done.
  destruct (read_members f depth _) as [y|] eqn:E2; [|done]. apply Hm in E2 as ->; [by intros [= <-]|done].
Qed.

Lemma text_complete : (forall j t, value_text j t -> value_complete j t) /\
  (forall js t, elements_text js t -> elements_complete js t) /\
  (forall ms t, members_text ms t -> members_complete ms t).
Proof.
  apply text_mut.
  - intros [|f] depth r x _ _; [done|]. cbn. by intros [= <-].
  - intros [|f] depth r x _ _; [done|]. cbn. by intros [= <-].
  - intros [|f] depth r x _ _; [done|]. cbn. by intros [= <-].
  - intros t Ht [|f] depth r x _ Hr; [done|]. rewrite number_dispatch by done. by intros [= <-].
  - intros t s Ht [|f] depth r x _ _; [done|]. cbn [app read_value].
    replace (Ascii.eqb quote "[") with false by done. replace (Ascii.eqb quote "{") with false by done.
    rewrite Ascii.eqb_refl, <- app_assoc. cbn [app]. rewrite (read_body_text _ _ _ Ht). by intros [= <-].
  - apply list_empty_complete.
  - intros w js t Hw _ He. by apply list_complete.
  - apply object_empty_complete.
  - intros w ms t Hw _ Hm. by apply object_complete.
  - intros j t w Ht Hj Hw. by apply elements_last_complete.
  - intros j t w w' js t' Ht Hj Hw Hw' _ He. by apply elements_more_complete.
  - intros. by apply members_last_complete.
  - intros. by apply members_more_complete.
Qed.

Lemma nul_last text x r : Forall (fun c => c <> NUL) text -> text ++ [NUL] = x ++ NUL :: r -> text = x /\ r = [].
Proof.
  intros Hz. revert x. induction Hz as [|c text Hc _ IH]; intros [|y x] H; cbn in H.
  - by injection H as <-.
  - injection H as _ H. by destruct x.
  - by injection H as -> _.
  - injection H as -> H. by destruct (IH x H) as [-> ->].
Qed.

(** Such a text is read, whatever its containers hold. *)
Lemma document_complete text j : document_text j text -> (Z.of_nat (nest j) <= 5000)%Z ->
  read_document (text ++ [NUL]) = Some (Some j).
Proof.
  intros (w1 & v & w2 & -> & Hw1 & Hv & Hw2) Hn. destruct (value_head _ _ Hv) as (c & v' & Hv' & Hc & _).
  unfold read_document. set (l := (w1 ++ v ++ w2) ++ [NUL]).
  assert (Hd : drop_ws l = v ++ w2 ++ [NUL]).
  { unfold l. rewrite <- !app_assoc. apply drop_ws_app; [done|]. by rewrite Hv'. }
  pose proof (drop_ws_length l) as Hl.
  pose proof (proj1 (fuel_enough (4 * length l + 4)) 0%Z (drop_ws l) ltac:(lia)) as H. rewrite Hd in *.
  destruct (read_value _ 0 (v ++ w2 ++ [NUL])) as [y|] eqn:E; [|done].
  apply (proj1 text_complete _ _ Hv) in E as ->; [|unfold room, max_depth; lia|by apply blank_no_number].
  cbn [mbind option_bind]. by rewrite drop_ws_app.
Qed.

(** The reference reader finds what the grammar derives, up to the depth. *)
Lemma document_read text j : Forall (fun c => c <> NUL) text ->
  read_document (text ++ [NUL]) = Some (Some j) <-> document_text j text /\ (Z.of_nat (nest j) <= 5000)%Z.
Proof.
  intros Hz. split; [|intros []; by apply document_complete]. unfold read_document.
  set (fuel := 4 * length (text ++ [NUL]) + 4). clearbody fuel. intros H.
  destruct (drop_ws_split (text ++ [NUL])) as (w & Hl & Hw).
  destruct (read_value fuel 0 (drop_ws (text ++ [NUL]))) as [[[j' r]|]|] eqn:E; [|done..].
  cbn [mbind option_bind] in H. destruct (drop_ws_split r) as (w' & Hr & Hw').
  destruct (expect NUL (drop_ws r)) as [r'|] eqn:Er; [|done]. injection H as ->. apply expect_split in Er.
  apply (proj1 (all_sound fuel)) in E as (t & E & Ht & Hroom); [|done].
  rewrite E, Hr, Er, !app_assoc in Hl. apply nul_last in Hl as [-> _]; [|done].
  split; [|unfold room, max_depth in Hroom; lia]. exists w, t, w'. by rewrite <- app_assoc.
Qed.

(** C16: On every text without NUL and of less than 2^31 - 2^16 bytes, [json::load]
    ends, within its copy of the text.  Either it returns a value that is not an
    error and shows a document [j] that the grammar derives from the text, with its
    containers nested no deeper than 5000 (which is what the limit of 10000 on the
    recursion of [decode_list] and [decode_object] comes to: every level counts
    twice); and [j] is then the only such document.  Or it returns an error, and the
    grammar derives no document from the text, except ones nested deeper than that. *)
Theorem load_grammar text : Forall (fun c => c <> NUL) text -> (Z.of_nat (length text) < max_elements - 1)%Z ->
  exists r buf, load text = Some (r, buf) /\ length buf = S (length text) /\
  if error r then forall j, document_text j text -> (5000 < Z.of_nat (nest j))%Z
  else exists j, document_text j text /\ (Z.of_nat (nest j) <= 5000)%Z /\ shows buf 0 (length buf) j r /\
    forall j', document_text j' text -> (Z.of_nat (nest j') <= 5000)%Z -> j' = j.
Proof.
  intros Hz Hs. destruct (read_document_total (text ++ [NUL])) as [x Hx].
  destruct (load_agrees text x Hs Hx) as (r & buf & Hl & Hb & Ha). exists r, buf. split_and!; [done..|].
  destruct x as [j|]; cbn in Ha.
  - destruct Ha as [-> Hj]. apply document_read in Hx as Hd; [|done]. destruct Hd as [Hd Hn]. exists j. split_and!; [done..|].
    intros j' Hd' Hn'. assert (E : read_document (text ++ [NUL]) = Some (Some j')) by (by apply document_read). congruence.
  - rewrite Ha. intros j Hd. destruct (Z.le_gt_cases (Z.of_nat (nest j)) 5000) as [Hn|Hn]; [|lia].
    assert (E : read_document (text ++ [NUL]) = Some (Some j)) by (by apply document_read). congruence.
Qed.

(** A list of one number, whose point has no digits behind it. *)
Lemma load_grammar_witness : let text := String.list_ascii_of_string "[-0.]" in exists r buf,
  load text = Some (r, buf) /\ length buf = 6 /\
  if error r then forall j, document_text j text -> (5000 < Z.of_nat (nest j))%Z
  else exists j, document_text j text /\ (Z.of_nat (nest j) <= 5000)%Z /\ shows buf 0 (length buf) j r /\
    forall j', document_text j' text -> (Z.of_nat (nest j') <= 5000)%Z -> j' = j.
Proof. apply (load_grammar (String.list_ascii_of_string "[-0.]")); [by repeat constructor|by vm_compute]. Defined.
