(* ===== verification/JsonWrite.v ===== *)
(** * The JSON writer: include/crow_all.h, crow::json::wvalue

    A [wvalue] is a value to be written, with the members of the class, whichever
    its type uses.  [dump] prints it.  A read through a null pointer, of the member
    of the union that was not stored, or a write behind [outbuf] is [None].

    [dump_text]: what is printed is a text of the grammar for the
    document the value stands for, and [dump_load] that [load] reads that document
    back. *)

From S2P Require Import Prelude CInt CFloat CArray JsonText JsonRead JsonSpec JsonGrammar JsonRefine.

(** The union [number]: the member that was stored. *)
Inductive number := num_d (d : b64) | num_si (z : Z) | num_ui (z : Z).

(** [si] and [ui] have the same bits; those of [d] stand for no integer here. *)
Definition read_si (n : number) : option Z :=
  match n with num_d _ => None | num_si z => Some z | num_ui z => Some (to_i64 z) end.
Definition read_ui (n : number) : option Z :=
  match n with num_d _ => None | num_si z => Some (to_u64 z) | num_ui z => Some z end.
Definition read_d (n : number) : option b64 := match n with num_d d => Some d | _ => None end.

(** An object is the list of its pairs in the order of iteration. *)
Inductive wvalue := WValue {
  w_t : type;
  w_nt : num_type;
  w_num : number;
  w_s : list ascii;
  w_l : option (list wvalue);
  w_o : option (list (list ascii * wvalue));
  w_f : option (list ascii -> list ascii)
}.

(** ** Constructors and assignments *)

(** [wvalue()]. *)
Definition wvalue_null : wvalue := WValue Null Null_num (num_ui 0) [] None None None.

Definition wvalue_bool (value : bool) : wvalue :=
  WValue (if value then True_ else False_) Null_num (num_ui 0) [] None None None.
Definition wvalue_unsigned (value : Z) : wvalue :=
  WValue Number Unsigned_integer (num_ui (to_u64 value)) [] None None None.
Definition wvalue_signed (value : Z) : wvalue :=
  WValue Number Signed_integer (num_si (to_i64 value)) [] None None None.
Definition wvalue_double (value : b64) : wvalue :=
  WValue Number Floating_point (num_d value) [] None None None.
Definition wvalue_string (value : list ascii) : wvalue :=
  WValue String_ Null_num (num_ui 0) value None None None.
(** From an object that is moved in. *)
Definition wvalue_object (value : list (list ascii * wvalue)) : wvalue :=
  WValue Object Null_num (num_ui 0) [] None (Some value) None.
(** The copy constructor takes the members the type uses, of every element; the
    copy of an object is iterated in the same order. *)
Fixpoint wvalue_copy (r : wvalue) : option wvalue :=
  match r with
  | WValue t nt num s l o f =>
      match t with
      | Null | False_ | True_ => Some (WValue t Null_num (num_ui 0) [] None None None)
      | Number =>
          num ← (match nt with
                 | Floating_point => num_d <$> read_d num
                 | Signed_integer => num_si <$> read_si num
                 | _ => num_ui <$> read_ui num
                 end);
          Some (WValue t nt num [] None None None)
      | String_ => Some (WValue t Null_num (num_ui 0) s None None None)
      | List_ =>
          xs ← l;
          ys ← mapM wvalue_copy xs;
          Some (WValue t Null_num (num_ui 0) [] (Some ys) None None)
      | Object =>
          kvs ← o;
          ys ← mapM (fun kv => y ← wvalue_copy kv.2; Some (kv.1, y)) kvs;
          Some (WValue t Null_num (num_ui 0) [] None (Some ys) None)
      | Function => Some (WValue t Null_num (num_ui 0) [] None None f)
      end
  end.

(** From a list: every element is copied. *)
Definition wvalue_list (r : list wvalue) : option wvalue :=
  ys ← mapM wvalue_copy r; Some (WValue List_ Null_num (num_ui 0) [] (Some ys) None None).

(** [operator=(wvalue&&)]: the new value of [*this], whose number type and
    function stay, and what is left of [r]. *)
Definition wvalue_move (this r : wvalue) : wvalue * wvalue :=
  (WValue (w_t r) (w_nt this) (w_num r) (w_s r) (w_l r) (w_o r) (w_f this),
   WValue (w_t r) (w_nt r) (w_num r) [] None None (w_f r)).

Definition reset (v : wvalue) : wvalue := WValue Null (w_nt v) (w_num v) (w_s v) None None (w_f v).

Definition assign_bool (value : bool) (v : wvalue) : wvalue :=
  let v := reset v in
  WValue (if value then True_ else False_) (w_nt v) (w_num v) (w_s v) (w_l v) (w_o v) (w_f v).

Definition assign_number (num : number) (v : wvalue) : wvalue :=
  let v := reset v in
  let nt := match num with num_d _ => Floating_point | num_si _ => Signed_integer | num_ui _ => Unsigned_integer end in
  WValue Number nt num (w_s v) (w_l v) (w_o v) (w_f v).

Definition assign_string (str : list ascii) (v : wvalue) : wvalue :=
  let v := reset v in WValue String_ (w_nt v) (w_num v) str (w_l v) (w_o v) (w_f v).

(** [operator=(list&&)]: every element is moved into a fresh one, and the ones
    before are gone. *)
Definition assign_list (xs : list wvalue) (v : wvalue) : wvalue :=
  let v := if bool_decide (w_t v = List_) then v else reset v in
  WValue List_ (w_nt v) (w_num v) (w_s v) (Some ((fun x => fst (wvalue_move wvalue_null x)) <$> xs)) (w_o v) (w_f v).

Definition assign_object (kvs : list (list ascii * wvalue)) (v : wvalue) : wvalue :=
  let v := if bool_decide (w_t v = Object) then v else reset v in
  WValue Object (w_nt v) (w_num v) (w_s v) (w_l v) (Some kvs) (w_f v).

Definition assign_function (func : list ascii -> list ascii) (v : wvalue) : wvalue :=
  let v := reset v in WValue Function (w_nt v) (w_num v) (w_s v) (w_l v) (w_o v) (Some func).

(** [operator[]]: the value with room for the element, which is then assigned
    through [set].  The index is below UINT_MAX. *)
Definition at_index (index : nat) (set : wvalue -> wvalue) (v : wvalue) : wvalue :=
  let v := if bool_decide (w_t v = List_) then v else reset v in
  let l := default [] (w_l v) in
  let l := if bool_decide (length l < index + 1)%nat then l ++ replicate (index + 1 - length l) wvalue_null else l in
  WValue List_ (w_nt v) (w_num v) (w_s v) (Some (alter set index l)) (w_o v) (w_f v).

Fixpoint alter_key (str : list ascii) (set : wvalue -> wvalue) (kvs : list (list ascii * wvalue))
    : list (list ascii * wvalue) :=
  match kvs with
  | [] => [(str, set wvalue_null)]
  | (k, x) :: kvs => if bool_decide (k = str) then (k, set x) :: kvs else (k, x) :: alter_key str set kvs
  end.

Definition at_key (str : list ascii) (set : wvalue -> wvalue) (v : wvalue) : wvalue :=
  let v := if bool_decide (w_t v = Object) then v else reset v in
  WValue Object (w_nt v) (w_num v) (w_s v) (w_l v) (Some (alter_key str set (default [] (w_o v)))) (w_f v).

Definition count (str : list ascii) (v : wvalue) : Z :=
  if bool_decide (w_t v = Object) then
    match w_o v with Some kvs => if bool_decide (str ∈ kvs.*1) then 1 else 0 | None => 0 end
  else 0.

Definition wvalue_keys (v : wvalue) : option (list (list ascii)) :=
  if bool_decide (w_t v = Object) then kvs ← w_o v; Some kvs.*1 else Some [].

Definition execute (txt : list ascii) (v : wvalue) : option (list ascii) :=
  if bool_decide (w_t v = Function) then f ← w_f v; Some (f txt) else Some [].

Definition wvalue_size (v : wvalue) : option nat :=
  if bool_decide (w_t v = List_) then l ← w_l v; Some (length l) else Some 1%nat.

Fixpoint estimate_length (v : wvalue) : Z :=
  match v with
  | WValue t _ _ s l o _ =>
      match t with
      | Null => 4
      | False_ => 5
      | True_ => 4
      | Number => 30
      | String_ => 2 + Z.of_nat (length s) + Z.of_nat (length s) / 2
      | List_ =>
          2 + match l with
              | Some xs => (fix go xs := match xs with [] => 0 | x :: xs => 1 + estimate_length x + go xs end) xs
              | None => 0
              end
      | Object =>
          2 + match o with
              | Some kvs =>
                  (fix go kvs :=
                     match kvs with
                     | [] => 0
                     | (k, x) :: kvs =>
                         2 + (2 + Z.of_nat (length k) + Z.of_nat (length k) / 2) + estimate_length x + go kvs
                     end) kvs
              | None => 0
              end
      | Function => 0
      end
  end.

(** ** Printing *)

Definition chars (s : string) : bytes := String.list_ascii_of_string s.

Definition dump_string (str out : bytes) : bytes := escape str (out ++ [quote]) ++ [quote].

(** [n / d] to the nearest integer, halves to the even one. *)
Definition round_even (n d : Z) : Z :=
  let q := n / d in
  match 2 * (n mod d) ?= d with
  | Lt => q
  | Gt => q + 1
  | Eq => if Z.even q then q else q + 1
  end.

(** A million times the size of a double, as [printf] rounds it. *)
Definition micros (m : positive) (e : Z) : Z :=
  if 0 <=? e then Zpos m * 2 ^ e * 10 ^ 6 else round_even (Zpos m * 10 ^ 6) (2 ^ (- e)).

(** The last [n] decimal digits. *)
Fixpoint last_digits (n : nat) (z : Z) : bytes :=
  match n with
  | O => []
  | S n => last_digits n (z / 10) ++ [Ascii.ascii_of_N (Z.to_N (48 + z mod 10))]
  end.

Definition fixed (negative : bool) (z : Z) : bytes :=
  (if negative then ["-"%char] else []) ++ chars (to_string (z / 10 ^ 6)) ++ "."%char :: last_digits 6 (z mod 10 ^ 6).

(** [sprintf("%f")] of a finite number. *)
Definition sprintf_f (d : b64) : option bytes :=
  match d with
  | S754_zero s => Some (fixed s 0)
  | S754_finite s m e => Some (fixed s (micros m e))
  | _ => None
  end.

Inductive f_state := f_start | f_decp | f_zero.

(** [while ( *p != 0)] over [outbuf]: where the zeros at the end begin. *)
Fixpoint trim_loop (fuel : nat) (outbuf : bytes) (p : nat) (st : f_state) (o : option nat) : option (option nat) :=
  match fuel with
  | O => None
  | S fuel =>
      ch ← peek outbuf p;
      if Ascii.eqb ch NUL then Some o
      else
        match st with
        | f_start =>
            if Ascii.eqb ch "." then
              next ← peek outbuf (p + 1);
              trim_loop fuel outbuf ((if Ascii.eqb next "0" then p + 1 else p) + 1) f_decp o
            else trim_loop fuel outbuf (p + 1) f_start o
        | f_decp =>
            if Ascii.eqb ch "0" then trim_loop fuel outbuf (p + 1) f_zero (Some p)
            else trim_loop fuel outbuf (p + 1) f_decp o
        | f_zero =>
            if negb (Ascii.eqb ch "0") then trim_loop fuel outbuf (p + 1) f_decp None
            else trim_loop fuel outbuf (p + 1) f_zero o
        end
  end.

(** The number with the zeros cut off; [outbuf] has 128 bytes. *)
Definition dump_double (d : b64) (out : bytes) : option bytes :=
  match sprintf_f d with
  | None => Some (out ++ chars "null")
  | Some text =>
      if bool_decide (length text < 128)%nat then
        let outbuf := text ++ [NUL] in
        o ← trim_loop (S (length outbuf)) outbuf 0 f_start None;
        Some (out ++ match o with Some o => take o text | None => text end)
      else None
  end.

Definition dump_number (nt : num_type) (num : number) (out : bytes) : option bytes :=
  match nt with
  | Floating_point => d ← read_d num; dump_double d out
  | Signed_integer => z ← read_si num; Some (out ++ chars (to_string z))
  | _ => z ← read_ui num; Some (out ++ chars (to_string z))
  end.

(** The loop over the elements, with a comma before every one but the first. *)
Section Commas.
  Context {A : Type} (dump_one : A -> bytes -> option bytes).

Fixpoint commas (first : bool) (xs : list A) (out : bytes) : option bytes :=
  match xs with
  | [] => Some out
  | x :: xs =>
      let out := if first then out else out ++ [","%char] in
      out ← dump_one x out;
      commas false xs out
  end.
End Commas.

Fixpoint dump_internal (v : wvalue) (out : bytes) : option bytes :=
  match v with
  | WValue t nt num s l o f =>
      match t with
      | Null => Some (out ++ chars "null")
      | False_ => Some (out ++ chars "false")
      | True_ => Some (out ++ chars "true")
      | Number => dump_number nt num out
      | String_ => Some (dump_string s out)
      | List_ =>
          out ← match l with
                | Some xs => commas dump_internal true xs (out ++ ["["%char])
                | None => Some (out ++ ["["%char])
                end;
          Some (out ++ ["]"%char])
      | Object =>
          out ← match o with
                | Some kvs =>
                    commas (fun kv out => dump_internal kv.2 (dump_string kv.1 out ++ [":"%char])) true kvs (out ++ ["{"%char])
                | None => Some (out ++ ["{"%char])
                end;
          Some (out ++ ["}"%char])
      | Function => Some (out ++ chars "custom function")
      end
  end.

Definition dump (v : wvalue) : option bytes := dump_internal v [].

(** ** The document a value stands for *)

(** The digits without the zeros at the end. *)
Fixpoint strip (r : bytes) : bytes :=
  match r with
  | [] => []
  | c :: r =>
      match strip r with
      | [] => if Ascii.eqb c "0" then [] else [c]
      | ds => c :: ds
      end
  end.

(** One digit stays. *)
Definition fraction_digits (r : bytes) : bytes :=
  match r with
  | c :: r' => if Ascii.eqb c "0" then c :: strip r' else strip r
  | [] => []
  end.

Definition decimal (negative : bool) (z : Z) : bytes :=
  (if negative then ["-"%char] else []) ++ chars (to_string (z / 10 ^ 6)) ++
  "."%char :: fraction_digits (last_digits 6 (z mod 10 ^ 6)).

(** A double as a document, where its text fits into [outbuf]. *)
Definition double_json (d : b64) : option json :=
  match sprintf_f d with
  | None => Some JNull
  | Some text =>
      if bool_decide (length text < 128)%nat then
        Some (JNumber (match d with
                       | S754_finite s m e => decimal s (micros m e)
                       | S754_zero s => decimal s 0
                       | _ => []
                       end))
      else None
  end.

Definition number_json (nt : num_type) (num : number) : option json :=
  match nt with
  | Floating_point => d ← read_d num; double_json d
  | Signed_integer => z ← read_si num; Some (JNumber (chars (to_string z)))
  | _ => z ← read_ui num; Some (JNumber (chars (to_string z)))
  end.

Fixpoint json_of (v : wvalue) : option json :=
  match v with
  | WValue t nt num s l o f =>
      match t with
      | Null => Some JNull
      | False_ => Some (JBool false)
      | True_ => Some (JBool true)
      | Number => number_json nt num
      | String_ => Some (JString s)
      | List_ =>
          js ← match l with Some xs => mapM json_of xs | None => Some [] end;
          Some (JList js)
      | Object =>
          ms ← match o with
               | Some kvs => mapM (fun kv => j ← json_of kv.2; Some (kv.1, j)) kvs
               | None => Some []
               end;
          Some (JObject ms)
      | Function => None
      end
  end.

#[local] Open Scope nat_scope.

(** ** Numbers *)

Lemma chars_app s t : chars (s +:+ t) = chars s ++ chars t.
Proof. unfold chars. induction s as [|c s IH]; cbn; [done|]. by rewrite IH. Qed.

Lemma chars_pretty_go n s : (0 < n)%N -> exists d ds, chars (pretty_N_go n s) = d :: ds ++ chars s /\
  between "1" "9" d = true /\ digits ds.
Proof.
  revert s. induction (N.lt_wf_0 n) as [n _ IH]. intros s Hn. rewrite pretty_N_go_step by lia.
  assert (Hm : (n mod 10 < 10)%N) by (apply N.mod_lt; lia).
  assert (Hc : forall k, (k < 10)%N -> between "0" "9" (pretty_N_char k) = true /\ ((0 < k)%N -> between "1" "9" (pretty_N_char k) = true)).
  { intros k Hk. destruct k as [|k]; [done|]. do 9 (destruct k as [k|k|]; try done; try lia). }
  destruct (decide (n / 10 = 0)%N) as [E|E].
  - rewrite E, pretty_N_go_0. exists (pretty_N_char (n mod 10)), []. split; [done|].
    split; [|constructor]. apply Hc; [done|]. pose proof (N.div_mod n 10). lia.
  - assert (Hlt : (n / 10 < n)%N) by (apply N.div_lt; done).
    destruct (IH _ Hlt (String (pretty_N_char (n mod 10)) s) (proj1 (N.neq_0_lt_0 _) E)) as (d & ds & -> & Hd & Hds).
    exists d, (ds ++ [pretty_N_char (n mod 10)]). split; [by rewrite <- app_assoc|]. split; [done|].
    apply Forall_app. split; [done|]. constructor; [by apply Hc|constructor].
Qed.

(** The text of a natural number. *)
Definition natural_text (t : bytes) : Prop :=
  t = ["0"%char] \/ exists d ds, t = d :: ds /\ between "1" "9" d = true /\ digits ds.

Lemma natural_to_string z : (0 <= z)%Z -> natural_text (chars (to_string z)).
Proof.
  intros Hz. destruct z as [|z|z]; [by left| |lia]. right. unfold to_string.
  change (pretty (Z.pos z)) with (pretty_N_go (N.pos z) EmptyString).
  destruct (chars_pretty_go (N.pos z) EmptyString) as (d & ds & -> & Hd & Hds); [lia|].
  exists d, ds. cbn. by rewrite app_nil_r.
Qed.

Lemma number_to_string z : number_text (chars (to_string z)).
Proof.
  assert (Hnat : forall sign t, sign = [] \/ sign = ["-"%char] -> natural_text t -> number_text (sign ++ t)).
  { intros sign t Hs [->|(d & ds & -> & Hd & Hds)]; [by constructor|].
    rewrite <- (app_nil_r ds). change (ds ++ []) with (ds ++ [] ++ []).
    constructor; [done..| |]; by left. }
  destruct (decide (0 <= z)%Z) as [Hz|Hz]; [apply (Hnat []); [by left|by apply natural_to_string]|].
  destruct z as [|z|z]; [lia|lia|]. change (to_string (Z.neg z)) with ("-" +:+ to_string (Z.pos z)).
  rewrite chars_app. apply Hnat; [by right|by apply natural_to_string].
Qed.

(** *** The zeros at the end of a double *)

Lemma strip_length r : length (strip r) <= length r.
Proof. induction r as [|c r IH]; cbn; [done|]. destruct (strip r); [case_match|]; cbn in *; lia. Qed.

Lemma strip_prefix r : exists zs, r = strip r ++ zs /\ Forall (eq "0"%char) zs.
Proof.
  induction r as [|c r (zs & Hr & Hz)]; [by exists []|]. cbn. destruct (strip r) as [|d ds].
  - destruct (Ascii.eqb_spec c "0") as [->|]; [exists ("0"%char :: zs)|exists zs]; cbn in *; rewrite Hr at 1; split; try done.
    by constructor.
  - exists zs. cbn in *. by rewrite Hr at 1.
Qed.

(** Where the loop puts the terminator, in its two later states. *)
Definition cut (X r : bytes) (o : option nat) : option nat :=
  if bool_decide (length (strip r) = length r) then o else Some (length X + length (strip r)).

Lemma trim_tail fuel (X r : bytes) : Forall (fun c => c <> NUL) r -> length r < fuel ->
  trim_loop fuel (X ++ r ++ [NUL]) (length X) f_decp None = Some (cut X r None) /\
  forall q, trim_loop fuel (X ++ r ++ [NUL]) (length X) f_zero (Some q) =
    Some (if decide (strip r = []) then Some q else cut X r None).
Proof.
  intros Hr. revert X fuel. induction Hr as [|c r Hc _ IH]; intros X [|fuel] Hf; cbn [length] in Hf; try lia.
  { cbn [trim_loop app]. rewrite peek_head. cbn. unfold cut. by rewrite bool_decide_eq_true_2. }
  destruct (IH (X ++ [c]) fuel ltac:(lia)) as [IHd IHz]. rewrite <- app_assoc in IHd, IHz. cbn [app] in IHd, IHz.
  rewrite length_app in IHd, IHz. cbn [length] in IHd, IHz.
  assert (Hcut : forall o, strip r <> [] -> cut (X ++ [c]) r o = cut X (c :: r) o).
  { intros o Hs. unfold cut. cbn [strip]. destruct (strip r) as [|d ds] eqn:E; [done|]. cbn [length].
    rewrite length_app. cbn [length]. destruct (decide (S (length ds) = length r)) as [El|El].
    - by rewrite !bool_decide_eq_true_2 by lia.
    - rewrite !bool_decide_eq_false_2 by lia. f_equal. lia. }
  assert (Hnil : forall o, strip r = [] -> c <> "0"%char -> cut (X ++ [c]) r o = cut X (c :: r) o).
  { intros o Hs Hne. unfold cut. cbn [strip]. rewrite Hs, (proj2 (Ascii.eqb_neq _ _) Hne). cbn [length].
    rewrite length_app. cbn [length]. destruct r as [|c' r].
    - by rewrite !bool_decide_eq_true_2.
    - rewrite !bool_decide_eq_false_2 by (cbn; lia). f_equal. lia. }
  cbn [trim_loop app]. rewrite peek_head. cbn [mbind option_bind]. rewrite (proj2 (Ascii.eqb_neq _ _) Hc).
  destruct (Ascii.eqb_spec c "0") as [->|Hne]; cbn [negb].
  - split; [rewrite IHz|intros q; rewrite IHz]; destruct (decide (strip r = [])) as [Hs|Hs].
    + unfold cut. cbn [strip]. rewrite Hs. cbn. rewrite Nat.add_0_r. done.
    + by rewrite Hcut.
    + rewrite decide_True; [done|]. cbn [strip]. by rewrite Hs.
    + rewrite decide_False; [by rewrite Hcut|]. cbn [strip]. by destruct (strip r).
  - assert (Hs : cut (X ++ [c]) r None = cut X (c :: r) None).
    { destruct (decide (strip r = [])); [by apply Hnil|by apply Hcut]. }
    split; [by rewrite IHd, Hs|]. intros q. rewrite IHd, Hs, decide_False; [done|]. cbn [strip].
    destruct (strip r); [by rewrite (proj2 (Ascii.eqb_neq _ _) Hne)|done].
Qed.

Lemma trim_start fuel (X pre r : bytes) : Forall (fun c => c <> NUL /\ c <> "."%char) pre -> Forall (fun c => c <> NUL) r ->
  length pre + length r + 2 < fuel -> r <> [] ->
  trim_loop fuel (X ++ pre ++ "."%char :: r ++ [NUL]) (length X) f_start None =
    Some (if decide (fraction_digits r = r) then None else Some (length X + length pre + S (length (fraction_digits r)))).
Proof.
  intros Hp Hr. revert X fuel. induction Hp as [|c pre [Hc Hd] _ IH]; intros X [|fuel] Hf Hne; cbn [length] in *; try lia.
  - cbn [trim_loop app]. rewrite peek_head. cbn [mbind option_bind]. rewrite Ascii.eqb_refl.
    replace (Ascii.eqb "." NUL) with false by done. rewrite peek_app. cbn [lookup list_lookup].
    destruct r as [|c r]; [done|]. cbn [app lookup list_lookup mbind option_bind]. inversion Hr as [|? ? Hc' Hr']; subst.
    cbn [length] in Hf. destruct (Ascii.eqb_spec c "0") as [->|Hc0].
    + destruct (trim_tail fuel (X ++ ["."; "0"]%char) r Hr' ltac:(lia)) as [Ht _].
      rewrite <- app_assoc, length_app in Ht. cbn [app length] in Ht.
      replace (length X + 1 + 1) with (length X + 2) by lia. rewrite Ht. f_equal. unfold cut. cbn [fraction_digits].
      rewrite Ascii.eqb_refl, length_app. cbn [length]. destruct (strip_prefix r) as (zs & Hz & _).
      destruct (decide (length (strip r) = length r)) as [El|El].
      * assert (zs = []) as ->.
        { apply (f_equal length) in Hz. rewrite length_app in Hz. destruct zs; [done|cbn in Hz; lia]. }
        rewrite app_nil_r in Hz. rewrite bool_decide_eq_true_2 by done. rewrite decide_True; [done|]. by rewrite <- Hz.
      * rewrite bool_decide_eq_false_2, decide_False by (done || congruence). f_equal. lia.
    + destruct (trim_tail fuel (X ++ ["."]%char) (c :: r) Hr ltac:(cbn; lia)) as [Ht _].
      rewrite <- app_assoc, length_app in Ht. cbn [app length] in Ht. rewrite Ht. f_equal. unfold cut. cbn [fraction_digits].
      rewrite (proj2 (Ascii.eqb_neq _ _) Hc0), length_app. cbn [length].
      destruct (strip_prefix (c :: r)) as (zs & Hz & _).
      destruct (decide (length (strip (c :: r)) = S (length r))) as [El|El].
      * assert (zs = []) as ->.
        { apply (f_equal length) in Hz. rewrite length_app in Hz. destruct zs; cbn [length] in Hz; [done|lia]. }
        rewrite app_nil_r in Hz. rewrite bool_decide_eq_true_2 by done. by rewrite decide_True.
      * rewrite bool_decide_eq_false_2 by done. rewrite decide_False. 2:{ intros H. apply El. by rewrite H. } f_equal. lia.
  - cbn [trim_loop app]. rewrite peek_head. cbn [mbind option_bind].
    rewrite (proj2 (Ascii.eqb_neq _ _) Hc), (proj2 (Ascii.eqb_neq _ _) Hd).
    specialize (IH (X ++ [c]) fuel ltac:(lia) Hne). rewrite <- app_assoc, length_app in IH. cbn [app length] in IH.
    rewrite IH. f_equal. destruct (decide _); [done|]. f_equal. lia.
Qed.

(** *** Doubles *)

Lemma last_digits_digits n z : digits (last_digits n z) /\ length (last_digits n z) = n.
Proof.
  revert z. induction n as [|n IH]; intros z; cbn [last_digits]; [by split; [constructor|]|].
  destruct (IH (z / 10)%Z) as [Hd Hl]. rewrite length_app, Hl. cbn. split; [|lia].
  apply Forall_app. split; [done|]. constructor; [|constructor].
  pose proof (Z.mod_pos_bound z 10 ltac:(lia)) as Hm. set (k := (z mod 10)%Z) in *. clearbody k.
  assert (Hk : k ∈ seqZ 0 10) by (apply elem_of_seqZ; lia).
  clear Hm. revert k Hk. by apply Forall_forall, (bool_decide_unpack _).
Qed.

Lemma round_even_pos n d : (0 <= n)%Z -> (0 < d)%Z -> (0 <= round_even n d)%Z.
Proof.
  intros Hn Hd. pose proof (Z.div_pos n d Hn Hd) as Hq. unfold round_even.
  destruct (_ ?= d)%Z; [destruct (Z.even _)| |]; lia.
Qed.

Lemma micros_pos m e : (0 <= micros m e)%Z.
Proof.
  unfold micros. destruct (Z.leb_spec 0 e).
  - pose proof (Z.pow_nonneg 2 e ltac:(lia)). lia.
  - apply round_even_pos; [lia|]. apply Z.pow_pos_nonneg; lia.
Qed.

Lemma strip_digits r : digits r -> digits (strip r).
Proof. destruct (strip_prefix r) as (zs & Hr & _). intros H. rewrite Hr in H. by apply Forall_app in H as [? _]. Qed.

Lemma fraction_digits_digits r : digits r -> digits (fraction_digits r).
Proof.
  destruct r as [|c r]; [done|]. intros H. cbn [fraction_digits]. destruct (Ascii.eqb c "0"); [|by apply strip_digits].
  inversion H; subst. constructor; [done|by apply strip_digits].
Qed.

(** What the loop leaves is a beginning of the text. *)
Lemma fraction_digits_prefix r : exists zs, r = fraction_digits r ++ zs.
Proof.
  destruct r as [|c r]; [by exists []|]. cbn [fraction_digits].
  destruct (Ascii.eqb c "0").
  - destruct (strip_prefix r) as (zs & Hr & _). exists zs. cbn. by rewrite <- Hr.
  - destruct (strip_prefix (c :: r)) as (zs & Hr & _). by exists zs.
Qed.

Lemma decimal_number s z : (0 <= z)%Z -> number_text (decimal s z).
Proof.
  intros Hz. unfold decimal. set (sign := if s then _ else _).
  assert (Hs : sign = [] \/ sign = ["-"%char]) by (destruct s; [by right|by left]).
  set (ds := fraction_digits _).
  assert (Hf : fraction ("."%char :: ds)).
  { right. exists ds. split; [done|]. apply fraction_digits_digits, last_digits_digits. }
  destruct (natural_to_string (z / 10 ^ 6)) as [-> | (d & ds' & -> & Hd & Hds)]; [by apply Z.div_pos| |].
  - cbn [app]. rewrite <- (app_nil_r ("."%char :: ds)). apply number_zero_point; [done..|by left].
  - cbn [app]. rewrite <- (app_nil_r ("."%char :: ds)). apply number_nonzero; try done. by left.
Qed.

(** Characters of a number before its point. *)
Definition plain (c : ascii) : Prop := c <> NUL /\ c <> "."%char.

Lemma digits_plain ds : digits ds -> Forall plain ds.
Proof. intros H. eapply Forall_impl; [exact H|]. intros c Hc. split; intros ->; done. Qed.

Lemma natural_plain t : natural_text t -> Forall plain t.
Proof.
  intros [-> | (d & ds & -> & Hd & Hds)]; [by repeat constructor|].
  constructor; [split; intros ->; done|by apply digits_plain].
Qed.

(** The text [sprintf] writes, cut at its zeros. *)
Lemma dump_fixed s z : (0 <= z)%Z -> let text := fixed s z in
  (o ← trim_loop (S (length (text ++ [NUL]))) (text ++ [NUL]) 0 f_start None;
   Some (match o with Some o => take o text | None => text end)) = Some (decimal s z).
Proof.
  intros Hz text. unfold text, fixed, decimal. set (sign := if s then _ else _). clear text.
  set (six := last_digits 6 _). destruct (last_digits_digits 6 (z mod 10 ^ 6)) as [Hd Hl]. fold six in Hd, Hl.
  set (nat := chars _). assert (Hpre : Forall plain (sign ++ nat)).
  { apply Forall_app. split; [destruct s; by repeat constructor|]. by apply natural_plain, natural_to_string, Z.div_pos. }
  rewrite !app_assoc. generalize dependent (sign ++ nat). intros pre Hpre.
  pose proof (trim_start (S (length ((pre ++ "."%char :: six) ++ [NUL]))) [] pre six Hpre) as Ht.
  rewrite <- !app_assoc in Ht |- *. cbn [app length Nat.add] in Ht |- *.
  rewrite Ht; cycle 1.
  - eapply Forall_impl; [apply digits_plain, Hd|]. by intros ? [].
  - rewrite !length_app. cbn [length]. rewrite length_app. cbn [length]. lia.
  - by destruct six.
  - cbn [mbind option_bind]. destruct (decide (fraction_digits six = six)) as [-> |_]; [done|]. f_equal.
    rewrite take_app_ge by lia. f_equal.
    replace (length pre + S (length (fraction_digits six)) - length pre) with (S (length (fraction_digits six))) by lia.
    cbn [take]. f_equal. destruct (fraction_digits_prefix six) as (zs & Hsix). rewrite Hsix at 2.
    by rewrite take_app_length.
Qed.

Lemma dump_double_text d j : double_json d = Some j ->
  exists t, value_text j t /\ forall out, dump_double d out = Some (out ++ t).
Proof.
  unfold double_json, dump_double. intros H.
  destruct d as [s|s| |s m e]; cbn [sprintf_f] in *;
    [|injection H as <-; eexists; split; [apply text_null|done]..|].
  all: destruct (bool_decide _); [|done]; injection H as <-.
  - eexists. split; [apply text_number, decimal_number; lia|].
    pose proof (dump_fixed s 0 ltac:(lia)) as Hf. cbn [mbind option_bind] in *.
    destruct (trim_loop _ _ _ _ _); [|done]. cbn in *. intros out. by injection Hf as ->.
  - eexists. split; [apply text_number, decimal_number, micros_pos|].
    pose proof (dump_fixed s (micros m e) (micros_pos m e)) as Hf. cbn [mbind option_bind] in *.
    destruct (trim_loop _ _ _ _ _); [|done]. cbn in *. intros out. by injection Hf as ->.
Qed.

Lemma dump_number_text nt num j : number_json nt num = Some j ->
  exists t, value_text j t /\ forall out, dump_number nt num out = Some (out ++ t).
Proof.
  assert (Hz : forall z, Some (JNumber (chars (to_string z))) = Some j ->
    exists t, value_text j t /\ forall out, Some (out ++ chars (to_string z)) = Some (out ++ t)).
  { intros z [= <-]. eexists. split; [apply text_number, number_to_string|done]. }
  destruct nt; cbn [number_json dump_number].
  1: destruct (read_si num); [apply Hz|done].
  1,3: destruct (read_ui num); [apply Hz|done].
  destruct (read_d num); [apply dump_double_text|done].
Qed.

(** ** The printed text *)

Lemma wvalue_ind' (P : wvalue -> Prop) :
  (forall t nt num s l o f, (forall xs, l = Some xs -> Forall P xs) -> (forall kvs, o = Some kvs -> Forall (fun kv => P kv.2) kvs) ->
    P (WValue t nt num s l o f)) -> forall v, P v.
Proof.
  intros H. fix IH 1. intros [t nt num s l o f]. apply H.
  - destruct l as [xs|]; [|done]. intros ? [= <-]. induction xs as [|x xs IHx]; constructor; [apply IH|done].
  - destruct o as [kvs|]; [|done]. intros ? [= <-]. induction kvs as [|[k x] kvs IHx]; constructor; [apply IH|done].
Qed.

(** [v] is printed as a text of its document. *)
Definition printed (v : wvalue) : Prop := forall j, json_of v = Some j ->
  exists t, value_text j t /\ forall out, dump_internal v out = Some (out ++ t).

Lemma dump_string_text str out : dump_string str out = out ++ quote :: List.flat_map escape_char str ++ [quote].
Proof. unfold dump_string. by rewrite escape_flat, <- !app_assoc. Qed.

Lemma commas_cons {A} (dump_one : A -> bytes -> option bytes) first x xs out :
  commas dump_one first (x :: xs) out =
    (out ← dump_one x (if first then out else out ++ [","%char]); commas dump_one false xs out).
Proof. done. Qed.

(** The loop over values that are printed, for lists and for objects: [texts]
    holds of what is printed between the brackets. *)
Lemma commas_text {A B} (dump_one : A -> bytes -> option bytes) (mean : A -> option B) (text : B -> bytes -> Prop)
    (texts : list B -> bytes -> Prop) xs ys :
  (forall y t, text y t -> texts [y] t) ->
  (forall y t ys t', text y t -> texts ys t' -> texts (y :: ys) (t ++ ","%char :: t')) ->
  Forall (fun x => forall y, mean x = Some y -> exists t, text y t /\ forall out, dump_one x out = Some (out ++ t)) xs ->
  mapM mean xs = Some ys -> xs <> [] ->
  exists t, texts ys t /\ forall first out,
    commas dump_one first xs out = Some (out ++ (if first then [] else [","%char]) ++ t).
Proof.
  intros Hlast Hmore Hp. revert ys. induction Hp as [|x xs Hx _ IH]; intros ys H Hne; [done|].
  cbn [mapM] in H. destruct (mean x) as [y|] eqn:Ey; [|done]. cbn [mbind option_bind] in H.
  destruct (Hx y eq_refl) as (t & Ht & Hd). destruct xs as [|x' xs].
  - injection H as <-. exists t. split; [by apply Hlast|]. intros first out. cbn. rewrite Hd. cbn.
    by destruct first; rewrite <- ?app_assoc.
  - destruct (mapM mean (x' :: xs)) as [ys'|]; [|done]. injection H as <-.
    destruct (IH ys' eq_refl) as (t' & Ht' & Hd'); [done|]. exists (t ++ ","%char :: t'). split; [by apply Hmore|].
    intros first out. rewrite commas_cons, Hd. cbn [mbind option_bind]. rewrite Hd'. by destruct first; rewrite <- ?app_assoc.
Qed.

(** A member, printed without spaces. *)
Definition member_text (m : bytes * json) (t : bytes) : Prop := exists t', value_text m.2 t' /\
  t = quote :: List.flat_map escape_char m.1 ++ quote :: ":"%char :: t'.

Lemma list_printed nt num s l o f : (forall xs, l = Some xs -> Forall printed xs) ->
  printed (WValue List_ nt num s l o f).
Proof.
  intros Hp j H. cbn [json_of] in H. destruct l as [[|x xs]|]; cbn [mbind option_bind] in H.
  1,3: injection H as <-; exists (["["]%char ++ ["]"]%char); split; [apply (text_list_empty []); constructor|];
    intros out; cbn; by rewrite <- app_assoc.
  destruct (mapM json_of (x :: xs)) as [js|] eqn:E; [|done]. injection H as <-.
  destruct (commas_text dump_internal json_of value_text elements_text (x :: xs) js) as (t & Ht & Hd); [| |by apply Hp|done..|].
  - intros y t Ht. rewrite <- (app_nil_r t). by apply elements_last; [|constructor].
  - intros y t ys t' Ht Ht'. by apply (elements_more y t [] [] ys t'); [|constructor..|].
  - exists ("["%char :: t ++ ["]"%char]). split; [by apply (text_list []); [constructor|]|].
    intros out. cbn [dump_internal]. rewrite Hd. cbn. by rewrite <- !app_assoc.
Qed.

Lemma object_printed nt num s l o f : (forall kvs, o = Some kvs -> Forall (fun kv => printed kv.2) kvs) ->
  printed (WValue Object nt num s l o f).
Proof.
  intros Hp j H. cbn [json_of] in H. destruct o as [[|x xs]|]; cbn [mbind option_bind] in H.
  1,3: injection H as <-; exists (["{"]%char ++ ["}"]%char); split; [apply (text_object_empty []); constructor|];
    intros out; cbn; by rewrite <- app_assoc.
  set (mean := fun kv : bytes * wvalue => j ← json_of kv.2; Some (kv.1, j)) in H.
  destruct (mapM mean (x :: xs)) as [ms|] eqn:E; [|done]. injection H as <-.
  destruct (commas_text (fun kv out => dump_internal kv.2 (dump_string kv.1 out ++ [":"%char])) mean member_text members_text
    (x :: xs) ms) as (t & Ht & Hd); [| | |exact E|done|].
  - intros [k y] t (t' & Ht & ->). pose proof (members_last _ k [] [] y t' [] (escape_body k)) as Hm.
    rewrite app_nil_r in Hm. apply Hm; [constructor..|done|constructor].
  - intros [k y] t ys u (t' & Ht & ->) Hu. pose proof (members_more _ k [] [] y t' [] [] ys u (escape_body k)) as Hm.
    cbn in *. rewrite <- !app_assoc. cbn. rewrite <- ?app_assoc. apply Hm; [constructor..|done|constructor|constructor|done].
  - eapply Forall_impl; [by apply Hp|]. intros [k v] Hv y Hy. unfold mean in Hy. cbn [fst snd] in *. destruct (json_of v) as [jv|] eqn:Ev; [|done].
    injection Hy as <-. destruct (Hv jv Ev) as (t & Ht & Hd). eexists. split; [exists t; split; [exact Ht|reflexivity]|].
    intros out. cbn [fst snd]. rewrite dump_string_text, Hd, <- !app_assoc. cbn. by rewrite <- !app_assoc.
  - exists ("{"%char :: t ++ ["}"%char]). split; [by apply (text_object []); [constructor|]|].
    intros out. cbn [dump_internal]. rewrite Hd. cbn. by rewrite <- !app_assoc.
Qed.

Lemma all_printed v : printed v.
Proof.
  induction v as [t nt num s l o f Hl Ho] using wvalue_ind'. destruct t.
  1-3: intros j [= <-]; eexists; split; [|done]; constructor.
  - intros j Hj. by apply dump_number_text.
  - intros j [= <-]. eexists. split; [apply text_string, escape_body|]. intros out. by rewrite <- dump_string_text.
  - by apply list_printed.
  - by apply object_printed.
  - done.
Qed.

(** A value is printed, as a text of the grammar for the document it stands for. *)
Lemma dump_text v j : json_of v = Some j -> exists t, dump v = Some t /\ document_text j t.
Proof.
  intros H. destruct (all_printed v j H) as (t & Ht & Hd). exists t. split; [apply Hd|].
  exists [], t, []. rewrite app_nil_r. by repeat split; [constructor| |constructor].
Qed.

(** C15: A value that stands for a document [j], of no more than 5000 levels, is
    printed; and what is printed, below the parser's bound, is parsed to a value
    that shows [j] again. *)
Theorem dump_load w j : json_of w = Some j -> (Z.of_nat (nest j) <= 5000)%Z ->
  exists t, dump w = Some t /\
    ((Z.of_nat (length t) < max_elements - 1)%Z ->
     exists r buf, load t = Some (r, buf) /\ error r = false /\ shows buf 0 (length buf) j r).
Proof.
  intros Hj Hn. destruct (dump_text w j Hj) as (t & Ht & Hd). exists t. split; [done|]. intros Hs.
  destruct (load_agrees t (Some j) Hs) as (r & buf & Hl & _ & Ha & Hsh); [by apply document_complete|]. by exists r, buf.
Qed.

(** [{"a":[1,-2,0.5],"\n":null}], by the constructors. *)
Definition sample : wvalue :=
  wvalue_object [(chars "a", WValue List_ Null_num (num_ui 0) []
                    (Some [wvalue_unsigned 1; wvalue_signed (-2); wvalue_double (S754_finite false 1 (-1))]) None None);
                 ([chr 10], wvalue_null)].

Example sample_text : dump sample = Some (chars "{" ++ quote :: chars "a" ++ quote :: chars ":[1,-2,0.5]," ++
  quote :: chars "\n" ++ quote :: chars ":null}").
Proof. by vm_compute. Qed.

Lemma dump_load_witness : exists t, dump sample = Some t /\
  ((Z.of_nat (length t) < max_elements - 1)%Z ->
   exists r buf, load t = Some (r, buf) /\ error r = false /\
     shows buf 0 (length buf)
       (JObject [(chars "a", JList [JNumber (chars "1"); JNumber (chars "-2"); JNumber (chars "0.5")]); ([chr 10], JNull)]) r).
Proof. apply dump_load; by vm_compute. Defined.

(** A signed number moved into a fresh value is printed as an unsigned one: the
    move takes the bits and leaves the number type. *)
Example moved_number : dump (fst (wvalue_move wvalue_null (wvalue_signed (-1)))) = Some (chars "18446744073709551615").
Proof. by vm_compute. Qed.

(** 2^498, which has 150 digits before its point, does not fit into [outbuf]. *)
Example wide_double : dump (wvalue_double (S754_finite false 1 498)) = None.
Proof. by vm_compute. Qed.

(** What the automaton takes for a number, and what it does not. *)
Example odd_numbers : (accepts Minus <$> [chars "1."; chars "1e+"; chars "0e1"; chars "0.e1"]) = [true; true; false; true].
Proof. by vm_compute. Qed.
