(* ===== verification/JsonAccess.v ===== *)
(** * The accessors of a JSON value: include/crow_all.h, crow::json::rvalue

    What a program does with the value [load] returns: conversions, indexing by
    position and by key, copies.  A key is looked up by sorting the elements once,
    in place, and searching the sorted range in halves; both are written out, but
    [std::sort], whose order of equal keys is not specified, is the class [Sort],
    and the functions of Boost are the class [Boost].

    An accessor returns, throws, or is undefined; those that change the value, which
    is [mutable] in the code, also return the value after. *)

From stdpp Require Import sorting.
From S2P Require Import Prelude CInt CFloat CArray JsonText JsonRead JsonSpec JsonRefine.

(** ** Outcomes *)

Inductive exception := runtime_error (what : string) | bad_lexical_cast.

Inductive answer (A : Type) := Ok (a : A) | Throw (e : exception) | Undef.
Arguments Ok {_} _.
Arguments Throw {_} _.
Arguments Undef {_}.

#[global] Instance answer_ret : MRet answer := @Ok.
#[global] Instance answer_bind : MBind answer := fun A B k m =>
  match m with Ok a => k a | Throw e => Throw e | Undef => Undef end.

Definition defined {A} (o : option A) : answer A := match o with Some a => Ok a | None => Undef end.
Definition throw {A} (what : string) : answer A := Throw (runtime_error what).

(** ** What the code calls *)

(** [boost::lexical_cast] to the three types, [boost::lexicographical_compare] and
    [boost::equals]. *)
Class Boost := {
  lexical_cast_i64 : bytes -> option Z;
  lexical_cast_u64 : bytes -> option Z;
  lexical_cast_f64 : bytes -> option b64;
  lexicographical_compare : bytes -> bytes -> bool;
  equals : bytes -> bytes -> bool
}.

Class BoostLaws `{Boost} : Prop := {
  compare_irrefl s : lexicographical_compare s s = false;
  compare_trans s t u : lexicographical_compare s t = true -> lexicographical_compare t u = true ->
    lexicographical_compare s u = true;
  compare_total s t : s <> t -> lexicographical_compare s t = true \/ lexicographical_compare t s = true;
  equals_spec s t : equals s t = true <-> s = t
}.

(** [std::sort]: for a strict weak order, a permutation that is in order. *)
Class Sort := std_sort : forall {A}, (A -> A -> bool) -> list A -> list A.

Definition strict_weak {A} (lt : A -> A -> bool) : Prop :=
  (forall x y, lt x y = true -> lt y x = false) /\
  (forall x y z, lt x y = false -> lt y z = false -> lt x z = false).

Class SortLaws `{Sort} : Prop := {
  sort_permutation {A} (lt : A -> A -> bool) l : std_sort lt l ≡ₚ l;
  sort_sorted {A} (lt : A -> A -> bool) l : strict_weak lt -> StronglySorted (fun x y => lt y x = false) (std_sort lt l)
}.

Section Accessors.
  Context `{Boost, Sort}.

(** ** Conversions *)

(** [t()] and [nt()]. *)
Definition type_of (r : rvalue) : answer type := if error r then throw "invalid json object" else Ok (t_ r).
Definition num_type_of (r : rvalue) : answer num_type := if error r then throw "invalid json object" else Ok (nt_ r).

(** The bytes from [start_] to [end_]. *)
Definition span_of (buf : bytes) (r : rvalue) : answer bytes :=
  s ← defined (start_ r); e ← defined (end_ r); Ok (slice s e buf).

Definition cast {A} (f : bytes -> option A) (text : bytes) : answer A :=
  match f text with Some a => Ok a | None => Throw bad_lexical_cast end.

(** [i()], [u()] and [d()]. *)
Definition integer_of {A} (f : bytes -> option A) (buf : bytes) (r : rvalue) : answer A :=
  t ← type_of r;
  match t with
  | Number | String_ => text ← span_of buf r; cast f text
  | _ => throw ("expected number, got: " +:+ get_type_str t)
  end.

Definition rvalue_i : bytes -> rvalue -> answer Z := integer_of lexical_cast_i64.
Definition rvalue_u : bytes -> rvalue -> answer Z := integer_of lexical_cast_u64.

Definition rvalue_d (buf : bytes) (r : rvalue) : answer b64 :=
  t ← type_of r;
  if negb (bool_decide (t = Number)) then throw "value is not number"
  else text ← span_of buf r; cast lexical_cast_f64 text.

(** [operator int()]. *)
Definition operator_int (buf : bytes) (r : rvalue) : answer Z := z ← rvalue_i buf r; Ok (to_i32 z).

Definition rvalue_b (r : rvalue) : answer bool :=
  t ← type_of r;
  if negb (bool_decide (t = True_)) && negb (bool_decide (t = False_)) then throw "value is not boolean"
  else Ok (bool_decide (t = True_)).

(** [s()]: the array with the escapes replaced, and the value with its new end. *)
Definition rvalue_s (buf : bytes) (r : rvalue) : answer (r_string * bytes * rvalue) :=
  t ← type_of r;
  if negb (bool_decide (t = String_)) then throw "value is not string"
  else '(s, buf) ← defined (string_of r buf); Ok (s, buf, set_end (e_ s) r).

(** [operator std::string()], with the array and the value after. *)
Definition operator_string (buf : bytes) (r : rvalue) : answer (bytes * bytes * rvalue) :=
  t ← type_of r;
  match t with
  | Object | List_ => throw "json type container"
  | String_ => '(s, buf, r) ← rvalue_s buf r; Ok (slice (s_ s) (e_ s) buf, buf, r)
  | Null => Ok (["n"; "u"; "l"; "l"]%char, buf, r)
  | True_ => Ok (["t"; "r"; "u"; "e"]%char, buf, r)
  | False_ => Ok (["f"; "a"; "l"; "s"; "e"]%char, buf, r)
  | _ => text ← span_of buf r; Ok (text, buf, r)
  end.

(** [operator==] with a string and with a double. *)
Definition equals_string (buf : bytes) (r : rvalue) (str : bytes) : answer (bool * bytes * rvalue) :=
  '(s, buf, r) ← rvalue_s buf r; Ok (equals (slice (s_ s) (e_ s) buf) str, buf, r).

Definition equals_double (buf : bytes) (r : rvalue) (x : b64) : answer bool :=
  d ← rvalue_d buf r; Ok (SFeqb d x).

(** ** Containers *)

Definition is_container (t : type) : bool := bool_decide (t = Object) || bool_decide (t = List_).

(** [begin()] and [end()]: the elements. *)
Definition elements (r : rvalue) : answer (list rvalue) :=
  t ← type_of r; if negb (is_container t) then throw "value is not a container" else Ok (l_ r).

Definition set_elements (l : list rvalue) (r : rvalue) : rvalue :=
  RValue (start_ r) (end_ r) (key_ r) l (cells_ r) (lremain_ r) (t_ r) (nt_ r) (option_ r).

Definition is_cached (r : rvalue) : bool := negb (Z.land (option_ r) cached_bit =? 0).
Definition set_cached (r : rvalue) : rvalue := set_option (Z.lor (option_ r) cached_bit) r.

(** The bytes of a key; one that was never set has no pointers. *)
Definition key_bytes (buf : bytes) (r : rvalue) : option bytes :=
  k ← key_ r; Some (slice (s_ k) (e_ k) buf).

(** [Pred], between elements and against a string. *)
Definition key_less (buf : bytes) (l r : rvalue) : bool :=
  lexicographical_compare (default [] (key_bytes buf l)) (default [] (key_bytes buf r)).

Definition key_below (buf : bytes) (str : bytes) (l : rvalue) : option bool :=
  k ← key_bytes buf l; Some (lexicographical_compare k str).

(** [lower_bound], in halves: the first of [len] elements from [first] on that is
    not below the string. *)
Fixpoint lower_bound (fuel : nat) (buf str : bytes) (l : list rvalue) (first len : nat) : option nat :=
  match fuel with
  | O => None
  | S fuel =>
      if bool_decide (len = 0)%nat then Some first
      else
        let half := (len / 2)%nat in
        let middle := (first + half)%nat in
        x ← l !! middle;
        below ← key_below buf str x;
        if (below : bool) then lower_bound fuel buf str l (middle + 1) (len - half - 1)
        else lower_bound fuel buf str l first half
  end.

(** [if (!is_cached()) { std::sort(begin(), end(), Pred()); set_cached(); }]; the
    sort compares the keys of two elements or more. *)
Definition sort_elements (buf : bytes) (r : rvalue) : answer rvalue :=
  if is_cached r then Ok r
  else
    l ← elements r;
    if (1 <? Z.of_nat (length l)) && existsb (fun x => bool_decide (key_ x = None)) l then Undef
    else Ok (set_cached (set_elements (std_sort (key_less buf) l) r)).

(** [lower_bound(begin(), end(), str, Pred())] and what follows: the index of the
    element with the key. *)
Definition search (buf str : bytes) (r : rvalue) : answer (option nat) :=
  l ← elements r;
  i ← defined (lower_bound (S (length l)) buf str l 0 (length l));
  match l !! i with
  | None => Ok None
  | Some x => k ← defined (key_bytes buf x); Ok (if equals k str then Some i else None)
  end.

(** [has], with the value after. *)
Definition has (buf str : bytes) (r : rvalue) : answer bool * rvalue :=
  match sort_elements buf r with
  | Ok r => (i ← search buf str r; Ok (bool_decide (is_Some i)), r)
  | Throw e => (Throw e, r)
  | Undef => (Undef, r)
  end.

Definition count (buf str : bytes) (r : rvalue) : answer Z * rvalue :=
  let '(b, r) := has buf str r in (b ← b; Ok (if (b : bool) then 1 else 0), r).

(** [operator[]] with a key: the index of the element in the value after. *)
Definition at_key (buf str : bytes) (r : rvalue) : answer nat * rvalue :=
  match type_of r with
  | Ok t =>
      if negb (bool_decide (t = Object)) then (throw "value is not an object", r)
      else
        match sort_elements buf r with
        | Ok r => (i ← search buf str r; match i with Some i => Ok i | None => throw "cannot find key" end, r)
        | Throw e => (Throw e, r)
        | Undef => (Undef, r)
        end
  | Throw e => (Throw e, r)
  | Undef => (Undef, r)
  end.

(** [operator[]] with an [int] and with a [size_t]. *)
Definition at_int (index : Z) (r : rvalue) : answer rvalue :=
  t ← type_of r;
  if negb (bool_decide (t = List_)) then throw "value is not a list"
  else if (to_i32 (lsize_ r) <=? index) || (index <? 0) then throw "list out of bound"
  else defined (l_ r !! Z.to_nat index).

Definition at_size (index : Z) (r : rvalue) : answer rvalue :=
  t ← type_of r;
  if negb (bool_decide (t = List_)) then throw "value is not a list"
  else if lsize_ r <=? index then throw "list out of bound"
  else defined (l_ r !! Z.to_nat index).

(** [size()], with the array and the value after. *)
Definition rvalue_size (buf : bytes) (r : rvalue) : answer (Z * bytes * rvalue) :=
  t ← type_of r;
  if bool_decide (t = String_) then
    '(s, buf, r) ← rvalue_s buf r; Ok (Z.of_nat (e_ s) - Z.of_nat (s_ s), buf, r)
  else if negb (is_container t) then throw "value is not a container"
  else Ok (lsize_ r, buf, r).

Definition rvalue_keys (buf : bytes) (r : rvalue) : answer (list bytes) :=
  t ← type_of r;
  if negb (bool_decide (t = Object)) then throw "value is not an object"
  else mapM (fun x => defined (key_bytes buf x)) (l_ r).

(** ** Copies *)

(** The copy constructor and the copy assignment: the key is not owned, and the
    elements of a container, one by one, fill the array of the copy. *)
Fixpoint rvalue_copy (r : rvalue) : answer rvalue :=
  match r with
  | RValue s e k l cells lremain t nt o =>
      let k := k ← k; Some (RString (s_ k) (e_ k) false) in
      if error r then throw "invalid json object"
      else if negb (is_container t) then Ok (RValue s e k [] 0 0 t nt o)
      else l' ← mapM rvalue_copy l; Ok (RValue s e k l' (Z.of_nat (length l)) 0 t nt o)
  end.

(** [lo()]. *)
Definition lo (r : rvalue) : answer (list rvalue) :=
  t ← type_of r;
  if negb (is_container t) then throw "value is not a container" else mapM rvalue_copy (l_ r).
End Accessors.

#[local] Open Scope nat_scope.

(** ** The order of keys *)

Section Laws.
  Context `{BoostLaws, SortLaws}.

Lemma compare_asym s t : lexicographical_compare s t = true -> lexicographical_compare t s = false.
Proof.
  intros Hst. destruct (lexicographical_compare t s) eqn:E; [|done].
  rewrite <- (compare_irrefl s). symmetry. by eapply compare_trans.
Qed.

Lemma compare_neg_trans s t u : lexicographical_compare s t = false -> lexicographical_compare t u = false ->
  lexicographical_compare s u = false.
Proof.
  intros Hst Htu. destruct (lexicographical_compare s u) eqn:E; [|done].
  destruct (decide (t = u)) as [->|Hne]; [congruence|].
  destruct (compare_total t u Hne) as [Ht|Ht]; [congruence|].
  pose proof (compare_trans _ _ _ E Ht). congruence.
Qed.

Lemma key_less_weak buf : strict_weak (key_less buf).
Proof. split; [intros x y; apply compare_asym|intros x y z; apply compare_neg_trans]. Qed.

(** Elements in the order of their keys. *)
Definition in_order (buf : bytes) (l : list rvalue) : Prop := StronglySorted (fun x y => key_less buf y x = false) l.

(** The elements have the keys [ks]. *)
Definition keys_are (buf : bytes) (ks : list bytes) (l : list rvalue) : Prop :=
  Forall2 (fun k x => key_bytes buf x = Some k) ks l.

Lemma in_order_keys buf ks l i j k k' : keys_are buf ks l -> in_order buf l -> ks !! i = Some k -> ks !! j = Some k' ->
  i < j -> lexicographical_compare k' k = false.
Proof.
  intros Hk Ho. revert i j. induction Hk as [|k0 x ks l Hx Hk IH]; intros i j Hi Hj Hij; [done|].
  apply StronglySorted_cons in Ho as [Hf Ho]. destruct j as [|j]; [lia|]. cbn in Hj.
  destruct i as [|i]; cbn in Hi; [|apply (IH Ho i j); [done..|lia]]. injection Hi as <-.
  destruct (Forall2_lookup_l _ _ _ _ _ Hk Hj) as (y & Hy & Hky).
  apply (Forall_lookup_1 _ _ _ _ Hf) in Hy. unfold key_less in Hy. by rewrite Hx, Hky in Hy.
Qed.

(** The keys before [i] are below the string, the others are not. *)
Definition splits (str : bytes) (ks : list bytes) (i : nat) : Prop := i <= length ks /\
  forall j k, ks !! j = Some k -> lexicographical_compare k str = bool_decide (j < i).

Lemma lower_bound_run fuel buf str ks l first len : keys_are buf ks l -> in_order buf l -> len < fuel ->
  first + len <= length ks ->
  (forall j k, ks !! j = Some k -> j < first -> lexicographical_compare k str = true) ->
  (forall j k, ks !! j = Some k -> first + len <= j -> lexicographical_compare k str = false) ->
  exists i, lower_bound fuel buf str l first len = Some i /\ splits str ks i.
Proof.
  intros Hk Ho. revert first len. induction fuel as [|fuel IH]; intros first len Hf Hl Hb Ha; [lia|].
  cbn [lower_bound]. destruct (bool_decide_reflect (len = 0)) as [->|Hne].
  { exists first. split; [done|]. split; [lia|]. intros j k Hj. destruct (decide (j < first)).
    - rewrite bool_decide_eq_true_2 by done. eauto.
    - rewrite bool_decide_eq_false_2 by done. apply (Ha j); [done|lia]. }
  pose proof (Nat.div_lt len 2 ltac:(lia) ltac:(lia)) as Hh. set (half := len / 2) in *. clearbody half.
  destruct (lookup_lt_is_Some_2 ks (first + half)) as [m Hm]; [lia|].
  destruct (Forall2_lookup_l _ _ _ _ _ Hk Hm) as (x & Hx & Hkx).
  rewrite Hx. cbn [mbind option_bind]. unfold key_below. rewrite Hkx. cbn [mbind option_bind].
  destruct (lexicographical_compare m str) eqn:E; apply IH; try lia.
  - intros j k Hj Hlt. destruct (decide (j = first + half)) as [->|]; [congruence|].
    destruct (lexicographical_compare k str) eqn:Ek; [done|]. exfalso.
    assert (Hmk : lexicographical_compare m k = false) by (apply (in_order_keys buf ks l j (first + half)); done || lia).
    pose proof (compare_neg_trans _ _ _ Hmk Ek). congruence.
  - intros j k Hj Hle. apply (Ha j); [done|lia].
  - done.
  - intros j k Hj Hle. destruct (decide (j = first + half)) as [->|]; [congruence|].
    apply (compare_neg_trans _ m); [|done]. apply (in_order_keys buf ks l (first + half) j); done || lia.
Qed.

(** The search over elements in order. *)
Lemma search_run buf str ks r : keys_are buf ks (l_ r) -> in_order buf (l_ r) -> elements r = Ok (l_ r) ->
  exists i, search buf str r = Ok i /\
    match i with Some i => ks !! i = Some str | None => str ∉ ks end.
Proof.
  intros Hk Ho He. unfold search. rewrite He. cbn [mbind answer_bind].
  pose proof (Forall2_length _ _ _ Hk) as Hlen.
  destruct (lower_bound_run (S (length (l_ r))) buf str ks (l_ r) 0 (length (l_ r))) as (i & -> & Hi & Hs); try done; try lia.
  { intros j k Hj Hge. apply lookup_lt_Some in Hj. lia. }
  cbn [mbind answer_bind defined]. destruct (l_ r !! i) as [x|] eqn:Ex.
  - destruct (Forall2_lookup_r _ _ _ _ _ Hk Ex) as (k & Hki & Hkx). rewrite Hkx. cbn [mbind answer_bind defined].
    eexists. split; [done|]. destruct (equals k str) eqn:E; [apply equals_spec in E; congruence|].
    intros (j & Hj)%list_elem_of_lookup. pose proof (Hs _ _ Hj) as Hc. rewrite compare_irrefl in Hc.
    symmetry in Hc. apply bool_decide_eq_false in Hc.
    destruct (decide (j = i)) as [->|]; [rewrite Hki in Hj; injection Hj as ->; by rewrite (proj2 (equals_spec str str)) in E|].
    pose proof (in_order_keys _ _ _ i j _ _ Hk Ho Hki Hj ltac:(lia)) as Hsk.
    pose proof (Hs _ _ Hki) as Hks. rewrite bool_decide_eq_false_2 in Hks by lia.
    destruct (decide (k = str)) as [->|Hne]; [by rewrite (proj2 (equals_spec str str)) in E|].
    destruct (compare_total k str Hne); congruence.
  - exists None. split; [done|]. intros (j & Hj)%list_elem_of_lookup. pose proof (Hs _ _ Hj) as Hc.
    rewrite compare_irrefl in Hc. symmetry in Hc. apply bool_decide_eq_false in Hc.
    apply lookup_ge_None in Ex. apply lookup_lt_Some in Hj. lia.
Qed.

(** ** Values that have been looked into *)

Definition valid (t : type) (v : rvalue) : Prop := t_ v = t /\ error v = false.

(** [v] holds the document: as [shows], but the members of an object may have been
    sorted, which its flag records. *)
Inductive holds (b : bytes) (lo hi : nat) : json -> rvalue -> Prop :=
  | holds_null v : valid Null v -> holds b lo hi JNull v
  | holds_bool (x : bool) v : valid (if x then True_ else False_) v -> holds b lo hi (JBool x) v
  | holds_number v s e : valid Number v -> start_ v = Some s -> end_ v = Some e ->
      lo <= s -> s <= e -> e <= hi -> nt_ v = determine_num_type Number (slice s e b) ->
      holds b lo hi (JNumber (slice s e b)) v
  | holds_string v s e str : valid String_ v -> start_ v = Some s -> end_ v = Some e ->
      lo < s -> e < hi -> string_at b s e str -> holds b lo hi (JString str) v
  | holds_list v js : valid List_ v -> Forall2 (holds b lo hi) js (l_ v) -> holds b lo hi (JList js) v
  | holds_object v ms ms' : valid Object v -> ms ≡ₚ ms' ->
      Forall2 (fun m v => keyed b lo hi m.1 v /\ holds b lo hi m.2 v) ms' (l_ v) ->
      (is_cached v = true -> in_order b (l_ v)) -> holds b lo hi (JObject ms) v.

Lemma typed_valid t v : typed t v -> valid t v.
Proof. intros [Ht Ho]. split; [done|]. unfold error. by rewrite Ho. Qed.

Lemma shows_holds b lo hi j v : shows b lo hi j v -> holds b lo hi j v.
Proof.
  revert v. induction j as [|x|t|s|js IH|ms IH] using json_ind'; intros v Hv; inversion Hv; subst;
    try (econstructor; eauto using typed_valid; fail).
  - constructor; [by apply typed_valid|]. eapply Forall2_weaken; [eassumption|]. exact IH.
  - eapply holds_object; [by apply typed_valid|done| |].
    + eapply Forall2_weaken; [eassumption|]. eapply Forall_impl; [exact IH|]. cbn. intros m Hm w [Hk Hw].
      split; [done|by apply Hm].
    + match goal with Ht : typed _ _ |- _ => destruct Ht as [_ Ho] end. unfold is_cached. by rewrite Ho.
Qed.

Lemma keyed_bytes b lo hi k v : keyed b lo hi k v -> key_bytes b v = Some k.
Proof. intros (s & e & Hk & _ & _ & _ & Hs). unfold key_bytes. rewrite Hk. cbn [mbind option_bind s_ e_]. by rewrite Hs. Qed.

Lemma members_keys b lo hi ms l : Forall2 (fun m v => keyed b lo hi m.1 v /\ holds b lo hi m.2 v) ms l ->
  keys_are b ms.*1 l.
Proof. intros Hf. apply Forall2_fmap_l. eapply Forall2_impl; [exact Hf|]. intros m v [Hk _]. by eapply keyed_bytes. Qed.

Lemma valid_elements t v : valid t v -> is_container t = true -> elements v = Ok (l_ v).
Proof. intros [Ht He] Hc. unfold elements, type_of. rewrite He. cbn. by rewrite Ht, Hc. Qed.

Lemma error_set_cached v : error (set_cached v) = error v.
Proof.
  unfold error, set_cached, set_option, cached_bit, error_bit. cbn [option_]. rewrite Z.land_lor_distr_l.
  change (Z.land 2 4) with 0%Z. by rewrite Z.lor_0_r.
Qed.

Lemma is_cached_set_cached v : is_cached (set_cached v) = true.
Proof.
  unfold is_cached, set_cached, set_option, cached_bit. cbn [option_]. rewrite Z.land_lor_distr_l, Z.land_diag.
  destruct (Z.eqb_spec (Z.lor (Z.land (option_ v) 2) 2) 0) as [E|]; [|done].
  by apply Z.lor_eq_0_iff in E as [_ E].
Qed.

(** The members after sorting: those of before, and in order. *)
Lemma sort_elements_run b lo hi ms r : holds b lo hi (JObject ms) r ->
  exists r' ms', sort_elements b r = Ok r' /\ is_cached r' = true /\ valid Object r' /\ ms ≡ₚ ms' /\
    Forall2 (fun m v => keyed b lo hi m.1 v /\ holds b lo hi m.2 v) ms' (l_ r') /\ in_order b (l_ r').
Proof.
  intros Hr. inversion Hr as [| | | | |? ? ms' Hv Hp Hf Hc]; subst. unfold sort_elements.
  destruct (is_cached r) eqn:Ec; [exists r, ms'; auto 10|].
  rewrite (valid_elements _ _ Hv eq_refl). cbn [mbind answer_bind].
  assert (Hk : existsb (fun x => bool_decide (key_ x = None)) (l_ r) = false).
  { apply not_true_iff_false. intros (x & Hx & Hn)%existsb_exists. apply bool_decide_eq_true in Hn.
    apply list_elem_of_In, list_elem_of_lookup in Hx as [i Hx].
    destruct (Forall2_lookup_r _ _ _ _ _ Hf Hx) as (m & _ & (s & e & Hs & _) & _). congruence. }
  rewrite Hk, andb_false_r. set (l := std_sort _ _).
  pose proof (sort_permutation (key_less b) (l_ r)) as Hs. fold l in Hs.
  destruct (Permutation.Permutation_Forall2 (symmetry Hs) (List.Forall2_flip Hf)) as (ms2 & Hp2 & Hf2%List.Forall2_flip).
  exists (set_cached (set_elements l r)), ms2. split; [done|]. split; [apply is_cached_set_cached|].
  split; [destruct Hv; split; [done|by rewrite error_set_cached]|]. split; [by rewrite Hp|]. split; [done|].
  apply sort_sorted, key_less_weak.
Qed.

(** [operator[]] on an object: the value still holds the object, and the element
    is a member with that key, or there is none and the call throws. *)
Lemma at_key_run b lo hi ms str r : holds b lo hi (JObject ms) r ->
  exists a r', at_key b str r = (a, r') /\ holds b lo hi (JObject ms) r' /\ is_cached r' = true /\
    match a with
    | Ok i => exists x j, l_ r' !! i = Some x /\ (str, j) ∈ ms /\ holds b lo hi j x
    | Throw e => e = runtime_error "cannot find key" /\ str ∉ ms.*1
    | Undef => False
    end.
Proof.
  intros Hr. destruct (sort_elements_run _ _ _ _ _ Hr) as (r' & ms' & Hs & Hc & Hv & Hp & Hf & Ho).
  assert (Hr' : holds b lo hi (JObject ms) r') by (eapply holds_object; eauto).
  assert (Ht : type_of r = Ok Object).
  { inversion Hr as [| | | | |? ? ? [Ht He]]; subst. unfold type_of. by rewrite He, Ht. }
  unfold at_key. rewrite Ht, Hs. cbn [bool_decide]. rewrite bool_decide_eq_true_2 by done. cbn [negb].
  pose proof (members_keys _ _ _ _ _ Hf) as Hk.
  destruct (search_run b str _ r' Hk Ho (valid_elements _ _ Hv eq_refl)) as (i & -> & Hi).
  cbn [mbind answer_bind]. eexists _, r'. split; [done|]. split; [done|]. split; [done|].
  destruct i as [i|].
  - rewrite list_lookup_fmap in Hi. destruct (ms' !! i) as [[k j]|] eqn:Em; [|done]. injection Hi as ->.
    destruct (Forall2_lookup_l _ _ _ _ _ Hf Em) as (x & Hx & _ & Hj). exists x, j. split; [done|].
    split; [|done]. rewrite Hp. by eapply list_elem_of_lookup_2.
  - split; [done|]. by rewrite Hp.
Qed.

Lemma has_run b lo hi ms str r : holds b lo hi (JObject ms) r ->
  exists r', has b str r = (Ok (bool_decide (str ∈ ms.*1)), r') /\ holds b lo hi (JObject ms) r' /\ is_cached r' = true.
Proof.
  intros Hr. destruct (sort_elements_run _ _ _ _ _ Hr) as (r' & ms' & Hs & Hc & Hv & Hp & Hf & Ho).
  unfold has. rewrite Hs. pose proof (members_keys _ _ _ _ _ Hf) as Hk.
  destruct (search_run b str _ r' Hk Ho (valid_elements _ _ Hv eq_refl)) as (i & -> & Hi).
  exists r'. split; [|split; [by eapply holds_object|done]]. cbn [mbind answer_bind]. do 2 f_equal.
  apply bool_decide_ext. rewrite Hp. destruct i as [i|]; [|by split; [intros []|]].
  split; [intros _; by eapply list_elem_of_lookup_2|by eexists].
Qed.

(** [operator[]] with an [int], in a list that an [int] can count. *)
Lemma at_int_run b lo hi js i r : holds b lo hi (JList js) r -> (Z.of_nat (length js) < 2 ^ 31)%Z ->
  match at_int i r with
  | Ok x => exists j, js !! Z.to_nat i = Some j /\ holds b lo hi j x
  | Throw e => e = runtime_error "list out of bound" /\ ~ (0 <= i < Z.of_nat (length js))%Z
  | Undef => False
  end.
Proof.
  intros Hr Hl. inversion Hr as [| | | |? ? [Ht He] Hf|]; subst. unfold at_int, type_of. rewrite He. cbn [mbind answer_bind].
  rewrite Ht, bool_decide_eq_true_2 by done. cbn [negb]. unfold lsize_.
  pose proof (Forall2_length _ _ _ Hf) as Hlen. rewrite <- Hlen, to_i32_id by (unfold INT_MIN, INT_MAX; lia).
  destruct (Z.leb_spec (Z.of_nat (length js)) i); cbn; [split; [done|lia]|].
  destruct (Z.ltb_spec i 0); cbn; [split; [done|lia]|].
  destruct (lookup_lt_is_Some_2 js (Z.to_nat i)) as [j Hj]; [lia|].
  destruct (Forall2_lookup_l _ _ _ _ _ Hf Hj) as (x & -> & Hx). cbn. by exists j.
Qed.

(** [s()]: the bytes of the string, with the array changed between its quotes only. *)
Lemma rvalue_s_run b lo hi str r : holds b lo hi (JString str) r ->
  exists s e b' r', rvalue_s b r = Ok (RString s e false, b', r') /\ slice s e b' = str /\ lo < s /\ e < hi /\
    exists e0, end_ r = Some e0 /\ grows b (s - 1) b' (e0 + 1).
Proof.
  intros Hr. inversion Hr as [| | |? s e ? [Ht He] Hs1 He1 Hlo Hhi Hs|?|]; subst. unfold rvalue_s, type_of. rewrite He.
  cbn [mbind answer_bind]. rewrite Ht, bool_decide_eq_true_2 by done. cbn [negb].
  destruct (string_of_run b r s e str Hs1 He1 Hs) as (b' & e' & -> & Hle & Hle' & Hg & Hsl).
  cbn [defined mbind answer_bind e_]. eexists s, e', b', _. split; [done|]. split; [done|]. split; [done|]. split; [lia|].
  by exists e.
Qed.

(** *** Copies *)

Lemma in_order_same b l l' : Forall2 (fun x y => key_bytes b y = key_bytes b x) l l' -> in_order b l -> in_order b l'.
Proof.
  induction 1 as [|x y l l' Hk Hf IH]; [done|]. intros [Hx Ho]%StronglySorted_cons. constructor; [by apply IH|].
  clear IH Ho. induction Hf as [|z w l l' Hz Hf IH]; constructor; inversion Hx; subst; [|by apply IH].
  unfold key_less in *. by rewrite Hz, Hk.
Qed.

(** A copy is the value it is a copy of, but for ownership and spare room. *)
Definition copied (b : bytes) (lo hi : nat) (j : json) (r r' : rvalue) : Prop :=
  holds b lo hi j r' /\ key_bytes b r' = key_bytes b r /\ (forall k, keyed b lo hi k r -> keyed b lo hi k r').

Lemma copy_list {A} b lo hi (f : A -> json) (R : A -> rvalue -> Prop) xs l :
  Forall2 (fun x v => R x v /\ exists v', rvalue_copy v = Ok v' /\ copied b lo hi (f x) v v') xs l ->
  exists l', mapM rvalue_copy l = Ok l' /\ length l' = length l /\
    Forall2 (fun x y => key_bytes b y = key_bytes b x) l l' /\
    Forall2 (fun x v' => exists v, R x v /\ copied b lo hi (f x) v v') xs l'.
Proof.
  induction 1 as [|x v xs l (Hr & v' & Hv & Hc) _ (l' & Hl & Hlen & Hk & Hf)]; [by exists []|].
  exists (v' :: l'). cbn. rewrite Hv. cbn. rewrite Hl. cbn. split; [done|]. split; [lia|].
  split; constructor; [by destruct Hc as (_ & ? & _)|done|by exists v|done].
Qed.

Lemma rvalue_copy_run b lo hi j r : holds b lo hi j r -> exists r', rvalue_copy r = Ok r' /\ copied b lo hi j r r'.
Proof.
  assert (Hflat : forall j r, holds b lo hi j r -> is_container (t_ r) = false ->
    exists r', rvalue_copy r = Ok r' /\ copied b lo hi j r r').
  { intros j' [s e k l c m t nt o] Hr Hc. cbn [t_] in Hc. eexists. cbn [rvalue_copy]. rewrite Hc.
    assert (He : error (RValue s e k l c m t nt o) = false) by (inversion Hr as [? []|? ? []|? ? ? []|? ? ? ? []|? ? []|? ? ? []]; done).
    rewrite He. split; [done|]. split.
    - inversion Hr; subst; try (econstructor; eauto; fail);
        match goal with Hv : valid _ _ |- _ => destruct Hv as [Ht _]; cbn in Ht; by subst end.
    - split; [by destruct k|]. intros k' (s' & e' & Hk & Hrest). cbn in Hk. subst k. by exists s', e'. }
  assert (Hbox : forall t r l', valid t r -> is_container t = true -> mapM rvalue_copy (l_ r) = Ok l' ->
    exists r', rvalue_copy r = Ok r' /\ l_ r' = l' /\ valid t r' /\ is_cached r' = is_cached r /\
      key_bytes b r' = key_bytes b r /\ (forall k, keyed b lo hi k r -> keyed b lo hi k r')).
  { intros t' [s e k l c m t nt o] l' [Ht He] Hc Hl. cbn in Ht, Hl. subst t'. eexists. cbn [rvalue_copy]. rewrite He, Hc, Hl.
    cbn. split; [done|]. split; [done|]. split; [done|]. split; [done|]. split; [by destruct k|].
    intros k' (s' & e' & Hk & Hrest). cbn in Hk. subst k. by exists s', e'. }
  revert r. induction j as [|x|t|s|js IH|ms IH] using json_ind'; intros r Hr.
  1-4: apply Hflat; [done|]; inversion Hr as [? []|? ? []|? ? ? []|? ? ? ? []| |]; subst;
    match goal with Ht : t_ ?w = _ |- is_container (t_ ?w) = _ => rewrite Ht end; try done; by destruct x.
  - inversion Hr as [| | | |? ? Hv Hf|]; subst.
    destruct (copy_list b lo hi id (holds b lo hi) js (l_ r)) as (l' & Hl & _ & _ & Hf').
    { eapply Forall2_weaken; [exact Hf|]. eapply Forall_impl; [exact IH|]. cbn. auto. }
    destruct (Hbox _ _ _ Hv eq_refl Hl) as (r' & Hc & Hl' & Hv' & _ & Hk). exists r'. split; [done|]. split; [|done].
    constructor; [done|]. rewrite Hl'. eapply Forall2_impl; [exact Hf'|]. by intros x v (w & _ & Hw & _).
  - inversion Hr as [| | | | |? ? ms' Hv Hp Hf Ho]; subst. rewrite Hp in IH.
    destruct (copy_list b lo hi snd (fun m v => keyed b lo hi m.1 v /\ holds b lo hi m.2 v) ms' (l_ r))
      as (l' & Hl & _ & Hsame & Hf').
    { eapply Forall2_weaken; [exact Hf|]. eapply Forall_impl; [exact IH|]. cbn. intros m Hm w [Hk Hw]. auto. }
    destruct (Hbox _ _ _ Hv eq_refl Hl) as (r' & Hc & Hl' & Hv' & Hca & Hk). exists r'. split; [done|]. split; [|done].
    eapply holds_object; [done|done| |].
    + rewrite Hl'. eapply Forall2_impl; [exact Hf'|]. intros m v (w & [Hw _] & Hcw & _ & Hk'). auto.
    + rewrite Hca, Hl'. intros Hcache. eapply in_order_same; [exact Hsame|auto].
Qed.

(** The value after looking up some keys, one after the other. *)
Definition after_lookups (buf : bytes) (keys : list bytes) (r : rvalue) : rvalue :=
  foldl (fun r k => snd (at_key buf k r)) r keys.

Lemma after_lookups_holds b lo hi ms keys r : holds b lo hi (JObject ms) r ->
  holds b lo hi (JObject ms) (after_lookups b keys r).
Proof.
  revert r. induction keys as [|k keys IH]; intros r Hr; [done|]. cbn. apply IH.
  destruct (at_key_run b lo hi ms k r Hr) as (a & r' & -> & Hr' & _). done.
Qed.

(** C17: An object that is loaded, from a text of less than 2^31 - 2^16 bytes that the
    reference reader takes for one, and then asked for any keys in any order answers
    each from its members: with a member of that key while there is one, and else
    with the exception [cannot find key]; and it holds all its members on. *)
Theorem load_at_key text ms keys str : (Z.of_nat (length text) < max_elements - 1)%Z ->
  read_document (text ++ [NUL]) = Some (Some (JObject ms)) ->
  exists r buf, load text = Some (r, buf) /\
    let '(a, r') := at_key buf str (after_lookups buf keys r) in
    holds buf 0 (length buf) (JObject ms) r' /\
    match a with
    | Ok i => exists x j, l_ r' !! i = Some x /\ (str, j) ∈ ms /\ holds buf 0 (length buf) j x
    | Throw e => e = runtime_error "cannot find key" /\ str ∉ ms.*1
    | Undef => False
    end.
Proof.
  intros Hs Hd. destruct (load_agrees _ _ Hs Hd) as (r & buf & Hl & _ & _ & Hsh). exists r, buf. split; [done|].
  apply shows_holds, (after_lookups_holds _ _ _ _ keys) in Hsh.
  destruct (at_key_run _ _ _ _ str _ Hsh) as (a & r' & -> & Hr' & _ & Ha). by split.
Qed.
End Laws.

(** ** An instance *)

(** [char] by [char], which are signed. *)
Fixpoint lexicographical (s t : bytes) : bool :=
  match s, t with
  | _, [] => false
  | [], _ :: _ => true
  | c :: s, d :: t => (schar c <? schar d)%Z || (schar c =? schar d)%Z && lexicographical s t
  end.

(** The decimal integers between two bounds. *)
Definition decimal_integer (lo hi : Z) (text : bytes) : option Z :=
  let '(negative, ds) := match text with "-"%char :: ds => (true, ds) | ds => (false, ds) end in
  match ds with
  | [] => None
  | _ =>
      if forallb (between "0" "9") ds then
        let n := fold_left (fun n c => 10 * n + (uc c - 48))%Z ds 0%Z in
        let z := if (negative : bool) then (- n)%Z else n in
        if ((lo <=? z) && (z <=? hi))%Z then Some z else None
      else None
  end.

#[export] Instance plain_boost : Boost := {
  lexical_cast_i64 := decimal_integer (- 2 ^ 63) (2 ^ 63 - 1);
  lexical_cast_u64 := decimal_integer 0 (2 ^ 64 - 1);
  lexical_cast_f64 := fun _ => None;
  lexicographical_compare := lexicographical;
  equals := fun s t => bool_decide (s = t)
}.

Lemma schar_inj c d : schar c = schar d -> c = d.
Proof.
  intros H. apply uc_inj. pose proof (uc_range c). pose proof (uc_range d). unfold schar in H.
  destruct (Z.ltb_spec (uc c) 128), (Z.ltb_spec (uc d) 128); lia.
Qed.

#[export] Instance plain_boost_laws : BoostLaws.
Proof.
  split; cbn.
  - induction s as [|c s IH]; cbn; [done|]. by rewrite Z.ltb_irrefl, Z.eqb_refl, IH.
  - induction s as [|c s IH]; intros [|d t] [|e u]; cbn; try done.
    intros [H1|[H1 H2]%andb_prop]%orb_prop [H3|[H3 H4]%andb_prop]%orb_prop.
    + apply orb_true_intro. left. lia.
    + apply orb_true_intro. left. lia.
    + apply orb_true_intro. left. lia.
    + apply orb_true_intro. right. apply andb_true_intro. split; [lia|]. by eapply IH.
  - induction s as [|c s IH]; intros [|d t] Hne; cbn; [done|by left|by right|].
    destruct (Z.lt_total (schar c) (schar d)) as [Hl|[He|Hl]].
    + left. apply orb_true_intro. left. lia.
    + apply schar_inj in He as ->. rewrite Z.ltb_irrefl, Z.eqb_refl. cbn. apply IH. congruence.
    + right. apply orb_true_intro. left. lia.
  - intros s t. apply bool_decide_eq_true.
Qed.

#[export] Instance merge_sorting : Sort := fun A lt =>
  @merge_sort A (fun x y => lt y x = false) (fun x y => decide (lt y x = false)).

#[export] Instance merge_sorting_laws : SortLaws.
Proof.
  split; unfold std_sort, merge_sorting; intros A lt l; [apply merge_sort_Permutation|]. intros [Ha Ht].
  apply StronglySorted_merge_sort.
  - intros x y z Hxy Hyz. by eapply Ht.
  - intros x y. destruct (lt y x) eqn:E; [right; by apply Ha|by left].
Qed.

Definition text_of (s : string) : bytes := (fun c => if Ascii.eqb c "'" then quote else c) <$> String.list_ascii_of_string s.

(** [{"b":1,"a":[2]}]: the lookup of [c] sorts the members, and [a] is first then. *)
Lemma load_at_key_witness : exists r buf, load (text_of "{'b':1,'a':[2]}") = Some (r, buf) /\
  let '(a, r') := at_key buf (text_of "a") (after_lookups buf [text_of "c"] r) in
  holds buf 0 (length buf) (JObject [(text_of "b", JNumber (text_of "1")); (text_of "a", JList [JNumber (text_of "2")])]) r' /\
  match a with
  | Ok i => exists x j, l_ r' !! i = Some x /\
      (text_of "a", j) ∈ [(text_of "b", JNumber (text_of "1")); (text_of "a", JList [JNumber (text_of "2")])] /\
      holds buf 0 (length buf) j x
  | Throw e => e = runtime_error "cannot find key" /\
      text_of "a" ∉ [(text_of "b", JNumber (text_of "1")); (text_of "a", JList [JNumber (text_of "2")])].*1
  | Undef => False
  end.
Proof. apply load_at_key; by vm_compute. Defined.

(** Where the members are found, and what a missing key does. *)
Example lookup_text : (r ← load (text_of "{'b':1,'a':[2]}"); Some (fst (at_key (snd r) (text_of "a") (fst r)),
  fst (at_key (snd r) (text_of "b") (fst r)), fst (at_key (snd r) (text_of "c") (fst r)))) =
  Some (Ok 0, Ok 1, throw "cannot find key").
Proof. by vm_compute. Qed.
