(* ===== verification/CNum.v ===== *)
(** * Reading numbers from C strings: strtoll, strtoull, strtod

    The functions of the C library the router calls, on the characters from the
    pointer on.  Each answers the value, how many characters it took, and whether
    [errno] is [ERANGE]; a string ends at its NUL, which no number contains. *)

From S2P Require Import Prelude CInt CFloat CArray.

#[local] Open Scope nat_scope.

Definition is_blank (c : ascii) : bool := between (chr 9) (chr 13) c || Ascii.eqb c " ".

(** How many characters at the front satisfy [p]. *)
Fixpoint span (p : ascii -> bool) (l : bytes) : nat :=
  match l with
  | c :: l => if p c then S (span p l) else 0
  | [] => 0
  end.

Definition decimal_digit : ascii -> bool := between "0" "9".

(** The value of digits in a base. *)
Definition digit_value (c : ascii) : Z :=
  if between "0" "9" c then uc c - 48
  else if between "a" "f" c then uc c - 87
  else uc c - 55.

Definition number_of (base : Z) (ds : bytes) : Z := fold_left (fun n c => n * base + digit_value c)%Z ds 0%Z.

(** The sign, and the characters it takes. *)
Definition sign (l : bytes) : bool * nat :=
  match l with
  | c :: _ => if Ascii.eqb c "-" then (true, 1) else if Ascii.eqb c "+" then (false, 1) else (false, 0)
  | [] => (false, 0)
  end.

(** Blanks, a sign and the digits: [None] without a digit. *)
Definition integer_span (l : bytes) : option (bool * Z * nat) :=
  let n := span is_blank l in
  let '(negative, m) := sign (drop n l) in
  let k := span decimal_digit (drop (n + m) l) in
  if bool_decide (k = 0) then None
  else Some (negative, number_of 10 (take k (drop (n + m) l)), n + m + k).

Definition strtoll (l : bytes) : Z * nat * bool :=
  match integer_span l with
  | None => (0%Z, 0, false)
  | Some (negative, m, n) =>
      let z := if (negative : bool) then (- m)%Z else m in
      if (z <? LLONG_MIN)%Z then (LLONG_MIN, n, true)
      else if (LLONG_MAX <? z)%Z then (LLONG_MAX, n, true)
      else (z, n, false)
  end.

(** A minus sign negates in the unsigned type. *)
Definition strtoull (l : bytes) : Z * nat * bool :=
  match integer_span l with
  | None => (0%Z, 0, false)
  | Some (negative, m, n) =>
      if (ULLONG_MAX <? m)%Z then (ULLONG_MAX, n, true)
      else (to_u64 (if (negative : bool) then (- m)%Z else m), n, false)
  end.

(** ** Doubles *)

(** [num / den] rounded to the nearest double of the precision and exponent range,
    and whether it is that double.  The quotient is computed to 66 bits, with what
    is left of it as the location. *)
Definition round_ratio (emax : Z) (negative : bool) (num den : Z) : b64 * bool :=
  if (num =? 0)%Z then (S754_zero negative, true)
  else
    let k := (66 + Z.log2 den - Z.log2 num)%Z in
    let num := (if 0 <=? k then num * 2 ^ k else num)%Z in
    let den := (if 0 <=? k then den else den * 2 ^ (- k))%Z in
    let r := (num mod den)%Z in
    let loc := if (r =? 0)%Z then loc_Exact else loc_Inexact (2 * r ?= den)%Z in
    let x := binary_round_aux 53 emax negative (num / den) (- k) loc in
    (x, match x with
        | S754_zero _ => false
        | S754_finite _ m e =>
            (if 0 <=? e + k then (Zpos m * 2 ^ (e + k)) * den =? num else (Zpos m * den =? num * 2 ^ (- (e + k))))%Z
        | _ => false
        end).

(** Below the least normal double, with all the exponents one needs. *)
Definition is_tiny (negative : bool) (num den : Z) : bool :=
  let '(x, _) := round_ratio (2 ^ 40) negative num den in
  SFltb (SFabs x) (S754_finite false (2 ^ 52) (-1074)).

(** The double, and [ERANGE] for one that is too large, or tiny and inexact. *)
Definition to_double (negative : bool) (num den : Z) : b64 * bool :=
  let '(x, exact) := round_ratio 1024 negative num den in
  (x, match x with
      | S754_infinity _ => true
      | _ => negb exact && is_tiny negative num den
      end).

(** An optional exponent: [e] or [p], a sign, digits. *)
Definition exponent_of (letters : ascii -> bool) (l : bytes) : Z * nat :=
  match l with
  | c :: l =>
      if letters c then
        let '(negative, m) := sign l in
        let k := span decimal_digit (drop m l) in
        if bool_decide (k = 0) then (0%Z, 0)
        else
          let z := number_of 10 (take k (drop m l)) in
          (if (negative : bool) then (- z)%Z else z, 1 + m + k)
      else (0%Z, 0)
  | [] => (0%Z, 0)
  end.

(** Digits with at most one point: all the digits, how many are behind the point,
    and the characters taken. *)
Definition mantissa (digit : ascii -> bool) (l : bytes) : bytes * nat * nat :=
  let n := span digit l in
  match drop n l with
  | c :: r =>
      if Ascii.eqb c "." then
        let m := span digit r in
        if bool_decide (n + m = 0) then ([], 0, 0) else (take n l ++ take m r, m, n + 1 + m)
      else (take n l, 0, n)
  | [] => (take n l, 0, n)
  end.

(** [m * base ^ e] as a ratio. *)
Definition scaled (negative : bool) (m base e : Z) : b64 * bool :=
  if (0 <=? e)%Z then to_double negative (m * base ^ e) 1 else to_double negative m (base ^ (- e)).

Definition decimal_double (negative : bool) (l : bytes) : option (b64 * nat * bool) :=
  let '(ds, m, n) := mantissa decimal_digit l in
  if bool_decide (n = 0) then None
  else
    let '(e, k) := exponent_of (fun c => Ascii.eqb c "e" || Ascii.eqb c "E") (drop n l) in
    let '(x, range) := scaled negative (number_of 10 ds) 10 (e - Z.of_nat m) in
    Some (x, n + k, range).

Definition hex_digit (c : ascii) : bool := between "0" "9" c || between "a" "f" c || between "A" "F" c.

(** Behind [0x]. *)
Definition hex_double (negative : bool) (l : bytes) : option (b64 * nat * bool) :=
  let '(ds, m, n) := mantissa hex_digit l in
  if bool_decide (n = 0) then None
  else
    let '(e, k) := exponent_of (fun c => Ascii.eqb c "p" || Ascii.eqb c "P") (drop n l) in
    let '(x, range) := scaled negative (number_of 16 ds) 2 (e - 4 * Z.of_nat m) in
    Some (x, n + k, range).

Definition lower (c : ascii) : ascii := if between "A" "Z" c then Ascii.ascii_of_N (Ascii.N_of_ascii c + 32) else c.

(** The word, in any case. *)
Definition begins (word : string) (l : bytes) : bool :=
  let w := String.list_ascii_of_string word in bool_decide (lower <$> take (length w) l = w).

(** [nan(...)]. *)
Definition nan_span (l : bytes) : nat :=
  match l with
  | c :: r =>
      if Ascii.eqb c "(" then
        let n := span (fun c => between "0" "9" c || between "a" "z" c || between "A" "Z" c || Ascii.eqb c "_") r in
        match drop n r with
        | c :: _ => if Ascii.eqb c ")" then n + 2 else 0
        | [] => 0
        end
      else 0
  | [] => 0
  end.

Definition special_double (negative : bool) (l : bytes) : option (b64 * nat * bool) :=
  if begins "infinity" l then Some (S754_infinity negative, 8, false)
  else if begins "inf" l then Some (S754_infinity negative, 3, false)
  else if begins "nan" l then Some (S754_nan, 3 + nan_span (drop 3 l), false)
  else None.

Definition unsigned_double (negative : bool) (l : bytes) : option (b64 * nat * bool) :=
  match special_double negative l with
  | Some x => Some x
  | None =>
      match (if begins "0x" l then hex_double negative (drop 2 l) else None) with
      | Some (x, n, range) => Some (x, 2 + n, range)
      | None => decimal_double negative l
      end
  end.

Definition strtod (l : bytes) : b64 * nat * bool :=
  let n := span is_blank l in
  let '(negative, m) := sign (drop n l) in
  match unsigned_double negative (drop (n + m) l) with
  | Some (x, k, range) => (x, n + m + k, range)
  | None => (S754_zero false, 0, false)
  end.

Definition of_text (s : string) : bytes := String.list_ascii_of_string s.

Example strtoll_texts : strtoll <$> [of_text "-12/a"; of_text "+"; of_text "9223372036854775808"] =
  [((-12)%Z, 3, false); (0%Z, 0, false); (LLONG_MAX, 19, true)].
Proof. by vm_compute. Qed.

Example strtod_texts : strtod <$> [of_text "0.1"; of_text "1e400"; of_text "-0x1.8p1/"; of_text "1.e"; of_text "+inf"; of_text "4e-324"; of_text "."] =
  [(S754_finite false 7205759403792794 (-56), 3, false); (S754_infinity false, 5, true);
   (S754_finite true (3 * 2 ^ 51) (-51), 8, false); (S754_finite false (2 ^ 52) (-52), 2, false); (S754_infinity false, 4, false);
   (S754_finite false 1 (-1074), 6, true); (S754_zero false, 0, false)].
Proof. by vm_compute. Qed.

(** ** Lengths *)

Lemma span_length p l : span p l <= length l.
Proof. induction l as [|c l IH]; cbn; [lia|]. destruct (p c); lia. Qed.

Lemma integer_span_length l b m n : integer_span l = Some (b, m, n) -> 0 < n <= length l.
Proof.
  unfold integer_span. pose proof (span_length is_blank l) as H1.
  destruct (sign (drop _ l)) as [neg k] eqn:Es.
  assert (Hk : span is_blank l + k <= length l).
  { assert (k <= length (drop (span is_blank l) l)); [|rewrite length_drop in *; lia].
    destruct (drop (span is_blank l) l) as [|c r]; cbn in *; [by injection Es as _ <-|].
    destruct (Ascii.eqb c "-"); [injection Es as _ <-; lia|]. destruct (Ascii.eqb c "+"); injection Es as _ <-; lia. }
  pose proof (span_length decimal_digit (drop (span is_blank l + k) l)) as H2. rewrite length_drop in H2.
  destruct (bool_decide_reflect (span decimal_digit (drop (span is_blank l + k) l) = 0)); [done|].
  intros [= _ _ <-]. lia.
Qed.

(** The integer functions do not take more than there is. *)
Lemma strtoll_length l : (strtoll l).1.2 <= length l.
Proof.
  unfold strtoll. destruct (integer_span l) as [[[b m] n]|] eqn:E; [|cbn; lia].
  apply integer_span_length in E. destruct (_ <? _)%Z; [cbn; lia|]. destruct (_ <? _)%Z; cbn; lia.
Qed.

Lemma strtoull_length l : (strtoull l).1.2 <= length l.
Proof.
  unfold strtoull. destruct (integer_span l) as [[[b m] n]|] eqn:E; [|cbn; lia].
  apply integer_span_length in E. destruct (_ <? _)%Z; cbn; lia.
Qed.

Lemma sign_length l b n : sign l = (b, n) -> n <= length l.
Proof.
  destruct l as [|c l]; cbn; [intros [= _ <-]; lia|]. destruct (Ascii.eqb c "-"); [intros [= _ <-]; lia|].
  destruct (Ascii.eqb c "+"); intros [= _ <-]; lia.
Qed.

Lemma exponent_of_length p l e n : exponent_of p l = (e, n) -> n <= length l.
Proof.
  destruct l as [|c l]; cbn; [intros [= _ <-]; lia|]. destruct (p c); [|intros [= _ <-]; lia].
  destruct (sign l) as [b m] eqn:Es. apply sign_length in Es.
  pose proof (span_length decimal_digit (drop m l)) as Hs. rewrite length_drop in Hs.
  case_bool_decide; intros [= _ <-]; lia.
Qed.

Lemma mantissa_length p l ds m n : mantissa p l = (ds, m, n) -> n <= length l.
Proof.
  unfold mantissa. pose proof (span_length p l) as Hs. destruct (drop (span p l) l) as [|c r] eqn:Ed.
  { intros [= _ _ <-]. lia. }
  apply (f_equal length) in Ed. rewrite length_drop in Ed. cbn in Ed.
  pose proof (span_length p r). destruct (Ascii.eqb c "."); [case_bool_decide|]; intros [= _ _ <-]; lia.
Qed.

Lemma decimal_double_length b l x n r : decimal_double b l = Some (x, n, r) -> n <= length l.
Proof.
  unfold decimal_double. destruct (mantissa decimal_digit l) as [[ds m] n'] eqn:Em. apply mantissa_length in Em.
  case_bool_decide; [done|]. destruct (exponent_of _ _) as [e k] eqn:Ee. apply exponent_of_length in Ee.
  rewrite length_drop in Ee. destruct (scaled _ _ _ _). intros [= _ <- _]. lia.
Qed.

Lemma hex_double_length b l x n r : hex_double b l = Some (x, n, r) -> n <= length l.
Proof.
  unfold hex_double. destruct (mantissa hex_digit l) as [[ds m] n'] eqn:Em. apply mantissa_length in Em.
  case_bool_decide; [done|]. destruct (exponent_of _ _) as [e k] eqn:Ee. apply exponent_of_length in Ee.
  rewrite length_drop in Ee. destruct (scaled _ _ _ _). intros [= _ <- _]. lia.
Qed.

Lemma begins_length w l : begins w l = true -> String.length w <= length l.
Proof.
  unfold begins. intros H%bool_decide_eq_true. apply (f_equal length) in H. rewrite length_fmap, length_take in H.
  assert (Hw : forall s, length (String.list_ascii_of_string s) = String.length s) by (induction s; cbn; auto).
  rewrite Hw in H. lia.
Qed.

Lemma nan_span_length l : nan_span l <= length l.
Proof.
  destruct l as [|c r]; cbn; [lia|]. destruct (Ascii.eqb c "("); [|lia].
  set (p := fun c => _). pose proof (span_length p r) as Hs. destruct (drop (span p r) r) as [|d t] eqn:Ed; [lia|].
  apply (f_equal length) in Ed. rewrite length_drop in Ed. cbn in Ed. destruct (Ascii.eqb d ")"); lia.
Qed.

Lemma unsigned_double_length b l x n r : unsigned_double b l = Some (x, n, r) -> n <= length l.
Proof.
  unfold unsigned_double, special_double. intros H.
  destruct (begins "infinity" l) eqn:E1; [injection H as _ <- _; by apply begins_length in E1|].
  destruct (begins "inf" l) eqn:E2; [injection H as _ <- _; by apply begins_length in E2|].
  destruct (begins "nan" l) eqn:E3.
  { injection H as _ <- _. apply begins_length in E3. pose proof (nan_span_length (drop 3 l)) as Hn.
    rewrite length_drop in Hn. cbn in E3. lia. }
  destruct (begins "0x" l) eqn:E4; [|by eapply decimal_double_length].
  destruct (hex_double b (drop 2 l)) as [[[x' n'] r']|] eqn:Eh; [|by eapply decimal_double_length].
  apply hex_double_length in Eh. apply begins_length in E4. rewrite length_drop in Eh. injection H as _ <- _. cbn in E4. lia.
Qed.

Lemma strtod_length l : (strtod l).1.2 <= length l.
Proof.
  unfold strtod. pose proof (span_length is_blank l) as Hb. destruct (sign _) as [b m] eqn:Es. apply sign_length in Es.
  rewrite length_drop in Es. destruct (unsigned_double _ _) as [[[x k] r]|] eqn:Eu; cbn; [|lia].
  apply unsigned_double_length in Eu. rewrite length_drop in Eu. lia.
Qed.
