(* ===== verification/Trie.v ===== *)
(** * The search tree of the router: include/crow_all.h, crow::Trie

    URLs of rules are added letter by letter, parameters as nodes of their own;
    [validate] joins the chains of letters; [find] looks for the rule of a request
    with the least index, and for the values of its parameters.

    Pointers to nodes become the nodes themselves: a walk down the tree is a
    recursion that rebuilds what it passes. *)

From S2P Require Import Prelude CInt CFloat CArray CNum.

(** ** Data *)

Inductive ParamType := INT | UINT | DOUBLE | STRING | PATH | MAX.

#[global] Instance ParamType_eq_dec : EqDecision ParamType.
Proof. solve_decision. Defined.

Record routing_params := mkParams {
  int_params : list Z;
  uint_params : list Z;
  double_params : list b64;
  string_params : list bytes
}.

Definition no_params : routing_params := mkParams [] [] [] [].

Definition push_int (z : Z) (p : routing_params) : routing_params :=
  mkParams (int_params p ++ [z]) (uint_params p) (double_params p) (string_params p).
Definition push_uint (z : Z) (p : routing_params) : routing_params :=
  mkParams (int_params p) (uint_params p ++ [z]) (double_params p) (string_params p).
Definition push_double (d : b64) (p : routing_params) : routing_params :=
  mkParams (int_params p) (uint_params p) (double_params p ++ [d]) (string_params p).
Definition push_string (s : bytes) (p : routing_params) : routing_params :=
  mkParams (int_params p) (uint_params p) (double_params p) (string_params p ++ [s]).

Definition INVALID_BP_ID : Z := 65535.

Inductive Node := mkNode {
  rule_index : Z;
  blueprint_index : Z;
  key : bytes;
  param : ParamType;
  children : list Node
}.

Definition fresh_node : Node := mkNode 0 INVALID_BP_ID [] MAX [].

Definition IsSimpleNode (n : Node) : bool :=
  (rule_index n =? 0) && (blueprint_index n =? INVALID_BP_ID) && bool_decide (length (children n) < 2)%nat &&
  bool_decide (param n = MAX) && forallb (fun x => bool_decide (param x = MAX)) (children n).

(** The tree is its head. *)
Definition is_empty (head : Node) : bool := bool_decide (children head = []).

(** ** Joining chains *)

(** [optimizeNode] of a node with the key [k] and the parameter [p], and the rest
    of [n]: where the node is simple it takes over its child, and goes on. *)
Fixpoint optimize_as (k : bytes) (p : ParamType) (n : Node) : Node :=
  match n with
  | mkNode rule bp _ _ cs =>
      match cs with
      | [] => mkNode rule bp k p []
      | child :: _ =>
          if IsSimpleNode (mkNode rule bp k p cs) then optimize_as (k ++ key child) p child
          else mkNode rule bp k p ((fun c => optimize_as (key c) (param c) c) <$> cs)
      end
  end.

Definition optimizeNode (n : Node) : Node := optimize_as (key n) (param n) n.

Definition optimize (head : Node) : Node :=
  mkNode (rule_index head) (blueprint_index head) (key head) (param head) (optimizeNode <$> children head).

(** [None] is the exception [Internal error: Trie header should be simple!]. *)
Definition validate (head : Node) : option Node := if IsSimpleNode head then Some (optimize head) else None.

(** ** Searching *)

#[local] Open Scope nat_scope.

(** [req_url.compare(pos, fragment.size(), fragment) == 0], for [pos] inside. *)
Definition compare_at (url : bytes) (pos : nat) (fragment : bytes) : bool :=
  bool_decide (take (length fragment) (drop pos url) = fragment).

Definition sign_char (c : ascii) : bool := Ascii.eqb c "+" || Ascii.eqb c "-".

(** What a parameter takes from [pos] on: where it ends, and the parameters with
    its value. *)
Definition capture (url : bytes) (pos : nat) (type : ParamType) (params : routing_params)
    : option (nat * routing_params) :=
  match url !! pos with
  | None => None
  | Some c =>
      match type with
      | INT =>
          if between "0" "9" c || sign_char c then
            let '(value, n, erange) := strtoll (drop pos url) in
            if negb erange && negb (bool_decide (n = 0)) then Some (pos + n, push_int value params) else None
          else None
      | UINT =>
          if between "0" "9" c || Ascii.eqb c "+" then
            let '(value, n, erange) := strtoull (drop pos url) in
            if negb erange && negb (bool_decide (n = 0)) then Some (pos + n, push_uint value params) else None
          else None
      | DOUBLE =>
          if between "0" "9" c || sign_char c || Ascii.eqb c "." then
            let '(value, n, erange) := strtod (drop pos url) in
            if negb erange && negb (bool_decide (n = 0)) then Some (pos + n, push_double value params) else None
          else None
      | STRING =>
          let n := span (fun c => negb (Ascii.eqb c "/")) (drop pos url) in
          if bool_decide (n = 0) then None else Some (pos + n, push_string (take n (drop pos url)) params)
      | PATH => Some (length url, push_string (drop pos url) params)
      | MAX => None
      end
  end.

(** Where a child leads, if it takes something. *)
Definition enter (url : bytes) (pos : nat) (child : Node) (params : routing_params) : option (nat * routing_params) :=
  if negb (bool_decide (param child = MAX)) then capture url pos (param child) params
  else if compare_at url pos (key child) then Some (pos + length (key child), params)
  else None.

(** The rule, the blueprints and the parameters that [find] returns. *)
Definition found_rule : Type := Z * list Z * routing_params.

(** The locals of [find], and [*blueprints], which the calls share; the parameters
    a caller pushed it pops again. *)
Record progress := mkProgress {
  found : Z;
  found_BP : list Z;
  match_params : routing_params;
  found_fragment : bool;
  blueprints : list Z
}.

(** [update_found], then the [pop_back] of whatever is last. *)
Definition update_found (ret : found_rule) (bps : list Z) (st : progress) : progress :=
  let '(rule, bp, ps) := ret in
  if (negb (rule =? 0) && ((found st =? 0) || (rule <? found st)))%Z
  then mkProgress rule bp ps true (removelast bps)
  else mkProgress (found st) bp (match_params st) true (removelast bps).

(** One child; [deeper] is [find] on it. *)
Definition try_child (url : bytes) (pos : nat) (params : routing_params) (child : Node)
    (deeper : nat -> routing_params -> list Z -> option (found_rule * list Z)) (st : progress) : option progress :=
  match enter url pos child params with
  | None => Some st
  | Some (epos, params) =>
      let bps := if (blueprint_index child =? INVALID_BP_ID)%Z then blueprints st else blueprints st ++ [blueprint_index child] in
      '(ret, bps) ← deeper epos params bps;
      Some (update_found ret bps st)
  end.

(** [for (auto& child : node->children)]. *)
Section Each.
  Context {A S : Type} (f : A -> S -> option S).

Fixpoint each (l : list A) (st : S) : option S :=
  match l with
  | [] => Some st
  | x :: l => st ← f x st; each l st
  end.
End Each.

(** A vector that was moved from is empty.  [None] is the exception of [compare]
    behind the end of the URL. *)
Fixpoint find (url : bytes) (node : Node) (pos : nat) (params : routing_params) (bps : list Z)
    : option (found_rule * list Z) :=
  match node with
  | mkNode rule _ _ _ cs =>
      if bool_decide (pos = length url) then Some ((rule, [], params), [])
      else if bool_decide (length url < pos) then None
      else
        st ← each (fun child => try_child url pos params child (find url child)) cs (mkProgress 0 [] no_params false bps);
        Some (if found_fragment st then ((found st, found_BP st, match_params st), blueprints st)
              else ((found st, blueprints st, match_params st), []))
  end.

(** [find(req_url)]. *)
Definition find_url (head : Node) (url : bytes) : option found_rule := fst <$> find url head 0 no_params [].

(** ** Adding *)

Definition paramTraits : list (ParamType * bytes) :=
  [(INT, of_text "<int>"); (UINT, of_text "<uint>"); (DOUBLE, of_text "<float>"); (DOUBLE, of_text "<double>");
   (STRING, of_text "<str>"); (STRING, of_text "<string>"); (PATH, of_text "<path>")].

Definition trait_at (url : bytes) (i : nat) : option (ParamType * bytes) :=
  List.find (fun x => compare_at url i (snd x)) paramTraits.

(** Into the first child that satisfies [p], or a new one. *)
Definition descend (p : Node -> bool) (new : Node) (go : Node -> option (Node * bool)) (n : Node) : option (Node * bool) :=
  match list_find p (children n) with
  | Some (k, child) =>
      '(child, thrown) ← go child;
      Some (mkNode (rule_index n) (blueprint_index n) (key n) (param n) (<[k := child]> (children n)), thrown)
  | None =>
      '(child, thrown) ← go new;
      Some (mkNode (rule_index n) (blueprint_index n) (key n) (param n) (children n ++ [child]), thrown)
  end.

(** [child->key[0]]: a string ends in a NUL. *)
Definition first_char (k : bytes) : ascii := default NUL (head k).

(** The loop from [i] on at the node [idx], and what is behind it: the node after,
    and whether [handler already exists] is thrown.  At a [<] that begins no
    parameter the loop stays where it is. *)
Fixpoint add_loop (fuel : nat) (url : bytes) (rule : Z) (bp_prefix_length : Z) (bp : Z) (i : nat) (idx : Node)
    : option (Node * bool) :=
  match fuel with
  | O => None
  | S fuel =>
      match url !! i with
      | None =>
          if (rule_index idx =? 0)%Z
          then Some (mkNode rule (blueprint_index idx) (key idx) (param idx) (children idx), false)
          else Some (idx, true)
      | Some c =>
          if Ascii.eqb c "<" then
            match trait_at url i with
            | None => add_loop fuel url rule bp_prefix_length bp i idx
            | Some (type, name) =>
                descend (fun child => bool_decide (param child = type)) (mkNode 0 INVALID_BP_ID [] type [])
                  (add_loop fuel url rule bp_prefix_length bp (i + length name)) idx
            end
          else
            let has_blueprint := (negb (bp_prefix_length =? 0) && negb (bp =? INVALID_BP_ID))%Z in
            let new_bp := if has_blueprint && (Z.of_nat i =? bp_prefix_length)%Z then bp else INVALID_BP_ID in
            descend (fun child => Ascii.eqb (first_char (key child)) c) (mkNode 0 new_bp [c] MAX [])
              (add_loop fuel url rule bp_prefix_length bp (i + 1)) idx
      end
  end.

Definition add (url : bytes) (rule : Z) (bp_prefix_length : Z) (bp : Z) (head : Node) : option (Node * bool) :=
  add_loop (S (length url)) url rule bp_prefix_length bp 0 head.

(** ** Sizes and printing *)

(** In an [unsigned]. *)
Fixpoint get_size (n : Node) : Z :=
  match n with
  | mkNode _ _ k _ cs => to_u32 (fold_left Z.add (get_size <$> cs) (5 + Z.of_nat (length k))%Z)
  end.

Definition param_text (p : ParamType) : string :=
  match p with
  | INT => "<int>"
  | UINT => "<uint>"
  | DOUBLE => "<double>"
  | STRING => "<string>"
  | PATH => "<path>"
  | MAX => "<ERROR>"
  end.

(** The lines written to the log. *)
Fixpoint debug_node_print (level : nat) (n : Node) : list bytes :=
  match n with
  | mkNode _ _ k p cs =>
      (replicate (2 * level) " "%char ++ if bool_decide (p = MAX) then k else of_text (param_text p)) ::
      List.concat (debug_node_print (level + 1) <$> cs)
  end.

Definition debug_print (head : Node) : list bytes :=
  of_text "HEAD" :: List.concat (debug_node_print 1 <$> children head).

(** [/a/<int>], [/ab] and [/a/<path>]. *)
Definition sample_trie : option Node :=
  '(t, _) ← add (of_text "/a/<int>") 2 0 INVALID_BP_ID fresh_node;
  '(t, _) ← add (of_text "/ab") 3 0 INVALID_BP_ID t;
  '(t, _) ← add (of_text "/a/<path>") 4 0 INVALID_BP_ID t;
  validate t.

Example sample_found : (t ← sample_trie; mapM (find_url t) [of_text "/a/-7"; of_text "/a/7x"; of_text "/ab"; of_text "/a/"]) =
  Some [(2%Z, [], mkParams [(-7)%Z] [] [] []); (4%Z, [], mkParams [] [] [] [of_text "7x"]);
        (3%Z, [], no_params); (0%Z, [], no_params)].
Proof. by vm_compute. Qed.
