(* ===== verification/TrieSpec.v ===== *)
(** * The search tree against the list of its rules

    [routes] lists the rules of a tree with their patterns, [consume] matches one
    pattern against a URL.  [find_run]: the search finds the least rule that
    matches; [optimize_routes]: joining chains changes no pattern; [add_run]: adding
    adds one.  [trie_routes] puts them together for a tree as the router builds it. *)

From S2P Require Import Prelude CInt CFloat CArray CNum Trie.

#[local] Open Scope nat_scope.

Lemma node_ind' (P : Node -> Prop) :
  (forall rule bp k p cs, Forall P cs -> P (mkNode rule bp k p cs)) -> forall n, P n.
Proof.
  intros H. fix IH 1. intros [rule bp k p cs]. apply H. induction cs as [|c cs IHc]; constructor; [apply IH|done].
Qed.

(** ** Patterns *)

Inductive token := Char (c : ascii) | Param (t : ParamType).

#[global] Instance token_eq_dec : EqDecision token.
Proof. solve_decision. Defined.

Definition tokens (n : Node) : list token := if bool_decide (param n = MAX) then Char <$> key n else [Param (param n)].

(** Behind some tokens. *)
Definition under (toks : list token) (l : list (list token * Z)) : list (list token * Z) :=
  (fun r => (toks ++ fst r, snd r)) <$> l.

Fixpoint routes (n : Node) : list (list token * Z) :=
  match n with
  | mkNode rule _ _ _ cs =>
      (if (rule =? 0)%Z then [] else [([], rule)]) ++ List.concat ((fun c => under (tokens c) (routes c)) <$> cs)
  end.

(** The parameters of the URL from [pos] on, if the pattern is all of it. *)
Fixpoint consume (url : bytes) (pat : list token) (pos : nat) (ps : routing_params) : option routing_params :=
  match pat with
  | [] => if bool_decide (pos = length url) then Some ps else None
  | Char c :: pat => if bool_decide (url !! pos = Some c) then consume url pat (pos + 1) ps else None
  | Param t :: pat => '(pos, ps) ← capture url pos t ps; consume url pat pos ps
  end.

(** The rules that match, in the order of the tree. *)
Definition candidates (url : bytes) (l : list (list token * Z)) (pos : nat) (ps : routing_params)
    : list (Z * routing_params) :=
  omap (fun r => ps' ← consume url (fst r) pos ps; Some (snd r, ps')) l.

(** The first of those with the least index. *)
Definition better (a b : Z * routing_params) : Z * routing_params :=
  if (negb (b.1 =? 0) && ((a.1 =? 0) || (b.1 <? a.1)))%Z then b else a.

Definition best (l : list (Z * routing_params)) : Z * routing_params := foldl better (0%Z, no_params) l.

Lemma better_assoc a b c : better (better a b) c = better a (better b c).
Proof.
  unfold better. destruct a as [a x], b as [b y], c as [c z]. cbn [fst].
  destruct (a =? 0)%Z eqn:Ea, (b =? 0)%Z eqn:Eb, (c =? 0)%Z eqn:Ec, (b <? a)%Z eqn:E1, (c <? b)%Z eqn:E2, (c <? a)%Z eqn:E3;
    do 3 (cbn; rewrite ?Ea, ?Eb, ?Ec, ?E1, ?E2, ?E3); reflexivity || (exfalso; lia).
Qed.

Definition indexed (l : list (Z * routing_params)) : Prop := Forall (fun a => a.1 <> 0%Z) l.

Lemma better_first x : x.1 <> 0%Z -> better (0%Z, no_params) x = x.
Proof. intros H. unfold better. cbn. by rewrite (proj2 (Z.eqb_neq _ _) H). Qed.

Lemma best_from a l : indexed l -> foldl better a l = better a (best l).
Proof.
  intros Hl. revert a. induction Hl as [|x l Hx Hl IH]; intros a.
  { unfold better, best. cbn. done. }
  unfold best. cbn. rewrite IH, better_first, (IH x), better_assoc by done. done.
Qed.

Lemma best_app l k : indexed k -> best (l ++ k) = better (best l) (best k).
Proof. intros Hk. unfold best at 1. rewrite foldl_app. by apply best_from. Qed.

Lemma routes_indexed n : Forall (fun r => r.2 <> 0%Z) (routes n).
Proof.
  induction n as [rule bp k p cs IH] using node_ind'. cbn. apply Forall_app. split.
  - destruct (Z.eqb_spec rule 0); by repeat constructor.
  - apply Forall_concat. apply Forall_fmap. eapply Forall_impl; [exact IH|]. cbn. intros c Hc.
    apply Forall_fmap. eapply Forall_impl; [exact Hc|]. by intros [].
Qed.

Lemma candidates_indexed url l pos ps : Forall (fun r => r.2 <> 0%Z) l -> indexed (candidates url l pos ps).
Proof.
  unfold candidates. induction 1 as [|[pat r] l Hr _ IH]; cbn; [constructor|].
  destruct (consume url pat pos ps); cbn; [by constructor|done].
Qed.

Lemma candidates_app url l k pos ps : candidates url (l ++ k) pos ps = candidates url l pos ps ++ candidates url k pos ps.
Proof. unfold candidates. apply omap_app. Qed.

(** ** Searching *)

(** Every node without a parameter has letters. *)
Inductive keyed : Node -> Prop :=
  | keyed_node rule bp k p cs : Forall (fun c => (param c = MAX -> key c <> []) /\ keyed c) cs -> keyed (mkNode rule bp k p cs).

Lemma compare_at_cons url pos c k : compare_at url pos (c :: k) = bool_decide (url !! pos = Some c) && compare_at url (pos + 1) k.
Proof.
  unfold compare_at. rewrite <- bool_decide_and. apply bool_decide_ext. cbn [length].
  assert (Hd : drop (pos + 1) url = tail (drop pos url)).
  { rewrite <- drop_drop. by destruct (drop pos url). }
  assert (Hh : url !! pos = head (drop pos url)).
  { rewrite <- (Nat.add_0_r pos) at 1. rewrite <- lookup_drop. by destruct (drop pos url). }
  rewrite Hd, Hh. destruct (drop pos url) as [|x l]; cbn; [split; [done|by intros []]|].
  split; [by intros [= -> ->]|by intros [[= ->] ->]].
Qed.

Lemma consume_chars url k pat pos ps : consume url ((Char <$> k) ++ pat) pos ps =
  if compare_at url pos k then consume url pat (pos + length k) ps else None.
Proof.
  revert pos. induction k as [|c k IH]; intros pos; cbn [fmap list_fmap app consume length].
  - by rewrite Nat.add_0_r.
  - rewrite IH, compare_at_cons. destruct (bool_decide (url !! pos = Some c)); [|done]. cbn [andb].
    by rewrite <- Nat.add_assoc.
Qed.

Lemma consume_under url n pat pos ps : consume url (tokens n ++ pat) pos ps =
  ('(pos, ps) ← enter url pos n ps; consume url pat pos ps).
Proof.
  unfold tokens, enter. case_bool_decide as Hp; cbn [negb]; [|done]. rewrite consume_chars.
  by destruct (compare_at url pos (key n)).
Qed.

Lemma omap_under {A} (f g : list token * Z -> option A) toks l :
  (forall pat r, f (toks ++ pat, r) = g (pat, r)) -> omap f (under toks l) = omap g l.
Proof.
  intros H. unfold under. induction l as [|[pat r] l IH]; [done|]. cbn. rewrite H, IH. done.
Qed.

Lemma candidates_under url n l pos ps : candidates url (under (tokens n) l) pos ps =
  match enter url pos n ps with Some (pos, ps) => candidates url l pos ps | None => [] end.
Proof.
  unfold candidates. destruct (enter url pos n ps) as [[p' ps']|] eqn:E.
  - apply omap_under. intros pat r. cbn. rewrite consume_under, E. done.
  - rewrite (omap_under _ (fun _ => None)).
    + induction l; cbn; auto.
    + intros pat r. cbn. rewrite consume_under, E. done.
Qed.

Lemma capture_bound url pos t ps p' ps' : capture url pos t ps = Some (p', ps') -> pos < length url /\ p' <= length url.
Proof.
  unfold capture. destruct (url !! pos) as [c|] eqn:E; [|done]. apply lookup_lt_Some in E.
  pose proof (strtoll_length (drop pos url)) as H1. pose proof (strtoull_length (drop pos url)) as H2.
  pose proof (strtod_length (drop pos url)) as H3. set (slash := fun c => _).
  pose proof (span_length slash (drop pos url)) as H4. rewrite length_drop in *.
  destruct t; intros H.
  - destruct (_ || _); [|done]. destruct (strtoll _) as [[v n] e]. cbn in *.
    destruct (_ && _); [|done]. injection H as <- _. lia.
  - destruct (_ || _); [|done]. destruct (strtoull _) as [[v n] e]. cbn in *.
    destruct (_ && _); [|done]. injection H as <- _. lia.
  - destruct (_ || _); [|done]. destruct (strtod _) as [[v n] e]. cbn in *.
    destruct (_ && _); [|done]. injection H as <- _. lia.
  - case_bool_decide; [done|]. injection H as <- _. lia.
  - injection H as <- _. lia.
  - done.
Qed.

Lemma enter_bound url pos n ps p' ps' : pos <= length url -> enter url pos n ps = Some (p', ps') -> p' <= length url.
Proof.
  unfold enter. intros Hp H. destruct (negb _); [by apply capture_bound in H as [_ H]|].
  unfold compare_at in H. case_bool_decide as Hc; [|done]. injection H as <- _.
  apply (f_equal length) in Hc. rewrite length_take, length_drop in Hc. lia.
Qed.

(** At the end of the URL only the empty pattern matches. *)
Lemma candidates_end url n ps : keyed n ->
  candidates url (routes n) (length url) ps = if (rule_index n =? 0)%Z then [] else [(rule_index n, ps)].
Proof.
  destruct 1 as [rule bp k p cs Hcs]. cbn [routes rule_index]. rewrite candidates_app.
  assert (Hz : candidates url (List.concat ((fun c => under (tokens c) (routes c)) <$> cs)) (length url) ps = []).
  { induction Hcs as [|c cs [Hk _] _ IH]; [done|]. cbn [fmap list_fmap List.concat]. rewrite candidates_app, IH, app_nil_r.
    rewrite candidates_under. destruct (enter url (length url) c ps) as [[p' ps']|] eqn:E; [|done]. exfalso.
    unfold enter in E. case_bool_decide as Hp; cbn in E; [|apply capture_bound in E; lia].
    unfold compare_at in E. case_bool_decide as Hc; [|done]. rewrite drop_all, take_nil in Hc. symmetry in Hc. by apply Hk. }
  rewrite Hz, app_nil_r. destruct (Z.eqb_spec rule 0); [done|]. unfold candidates.
  cbn [omap list_omap fst snd consume]. by rewrite bool_decide_eq_true_2 by done.
Qed.

(** A result that stands for a list of candidates. *)
Definition finds (l : list (Z * routing_params)) (f : Z) (ps : routing_params) : Prop :=
  f = (best l).1 /\ (f <> 0%Z -> ps = (best l).2).

Definition search_spec (url : bytes) (n : Node) : Prop := forall pos ps bps, pos <= length url ->
  exists f bp ps' bps', find url n pos ps bps = Some ((f, bp, ps'), bps') /\ finds (candidates url (routes n) pos ps) f ps'.

Lemma finds_update l k f bp ps bps st : indexed k -> finds l (found st) (match_params st) -> finds k f ps ->
  finds (l ++ k) (found (update_found (f, bp, ps) bps st)) (match_params (update_found (f, bp, ps) bps st)).
Proof.
  intros Hk [Hl1 Hl2] [Hk1 Hk2]. unfold finds. rewrite best_app by done.
  unfold update_found, better. rewrite <- Hl1, <- Hk1. destruct (Z.eqb_spec f 0) as [->|Hf]; cbn.
  - by split.
  - specialize (Hk2 Hf). destruct (Z.eqb_spec (found st) 0); cbn; [by split|].
    destruct (f <? found st)%Z; cbn; by split.
Qed.

Lemma each_child url pos ps cs : pos <= length url -> Forall (search_spec url) cs -> forall l st,
  finds l (found st) (match_params st) ->
  exists st', each (fun child => try_child url pos ps child (find url child)) cs st = Some st' /\
    finds (l ++ candidates url (List.concat ((fun c => under (tokens c) (routes c)) <$> cs)) pos ps)
      (found st') (match_params st').
Proof.
  intros Hp. induction 1 as [|c cs Hc _ IH]; intros l st Hl.
  { exists st. split; [done|]. cbn. by rewrite app_nil_r. }
  cbn [each fmap list_fmap List.concat]. rewrite candidates_app, candidates_under, app_assoc.
  assert (Hone : exists st', try_child url pos ps c (find url c) st = Some st' /\
    finds (l ++ match enter url pos c ps with Some (pos, ps) => candidates url (routes c) pos ps | None => [] end)
      (found st') (match_params st')).
  { unfold try_child. destruct (enter url pos c ps) as [[p' ps']|] eqn:E; [|exists st; by rewrite app_nil_r].
    apply enter_bound in E; [|done]. cbv zeta. destruct (Hc p' ps' (if (blueprint_index c =? INVALID_BP_ID)%Z then blueprints st
      else blueprints st ++ [blueprint_index c]) E) as (f & bp & ps2 & bps' & -> & Hf). eexists. split; [done|].
    apply finds_update; [|done|done]. apply candidates_indexed, routes_indexed. }
  destruct Hone as (st1 & -> & Hst1). cbn [mbind option_bind]. by apply IH.
Qed.

(** The search ends without an exception, with the first of the least rules that
    match. *)
Lemma find_run url n : keyed n -> search_spec url n.
Proof.
  induction n as [rule bp k p cs IH] using node_ind'. intros Hk pos ps bps Hp.
  cbn [find]. case_bool_decide as He.
  { subst pos. rewrite candidates_end by done. cbn [rule_index]. eexists _, _, _, _. split; [done|].
    unfold finds, best. destruct (Z.eqb_spec rule 0) as [->|Hr]; cbn [foldl]; [by split; [|intros []]|].
    by rewrite better_first. }
  rewrite bool_decide_eq_false_2 by lia.
  assert (Hcs : Forall (search_spec url) cs).
  { inversion Hk as [? ? ? ? ? Hf]; subst. apply Forall_forall. intros c Hc.
    apply (proj1 (Forall_forall _ _) IH c Hc). by apply (proj1 (Forall_forall _ _) Hf c Hc). }
  destruct (each_child url pos ps cs Hp Hcs [] (mkProgress 0 [] no_params false bps)) as (st & -> & Hst); [by split; [|intros []]|].
  cbn [mbind option_bind]. cbn [app] in Hst.
  assert (Hown : candidates url (if (rule =? 0)%Z then [] else [([], rule)]) pos ps = []).
  { destruct (rule =? 0)%Z; [done|]. unfold candidates.
    cbn [omap list_omap fst snd consume]. by rewrite bool_decide_eq_false_2 by done. }
  destruct (found_fragment st); eexists _, _, _, _; (split; [done|]); cbn [routes]; by rewrite candidates_app, Hown.
Qed.

(** ** Joining chains *)

Lemma under_under a b l : under a (under b l) = under (a ++ b) l.
Proof. unfold under. rewrite <- list_fmap_compose. apply list_fmap_ext. intros _ [pat r] _. cbn. by rewrite app_assoc. Qed.

Lemma under_nil l : under [] l = l.
Proof. unfold under. rewrite <- (list_fmap_id l) at 2. apply list_fmap_ext. by intros _ [] _. Qed.

(** The key grows at its end, and the parameter stays. *)
Lemma optimize_shape n k p : param (optimize_as k p n) = p /\ exists s, key (optimize_as k p n) = k ++ s.
Proof.
  revert k p. induction n as [rule bp k0 p0 cs IH] using node_ind'. intros k p. cbn [optimize_as].
  assert (Hs : forall r b cs', param (mkNode r b k p cs') = p /\ exists s, key (mkNode r b k p cs') = k ++ s).
  { intros. split; [done|]. exists []. by rewrite app_nil_r. }
  destruct cs as [|c cs]; [apply Hs|]. destruct (IsSimpleNode _); [|apply Hs].
  inversion IH as [|? ? Hc _]; subst. destruct (Hc (k ++ key c) p) as [Hp (s & Hk)]. split; [done|].
  exists (key c ++ s). by rewrite Hk, app_assoc.
Qed.

Lemma IsSimpleNode_spec n : IsSimpleNode n = true <-> rule_index n = 0%Z /\ blueprint_index n = INVALID_BP_ID /\
  length (children n) < 2 /\ param n = MAX /\ Forall (fun c => param c = MAX) (children n).
Proof.
  unfold IsSimpleNode. rewrite !andb_true_iff, !Z.eqb_eq, !bool_decide_eq_true, forallb_forall, Forall_forall.
  setoid_rewrite <- list_elem_of_In. setoid_rewrite bool_decide_eq_true. tauto.
Qed.

(** A node as its parent sees it. *)
Definition below (n : Node) : list (list token * Z) := under (tokens n) (routes n).

Lemma below_optimize n k p :
  below (optimize_as k p n) = below (mkNode (rule_index n) (blueprint_index n) k p (children n)).
Proof.
  revert k p. induction n as [rule bp k0 p0 cs IH] using node_ind'. intros k p. cbn [optimize_as rule_index blueprint_index children].
  destruct cs as [|c cs]; [done|]. destruct (IsSimpleNode (mkNode rule bp k p (c :: cs))) eqn:Es.
  - apply IsSimpleNode_spec in Es as (Hr & _ & Hl & Hp & Hc). cbn in Hr, Hl, Hp, Hc. subst rule p.
    destruct cs; [|cbn in Hl; lia]. inversion Hc as [|? ? Hcp _]; subst. inversion IH as [|? ? IHc _]; subst.
    rewrite IHc. unfold below at 1 2. cbn [routes fmap list_fmap List.concat app]. rewrite app_nil_r.
    change (if (0 =? 0)%Z then [] else [([], 0%Z)]) with (@nil (list token * Z)). cbn [app].
    rewrite under_under. unfold tokens. cbn [param key]. rewrite (bool_decide_eq_true_2 _ Hcp), !bool_decide_eq_true_2 by done.
    rewrite <- fmap_app. by destruct c.
  - unfold below at 1 2. cbn [routes]. f_equal. f_equal. f_equal. rewrite <- list_fmap_compose.
    apply list_fmap_ext. intros i x Hx. cbn [compose]. apply (list_elem_of_lookup_2) in Hx.
    pose proof (proj1 (Forall_forall _ _) IH x Hx (key x) (param x)) as H. unfold below in H. cbn [compose]. rewrite H. by destruct x.
Qed.

Lemma keyed_optimize n k p : keyed n -> keyed (optimize_as k p n).
Proof.
  revert k p. induction n as [rule bp k0 p0 cs IH] using node_ind'. intros k p Hk. inversion Hk as [? ? ? ? ? Hf]; subst.
  cbn [optimize_as]. destruct cs as [|c cs]; [by constructor|].
  assert (Hc : forall x, x ∈ c :: cs -> (param x = MAX -> key x <> []) /\ keyed x) by (by apply Forall_forall).
  pose proof (proj1 (Forall_forall _ _) IH) as IH'. destruct (IsSimpleNode _).
  - apply (IH' c); [by left|]. by apply Hc; left.
  - constructor. apply Forall_fmap, Forall_forall. intros x Hx. cbn. destruct (Hc x Hx) as [Hkx Hkd]. split.
    + destruct (optimize_shape x (key x) (param x)) as [-> (s & ->)]. intros Hp Hn. apply app_eq_nil in Hn as [Hn _]. by apply Hkx.
    + by apply IH'.
Qed.

(** [optimize] changes no rule and no pattern. *)
Lemma optimize_routes n : routes (optimize n) = routes n.
Proof.
  destruct n as [rule bp k p cs]. unfold optimize. cbn [routes rule_index blueprint_index key param children].
  f_equal. f_equal. rewrite <- list_fmap_compose. apply list_fmap_ext. intros i x _. cbn [compose].
  apply (eq_trans (below_optimize x (key x) (param x))). by destruct x.
Qed.

Lemma optimize_keyed n : keyed n -> keyed (optimize n).
Proof.
  destruct 1 as [rule bp k p cs Hf]. constructor. cbn [children]. apply Forall_fmap. eapply Forall_impl; [exact Hf|].
  cbn. intros x [Hk Hx]. unfold optimizeNode. split; [|by apply keyed_optimize].
  destruct (optimize_shape x (key x) (param x)) as [-> (s & ->)]. intros Hp Hn. apply app_eq_nil in Hn as [Hn _]. by apply Hk.
Qed.

(** ** Adding *)

(** The pattern of a URL, as [add] reads it; [None] where it would not end. *)
Fixpoint tokenize (fuel : nat) (url : bytes) (i : nat) : option (list token) :=
  match fuel with
  | O => None
  | S fuel =>
      match url !! i with
      | None => Some []
      | Some c =>
          if Ascii.eqb c "<" then
            '(type, name) ← trait_at url i;
            toks ← tokenize fuel url (i + length name);
            Some (Param type :: toks)
          else toks ← tokenize fuel url (i + 1); Some (Char c :: toks)
      end
  end.

Definition pattern (url : bytes) : option (list token) := tokenize (S (length url)) url 0.

(** A node as [add] makes it: one letter, or a parameter and none. *)
Definition single (n : Node) (tok : token) : Prop :=
  match tok with
  | Char c => param n = MAX /\ key n = [c] /\ c <> NUL
  | Param t => param n = t /\ key n = [] /\ t <> MAX
  end.

Lemma single_tokens n tok : single n tok -> tokens n = [tok].
Proof.
  unfold tokens. destruct tok as [c|t]; cbn.
  - intros (-> & -> & _). done.
  - intros (-> & _ & Hm). by rewrite bool_decide_eq_false_2.
Qed.

Lemma single_inj n tok tok' : single n tok -> single n tok' -> tok = tok'.
Proof. intros H%single_tokens H'%single_tokens. congruence. Qed.

(** A tree that was added to only. *)
Inductive grown : Node -> Prop :=
  | grown_node rule bp k p cs toks : Forall2 (fun c tok => single c tok) cs toks -> NoDup toks -> Forall grown cs ->
      grown (mkNode rule bp k p cs).

Lemma grown_keyed n : grown n -> keyed n.
Proof.
  induction n as [rule bp k p cs IH] using node_ind'. intros Hg. inversion Hg as [? ? ? ? ? toks Hs _ Hc]; subst.
  constructor. apply Forall_forall. intros c Hin. split; [|by apply (proj1 (Forall_forall _ _) IH c Hin), (proj1 (Forall_forall _ _) Hc)].
  apply list_elem_of_lookup in Hin as [i Hi]. destruct (Forall2_lookup_l _ _ _ _ _ Hs Hi) as (tok & _ & H).
  destruct tok as [x|t]; cbn in H; [|by destruct H as (-> & _ & ?)]. by destruct H as (_ & -> & _).
Qed.

Definition patterns (n : Node) : list (list token) := fst <$> routes n.

Lemma patterns_below c toks : toks ∈ fst <$> below c <-> exists t, toks = tokens c ++ t /\ t ∈ patterns c.
Proof.
  unfold below, under, patterns. rewrite <- list_fmap_compose. split.
  - intros ([pat r] & -> & Hin)%list_elem_of_fmap. cbn. exists pat. split; [done|]. apply list_elem_of_fmap. by exists (pat, r).
  - intros (t & -> & ([pat r] & -> & Hin)%list_elem_of_fmap). apply list_elem_of_fmap. by exists (pat, r).
Qed.

(** A pattern belongs to the child that has its first token. *)
Lemma patterns_cons rule bp k p cs tok toks cts : Forall2 single cs cts ->
  tok :: toks ∈ patterns (mkNode rule bp k p cs) <-> exists c, c ∈ cs /\ single c tok /\ toks ∈ patterns c.
Proof.
  intros Hs. unfold patterns at 1. cbn [routes]. rewrite fmap_app, elem_of_app.
  assert (H0 : tok :: toks ∈ (if (rule =? 0)%Z then [] else [([], rule)]).*1 <-> False).
  { destruct (rule =? 0)%Z; cbn; [by rewrite elem_of_nil|]. by rewrite list_elem_of_singleton. }
  rewrite H0. clear H0. induction Hs as [|c ct cs cts Hc _ IH]; cbn [fmap list_fmap List.concat].
  { split; [intros [[]|H]; by apply elem_of_nil in H|intros (c & H & _); by apply elem_of_nil in H]. }
  rewrite fmap_app, elem_of_app. pose proof (patterns_below c (tok :: toks)) as Hb. unfold below in Hb. rewrite Hb.
  rewrite (single_tokens _ _ Hc). split.
  - intros [[]|[(t & Ht & Hin)|H]].
    + injection Ht as <- ->. exists c. split; [by left|done].
    + destruct (proj1 IH (or_intror H)) as (c' & Hin & Hrest). exists c'. split; [by right|done].
  - intros (c' & [->|Hin]%elem_of_cons & Hct & Hp).
    + right. left. exists toks. by rewrite (single_inj _ _ _ Hc Hct).
    + destruct (proj2 IH) as [[]|H]; [by exists c'|]. by right; right.
Qed.

(** [n'] is [n] with one more rule; or it was there already, and [n'] is [n]. *)
Definition added (toks : list token) (rule : Z) (n n' : Node) (thrown : bool) : Prop :=
  blueprint_index n' = blueprint_index n /\ key n' = key n /\ param n' = param n /\ grown n' /\
  if thrown then n' = n /\ toks ∈ patterns n
  else routes n' ≡ₚ (toks, rule) :: routes n /\ toks ∉ patterns n.

Lemma added_single toks rule n n' thrown tok : added toks rule n n' thrown -> single n tok -> single n' tok.
Proof. intros (_ & Hk & Hp & _). unfold single. by rewrite Hk, Hp. Qed.

Lemma added_here rule n : rule <> 0%Z -> grown n -> exists n' thrown,
  (if (rule_index n =? 0)%Z then Some (mkNode rule (blueprint_index n) (key n) (param n) (children n), false)
   else Some (n, true)) = Some (n', thrown) /\ added [] rule n n' thrown.
Proof.
  intros Hr. destruct 1 as [r bp k p cs toks Hs Hd Hc]. cbn [rule_index blueprint_index key param children].
  assert (Hno : [] ∉ (List.concat ((fun c => below c) <$> cs)).*1).
  { intros ([pat x] & Hp & Hin)%list_elem_of_fmap. cbn in Hp. subst pat. apply list_elem_of_In, in_concat in Hin as (l & Hl & Hin).
    apply list_elem_of_In in Hl, Hin. apply list_elem_of_fmap in Hl as (c & -> & Hcin). apply list_elem_of_lookup in Hcin as [i Hi].
    destruct (Forall2_lookup_l _ _ _ _ _ Hs Hi) as (tok & _ & Ht%single_tokens).
    assert (H : [] ∈ fst <$> below c) by (apply list_elem_of_fmap; by exists ([], x)).
    apply patterns_below in H as (t & Ht' & _). by rewrite Ht in Ht'. }
  destruct (Z.eqb_spec r 0) as [->|Hr0]; eexists _, _; (split; [done|]).
  - split; [done|]. split; [done|]. split; [done|]. split; [by econstructor|]. cbn.
    rewrite (proj2 (Z.eqb_neq rule 0) Hr). split; [done|]. unfold patterns. exact Hno.
  - split; [done|]. split; [done|]. split; [done|]. split; [by econstructor|]. split; [done|].
    unfold patterns. cbn. rewrite (proj2 (Z.eqb_neq r 0) Hr0). by left.
Qed.

Lemma below_added toks rule tok n n' : added toks rule n n' false -> single n tok ->
  below n' ≡ₚ (tok :: toks, rule) :: below n.
Proof.
  intros Ha Hs. pose proof (added_single _ _ _ _ _ _ Ha Hs) as Hs'. destruct Ha as (_ & _ & _ & _ & Hp & _).
  unfold below. rewrite (single_tokens _ _ Hs), (single_tokens _ _ Hs'). unfold under. by rewrite Hp.
Qed.

Section Descend.
  Context (p : Node -> bool) (new : Node) (go : Node -> option (Node * bool)) (tok : token) (toks : list token) (rule : Z).
  Context (Hpick : forall c tok', single c tok' -> p c = true <-> tok' = tok).
  Context (Hnew : single new tok) (Hempty : children new = [] /\ rule_index new = 0%Z).
  Context (Hgo : forall c, grown c -> exists c' thrown, go c = Some (c', thrown) /\ added toks rule c c' thrown).

Lemma descend_new r bp k pr cs : grown (mkNode r bp k pr cs) -> Forall (fun c => ~ p c) cs ->
  exists n' thrown, ('(child, thrown) ← go new; Some (mkNode r bp k pr (cs ++ [child]), thrown)) = Some (n', thrown) /\
    added (tok :: toks) rule (mkNode r bp k pr cs) n' thrown.
Proof.
  intros Hg Hf. inversion Hg as [? ? ? ? ? cts Hs Hd Hc]; subst. destruct Hempty as [He Hr].
  destruct (Hgo new) as (c' & thrown & -> & Ha).
  { destruct new. cbn in He. subst. by econstructor; [constructor|constructor|constructor]. }
  assert (Hpat : patterns new = []) by (destruct new; cbn in He, Hr; by subst).
  assert (thrown = false) as ->.
  { destruct thrown; [|done]. destruct Ha as (_ & _ & _ & _ & _ & Hin). rewrite Hpat in Hin. by apply elem_of_nil in Hin. }
  assert (Hfresh : tok ∉ cts).
  { intros (i & Hi)%list_elem_of_lookup. destruct (Forall2_lookup_r _ _ _ _ _ Hs Hi) as (c & Hci & Hsc).
    apply (Forall_lookup_1 _ _ _ _ Hf) in Hci. apply Hci, Is_true_true, (Hpick _ _ Hsc). done. }
  pose proof (added_single _ _ _ _ _ _ Ha Hnew) as Hs'. pose proof (below_added _ _ _ _ _ Ha Hnew) as Hb.
  destruct Ha as (Hbp & Hk & Hp & Hg' & _). eexists _, _. split; [done|].
  repeat (split; [done|]). split; [|split].
  - econstructor; [by apply Forall2_app; [exact Hs|constructor; [exact Hs'|constructor]]| |by apply Forall_app; split; [|repeat constructor]].
    apply NoDup_app. split; [done|]. split; [|apply NoDup_singleton]. intros x Hx ->%list_elem_of_singleton. done.
  - cbn [routes]. rewrite fmap_app, List.concat_app. cbn [fmap list_fmap List.concat]. rewrite app_nil_r.
    change (under (tokens c') (routes c')) with (below c'). rewrite Hb.
    assert (Hz : below new = []) by (unfold below, patterns in *; by apply fmap_nil_inv in Hpat as ->).
    rewrite Hz. rewrite app_assoc. apply Permutation_app_comm.
  - rewrite (patterns_cons _ _ _ _ _ _ _ _ Hs). intros (c & (i & Hci)%list_elem_of_lookup & Hsc & _).
    apply (Forall_lookup_1 _ _ _ _ Hf) in Hci. apply Hci, Is_true_true, (Hpick _ _ Hsc). done.
Qed.

Lemma descend_old r bp k pr cs i c : grown (mkNode r bp k pr cs) -> cs !! i = Some c -> p c = true ->
  exists n' thrown, ('(child, thrown) ← go c; Some (mkNode r bp k pr (<[i := child]> cs), thrown)) = Some (n', thrown) /\
    added (tok :: toks) rule (mkNode r bp k pr cs) n' thrown.
Proof.
  intros Hg Hi Hpc. inversion Hg as [? ? ? ? ? cts Hs Hd Hc]; subst.
  destruct (Forall2_lookup_l _ _ _ _ _ Hs Hi) as (tok' & Ht & Hsc). apply (Hpick _ _ Hsc) in Hpc as ->.
  destruct (Hgo c) as (c' & thrown & -> & Ha); [by apply (Forall_lookup_1 _ _ _ _ Hc Hi)|].
  pose proof (added_single _ _ _ _ _ _ Ha Hsc) as Hs'. eexists _, _. split; [done|]. split; [done|]. split; [done|]. split; [done|]. split.
  { destruct Ha as (_ & _ & _ & Hg' & _). econstructor; [|exact Hd|by apply Forall_insert].
    rewrite <- (list_insert_id cts i tok) by done. by apply Forall2_insert. }
  destruct thrown.
  - destruct Ha as (_ & _ & _ & _ & -> & Hin). rewrite list_insert_id by done. split; [done|].
    apply (patterns_cons _ _ _ _ _ _ _ _ Hs). exists c. split; [by eapply list_elem_of_lookup_2|done].
  - split.
    + pose proof (below_added _ _ _ _ _ Ha Hsc) as Hb. cbn [routes]. rewrite insert_take_drop by (by eapply lookup_lt_Some).
      rewrite <- (take_drop_middle cs i c Hi) at 3. rewrite !fmap_app, !fmap_cons, !List.concat_app. cbn [List.concat].
      change (under (tokens c') (routes c')) with (below c'). rewrite Hb. change (under (tokens c) (routes c)) with (below c).
      set (a := if (r =? 0)%Z then _ else _). set (l1 := List.concat _). set (l2 := List.concat _).
      cbn [app]. by rewrite <- (Permutation_middle l1), <- (Permutation_middle a).
    + rewrite (patterns_cons _ _ _ _ _ _ _ _ Hs). intros (d & (j & Hj)%list_elem_of_lookup & Hsd & Hin).
      destruct (Forall2_lookup_l _ _ _ _ _ Hs Hj) as (tok' & Ht' & Hsd'). rewrite (single_inj _ _ _ Hsd' Hsd) in Ht'.
      pose proof (proj1 (NoDup_alt _) Hd _ _ _ Ht Ht'). subst j. rewrite Hi in Hj. injection Hj as <-.
      by destruct Ha as (_ & _ & _ & _ & _ & Hn).
Qed.

Lemma descend_run n : grown n -> exists n' thrown, descend p new go n = Some (n', thrown) /\ added (tok :: toks) rule n n' thrown.
Proof.
  destruct n as [r bp k pr cs]. intros Hg. unfold descend. cbn [children rule_index blueprint_index key param].
  destruct (list_find p cs) as [[i c]|] eqn:E.
  - apply list_find_Some in E as (Hi & Hpc & _). apply descend_old; [done|done|by apply Is_true_true].
  - apply list_find_None in E. by apply descend_new.
Qed.
End Descend.

(** The traits are names of parameters. *)
Lemma trait_at_param url i t name : trait_at url i = Some (t, name) -> t <> MAX.
Proof.
  intros H%find_some. destruct H as [H _]. cbn in H.
  repeat (destruct H as [[= <- _]|H]; [done|]). done.
Qed.

(** [add] ends, and adds the pattern of the URL with its rule, or throws if the
    pattern is in the tree. *)
Lemma add_loop_run fuel url rule len bp i n toks : Forall (fun c => c <> NUL) url -> rule <> 0%Z -> grown n ->
  tokenize fuel url i = Some toks ->
  exists n' thrown, add_loop fuel url rule len bp i n = Some (n', thrown) /\ added toks rule n n' thrown.
Proof.
  intros Hz Hr. revert i n toks. induction fuel as [|fuel IH]; intros i n toks Hg Ht; [done|]. cbn [tokenize add_loop] in *.
  destruct (url !! i) as [c|] eqn:Ec; [|injection Ht as <-; by apply added_here].
  destruct (Ascii.eqb c "<").
  - destruct (trait_at url i) as [[t name]|] eqn:Et; [|done]. cbn [mbind option_bind] in Ht.
    destruct (tokenize fuel url (i + length name)) as [toks'|] eqn:E'; [|done]. injection Ht as <-.
    pose proof (trait_at_param _ _ _ _ Et) as Hm. apply descend_run; [|done|done|by intros; apply IH|done].
    intros d [x|t'] Hs; cbn in Hs; rewrite bool_decide_eq_true.
    + destruct Hs as (-> & _ & _). split; [by intros <-|done].
    + destruct Hs as (-> & _ & _). split; [by intros ->|by intros [= ->]].
  - destruct (tokenize fuel url (i + 1)) as [toks'|] eqn:E'; [|done]. injection Ht as <-.
    pose proof (Forall_lookup_1 _ _ _ _ Hz Ec) as Hc. apply descend_run; [|done|done|by intros; apply IH|done].
    intros d [x|t'] Hs; cbn in Hs; rewrite Ascii.eqb_eq; unfold first_char.
    + destruct Hs as (_ & -> & _). cbn. split; [by intros ->|by intros [= ->]].
    + destruct Hs as (_ & -> & _). cbn. split; [by intros <-|done].
Qed.

Lemma add_run url rule len bp n toks : Forall (fun c => c <> NUL) url -> rule <> 0%Z -> grown n -> pattern url = Some toks ->
  exists n' thrown, add url rule len bp n = Some (n', thrown) /\ added toks rule n n' thrown.
Proof. apply add_loop_run. Qed.

(** ** A tree as the router builds it *)

(** A rule: its URL, its index, and the blueprint it comes from. *)
Record entry := mkEntry { e_url : bytes; e_rule : Z; e_prefix : Z; e_blueprint : Z }.

(** [None] where a rule throws or does not end. *)
Fixpoint add_all (rules : list entry) (n : Node) : option Node :=
  match rules with
  | [] => Some n
  | e :: rules =>
      '(n, thrown) ← add (e_url e) (e_rule e) (e_prefix e) (e_blueprint e) n;
      if (thrown : bool) then None else add_all rules n
  end.

(** A URL a rule may have, as the router requires it: it begins with a slash. *)
Definition proper (e : entry) : Prop :=
  Forall (fun c => c <> NUL) (e_url e) /\ e_rule e <> 0%Z /\ e_url e !! 0 = Some "/"%char.

(** The parameters with which the rule matches. *)
Definition matches (e : entry) (req : bytes) (ps : routing_params) : Prop :=
  exists toks, pattern (e_url e) = Some toks /\ consume req toks 0 no_params = Some ps.

(** The head: nothing but a node for the slash. *)
Definition headed (n : Node) : Prop := rule_index n = 0%Z /\ blueprint_index n = INVALID_BP_ID /\ param n = MAX /\
  Forall (fun c => single c (Char "/"%char)) (children n) /\ length (children n) < 2.

Lemma headed_simple n : headed n -> IsSimpleNode n = true.
Proof.
  intros (Hr & Hb & Hp & Hc & Hl). apply IsSimpleNode_spec. split; [done|]. split; [done|]. split; [done|]. split; [done|].
  eapply Forall_impl; [exact Hc|]. by intros c (Hm & _).
Qed.

Lemma headed_add e n n' toks thrown : proper e -> headed n -> grown n -> pattern (e_url e) = Some toks ->
  add (e_url e) (e_rule e) (e_prefix e) (e_blueprint e) n = Some (n', thrown) -> headed n'.
Proof.
  intros (Hz & Hr & Hs) (Hr0 & Hb & Hp & Hc & Hl) Hg Ht H. unfold add, pattern in *. cbn [add_loop tokenize] in *. rewrite Hs in *.
  change (Ascii.eqb "/" "<") with false in *. cbn [app mbind option_bind] in *.
  destruct (tokenize (length (e_url e)) (e_url e) (0 + 1)) as [toks'|] eqn:E; [|done].
  assert (Hgo : forall c, grown c -> single c (Char "/"%char) -> forall c' th,
    add_loop (length (e_url e)) (e_url e) (e_rule e) (e_prefix e) (e_blueprint e) (0 + 1) c = Some (c', th) ->
    single c' (Char "/"%char)).
  { intros c Hgc Hsc c' th Hc'. destruct (add_loop_run _ _ _ (e_prefix e) (e_blueprint e) _ c _ Hz Hr Hgc E) as (c2 & th2 & H2 & Ha).
    rewrite Hc' in H2. injection H2 as -> ->. by eapply added_single. }
  unfold descend in H. destruct n as [r b k p cs]. cbn [children rule_index blueprint_index key param] in *.
  destruct cs as [|c [|c2 cs]]; [| |cbn in Hl; lia].
  - cbn [list_find] in H. destruct (add_loop _ _ _ _ _ _ _) as [[c' th]|] eqn:Eg; [|done]. injection H as <- _.
    unfold headed. cbn. repeat (split; [done|]). split; [|lia]. constructor; [|constructor].
    eapply Hgo; [| |exact Eg]; [by econstructor; [constructor|constructor|constructor]|done].
  - inversion Hc as [|? ? Hsc _]; subst. assert (Hgc : grown c) by (inversion Hg as [? ? ? ? ? ? _ _ Hf]; subst; by inversion Hf).
    assert (Hf : list_find (fun child => Ascii.eqb (first_char (key child)) "/") [c] = Some (0, c)).
    { apply list_find_Some. split; [done|]. split; [|lia]. destruct Hsc as (_ & -> & _). done. }
    rewrite Hf in H. destruct (add_loop _ _ _ _ _ _ c) as [[c' th]|] eqn:Eg; [|done]. injection H as <- _.
    unfold headed. cbn. repeat (split; [done|]). split; [|lia]. constructor; [|constructor]. eapply Hgo; [done|done|exact Eg].
Qed.

(** The rules with their patterns are the routes. *)
Lemma add_all_run rules pats n : Forall proper rules -> mapM (fun e => pattern (e_url e)) rules = Some pats ->
  NoDup pats -> (forall pat, pat ∈ pats -> pat ∉ patterns n) -> grown n -> headed n ->
  exists n', add_all rules n = Some n' /\ grown n' /\ headed n' /\ routes n' ≡ₚ zip pats (e_rule <$> rules) ++ routes n.
Proof.
  intros Hp. revert pats n. induction Hp as [|e rules He _ IH]; intros pats n Hm Hd Hn Hg Hh.
  { injection Hm as <-. by exists n. }
  cbn [mapM] in Hm. destruct (pattern (e_url e)) as [toks|] eqn:Et; [|done]. cbn [mbind option_bind] in Hm.
  destruct (mapM _ rules) as [pats'|] eqn:Em; [|done]. injection Hm as <-. apply NoDup_cons in Hd as [Hd Hd'].
  pose proof He as (Hz & Hr & _).
  destruct (add_run (e_url e) (e_rule e) (e_prefix e) (e_blueprint e) n toks Hz Hr Hg Et) as (n1 & thrown & Ha & Had).
  pose proof (headed_add e n n1 toks thrown He Hh Hg Et Ha) as Hh1. cbn [add_all]. rewrite Ha. cbn [mbind option_bind].
  destruct Had as (_ & _ & _ & Hg1 & Had). destruct thrown.
  { destruct Had as [_ Hin]. exfalso. apply (Hn toks); [by left|done]. }
  destruct Had as [Hperm _]. destruct (IH pats' n1) as (n' & -> & Hg' & Hh' & Hperm'); try done.
  - intros pat Hin. unfold patterns. rewrite Hperm. cbn. intros [->|Hx]%elem_of_cons; [done|]. apply (Hn pat); [by right|done].
  - exists n'. split; [done|]. split; [done|]. split; [done|]. rewrite Hperm', Hperm. cbn.
    symmetry. apply Permutation_middle.
Qed.

Lemma best_spec l : indexed l -> l = [] /\ best l = (0%Z, no_params) \/
  best l ∈ l /\ Forall (fun a => (best l).1 <= a.1)%Z l.
Proof.
  induction l as [|x l IH] using rev_ind; intros Hl; [by left|]. apply Forall_app in Hl as [Hl Hx]. right.
  rewrite best_app by done. inversion Hx as [|? ? Hx0 _]; subst. assert (Hb : best [x] = x) by (by apply better_first).
  rewrite Hb. unfold better. rewrite (proj2 (Z.eqb_neq _ _) Hx0). cbn [negb andb].
  destruct (IH Hl) as [[-> Hz]|[Hin Hf]].
  - rewrite Hz. cbn. split; [by left|]. by repeat constructor.
  - assert (Hnz : (best l).1 <> 0%Z) by (by apply (proj1 (Forall_forall _ _) Hl)).
    rewrite (proj2 (Z.eqb_neq _ _) Hnz). cbn [orb]. rewrite elem_of_app. destruct (Z.ltb_spec x.1 (best l).1).
    + split; [by right; left|]. apply Forall_app. split; [|by repeat constructor].
      eapply Forall_impl; [exact Hf|]. cbn. intros; lia.
    + split; [by left|]. apply Forall_app. split; [done|]. by repeat constructor.
Qed.

Lemma candidates_elem url l pos ps r ps' : (r, ps') ∈ candidates url l pos ps <->
  exists pat, (pat, r) ∈ l /\ consume url pat pos ps = Some ps'.
Proof.
  unfold candidates. rewrite list_elem_of_omap. split.
  - intros ([pat r'] & Hin & H). cbn in H. destruct (consume url pat pos ps) eqn:E; [|done]. injection H as <- <-. by exists pat.
  - intros (pat & Hin & H). exists (pat, r). split; [done|]. cbn. by rewrite H.
Qed.

Lemma zip_entries rules pats toks r : mapM (fun e => pattern (e_url e)) rules = Some pats ->
  (toks, r) ∈ zip pats (e_rule <$> rules) <-> exists e, e ∈ rules /\ e_rule e = r /\ pattern (e_url e) = Some toks.
Proof.
  revert pats. induction rules as [|e rules IH]; intros pats H; cbn [mapM] in H.
  - injection H as <-. split; [by intros ?%elem_of_nil|]. by intros (e & ?%elem_of_nil & _).
  - destruct (pattern (e_url e)) as [t|] eqn:E; [|done]. cbn [mbind option_bind] in H. destruct (mapM _ rules) as [ts|]; [|done]. injection H as <-.
    cbn [fmap list_fmap zip zip_with]. rewrite elem_of_cons, (IH ts eq_refl). split.
    + intros [[= -> ->]|(e' & Hin & Hrest)]; [exists e; by split; [left|]|exists e'; by split; [right|]].
    + intros (e' & [->|Hin]%elem_of_cons & <- & Hp); [left; congruence|right; by exists e'].
Qed.

(** What the search of a request gives for rules: the least that matches, with the
    parameters of such a rule, or 0 where none does. *)
Definition least_match (rules : list entry) (req : bytes) (f : Z) (ps : routing_params) : Prop :=
  f = 0%Z /\ (forall e ps', e ∈ rules -> ~ matches e req ps') \/
  (exists e, e ∈ rules /\ e_rule e = f /\ matches e req ps) /\
  (forall e ps', e ∈ rules -> matches e req ps' -> (f <= e_rule e)%Z).

Lemma find_least rules pats t req : Forall proper rules -> mapM (fun e => pattern (e_url e)) rules = Some pats ->
  grown t -> routes t ≡ₚ zip pats (e_rule <$> rules) ->
  exists f bp ps, find_url (optimize t) req = Some (f, bp, ps) /\ least_match rules req f ps.
Proof.
  intros Hp Hm Hg Hperm. pose proof (optimize_keyed t (grown_keyed t Hg)) as Hk.
  destruct (find_run req (optimize t) Hk 0 no_params [] ltac:(lia)) as (f & bp & ps & bps & Hf & Hf1 & Hf2).
  exists f, bp, ps. unfold find_url. rewrite Hf. split; [done|]. rewrite optimize_routes in Hf1, Hf2.
  set (l := candidates req (routes t) 0 no_params) in *.
  assert (Hin : forall r ps', (r, ps') ∈ l <-> exists e, e ∈ rules /\ e_rule e = r /\ matches e req ps').
  { intros r ps'. unfold l. rewrite candidates_elem. setoid_rewrite Hperm.
    setoid_rewrite (zip_entries rules pats _ _ Hm). unfold matches. naive_solver. }
  destruct (best_spec l) as [[Hl Hb]|[Hb Hmin]]; [by apply candidates_indexed, routes_indexed| |].
  - left. rewrite Hb in Hf1. split; [done|]. intros e ps' He Hmt.
    assert (H : (e_rule e, ps') ∈ l) by (apply Hin; by exists e). rewrite Hl in H. by apply elem_of_nil in H.
  - right. pose proof (proj1 (Hin (best l).1 (best l).2)) as (e & He & Hr & Hmt); [by destruct (best l)|].
    assert (Hf0 : f <> 0%Z) by (rewrite Hf1, <- Hr; by apply (proj1 (Forall_forall _ _) Hp e He)).
    split; [exists e; by rewrite Hf1, Hf2|]. intros e' ps' He' Hmt'.
    rewrite Hf1. apply (proj1 (Forall_forall _ _) Hmin (e_rule e', ps')). apply Hin. by exists e'.
Qed.

(** A tree of such rules, from the empty one. *)
Lemma add_all_fresh rules pats : Forall proper rules -> mapM (fun e => pattern (e_url e)) rules = Some pats -> NoDup pats ->
  exists t, add_all rules fresh_node = Some t /\ validate t = Some (optimize t) /\ grown t /\
    routes t ≡ₚ zip pats (e_rule <$> rules).
Proof.
  intros Hp Hm Hd. destruct (add_all_run rules pats fresh_node Hp Hm Hd) as (t & Ht & Hg & Hh & Hperm).
  { intros pat _ H. by apply elem_of_nil in H. }
  { by econstructor; [constructor|constructor|constructor]. }
  { repeat split; cbn; [constructor|lia]. }
  exists t. split; [done|]. split; [unfold validate; by rewrite headed_simple|]. split; [done|].
  rewrite Hperm. cbn [routes]. by rewrite app_nil_r.
Qed.

(** C18: Rules with different patterns, all below the slash, can be added one after
    the other and the tree is accepted; and then every request finds, without an
    exception, the least rule whose pattern matches the whole URL, with the
    parameters of such a rule, or no rule where none matches. *)
Theorem trie_routes rules pats : Forall proper rules -> mapM (fun e => pattern (e_url e)) rules = Some pats -> NoDup pats ->
  exists t t', add_all rules fresh_node = Some t /\ validate t = Some t' /\
    forall req, exists f bp ps, find_url t' req = Some (f, bp, ps) /\ least_match rules req f ps.
Proof.
  intros Hp Hm Hd. destruct (add_all_fresh rules pats Hp Hm Hd) as (t & Ht & Hv & Hg & Hperm).
  exists t, (optimize t). split; [done|]. split; [done|]. intros req. by eapply find_least.
Qed.

(** At a [<] that begins no parameter the loop never ends. *)
Lemma add_hangs fuel url rule len bp i n : url !! i = Some "<"%char -> trait_at url i = None ->
  add_loop fuel url rule len bp i n = None.
Proof. intros Hc Ht. induction fuel as [|fuel IH]; [done|]. cbn [add_loop]. by rewrite Hc, Ht. Qed.

Definition sample_rules : list entry :=
  [mkEntry (of_text "/a/<int>") 2 0 INVALID_BP_ID; mkEntry (of_text "/ab") 3 0 INVALID_BP_ID;
   mkEntry (of_text "/a/<path>") 4 0 INVALID_BP_ID].

Lemma trie_routes_witness : exists t t', add_all sample_rules fresh_node = Some t /\ validate t = Some t' /\
  forall req, exists f bp ps, find_url t' req = Some (f, bp, ps) /\ least_match sample_rules req f ps.
Proof.
  apply (trie_routes sample_rules (default [] (mapM (fun e => pattern (e_url e)) sample_rules))).
  - by repeat constructor.
  - by vm_compute.
  - apply (bool_decide_unpack _). by vm_compute.
Defined.

Example unknown_parameter : pattern (of_text "/<id>") = None /\ add (of_text "/<id>") 2 0 INVALID_BP_ID fresh_node = None.
Proof. by vm_compute. Qed.
