(* ===== verification/HttpData.v ===== *)
(** * Data of the HTTP parser: include/crow_all.h, lines 2223-2370 and 4400-4980

    The methods, the error numbers, the states, the [http_parser] structure, the
    character classes with their tables, and [parse_url_char].  A [char] is an
    [ascii]; where the code compares characters by their number, the bounds are
    those of ASCII letters or digits, so signed and unsigned [char] agree.  A
    table shorter than its declared size is zero beyond its initialisers, as in
    C. *)

From S2P Require Import Prelude CInt CArray.

Definition cr : ascii := chr 13.
Definition lf : ascii := chr 10.
Definition tab : ascii := chr 9.

(** ** Methods *)

Inductive HTTPMethod :=
  | Delete | Get | Head | Post | Put
  | Connect | Options | Trace
  | Patch | Purge
  | Copy | Lock | MkCol | Move | Propfind | Proppatch | Search | Unlock
  | Bind | Rebind | Unbind | Acl
  | Report | MkActivity | Checkout | Merge
  | MSearch | Notify | Subscribe | Unsubscribe
  | MkCalendar
  | Link | Unlink
  | Source.

#[global] Instance HTTPMethod_eq_dec : EqDecision HTTPMethod.
Proof. solve_decision. Defined.

Definition all_methods : list HTTPMethod :=
  [Delete; Get; Head; Post; Put; Connect; Options; Trace; Patch; Purge; Copy; Lock; MkCol;
   Move; Propfind; Proppatch; Search; Unlock; Bind; Rebind; Unbind; Acl; Report; MkActivity;
   Checkout; Merge; MSearch; Notify; Subscribe; Unsubscribe; MkCalendar; Link; Unlink; Source].

(** The number of an enumerator. *)
Definition method_number (m : HTTPMethod) : nat :=
  match m with
  | Delete => 0 | Get => 1 | Head => 2 | Post => 3 | Put => 4
  | Connect => 5 | Options => 6 | Trace => 7
  | Patch => 8 | Purge => 9
  | Copy => 10 | Lock => 11 | MkCol => 12 | Move => 13 | Propfind => 14 | Proppatch => 15
  | Search => 16 | Unlock => 17
  | Bind => 18 | Rebind => 19 | Unbind => 20 | Acl => 21
  | Report => 22 | MkActivity => 23 | Checkout => 24 | Merge => 25
  | MSearch => 26 | Notify => 27 | Subscribe => 28 | Unsubscribe => 29
  | MkCalendar => 30
  | Link => 31 | Unlink => 32
  | Source => 33
  end.

Definition InternalMethodCount : Z := 34.

Definition method_strings : list string :=
  ["DELETE"; "GET"; "HEAD"; "POST"; "PUT";
   "CONNECT"; "OPTIONS"; "TRACE";
   "PATCH"; "PURGE";
   "COPY"; "LOCK"; "MKCOL"; "MOVE"; "PROPFIND"; "PROPPATCH"; "SEARCH"; "UNLOCK";
   "BIND"; "REBIND"; "UNBIND"; "ACL";
   "REPORT"; "MKACTIVITY"; "CHECKOUT"; "MERGE";
   "M-SEARCH"; "NOTIFY"; "SUBSCRIBE"; "UNSUBSCRIBE";
   "MKCALENDAR";
   "LINK"; "UNLINK";
   "SOURCE"]%string.

(** [method_strings[m]]; the table has an entry for every enumerator. *)
Definition method_string (m : HTTPMethod) : string :=
  nth (method_number m) method_strings EmptyString.

(** The enumeration is over [char]; the index of the table is its value as an
    [unsigned char].  [None]: the index is outside the table. *)
Definition method_name (method : Z) : option string :=
  if method <? InternalMethodCount
  then method_strings !! Z.to_nat (wrap_u 8 method)
  else Some "invalid"%string.

(** ** Flags and errors *)

Definition F_CHUNKED : Z := 1.
Definition F_CONNECTION_KEEP_ALIVE : Z := 2.
Definition F_CONNECTION_CLOSE : Z := 4.
Definition F_TRAILING : Z := 8.
Definition F_UPGRADE : Z := 16.
Definition F_SKIPBODY : Z := 32.
Definition F_CONTENTLENGTH : Z := 64.

Inductive http_errno :=
  | CHPE_OK
  | CHPE_CB_message_begin | CHPE_CB_url | CHPE_CB_header_field | CHPE_CB_header_value
  | CHPE_CB_headers_complete | CHPE_CB_body | CHPE_CB_message_complete | CHPE_CB_status
  | CHPE_INVALID_EOF_STATE | CHPE_HEADER_OVERFLOW | CHPE_CLOSED_CONNECTION
  | CHPE_INVALID_VERSION | CHPE_INVALID_STATUS | CHPE_INVALID_METHOD | CHPE_INVALID_URL
  | CHPE_INVALID_HOST | CHPE_INVALID_PORT | CHPE_INVALID_PATH | CHPE_INVALID_QUERY_STRING
  | CHPE_INVALID_FRAGMENT | CHPE_LF_EXPECTED | CHPE_INVALID_HEADER_TOKEN
  | CHPE_INVALID_CONTENT_LENGTH | CHPE_UNEXPECTED_CONTENT_LENGTH | CHPE_INVALID_CHUNK_SIZE
  | CHPE_INVALID_CONSTANT | CHPE_INVALID_INTERNAL_STATE | CHPE_STRICT | CHPE_UNKNOWN
  | CHPE_INVALID_TRANSFER_ENCODING.

#[global] Instance http_errno_eq_dec : EqDecision http_errno.
Proof. solve_decision. Defined.

(** The row of [CROW_HTTP_ERRNO_MAP] of an error: its name and description. *)
Definition http_strerror_tab (err : http_errno) : string * string :=
  match err with
  | CHPE_OK => ("OK", "success")
  | CHPE_CB_message_begin => ("CB_message_begin", "the on_message_begin callback failed")
  | CHPE_CB_url => ("CB_url", "the " +:+ dquote +:+ "on_url" +:+ dquote +:+ " callback failed")
  | CHPE_CB_header_field =>
      ("CB_header_field", "the " +:+ dquote +:+ "on_header_field" +:+ dquote +:+ " callback failed")
  | CHPE_CB_header_value =>
      ("CB_header_value", "the " +:+ dquote +:+ "on_header_value" +:+ dquote +:+ " callback failed")
  | CHPE_CB_headers_complete =>
      ("CB_headers_complete",
       "the " +:+ dquote +:+ "on_headers_complete" +:+ dquote +:+ " callback failed")
  | CHPE_CB_body => ("CB_body", "the " +:+ dquote +:+ "on_body" +:+ dquote +:+ " callback failed")
  | CHPE_CB_message_complete =>
      ("CB_message_complete",
       "the " +:+ dquote +:+ "on_message_complete" +:+ dquote +:+ " callback failed")
  | CHPE_CB_status => ("CB_status", "the " +:+ dquote +:+ "on_status" +:+ dquote +:+ " callback failed")
  | CHPE_INVALID_EOF_STATE => ("INVALID_EOF_STATE", "stream ended at an unexpected time")
  | CHPE_HEADER_OVERFLOW => ("HEADER_OVERFLOW", "too many header bytes seen; overflow detected")
  | CHPE_CLOSED_CONNECTION =>
      ("CLOSED_CONNECTION", "data received after completed connection: close message")
  | CHPE_INVALID_VERSION => ("INVALID_VERSION", "invalid HTTP version")
  | CHPE_INVALID_STATUS => ("INVALID_STATUS", "invalid HTTP status code")
  | CHPE_INVALID_METHOD => ("INVALID_METHOD", "invalid HTTP method")
  | CHPE_INVALID_URL => ("INVALID_URL", "invalid URL")
  | CHPE_INVALID_HOST => ("INVALID_HOST", "invalid host")
  | CHPE_INVALID_PORT => ("INVALID_PORT", "invalid port")
  | CHPE_INVALID_PATH => ("INVALID_PATH", "invalid path")
  | CHPE_INVALID_QUERY_STRING => ("INVALID_QUERY_STRING", "invalid query string")
  | CHPE_INVALID_FRAGMENT => ("INVALID_FRAGMENT", "invalid fragment")
  | CHPE_LF_EXPECTED => ("LF_EXPECTED", "LF character expected")
  | CHPE_INVALID_HEADER_TOKEN => ("INVALID_HEADER_TOKEN", "invalid character in header")
  | CHPE_INVALID_CONTENT_LENGTH =>
      ("INVALID_CONTENT_LENGTH", "invalid character in content-length header")
  | CHPE_UNEXPECTED_CONTENT_LENGTH =>
      ("UNEXPECTED_CONTENT_LENGTH", "unexpected content-length header")
  | CHPE_INVALID_CHUNK_SIZE => ("INVALID_CHUNK_SIZE", "invalid character in chunk size header")
  | CHPE_INVALID_CONSTANT => ("INVALID_CONSTANT", "invalid constant string")
  | CHPE_INVALID_INTERNAL_STATE =>
      ("INVALID_INTERNAL_STATE", "encountered unexpected internal state")
  | CHPE_STRICT => ("STRICT", "strict mode assertion failed")
  | CHPE_UNKNOWN => ("UNKNOWN", "an unknown error occurred")
  | CHPE_INVALID_TRANSFER_ENCODING =>
      ("INVALID_TRANSFER_ENCODING", "request has invalid transfer-encoding")
  end%string.

Definition http_errno_name (err : http_errno) : string :=
  "CHPE_" +:+ fst (http_strerror_tab err).

Definition http_errno_description (err : http_errno) : string := snd (http_strerror_tab err).

(** ** States *)

Inductive state :=
  | s_dead
  | s_start_req
  | s_req_method
  | s_req_spaces_before_url
  | s_req_schema
  | s_req_schema_slash
  | s_req_schema_slash_slash
  | s_req_server_start
  | s_req_server
  | s_req_server_with_at
  | s_req_path
  | s_req_query_string_start
  | s_req_query_string
  | s_req_http_start
  | s_req_http_H
  | s_req_http_HT
  | s_req_http_HTT
  | s_req_http_HTTP
  | s_req_http_I
  | s_req_http_IC
  | s_req_http_major
  | s_req_http_dot
  | s_req_http_minor
  | s_req_http_end
  | s_req_line_almost_done
  | s_header_field_start
  | s_header_field
  | s_header_value_discard_ws
  | s_header_value_discard_ws_almost_done
  | s_header_value_discard_lws
  | s_header_value_start
  | s_header_value
  | s_header_value_lws
  | s_header_almost_done
  | s_chunk_size_start
  | s_chunk_size
  | s_chunk_parameters
  | s_chunk_size_almost_done
  | s_headers_almost_done
  | s_headers_done
  | s_chunk_data
  | s_chunk_data_almost_done
  | s_chunk_data_done
  | s_body_identity
  | s_body_identity_eof
  | s_message_done.

#[global] Instance state_eq_dec : EqDecision state.
Proof. solve_decision. Defined.

(** [CROW_PARSING_HEADER]: [state <= s_headers_done], that is, every state
    declared up to [s_headers_done]. *)
Definition CROW_PARSING_HEADER (s : state) : bool :=
  match s with
  | s_chunk_data | s_chunk_data_almost_done | s_chunk_data_done
  | s_body_identity | s_body_identity_eof | s_message_done => false
  | _ => true
  end.

Inductive header_states :=
  | h_general
  | h_C
  | h_CO
  | h_CON
  | h_matching_connection
  | h_matching_proxy_connection
  | h_matching_content_length
  | h_matching_transfer_encoding
  | h_matching_upgrade
  | h_connection
  | h_content_length
  | h_content_length_num
  | h_content_length_ws
  | h_transfer_encoding
  | h_upgrade
  | h_matching_transfer_encoding_token_start
  | h_matching_transfer_encoding_chunked
  | h_matching_transfer_encoding_token
  | h_matching_connection_keep_alive
  | h_matching_connection_close
  | h_transfer_encoding_chunked
  | h_connection_keep_alive
  | h_connection_close.

#[global] Instance header_states_eq_dec : EqDecision header_states.
Proof. solve_decision. Defined.

(** ** The parser structure

    One-bit fields are booleans; the enumerations stored in bit fields are
    values of their type.  [flags] (7 bits), [index] (5 bits), [nread] (32 bits)
    and [content_length] (64 bits) are integers; writing [index] truncates. *)
Record http_parser := Parser {
  flags : Z;
  state_ : state;
  header_state : header_states;
  index : Z;
  uses_transfer_encoding : bool;
  allow_chunked_length : bool;
  lenient_http_headers : bool;
  nread : Z;
  content_length : Z;
  qs_point : Z;
  http_major : Z;
  http_minor : Z;
  method : HTTPMethod;
  http_errno_ : http_errno;
  upgrade : bool
}.

Definition set_flags x q := Parser x (state_ q) (header_state q) (index q) (uses_transfer_encoding q) (allow_chunked_length q) (lenient_http_headers q) (nread q) (content_length q) (qs_point q) (http_major q) (http_minor q) (method q) (http_errno_ q) (upgrade q).
Definition set_state x q := Parser (flags q) x (header_state q) (index q) (uses_transfer_encoding q) (allow_chunked_length q) (lenient_http_headers q) (nread q) (content_length q) (qs_point q) (http_major q) (http_minor q) (method q) (http_errno_ q) (upgrade q).
Definition set_header_state x q := Parser (flags q) (state_ q) x (index q) (uses_transfer_encoding q) (allow_chunked_length q) (lenient_http_headers q) (nread q) (content_length q) (qs_point q) (http_major q) (http_minor q) (method q) (http_errno_ q) (upgrade q).
Definition set_index x q := Parser (flags q) (state_ q) (header_state q) (wrap_u 5 x) (uses_transfer_encoding q) (allow_chunked_length q) (lenient_http_headers q) (nread q) (content_length q) (qs_point q) (http_major q) (http_minor q) (method q) (http_errno_ q) (upgrade q).
Definition set_uses_transfer_encoding x q := Parser (flags q) (state_ q) (header_state q) (index q) x (allow_chunked_length q) (lenient_http_headers q) (nread q) (content_length q) (qs_point q) (http_major q) (http_minor q) (method q) (http_errno_ q) (upgrade q).
Definition set_nread x q := Parser (flags q) (state_ q) (header_state q) (index q) (uses_transfer_encoding q) (allow_chunked_length q) (lenient_http_headers q) x (content_length q) (qs_point q) (http_major q) (http_minor q) (method q) (http_errno_ q) (upgrade q).
Definition set_content_length x q := Parser (flags q) (state_ q) (header_state q) (index q) (uses_transfer_encoding q) (allow_chunked_length q) (lenient_http_headers q) (nread q) x (qs_point q) (http_major q) (http_minor q) (method q) (http_errno_ q) (upgrade q).
Definition set_qs_point x q := Parser (flags q) (state_ q) (header_state q) (index q) (uses_transfer_encoding q) (allow_chunked_length q) (lenient_http_headers q) (nread q) (content_length q) x (http_major q) (http_minor q) (method q) (http_errno_ q) (upgrade q).
Definition set_version major minor q := Parser (flags q) (state_ q) (header_state q) (index q) (uses_transfer_encoding q) (allow_chunked_length q) (lenient_http_headers q) (nread q) (content_length q) (qs_point q) major minor (method q) (http_errno_ q) (upgrade q).
Definition set_method x q := Parser (flags q) (state_ q) (header_state q) (index q) (uses_transfer_encoding q) (allow_chunked_length q) (lenient_http_headers q) (nread q) (content_length q) (qs_point q) (http_major q) (http_minor q) x (http_errno_ q) (upgrade q).
Definition set_http_errno x q := Parser (flags q) (state_ q) (header_state q) (index q) (uses_transfer_encoding q) (allow_chunked_length q) (lenient_http_headers q) (nread q) (content_length q) (qs_point q) (http_major q) (http_minor q) (method q) x (upgrade q).
Definition set_upgrade x q := Parser (flags q) (state_ q) (header_state q) (index q) (uses_transfer_encoding q) (allow_chunked_length q) (lenient_http_headers q) (nread q) (content_length q) (qs_point q) (http_major q) (http_minor q) (method q) (http_errno_ q) x.

Definition CROW_ULLONG_MAX : Z := 2 ^ 64 - 1.
Definition CROW_HTTP_MAX_HEADER_SIZE : Z := 80 * 1024.

(** [flags & f] as a condition. *)
Definition has_flag (f : Z) (q : http_parser) : bool := negb (Z.land (flags q) f =? 0).
Definition add_flag (f : Z) (q : http_parser) : http_parser := set_flags (Z.lor (flags q) f) q.

(** [http_parser_init]: every field zero, then the state and the error.  The
    zero of [header_state] is [h_general], that of [method] is [Delete]. *)
Definition http_parser_init : http_parser :=
  Parser 0 s_start_req h_general 0 false false false 0 0 0 0 0 Delete CHPE_OK false.

Definition http_body_is_final (q : http_parser) : bool := bool_decide (state_ q = s_message_done).

(** ** Character classes *)

Definition CROW_LOWER (c : ascii) : ascii := Ascii.ascii_of_N (N.lor (Ascii.N_of_ascii c) 32).
Definition CROW_IS_ALPHA (c : ascii) : bool := between "a" "z" (CROW_LOWER c).
Definition CROW_IS_NUM (c : ascii) : bool := between "0" "9" c.
Definition CROW_IS_ALPHANUM (c : ascii) : bool := CROW_IS_ALPHA c || CROW_IS_NUM c.

Definition one_of (s : string) (c : ascii) : bool := existsb (Ascii.eqb c) (String.list_ascii_of_string s).

Definition CROW_IS_MARK : ascii -> bool := one_of "-_.!~*'()".
Definition CROW_IS_USERINFO_CHAR (c : ascii) : bool :=
  CROW_IS_ALPHANUM c || CROW_IS_MARK c || one_of "%;:&=+$," c.

(** The table of [CROW_TOKEN]; a space stands for its entries 0 (the entry of
    the space itself is 0). *)
Definition tokens : list ascii :=
  replicate 32 NUL ++
  map (fun c => if Ascii.eqb c " " then NUL else c) (String.list_ascii_of_string
   (" ! #$%&'" +:+ "  *+ -. " +:+ "01234567" +:+ "89      " +:+
    " abcdefg" +:+ "hijklmno" +:+ "pqrstuvw" +:+ "xyz   ^_" +:+
    "`abcdefg" +:+ "hijklmno" +:+ "pqrstuvw" +:+ "xyz | ~ ")).

Definition CROW_TOKEN (c : ascii) : ascii := nth (Z.to_nat (uc c)) tokens NUL.

(** [CROW_TOKEN(c)] as a condition. *)
Definition is_token (c : ascii) : bool := negb (Ascii.eqb (CROW_TOKEN c) NUL).

Definition or_bits (l : list Z) : Z := fold_right Z.lor 0 l.

Definition normal_url_char : list Z :=
  [or_bits [0; 0; 0; 0; 0; 0; 0; 0];
   or_bits [0; 0; 0; 0; 0; 0; 0; 0];
   or_bits [0; 0; 0; 0; 0; 0; 0; 0];
   or_bits [0; 0; 0; 0; 0; 0; 0; 0];
   or_bits [0; 2; 4; 0; 16; 32; 64; 128];
   or_bits [1; 2; 4; 8; 16; 32; 64; 128];
   or_bits [1; 2; 4; 8; 16; 32; 64; 128];
   or_bits [1; 2; 4; 8; 16; 32; 64; 0];
   or_bits [1; 2; 4; 8; 16; 32; 64; 128];
   or_bits [1; 2; 4; 8; 16; 32; 64; 128];
   or_bits [1; 2; 4; 8; 16; 32; 64; 128];
   or_bits [1; 2; 4; 8; 16; 32; 64; 128];
   or_bits [1; 2; 4; 8; 16; 32; 64; 128];
   or_bits [1; 2; 4; 8; 16; 32; 64; 128];
   or_bits [1; 2; 4; 8; 16; 32; 64; 128];
   or_bits [1; 2; 4; 8; 16; 32; 64; 0]].

Definition CROW_BIT_AT (a : list Z) (i : Z) : bool :=
  negb (Z.land (nth (Z.to_nat (Z.shiftr i 3)) a 0) (Z.shiftl 1 (Z.land i 7)) =? 0).

Definition CROW_IS_URL_CHAR (c : ascii) : bool := CROW_BIT_AT normal_url_char (uc c).

Definition CROW_IS_HEADER_CHAR (c : ascii) : bool :=
  Ascii.eqb c cr || Ascii.eqb c lf || (uc c =? 9) || ((31 <? uc c) && negb (uc c =? 127)).

(** The table of hexadecimal digits has 128 initialisers for 256 entries. *)
Definition unhex_table : list Z :=
  replicate 48 (-1) ++
  [0; 1; 2; 3; 4; 5; 6; 7; 8; 9; -1; -1; -1; -1; -1; -1] ++
  [-1; 10; 11; 12; 13; 14; 15; -1; -1; -1; -1; -1; -1; -1; -1; -1] ++
  replicate 16 (-1) ++
  [-1; 10; 11; 12; 13; 14; 15; -1; -1; -1; -1; -1; -1; -1; -1; -1] ++
  replicate 16 (-1).

Definition unhex (c : ascii) : Z := nth (Z.to_nat (uc c)) unhex_table 0.

(** ** parse_url_char

    The next state, and the parser (whose [qs_point] marks the first [?]).
    [None]: [p - url_mark] is computed while [url_mark] is null. *)

Definition url_mark_distance (url_mark : option Z) (p : Z) (q : http_parser) : option (state * http_parser) :=
  match url_mark with
  | Some mark => Some (s_req_query_string_start, set_qs_point (p - mark) q)
  | None => None
  end.

Definition parse_url_char (s : state) (ch : ascii) (parser : http_parser) (url_mark : option Z) (p : Z)
    : option (state * http_parser) :=
  let go (s' : state) := Some (s', parser) in
  let server :=
    if Ascii.eqb ch "/" then go s_req_path
    else if Ascii.eqb ch "?" then url_mark_distance url_mark p parser
    else if Ascii.eqb ch "@" then go s_req_server_with_at
    else if CROW_IS_USERINFO_CHAR ch || Ascii.eqb ch "[" || Ascii.eqb ch "]" then go s_req_server
    else go s_dead in
  if Ascii.eqb ch " " || Ascii.eqb ch cr || Ascii.eqb ch lf then go s_dead
  else if Ascii.eqb ch tab || Ascii.eqb ch (chr 12) then go s_dead
  else match s with
  | s_req_spaces_before_url =>
      if Ascii.eqb ch "/" || Ascii.eqb ch "*" then go s_req_path
      else if CROW_IS_ALPHA ch then go s_req_schema
      else go s_dead
  | s_req_schema =>
      if CROW_IS_ALPHA ch then go s
      else if Ascii.eqb ch ":" then go s_req_schema_slash
      else go s_dead
  | s_req_schema_slash => if Ascii.eqb ch "/" then go s_req_schema_slash_slash else go s_dead
  | s_req_schema_slash_slash => if Ascii.eqb ch "/" then go s_req_server_start else go s_dead
  | s_req_server_with_at => if Ascii.eqb ch "@" then go s_dead else server
  | s_req_server_start | s_req_server => server
  | s_req_path =>
      if CROW_IS_URL_CHAR ch then go s
      else if Ascii.eqb ch "?" then url_mark_distance url_mark p parser
      else go s_dead
  | s_req_query_string_start | s_req_query_string =>
      if CROW_IS_URL_CHAR ch then go s_req_query_string
      else if Ascii.eqb ch "?" then go s_req_query_string
      else go s_dead
  | _ => go s_dead
  end.
