(* ===== verification/RuleTags.v ===== *)
(** * Parameter tags and handler arguments: include/crow_all.h, crow::black_magic and the call helper

    The parameters of a rule's URL become a number in base 6, its tag; the tag
    becomes the list of argument types of the handler; and [call] takes the
    arguments out of the four lists of [routing_params], one counter for each.
    [handler_arguments]: a handler gets the values of the parameters in the order
    of the URL.

    Also here: the checks on rule strings and the methods' names. *)

From S2P Require Import Prelude CInt CFloat CArray CNum HttpData Trie TrieSpec.

(** ** Strings *)

(** [is_valid]: angle brackets are in pairs. *)
Fixpoint is_valid_from (s : bytes) (f : Z) : bool :=
  match s with
  | [] => f =? 0
  | c :: s =>
      if (f <? 0) || (2 <=? f) then false
      else if Ascii.eqb c "<" then is_valid_from s (f + 1)
      else if Ascii.eqb c ">" then is_valid_from s (f - 1)
      else is_valid_from s f
  end.

Definition is_valid (s : bytes) : bool := is_valid_from s 0.

(** [is_equ_p] on C strings, which end where their lists do. *)
Fixpoint is_equ_p (a b : bytes) (n : nat) : bool :=
  match a, b with
  | [], [] => bool_decide (n = 0)%nat
  | [], _ | _, [] => false
  | x :: a, y :: b =>
      match n with
      | O => true
      | S n => if negb (Ascii.eqb x y) then false else is_equ_p a b n
      end
  end.

(** [is_equ_n]. *)
Definition is_equ_n (a : bytes) (ai : nat) (b : bytes) (bi n : nat) : bool :=
  if bool_decide (length a < ai + n)%nat || bool_decide (length b < bi + n)%nat then false
  else bool_decide (take n (drop ai a) = take n (drop bi b)).

Definition is_word (w : string) (s : bytes) (i : nat) : bool := is_equ_n s i (of_text w) 0 (String.length w).

Definition is_int := is_word "<int>".
Definition is_uint := is_word "<uint>".
Definition is_float (s : bytes) (i : nat) : bool := is_word "<float>" s i || is_word "<double>" s i.
Definition is_str (s : bytes) (i : nat) : bool := is_word "<str>" s i || is_word "<string>" s i.
Definition is_path := is_word "<path>".

(** ** Tags *)

(** What follows up to the closing bracket; [None] is the exception
    [unmatched tag <]. *)
Fixpoint find_closing_tag (s : bytes) (p : nat) (fuel : nat) : option nat :=
  match fuel with
  | O => None
  | S fuel =>
      match s !! p with
      | None => None
      | Some c => if Ascii.eqb c ">" then Some p else find_closing_tag s (p + 1) fuel
      end
  end.

(** The digit of the parameter at [p]. *)
Definition tag_digit (s : bytes) (p : nat) : option Z :=
  if is_int s p then Some 1
  else if is_uint s p then Some 2
  else if is_float s p then Some 3
  else if is_str s p then Some 4
  else if is_path s p then Some 5
  else None.

(** [get_parameter_tag], in 64 bits; [None] is an exception, of which
    [invalid parameter type] is one. *)
Fixpoint get_parameter_tag_from (fuel : nat) (s : bytes) (p : nat) : option Z :=
  match fuel with
  | O => None
  | S fuel =>
      match s !! p with
      | None => Some 0
      | Some c =>
          if Ascii.eqb c "<" then
            d ← tag_digit s p;
            q ← find_closing_tag s p (S (length s));
            t ← get_parameter_tag_from fuel s q;
            Some (to_u64 (t * 6 + d))
          else get_parameter_tag_from fuel s (p + 1)
      end
  end.

Definition get_parameter_tag (s : bytes) : option Z := get_parameter_tag_from (S (length s)) s 0.

(** The types a parameter may have. *)
Inductive argument := int64_t | uint64_t | double_ | string_.

#[global] Instance argument_eq_dec : EqDecision argument.
Proof. solve_decision. Defined.

(** [parameter_tag] and [compute_parameter_tag_from_args_list]; no argument type
    has the tag 0. *)
Definition parameter_tag (a : argument) : Z :=
  match a with int64_t => 1 | uint64_t => 2 | double_ => 3 | string_ => 4 end.

Fixpoint compute_parameter_tag_from_args_list (l : list argument) : Z :=
  match l with
  | [] => 0
  | a :: l => compute_parameter_tag_from_args_list l * 6 + parameter_tag a
  end.

Definition single_tag_to_type (d : Z) : option argument :=
  if d =? 1 then Some int64_t
  else if d =? 2 then Some uint64_t
  else if d =? 3 then Some double_
  else if (d =? 4) || (d =? 5) then Some string_
  else None.

(** [arguments<Tag>]: the least digit is in front. *)
Fixpoint arguments (fuel : nat) (tag : Z) : option (list argument) :=
  match fuel with
  | O => None
  | S fuel =>
      if tag =? 0 then Some []
      else
        sub ← arguments fuel (tag / 6);
        a ← single_tag_to_type (tag mod 6);
        Some (a :: sub)
  end.

(** [is_parameter_tag_compatible]; [sb] is computed from [a], as in the code. *)
Fixpoint is_parameter_tag_compatible (fuel : nat) (a b : Z) : option bool :=
  match fuel with
  | O => None
  | S fuel =>
      if a =? 0 then Some (b =? 0)
      else if b =? 0 then Some (a =? 0)
      else
        let sa := a mod 6 in
        let sb := a mod 6 in
        let sa := if sa =? 5 then 4 else sa in
        let sb := if sb =? 5 then 4 else sb in
        if negb (sa =? sb) then Some false else is_parameter_tag_compatible fuel (a / 6) (b / 6)
  end.

(** ** Calling a handler *)

Inductive value := Int (z : Z) | Uint (z : Z) | Double (d : b64) | Str (s : bytes).

#[local] Open Scope nat_scope.

(** [call], with its four counters: the arguments, from the vectors of [params]. *)
Fixpoint call (n_int n_uint n_double n_string : nat) (types : list argument) (params : routing_params) : option (list value) :=
  match types with
  | [] => Some []
  | int64_t :: types =>
      x ← int_params params !! n_int; xs ← call (S n_int) n_uint n_double n_string types params; Some (Int x :: xs)
  | uint64_t :: types =>
      x ← uint_params params !! n_uint; xs ← call n_int (S n_uint) n_double n_string types params; Some (Uint x :: xs)
  | double_ :: types =>
      x ← double_params params !! n_double; xs ← call n_int n_uint (S n_double) n_string types params; Some (Double x :: xs)
  | string_ :: types =>
      x ← string_params params !! n_string; xs ← call n_int n_uint n_double (S n_string) types params; Some (Str x :: xs)
  end.

(** ** Methods *)

(** The names in the order they are compared with. *)
Definition method_table : list (string * HTTPMethod) :=
  [("GET", Get); ("DELETE", Delete); ("HEAD", Head); ("POST", Post); ("PUT", Put); ("OPTIONS", Options);
   ("CONNECT", Connect); ("TRACE", Trace); ("PATCH", Patch); ("PURGE", Purge); ("COPY", Copy); ("LOCK", Lock);
   ("MKCOL", MkCol); ("MOVE", Move); ("PROPFIND", Propfind); ("PROPPATCH", Proppatch); ("SEARCH", Search);
   ("UNLOCK", Unlock); ("BIND", Bind); ("REBIND", Rebind); ("UNBIND", Unbind); ("ACL", Acl); ("REPORT", Report);
   ("MKACTIVITY", MkActivity); ("CHECKOUT", Checkout); ("MERGE", Merge); ("MSEARCH", MSearch); ("NOTIFY", Notify);
   ("SUBSCRIBE", Subscribe); ("UNSUBSCRIBE", Unsubscribe); ("MKCALENDAR", MkCalendar); ("LINK", Link);
   ("UNLINK", Unlink); ("SOURCE", Source)].

(** [None] is the exception [invalid http method]. *)
Definition method_from_string (str : bytes) : option HTTPMethod :=
  snd <$> List.find (fun x => is_equ_p str (of_text (fst x)) (String.length (fst x))) method_table.

(** ** Tags of patterns *)

Definition argument_of (t : ParamType) : option argument :=
  match t with
  | INT => Some int64_t
  | UINT => Some uint64_t
  | DOUBLE => Some double_
  | STRING | PATH => Some string_
  | MAX => None
  end.

Definition digit_of (t : ParamType) : Z :=
  match t with INT => 1 | UINT => 2 | DOUBLE => 3 | STRING => 4 | PATH => 5 | MAX => 0 end.

Definition types_of (pat : list token) : list argument :=
  omap (fun tok => match tok with Param t => argument_of t | Char _ => None end) pat.

Lemma is_word_compare w s i : w <> EmptyString -> is_word w s i = compare_at s i (of_text w).
Proof.
  assert (Hl : String.length w = length (of_text w)) by (induction w; cbn; auto).
  intros Hw. assert (Hpos : 0 < String.length w) by (destruct w; [done|cbn; lia]).
  unfold is_word, is_equ_n, compare_at. rewrite Hl, drop_0, (take_ge (of_text w)) by lia.
  case_bool_decide as H1; cbn [orb].
  - symmetry. apply bool_decide_eq_false. intros H. apply (f_equal length) in H. rewrite length_take, length_drop in H. lia.
  - by rewrite bool_decide_eq_false_2 by lia.
Qed.

Lemma tag_digit_trait s p : tag_digit s p = (x ← trait_at s p; Some (digit_of (fst x))).
Proof.
  unfold tag_digit, is_int, is_uint, is_float, is_str, is_path. rewrite !is_word_compare by done. unfold trait_at. cbn [paramTraits List.find snd].
  repeat match goal with |- context [compare_at s p ?w] => destruct (compare_at s p w); [done|cbn [orb]] end. done.
Qed.

(** A name ends in its only closing bracket. *)
Lemma trait_name s p t name : trait_at s p = Some (t, name) -> compare_at s p name = true /\
  exists b, name = b ++ [">"%char] /\ Forall (fun c => c <> ">"%char) b /\ 2 <= length name.
Proof.
  intros H%find_some. destruct H as [Hin Hc]. split; [done|]. cbn in Hin.
  repeat (destruct Hin as [[= <- <-]|Hin];
    [match goal with |- exists b, ?n = _ /\ _ => exists (removelast n) end;
     split; [reflexivity|]; split; [cbn; by repeat constructor|cbn; lia]|]).
  done.
Qed.

Lemma find_closing_run s b p fuel : compare_at s p (b ++ [">"%char]) = true -> Forall (fun c => c <> ">"%char) b ->
  length b < fuel -> find_closing_tag s p fuel = Some (p + length b).
Proof.
  intros H Hb. revert p fuel H. induction Hb as [|c b Hc _ IH]; intros p [|fuel] H Hf; cbn [length] in Hf; try lia;
    cbn [app] in H; rewrite compare_at_cons in H; apply andb_prop in H as [Hp H]; apply bool_decide_eq_true in Hp; cbn [find_closing_tag]; rewrite Hp.
  - cbn. f_equal. lia.
  - rewrite (proj2 (Ascii.eqb_neq _ _) Hc). rewrite (IH (p + 1)) by (done || lia). f_equal. cbn. lia.
Qed.

(** The tag of a pattern, in 64 bits. *)
Fixpoint tag_of (pat : list token) : Z :=
  match pat with
  | [] => 0
  | Char _ :: pat => tag_of pat
  | Param t :: pat => to_u64 (tag_of pat * 6 + digit_of t)
  end.

Lemma tag_run s fuel i toks fuel' : tokenize fuel s i = Some toks -> length s < fuel' + i -> 0 < fuel' ->
  get_parameter_tag_from fuel' s i = Some (tag_of toks).
Proof.
  revert i toks fuel'. induction fuel as [|fuel IH]; intros i toks fuel' Ht Hf H0; [done|]. cbn [tokenize] in Ht.
  destruct (s !! i) as [c|] eqn:Ec.
  2:{ injection Ht as <-. destruct fuel' as [|fuel']; [lia|]. cbn [get_parameter_tag_from]. by rewrite Ec. }
  pose proof (lookup_lt_Some _ _ _ Ec) as Hi. destruct fuel' as [|fuel']; [lia|]. cbn [get_parameter_tag_from]. rewrite Ec.
  destruct (Ascii.eqb c "<").
  - rewrite tag_digit_trait. destruct (trait_at s i) as [[t name]|] eqn:Et; [|done]. cbn [mbind option_bind fst] in *.
    destruct (tokenize fuel s (i + length name)) as [toks'|] eqn:E'; [|done]. injection Ht as <-.
    destruct (trait_name _ _ _ _ Et) as (Hn & b & -> & Hb & Hl).
    assert (Hlen : i + length (b ++ [">"%char]) <= length s).
    { unfold compare_at in Hn. apply bool_decide_eq_true in Hn. apply (f_equal length) in Hn.
      rewrite length_take, length_drop in Hn. lia. }
    rewrite length_app in *. cbn [length] in *.
    rewrite (find_closing_run s b i) by (done || lia). cbn [mbind option_bind].
    assert (Hclose : s !! (i + length b) = Some ">"%char).
    { unfold compare_at in Hn. apply bool_decide_eq_true in Hn.
      rewrite <- lookup_drop. rewrite <- (take_drop (length (b ++ [">"%char])) (drop i s)), Hn.
      rewrite lookup_app_l by (rewrite length_app; cbn; lia). by rewrite lookup_app_r, Nat.sub_diag. }
    destruct fuel' as [|fuel']; [lia|]. cbn [get_parameter_tag_from]. rewrite Hclose.
    change (Ascii.eqb ">" "<") with false. cbn iota. rewrite (IH _ toks') by (rewrite <- ?Nat.add_assoc in *; done || lia). done.
  - destruct (tokenize fuel s (i + 1)) as [toks'|] eqn:E'; [|done]. injection Ht as <-. apply (IH _ toks'); [done|lia|lia].
Qed.

(** The digits of a list of arguments, as a pattern has them. *)
Definition digits_of (pat : list token) : list Z :=
  omap (fun tok => match tok with Param t => Some (digit_of t) | Char _ => None end) pat.

Definition base6 (ds : list Z) : Z := foldr (fun d n => n * 6 + d)%Z 0%Z ds.

Definition digit (d : Z) : Prop := (1 <= d <= 5)%Z.

Lemma base6_bound ds : Forall digit ds -> (0 <= base6 ds < 6 ^ Z.of_nat (length ds))%Z.
Proof.
  induction 1 as [|d ds Hd _ IH]; [done|]. cbn [base6 foldr length]. fold (base6 ds). unfold digit in Hd.
  rewrite Nat2Z.inj_succ, Z.pow_succ_r by lia. lia.
Qed.

Lemma arguments_run ds fuel : Forall digit ds -> length ds < fuel ->
  arguments fuel (base6 ds) = mapM single_tag_to_type ds.
Proof.
  intros Hd. revert fuel. induction Hd as [|d ds Hd Hds IH]; intros [|fuel] Hf; cbn [length] in Hf; try lia; [done|].
  pose proof (base6_bound ds Hds) as Hb. cbn [arguments base6 foldr mapM]. fold (base6 ds). unfold digit in Hd.
  rewrite (proj2 (Z.eqb_neq _ _)) by lia. rewrite Z.add_comm, Z.div_add, Z.div_small, Z.add_0_l by lia.
  rewrite Z.mod_add, Z.mod_small, IH by lia. by destruct (mapM single_tag_to_type ds), (single_tag_to_type d).
Qed.

(** A pattern without [MAX], as every URL has. *)
Definition proper_pattern (pat : list token) : Prop := Forall (fun tok => tok <> Param MAX) pat.

Lemma tokenize_proper fuel url i toks : tokenize fuel url i = Some toks -> proper_pattern toks.
Proof.
  revert i toks. induction fuel as [|fuel IH]; intros i toks; [done|]. cbn [tokenize].
  destruct (url !! i) as [c|]; [|by intros [= <-]; constructor]. destruct (Ascii.eqb c "<").
  - destruct (trait_at url i) as [[t name]|] eqn:Et; [|done]. cbn [mbind option_bind].
    destruct (tokenize fuel url (i + length name)) eqn:E; [|done]. intros [= <-]. constructor; [|by eapply IH].
    intros [= ->]. by apply trait_at_param in Et.
  - destruct (tokenize fuel url (i + 1)) eqn:E; [|done]. intros [= <-]. constructor; [done|by eapply IH].
Qed.

Lemma digits_proper pat : proper_pattern pat -> Forall digit (digits_of pat) /\
  mapM single_tag_to_type (digits_of pat) = Some (types_of pat) /\ length (digits_of pat) = length (types_of pat).
Proof.
  induction 1 as [|[c|t] pat Ht _ (Hd & Hm & Hl)]; [by repeat constructor|done|].
  unfold digits_of, types_of in *. destruct t; try done; cbn; rewrite Hm; (split; [constructor; [unfold digit; lia|done]|]); by cbn; rewrite Hl.
Qed.

Lemma tag_of_base6 pat : proper_pattern pat -> length (types_of pat) <= 24 -> tag_of pat = base6 (digits_of pat).
Proof.
  intros Hp. pose proof (digits_proper pat Hp) as (_ & _ & Hl). rewrite <- Hl. clear Hl.
  induction Hp as [|[c|t] pat Ht Hp IH]; intros Hle; [done|by apply IH|]. pose proof (digits_proper pat Hp) as (Hd & _ & _).
  pose proof (base6_bound _ Hd) as Hb. cbn [tag_of]. change (digits_of (Param t :: pat)) with (digit_of t :: digits_of pat) in *.
  cbn [length] in Hle. rewrite IH by lia. cbn [base6 foldr]. fold (base6 (digits_of pat)). apply to_u64_id.
  assert (Hpow : (6 ^ Z.of_nat (length (digits_of pat)) <= 6 ^ 23)%Z) by (apply Z.pow_le_mono_r; lia).
  assert (Hdg : (0 <= digit_of t <= 5)%Z) by (destruct t; cbn; lia).
  change (6 ^ 23)%Z with 789730223053602816%Z in Hpow. unfold ULLONG_MAX. lia.
Qed.

(** The tag of a URL gives back the types of its parameters. *)
Lemma tag_types url pat : pattern url = Some pat -> length (types_of pat) <= 24 ->
  exists tag, get_parameter_tag url = Some tag /\ arguments 25 tag = Some (types_of pat).
Proof.
  intros Hp Hl. pose proof (tokenize_proper _ _ _ _ Hp) as Hpp. pose proof (digits_proper pat Hpp) as (Hd & Hm & Hlen).
  exists (tag_of pat). split; [apply (tag_run url (S (length url)) 0); [done|lia|lia]|].
  rewrite tag_of_base6 by done. rewrite <- Hm. apply arguments_run; [done|lia].
Qed.

(** *** The check of dynamic rules *)

(** Two tags are compatible when they have the same number of digits: the second
    one's are never looked at. *)
Lemma compatible_counts ds es fuel : Forall digit ds -> Forall digit es -> length ds + length es < fuel ->
  is_parameter_tag_compatible fuel (base6 ds) (base6 es) = Some (bool_decide (length ds = length es)).
Proof.
  intros Hd. revert es fuel. induction Hd as [|d ds Hd Hds IH]; intros es [|fuel] He Hf; cbn [length] in Hf; try lia.
  - cbn. destruct He as [|e es He Hes]; [done|]. pose proof (base6_bound es Hes) as Hb. unfold digit in He.
    cbn [base6 foldr length]. fold (base6 es). by rewrite (proj2 (Z.eqb_neq _ _)) by lia.
  - pose proof (base6_bound ds Hds) as Hb. unfold digit in Hd. cbn [is_parameter_tag_compatible base6 foldr]. fold (base6 ds).
    rewrite (proj2 (Z.eqb_neq (base6 ds * 6 + d) 0)) by lia. destruct He as [|e es He Hes]; [done|].
    pose proof (base6_bound es Hes) as Hbe. unfold digit in He. cbn [base6 foldr length] in *. fold (base6 es).
    rewrite (proj2 (Z.eqb_neq (base6 es * 6 + e) 0)) by lia. rewrite Z.eqb_refl. cbn [negb].
    rewrite (Z.add_comm (base6 ds * 6)), Z.div_add, Z.div_small, Z.add_0_l by lia.
    rewrite (Z.add_comm (base6 es * 6)), Z.div_add, Z.div_small, Z.add_0_l by lia.
    rewrite IH by (done || lia). f_equal. apply bool_decide_ext. lia.
Qed.

(** ** The arguments of a handler *)

(** The parameters a request holds, one after the other. *)
Definition pushed (ps : routing_params) : option value :=
  match ps with
  | mkParams [z] [] [] [] => Some (Int z)
  | mkParams [] [z] [] [] => Some (Uint z)
  | mkParams [] [] [d] [] => Some (Double d)
  | mkParams [] [] [] [s] => Some (Str s)
  | _ => None
  end.

Fixpoint captured (url : bytes) (pat : list token) (pos : nat) : option (list value) :=
  match pat with
  | [] => if bool_decide (pos = length url) then Some [] else None
  | Char c :: pat => if bool_decide (url !! pos = Some c) then captured url pat (pos + 1) else None
  | Param t :: pat =>
      '(pos, ps) ← capture url pos t no_params;
      v ← pushed ps;
      vs ← captured url pat pos;
      Some (v :: vs)
  end.

Definition push (v : value) (ps : routing_params) : routing_params :=
  match v with
  | Int z => push_int z ps
  | Uint z => push_uint z ps
  | Double d => push_double d ps
  | Str s => push_string s ps
  end.

Definition type_of_value (v : value) : argument :=
  match v with Int _ => int64_t | Uint _ => uint64_t | Double _ => double_ | Str _ => string_ end.

(** What a parameter captures is one value of its type. *)
Lemma capture_push url pos t ps p' ps' : capture url pos t ps = Some (p', ps') ->
  exists v, ps' = push v ps /\ argument_of t = Some (type_of_value v) /\ capture url pos t no_params = Some (p', push v no_params).
Proof.
  unfold capture. destruct (url !! pos) as [c|]; [|done]. intros H. destruct t; [| | | | |done].
  - destruct (_ || _); [|done]. destruct (strtoll _) as [[z n] e]. destruct (_ && _); [|done]. injection H as <- <-. by exists (Int z).
  - destruct (_ || _); [|done]. destruct (strtoull _) as [[z n] e]. destruct (_ && _); [|done]. injection H as <- <-. by exists (Uint z).
  - destruct (_ || _); [|done]. destruct (strtod _) as [[d n] e]. destruct (_ && _); [|done]. injection H as <- <-. by exists (Double d).
  - case_bool_decide; [done|]. injection H as <- <-. by eexists (Str _).
  - injection H as <- <-. by eexists (Str _).
Qed.

Lemma pushed_push v : pushed (push v no_params) = Some v.
Proof. by destruct v. Qed.

(** Parameters that begin with others. *)
Definition extends (ps ps' : routing_params) : Prop :=
  int_params ps `prefix_of` int_params ps' /\ uint_params ps `prefix_of` uint_params ps' /\
  double_params ps `prefix_of` double_params ps' /\ string_params ps `prefix_of` string_params ps'.

Lemma extends_push v ps ps' : extends (push v ps) ps' -> extends ps ps'.
Proof.
  intros (H1 & H2 & H3 & H4). assert (Hs : forall A (l k : list A) x, (l ++ [x]) `prefix_of` k -> l `prefix_of` k).
  { intros A l k x Hk. etrans; [by apply prefix_app_r|exact Hk]. }
  destruct v; cbn in *; repeat split; eauto.
Qed.

Lemma consume_extends url pat pos ps ps' : consume url pat pos ps = Some ps' -> extends ps ps'.
Proof.
  revert pos ps. induction pat as [|[c|t] pat IH]; intros pos ps; cbn [consume].
  - case_bool_decide; [|done]. intros [= <-]. by repeat split.
  - case_bool_decide; [|done]. apply IH.
  - destruct (capture url pos t ps) as [[p' ps1]|] eqn:E; [|done]. cbn [mbind option_bind]. intros H%IH.
    apply capture_push in E as (v & -> & _). by apply extends_push in H.
Qed.

(** [call] from the place where [ps] ends. *)
Definition call_after (ps : routing_params) : list argument -> routing_params -> option (list value) :=
  call (length (int_params ps)) (length (uint_params ps)) (length (double_params ps)) (length (string_params ps)).

Lemma call_push v ps types ps' : extends (push v ps) ps' ->
  call_after ps (type_of_value v :: types) ps' = (vs ← call_after (push v ps) types ps'; Some (v :: vs)).
Proof.
  intros (H1 & H2 & H3 & H4). assert (Hn : forall A (l k : list A) x, (l ++ [x]) `prefix_of` k -> k !! length l = Some x).
  { intros A l k x (r & ->). by rewrite <- app_assoc, lookup_app_r, Nat.sub_diag. }
  destruct v; cbn in *; unfold call_after; cbn; rewrite ?length_app, ?Nat.add_1_r; cbn; by erewrite Hn.
Qed.

Lemma call_captured url pat pos ps ps' : proper_pattern pat -> consume url pat pos ps = Some ps' ->
  exists vs, captured url pat pos = Some vs /\ call_after ps (types_of pat) ps' = Some vs.
Proof.
  intros Hp. revert pos ps. induction Hp as [|[c|t] pat Ht _ IH]; intros pos ps H; cbn [consume captured] in *.
  - case_bool_decide; [|done]. by exists [].
  - case_bool_decide; [|done]. by apply IH.
  - destruct (capture url pos t ps) as [[p' ps1]|] eqn:E; [|done]. cbn [mbind option_bind] in H.
    pose proof (consume_extends _ _ _ _ _ H) as He. apply capture_push in E as (v & -> & Ha & ->).
    cbn [mbind option_bind]. rewrite pushed_push. cbn [mbind option_bind].
    destruct (IH p' (push v ps) H) as (vs & -> & Hc). exists (v :: vs). split; [done|].
    unfold types_of. cbn [omap list_omap]. rewrite Ha. change (omap _ pat) with (types_of pat).
    rewrite call_push by done. by rewrite Hc.
Qed.

(** C25: The tag of a rule's URL, in 64 bits, gives back the types of its parameters
    while there are no more than 24; and where a request matches the rule, calling
    a handler of those types with the parameters the search collected passes the
    values captured, each of its type, in the order of the URL. *)
Theorem handler_arguments url pat req ps : pattern url = Some pat -> length (types_of pat) <= 24 ->
  consume req pat 0 no_params = Some ps ->
  exists tag types vs, get_parameter_tag url = Some tag /\ arguments 25 tag = Some types /\
    captured req pat 0 = Some vs /\ call 0 0 0 0 types ps = Some vs.
Proof.
  intros Hp Hl Hc. destruct (tag_types url pat Hp Hl) as (tag & Htag & Hargs).
  destruct (call_captured req pat 0 no_params ps (tokenize_proper _ _ _ _ Hp) Hc) as (vs & Hv & Hcall).
  by exists tag, (types_of pat), vs.
Qed.

(** [/<str>/<int>/<path>] and [/a/-5/b/c]. *)
Lemma handler_arguments_witness : exists tag types vs,
  get_parameter_tag (of_text "/<str>/<int>/<path>") = Some tag /\ arguments 25 tag = Some types /\
  captured (of_text "/a/-5/b/c") (default [] (pattern (of_text "/<str>/<int>/<path>"))) 0 = Some vs /\
  call 0 0 0 0 types (mkParams [(-5)%Z] [] [] [of_text "a"; of_text "b/c"]) = Some vs.
Proof.
  apply handler_arguments; [by vm_compute| |by vm_compute].
  vm_compute. lia.
Defined.

(** A handler of a string passes for a URL with an integer. *)
Example incompatible_tags : is_parameter_tag_compatible 3 (base6 [1%Z]) (compute_parameter_tag_from_args_list [string_]) = Some true.
Proof. done. Qed.

(** ** Methods *)

(** Every method but one has the name it is read from. *)
Lemma method_names m : m <> MSearch ->
  (name ← method_name (Z.of_nat (method_number m)); method_from_string (of_text name)) = Some m.
Proof. by destruct m. Qed.

Example search_method : (name ← method_name (Z.of_nat (method_number MSearch)); method_from_string (of_text name)) = None.
Proof. done. Qed.
