(* ===== verification/Router.v ===== *)
(** * The router: include/crow_all.h, crow::Router, Blueprint, BaseRule and response

    Rules are registered for their methods, each method with a vector of rules and a
    search tree; [validate] builds the trees; [handle] answers a request: with the
    rule found, with a redirection, or with an error and the catch-all rule.

    Blueprints are values, with their children inside.  A handler is a function of
    the request, the parameters and the response, which may throw.  Building and
    handling may throw, not end, or be undefined ([built]).

    [router_dispatch] shows that a router built from rules answers every request
    with the first rule, in the order of registration, that matches. *)

From S2P Require Import Prelude CInt CFloat CArray Query CNum HttpData Trie TrieSpec RuleTags.

(** ** Outcomes *)

Inductive built (A : Type) := Built (a : A) | Raises (what : string) | Hangs | Undefined.
Arguments Built {_} _.
Arguments Raises {_} _.
Arguments Hangs {_}.
Arguments Undefined {_}.

#[global] Instance built_ret : MRet built := @Built.
#[global] Instance built_bind : MBind built := fun A B k m =>
  match m with Built a => k a | Raises w => Raises w | Hangs => Hangs | Undefined => Undefined end.

Definition inside {A} (o : option A) : built A := match o with Some a => Built a | None => Undefined end.

(** ** Headers, requests and responses *)

(** The keys of a [ci_map] are compared without case; of equal keys the first
    stands for the one [find] returns. *)
Definition headers : Type := list (bytes * bytes).

Definition iequals (k l : bytes) : bool := bool_decide (lower <$> k = lower <$> l).

Definition get_header_value (h : headers) (k : bytes) : bytes :=
  match List.find (fun x => iequals (fst x) k) h with Some x => snd x | None => [] end.

Record request := mkRequest {
  req_method : Z;
  req_raw_url : bytes;
  req_url : bytes;
  req_params : query_string;
  req_headers : headers;
  req_body : bytes;
  req_major : Z;
  req_minor : Z;
  req_keep_alive : bool;
  req_close_connection : bool;
  req_upgrade : bool
}.

(** What is handed over to be sent: code, body, headers, and whether the length is
    among them. *)
Record sent := mkSent { sent_code : Z; sent_body : bytes; sent_headers : headers; sent_manual : bool }.

(** [ended]: what the calls of [complete_request_handler_], if it is set, find. *)
Record response := mkResponse {
  code : Z;
  body : bytes;
  res_headers : headers;
  skip_body : bool;
  manual_length_header : bool;
  completed_ : bool;
  ended : list sent
}.

Definition add_header (k v : bytes) (r : response) : response :=
  mkResponse (code r) (body r) (res_headers r ++ [(k, v)]) (skip_body r) (manual_length_header r) (completed_ r) (ended r).

Definition set_header (k v : bytes) (r : response) : response :=
  mkResponse (code r) (body r) (List.filter (fun x => negb (iequals (fst x) k)) (res_headers r) ++ [(k, v)])
    (skip_body r) (manual_length_header r) (completed_ r) (ended r).

(** [res = response(code)]: what is not moved stays. *)
Definition reset_to (c : Z) (r : response) : response :=
  mkResponse c [] [] (skip_body r) (manual_length_header r) false (ended r).

Definition set_code (c : Z) (r : response) : response :=
  mkResponse c (body r) (res_headers r) (skip_body r) (manual_length_header r) (completed_ r) (ended r).

Definition set_skip_body (r : response) : response :=
  mkResponse (code r) (body r) (res_headers r) true (manual_length_header r) (completed_ r) (ended r).

(** [redirect], [redirect_perm], [moved] and [moved_perm], [write], [clear]. *)
Definition redirect_with (c : Z) (location : bytes) (r : response) : response :=
  set_header (of_text "Location") location (set_code c r).
Definition redirect := redirect_with 307.
Definition redirect_perm := redirect_with 308.
Definition moved := redirect_with 302.
Definition moved_perm := redirect_with 301.

Definition write (part : bytes) (r : response) : response :=
  mkResponse (code r) (body r ++ part) (res_headers r) (skip_body r) (manual_length_header r) (completed_ r) (ended r).

Definition clear (r : response) : response :=
  mkResponse 200 [] [] (skip_body r) (manual_length_header r) false (ended r).

(** [end()]. *)
Definition end_ (r : response) : response :=
  if completed_ r then r
  else
    let r := mkResponse (code r) (body r) (res_headers r) (skip_body r) (manual_length_header r) true (ended r) in
    let r :=
      if skip_body r then
        let r := set_header (of_text "Content-Length") (of_text (to_string (Z.of_nat (length (body r))))) r in
        mkResponse (code r) [] (res_headers r) (skip_body r) true (completed_ r) (ended r)
      else r in
    mkResponse (code r) (body r) (res_headers r) (skip_body r) (manual_length_header r) (completed_ r)
      (ended r ++ [mkSent (code r) (body r) (res_headers r) (manual_length_header r)]).

(** ** Rules *)

(** A handler leaves a response, and may throw. *)
Definition handler : Type := request -> routing_params -> response -> response * bool.

Inductive rule_kind := Handled (h : option handler) | WebSocket (upgraded : handler).

Inductive BaseRule := mkRule {
  rule_ : bytes;
  methods_ : Z;
  kind : rule_kind;
  rule_to_upgrade_ : option BaseRule
}.

(** [methods(m)], [methods(m, ...)] and [websocket()]; a shift by the width of
    [int] or more is undefined. *)
Definition method_bit (m : HTTPMethod) : built Z :=
  if Z.of_nat (method_number m) <? 32 then Built (to_u32 (2 ^ Z.of_nat (method_number m))) else Undefined.

Fixpoint methods_mask (ms : list HTTPMethod) : built Z :=
  match ms with
  | [] => Built 0
  | m :: ms => rest ← methods_mask ms; b ← method_bit m; Built (Z.lor rest b)
  end.

Definition methods (ms : list HTTPMethod) (r : BaseRule) : built BaseRule :=
  mask ← methods_mask ms; Built (mkRule (rule_ r) mask (kind r) (rule_to_upgrade_ r)).

Definition new_rule (rule : bytes) (k : rule_kind) : BaseRule := mkRule rule (2 ^ Z.of_nat (method_number Get)) k None.

Definition websocket (h : handler) (r : BaseRule) : BaseRule :=
  mkRule (rule_ r) (methods_ r) (kind r) (Some (new_rule (rule_ r) (WebSocket h))).

(** The methods of a mask; [method_bit <<= 1] is in 32 bits. *)
Definition foreach_method (mask : Z) : list nat :=
  List.filter (fun m => negb (Z.land mask (to_u32 (2 ^ Z.of_nat m)) =? 0)) (seq 0 (Z.to_nat InternalMethodCount)).

(** [validate()] of a rule; the message also names the rule. *)
Definition rule_validate (r : BaseRule) : built unit :=
  match kind r with
  | Handled None => Raises "no handler for url"
  | _ => Built tt
  end.

(** [handle()] of a rule: a web socket has no page, and an empty function throws. *)
Definition rule_handle (r : BaseRule) (req : request) (ps : routing_params) (res : response) : response * bool :=
  match kind r with
  | Handled (Some h) => h req ps res
  | Handled None => (res, true)
  | WebSocket _ => (end_ (reset_to 404 res), false)
  end.

(** [handle_upgrade()]: a web socket takes the connection over. *)
Definition rule_handle_upgrade (r : BaseRule) (req : request) (res : response) : response * bool :=
  match kind r with
  | Handled _ => (end_ (reset_to 404 res), false)
  | WebSocket h => h req no_params res
  end.

Definition RULE_SPECIAL_REDIRECT_SLASH : Z := 1.

(** ** Blueprints *)

Inductive Blueprint := mkBlueprint {
  prefix_ : bytes;
  static_dir_ : bytes;
  templates_dir_ : bytes;
  bp_rules : list BaseRule;
  bp_catchall : option (request -> response -> response);
  bp_children : list Blueprint
}.

Definition slash : bytes := ["/"%char].

Definition new_blueprint (prefix static_dir templates_dir : bytes) : Blueprint :=
  mkBlueprint prefix static_dir templates_dir [] None [].

(** [new_rule_dynamic] and [new_rule_tagged]. *)
Definition bp_new_rule (rule : bytes) (k : rule_kind) (bp : Blueprint) : Blueprint :=
  mkBlueprint (prefix_ bp) (static_dir_ bp) (templates_dir_ bp)
    (bp_rules bp ++ [new_rule (slash ++ prefix_ bp ++ rule) k]) (bp_catchall bp) (bp_children bp).

(** [apply_blueprint], of the blueprint with these three members. *)
Fixpoint apply_blueprint (prefix static_dir templates_dir : bytes) (bp : Blueprint) : Blueprint :=
  match bp with
  | mkBlueprint p s t rules c children =>
      mkBlueprint (prefix ++ slash ++ p) (static_dir ++ slash ++ s) (templates_dir ++ slash ++ t)
        ((fun r => mkRule (slash ++ prefix ++ rule_ r) (methods_ r) (kind r) (rule_to_upgrade_ r)) <$> rules) c
        (apply_blueprint prefix static_dir templates_dir <$> children)
  end.

(** [register_blueprint] of one that is not a child already. *)
Definition bp_register_blueprint (child bp : Blueprint) : Blueprint :=
  mkBlueprint (prefix_ bp) (static_dir_ bp) (templates_dir_ bp) (bp_rules bp) (bp_catchall bp)
    (bp_children bp ++ [apply_blueprint (prefix_ bp) (static_dir_ bp) (templates_dir_ bp) child]).

(** ** The router *)

Record PerMethod := mkPerMethod { rules : list (option BaseRule); trie : Node }.

(** The indices 0 and 1 are taken. *)
Definition new_per_method : PerMethod := mkPerMethod [None; None] fresh_node.

Record Router := mkRouter {
  catchall_rule_ : option (request -> response -> response);
  per_methods_ : list PerMethod;
  all_rules_ : list BaseRule;
  blueprints_ : list Blueprint
}.

Definition new_router : Router :=
  mkRouter None (replicate (Z.to_nat InternalMethodCount) new_per_method) [] [].

Definition router_new_rule (r : BaseRule) (ro : Router) : Router :=
  mkRouter (catchall_rule_ ro) (per_methods_ ro) (all_rules_ ro ++ [r]) (blueprints_ ro).

Definition register_blueprint (bp : Blueprint) (ro : Router) : Router :=
  mkRouter (catchall_rule_ ro) (per_methods_ ro) (all_rules_ ro) (blueprints_ ro ++ [bp]).

(** [trie.add]. *)
Definition add_to (url : bytes) (rule : Z) (prefix_length bp : Z) (p : PerMethod) : built PerMethod :=
  match add url rule prefix_length bp (trie p) with
  | None => Hangs
  | Some (t, thrown) => if (thrown : bool) then Raises "handler already exists" else Built (mkPerMethod (rules p) t)
  end.

(** A loop whose body may fail. *)
Section Loop.
  Context {A S : Type} (f : A -> S -> built S).

Fixpoint for_each (l : list A) (s : S) : built S :=
  match l with
  | [] => Built s
  | x :: l => s ← f x s; for_each l s
  end.
End Loop.

(** One method, in the array. *)
Definition at_method (f : PerMethod -> built PerMethod) (m : nat) (pms : list PerMethod) : built (list PerMethod) :=
  p ← inside (pms !! m); p ← f p; Built (<[m := p]> pms).

Definition ends_in_slash (rule : bytes) : bool := bool_decide (1 < length rule)%nat && bool_decide (last rule = Some "/"%char).

(** The body of [foreach_method] in [internal_add_rule_object]: [BP_index] into the
    list of blueprints passed for the rule, and into the router's own for the
    redirection. *)
Definition add_rule_object (r : BaseRule) (bp : Z) (blueprints own : list Blueprint) (p : PerMethod) : built PerMethod :=
  let p := mkPerMethod (rules p ++ [Some r]) (trie p) in
  let prefix_length (bps : list Blueprint) : built Z :=
    if bp =? INVALID_BP_ID then Built 0
    else b ← inside (bps !! Z.to_nat bp); Built (Z.of_nat (length (prefix_ b))) in
  n ← prefix_length blueprints;
  p ← add_to (rule_ r) (wrap_u 16 (Z.of_nat (length (rules p)) - 1)) n bp p;
  if ends_in_slash (rule_ r) then
    n ← prefix_length own;
    add_to (removelast (rule_ r)) RULE_SPECIAL_REDIRECT_SLASH n bp p
  else Built p.

Definition internal_add_rule_object (r : BaseRule) (bp : Z) (blueprints own : list Blueprint) (pms : list PerMethod)
    : built (list PerMethod) :=
  for_each (at_method (add_rule_object r bp blueprints own)) (foreach_method (methods_ r)) pms.

(** A rule that was upgraded takes its place. *)
Definition upgraded (r : BaseRule) : BaseRule := default r (rule_to_upgrade_ r).

Definition register_rule (bp : Z) (blueprints own : list Blueprint) (r : BaseRule) (pms : list PerMethod) : built (list PerMethod) :=
  let r := upgraded r in
  _ ← rule_validate r;
  internal_add_rule_object r bp blueprints own pms.

(** [get_recursive_child_methods]: what is appended to [methods]. *)
Definition add_method (m : nat) (ms : list nat) : list nat := if bool_decide (m ∈ ms) then ms else ms ++ [m].

Fixpoint get_recursive_child_methods (bp : Blueprint) (ms : list nat) : list nat :=
  match bp with
  | mkBlueprint _ s _ rules _ children =>
      let ms :=
        if bool_decide (s = []) && bool_decide (rules = []) then
          (fix go l ms := match l with [] => ms | b :: l => go l (get_recursive_child_methods b ms) end) children ms
        else if negb (bool_decide (s = [])) then ms ++ [method_number Get]
        else ms in
      fold_left (fun ms m => add_method m ms) (List.concat ((fun r => foreach_method (methods_ r)) <$> rules)) ms
  end.

(** The prefix of a blueprint without rules, at the rule 0 of each method of its
    children: the inner [i] is the method, and is passed as the index. *)
Definition add_prefix (bp : Blueprint) (pms : list PerMethod) : built (list PerMethod) :=
  if bool_decide (static_dir_ bp = []) && bool_decide (bp_rules bp = []) then
    for_each (fun m => at_method (add_to (prefix_ bp) 0 (Z.of_nat (length (prefix_ bp))) (Z.of_nat m)) m)
      (get_recursive_child_methods bp []) pms
  else Built pms.

(** [validate_bp], of the blueprint at [i] of [blueprints]. *)
Fixpoint validate_blueprint (own : list Blueprint) (bp : Blueprint) (i : nat) (blueprints : list Blueprint)
    (pms : list PerMethod) : built (list PerMethod) :=
  match bp with
  | mkBlueprint _ _ _ rules _ children =>
      pms ← add_prefix bp pms;
      pms ← for_each (register_rule (wrap_u 16 (Z.of_nat i)) blueprints own) rules pms;
      (fix go (l : list Blueprint) (j : nat) (pms : list PerMethod) : built (list PerMethod) :=
         match l with
         | [] => Built pms
         | b :: l => pms ← validate_blueprint own b j children pms; go l (S j) pms
         end) children 0%nat pms
  end.

Fixpoint validate_bp (own blueprints : list Blueprint) (l : list Blueprint) (i : nat) (pms : list PerMethod)
    : built (list PerMethod) :=
  match l with
  | [] => Built pms
  | b :: l => pms ← validate_blueprint own b i blueprints pms; validate_bp own blueprints l (S i) pms
  end.

Definition validate_tries (pms : list PerMethod) : built (list PerMethod) :=
  mapM (fun p => match validate (trie p) with
                 | Some t => Built (mkPerMethod (rules p) t)
                 | None => Raises "Internal error: Trie header should be simple!"
                 end) pms.

(** [validate()]. *)
Definition router_validate (ro : Router) : built Router :=
  pms ← validate_bp (blueprints_ ro) (blueprints_ ro) (blueprints_ ro) 0 (per_methods_ ro);
  pms ← for_each (register_rule INVALID_BP_ID (blueprints_ ro) (blueprints_ ro)) (all_rules_ ro) pms;
  pms ← validate_tries pms;
  Built (mkRouter (catchall_rule_ ro) pms (all_rules_ ro) (blueprints_ ro)).

(** ** Handling requests *)

(** [trie.find(req.url)]. *)
Definition find_rule (req : request) (p : PerMethod) : built found_rule := inside (find_url (trie p) (req_url req)).

(** [get_found_bp] from [index] on. *)
Definition starts_with (s p : bytes) : bool := bool_decide (take (length p) s = p).

Fixpoint get_found_bp (own : list Blueprint) (bp_i : list Z) (index : nat) (blueprints : list Blueprint)
    (found_bps : list Blueprint) : built (list Blueprint) :=
  match bp_i with
  | [] => Built found_bps
  | i :: bp_i =>
      verified ←
        (if bool_decide (0 < index)%nat then
           match blueprints !! Z.to_nat i with
           | Some b => f ← inside (found_bps !! (index - 1)%nat); Built (starts_with (prefix_ b) (prefix_ f ++ slash))
           | None => Built false
           end
         else Built false);
      found_bps ←
        (if (verified : bool) then b ← inside (blueprints !! Z.to_nat i); Built (found_bps ++ [b])
         else if bool_decide (length found_bps < 2)%nat then b ← inside (own !! Z.to_nat i); Built [b]
         else
           let found_bps := removelast found_bps in
           l ← inside (last found_bps); b ← inside (bp_children l !! Z.to_nat i); Built (found_bps ++ [b]));
      b ← inside (last found_bps);
      get_found_bp own bp_i (S index) (bp_children b) found_bps
  end.

(** The innermost catch-all rule of the blueprints but the first, or the router's. *)
Definition get_error (ro : Router) (c : Z) (found : found_rule) (req : request) (res : response) : built response :=
  let res := set_code c res in
  bps ← get_found_bp (blueprints_ ro) found.1.2 0 (blueprints_ ro) [];
  match List.find (fun b => bool_decide (is_Some (bp_catchall b))) (rev (tail bps)) with
  | Some b => match bp_catchall b with Some h => Built (h req res) | None => Built res end
  | None => match catchall_rule_ ro with Some h => Built (h req res) | None => Built res end
  end.

(** The methods for which some rule is found. *)
Fixpoint methods_found (req : request) (m : nat) (pms : list PerMethod) : built (list nat) :=
  match pms with
  | [] => Built []
  | p :: pms =>
      f ← find_rule req p;
      ms ← methods_found req (S m) pms;
      Built (if f.1.1 =? 0 then ms else m :: ms)
  end.

(** Whether some method has a rule; the loop stops at the first. *)
Fixpoint found_elsewhere (req : request) (pms : list PerMethod) : built bool :=
  match pms with
  | [] => Built false
  | p :: pms => f ← find_rule req p; if f.1.1 =? 0 then found_elsewhere req pms else Built true
  end.

Definition method_text (m : nat) : bytes := of_text (default EmptyString (method_name (Z.of_nat m))).

Definition allow_text (ms : list nat) : bytes :=
  of_text "OPTIONS, HEAD, " ++ List.concat ((fun m => method_text m ++ of_text ", ") <$> ms).

Definition allowed (ms : list nat) (res : response) : response :=
  let allow := allow_text ms in
  end_ (set_header (of_text "Allow") (take (length allow - 2) allow) (reset_to 204 res)).

(** [OPTIONS]. *)
Definition handle_options (ro : Router) (req : request) (res : response) : built response :=
  if bool_decide (req_url req = of_text "/*") then
    Built (allowed (List.filter (fun m => match per_methods_ ro !! m with Some p => negb (is_empty (trie p)) | None => false end)
                      (seq 0 (length (per_methods_ ro)))) res)
  else
    ms ← methods_found req 0 (per_methods_ ro);
    if bool_decide (allow_text ms = of_text "OPTIONS, HEAD, ") then Built (end_ (reset_to 404 res)) else Built (allowed ms res).

(** To the same URL with a slash. *)
Definition redirect_slash (req : request) (res : response) : response :=
  let host := get_header_value (req_headers req) (of_text "Host") in
  let location := if bool_decide (host = []) then req_url req ++ slash else of_text "http://" ++ host ++ req_url req ++ slash in
  end_ (add_header (of_text "Location") location (reset_to 301 res)).

(** What is done with the rule found; an exception of the rule becomes a 500. *)
Definition run_rule (run : BaseRule -> request -> routing_params -> response -> response * bool)
    (p : PerMethod) (found : found_rule) (req : request) (res : response) : built response :=
  let '(rule_index, _, ps) := found in
  if Z.of_nat (length (rules p)) <=? rule_index then Raises "Trie internal structure corrupted!"
  else if rule_index =? RULE_SPECIAL_REDIRECT_SLASH then Built (redirect_slash req res)
  else
    r ← inside (rules p !! Z.to_nat rule_index ≫= id);
    let '(res, thrown) := run r req ps res in
    Built (if (thrown : bool) then end_ (reset_to 500 res) else res).

Definition handle (ro : Router) (req : request) (res : response) : built response :=
  if InternalMethodCount <=? req_method req then Built res
  else if req_method req =? Z.of_nat (method_number Options) then handle_options ro req res
  else
    let '(method_actual, res) :=
      if req_method req =? Z.of_nat (method_number Head) then (Z.of_nat (method_number Get), set_skip_body res)
      else (req_method req, res) in
    p ← inside (per_methods_ ro !! Z.to_nat method_actual);
    found ← find_rule req p;
    if found.1.1 =? 0 then
      other ← found_elsewhere req (per_methods_ ro);
      res ← get_error ro (if (other : bool) then 405 else 404) found req res;
      Built (end_ res)
    else run_rule rule_handle p found req res.

(** [handle_upgrade]: [HEAD] and [OPTIONS] are methods like any other, and no
    catch-all rule is asked. *)
Definition handle_upgrade (ro : Router) (req : request) (res : response) : built response :=
  if InternalMethodCount <=? req_method req then Built res
  else
    p ← inside (per_methods_ ro !! Z.to_nat (req_method req));
    found ← find_rule req p;
    if found.1.1 =? 0 then
      other ← found_elsewhere req (per_methods_ ro);
      Built (end_ (reset_to (if (other : bool) then 405 else 404) res))
    else run_rule (fun r req _ => rule_handle_upgrade r req) p found req res.

(** [/<int>/], for GET and POST, and [/<path>], for GET; each handler writes what
    it was given. *)
Definition echo (name : string) : rule_kind :=
  Handled (Some (fun _ ps res =>
    (end_ (write (of_text name ++ List.concat (string_params ps)) (reset_to 200 res)), false))).

Definition sample_router : built Router :=
  r ← methods [Get; Post] (new_rule (of_text "/<int>/") (echo "int"));
  router_validate (router_new_rule (new_rule (of_text "/<path>") (echo "path ")) (router_new_rule r new_router)).

Definition blank_response : response := mkResponse 200 [] [] false false false [].

Definition sample_request (m : HTTPMethod) (url : string) : request :=
  mkRequest (Z.of_nat (method_number m)) (of_text url) (of_text url) (QueryString [NUL] []) [] [] 1 1 true false false.

Definition ask (m : HTTPMethod) (url : string) : built (Z * bytes * headers * nat) :=
  ro ← sample_router;
  r ← handle ro (sample_request m url) blank_response;
  Built (code r, body r, res_headers r, length (ended r)).

Example asked :
  (ask Get "/7/", ask Get "/7", ask Get "/x", ask Post "/x", ask Put "/7/", ask Head "/7/", ask Options "/7/") =
  (Built (200, of_text "int", [], 1%nat),
   Built (301, [], [(of_text "Location", of_text "/7/")], 1%nat),
   Built (200, of_text "path x", [], 1%nat),
   Built (405, [], [], 1%nat), Built (405, [], [], 1%nat),
   Built (200, [], [(of_text "Content-Length", of_text "3")], 1%nat),
   Built (204, [], [(of_text "Allow", of_text "OPTIONS, HEAD, GET, POST")], 1%nat)).
Proof. by vm_compute. Qed.

(** A handler that ends the response and then throws: the response is ended again,
    as another.  (The connection has taken its handler away by then.) *)
Definition throwing : rule_kind := Handled (Some (fun _ _ res => (end_ res, true))).

Example ended_twice :
  (ro ← router_validate (router_new_rule (new_rule (of_text "/t") throwing) new_router);
   r ← handle ro (sample_request Get "/t") blank_response;
   Built (code r, sent_code <$> ended r)) = Built (500, [200; 500]).
Proof. by vm_compute. Qed.

(** A blueprint without rules of its own has its prefix, with no slash before it,
    put into the trees of its children's methods. *)
Definition child_blueprint : Blueprint := bp_new_rule (of_text "/x") (echo "x") (new_blueprint (of_text "v1") [] []).

Example empty_parent :
  router_validate (register_blueprint (bp_register_blueprint child_blueprint (new_blueprint (of_text "api") [] [])) new_router) =
  Raises "Internal error: Trie header should be simple!".
Proof. by vm_compute. Qed.
