(* ===== verification/RouterSpec.v ===== *)
(** * The router answers with the first rule that matches

    [method_entries] are the rules of one method as they come into its tree,
    [router_built] shows that [validate] builds those trees, and [router_dispatch]
    what [handle] then does with every request. *)

From S2P Require Import Prelude CInt CFloat CArray CNum HttpData Trie TrieSpec RuleTags Router.

#[local] Open Scope nat_scope.

(** ** What is added for a rule *)

Definition rule_entries (r : BaseRule) (k : nat) : list entry :=
  mkEntry (rule_ r) (wrap_u 16 (Z.of_nat k)) 0 INVALID_BP_ID ::
  (if ends_in_slash (rule_ r) then [mkEntry (removelast (rule_ r)) RULE_SPECIAL_REDIRECT_SLASH 0 INVALID_BP_ID] else []).

Lemma add_all_app a b n : add_all (a ++ b) n = (n ← add_all a n; add_all b n).
Proof.
  revert n. induction a as [|e a IH]; intros n; [done|]. cbn [app add_all].
  destruct (add _ _ _ _ n) as [[n' thrown]|]; [|done]. cbn [mbind option_bind]. destruct thrown; [done|apply IH].
Qed.

Lemma add_to_run u k l b p t : add_all [mkEntry u k l b] (trie p) = Some t -> add_to u k l b p = Built (mkPerMethod (rules p) t).
Proof.
  cbn [add_all e_url e_rule e_prefix e_blueprint]. unfold add_to. destruct (add u k l b (trie p)) as [[n thrown]|]; [|done].
  cbn [mbind option_bind]. destruct thrown; [done|]. by intros [= ->].
Qed.

Lemma add_rule_object_run r own p t : add_all (rule_entries r (length (rules p))) (trie p) = Some t ->
  add_rule_object r INVALID_BP_ID own own p = Built (mkPerMethod (rules p ++ [Some r]) t).
Proof.
  unfold rule_entries. intros H. change (?e :: ?l) with ([e] ++ l) in H. rewrite add_all_app in H.
  destruct (add_all [_] (trie p)) as [n|] eqn:E; [|done]. cbn [mbind option_bind] in H.
  unfold add_rule_object. rewrite Z.eqb_refl. cbn [mbind built_bind rules].
  assert (Hk : (Z.of_nat (length (rules p ++ [Some r])) - 1)%Z = Z.of_nat (length (rules p))) by (rewrite length_app; cbn; lia).
  rewrite Hk. rewrite (add_to_run _ _ _ _ (mkPerMethod (rules p ++ [Some r]) (trie p)) n) by done. cbn [mbind built_bind rules].
  destruct (ends_in_slash (rule_ r)); [|by injection H as ->].
  by rewrite (add_to_run _ _ _ _ (mkPerMethod (rules p ++ [Some r]) n) t).
Qed.

(** A loop over different methods does to each what it does to one. *)
Lemma for_each_methods f ms pms (g : nat -> PerMethod) : NoDup ms ->
  (forall m, m ∈ ms -> exists p, pms !! m = Some p /\ f p = Built (g m)) ->
  exists pms', for_each (at_method f) ms pms = Built pms' /\ length pms' = length pms /\
    (forall m, m ∈ ms -> pms' !! m = Some (g m)) /\ (forall m, m ∉ ms -> pms' !! m = pms !! m).
Proof.
  intros Hd. revert pms. induction Hd as [|m ms Hm Hd IH]; intros pms H.
  { exists pms. split; [done|]. split; [done|]. split; [by intros m ?%elem_of_nil|done]. }
  destruct (H m) as (p & Hp & Hf); [by left|]. cbn [for_each].
  assert (Hone : at_method f m pms = Built (<[m := g m]> pms)) by (unfold at_method; rewrite Hp; cbn [inside mbind built_bind]; by rewrite Hf).
  rewrite Hone. cbn [mbind built_bind]. destruct (IH (<[m := g m]> pms)) as (pms' & -> & Hl & H1 & H2).
  { intros m' Hm'. destruct (H m') as (p' & Hp' & Hf'); [by right|]. exists p'. split; [|done].
    rewrite list_lookup_insert_ne; [done|]. by intros ->. }
  exists pms'. split; [done|]. rewrite length_insert in Hl. split; [done|]. split.
  - intros m' [->|Hm']%elem_of_cons; [|by apply H1]. rewrite H2 by done. apply list_lookup_insert_eq.
    by eapply lookup_lt_Some.
  - intros m' Hm'. apply not_elem_of_cons in Hm' as [Hne Hm']. rewrite H2 by done. by rewrite list_lookup_insert_ne.
Qed.

(** ** The rules of a method *)

Definition for_method (m : nat) (r : BaseRule) : bool := bool_decide (m ∈ foreach_method (methods_ r)).

Definition method_rules (m : nat) (rs : list BaseRule) : list BaseRule := List.filter (for_method m) rs.

Fixpoint entries_from (k : nat) (rs : list BaseRule) : list entry :=
  match rs with
  | [] => []
  | r :: rs => rule_entries r k ++ entries_from (S k) rs
  end.

(** From the index 2 on. *)
Definition method_entries (m : nat) (rs : list BaseRule) : list entry := entries_from 2 (method_rules m rs).

Definition has_handler (r : BaseRule) : Prop := match kind r with Handled None => False | _ => True end.

Lemma foreach_method_NoDup mask : NoDup (foreach_method mask).
Proof. unfold foreach_method. apply NoDup_ListNoDup, List.NoDup_filter, List.seq_NoDup. Qed.

Lemma foreach_method_lt mask m : m ∈ foreach_method mask -> m < 34.
Proof. unfold foreach_method. intros [H _]%list_elem_of_In%filter_In. apply in_seq in H. change (Z.to_nat InternalMethodCount) with 34 in H. lia. Qed.

Lemma register_rule_run own r pms (g : nat -> PerMethod) : has_handler (upgraded r) -> length pms = 34 ->
  (forall m, m < 34 -> exists p, pms !! m = Some p /\
     if for_method m (upgraded r)
     then exists t, add_all (rule_entries (upgraded r) (length (rules p))) (trie p) = Some t /\ g m = mkPerMethod (rules p ++ [Some (upgraded r)]) t
     else g m = p) ->
  exists pms', register_rule INVALID_BP_ID own own r pms = Built pms' /\ length pms' = 34 /\
    forall m, m < 34 -> pms' !! m = Some (g m).
Proof.
  intros Hh Hl H. unfold register_rule. assert (Hv : rule_validate (upgraded r) = Built tt).
  { unfold rule_validate, has_handler in *. by destruct (kind _) as [[]|]. }
  rewrite Hv. cbn [mbind built_bind]. unfold internal_add_rule_object.
  destruct (for_each_methods (add_rule_object (upgraded r) INVALID_BP_ID own own) (foreach_method (methods_ (upgraded r))) pms g)
    as (pms' & -> & Hl' & H1 & H2); [apply foreach_method_NoDup| |].
  - intros m Hm. destruct (H m (foreach_method_lt _ _ Hm)) as (p & Hp & Hg). exists p. split; [done|].
    unfold for_method in Hg. rewrite bool_decide_eq_true_2 in Hg by done. destruct Hg as (t & Ht & ->). by apply add_rule_object_run.
  - exists pms'. split; [done|]. split; [congruence|]. intros m Hm. destruct (H m Hm) as (p & Hp & Hg).
    unfold for_method in Hg. case_bool_decide as Hin; [by apply H1|]. rewrite H2 by done. by rewrite Hp, Hg.
Qed.

(** All rules, one after the other. *)
Lemma register_rules_run own rs pms (T : nat -> Node) : Forall has_handler (upgraded <$> rs) -> length pms = 34 ->
  (forall m, m < 34 -> exists p, pms !! m = Some p /\
     add_all (entries_from (length (rules p)) (method_rules m (upgraded <$> rs))) (trie p) = Some (T m)) ->
  exists pms', for_each (register_rule INVALID_BP_ID own own) rs pms = Built pms' /\ length pms' = 34 /\
    forall m p, m < 34 -> pms !! m = Some p ->
      pms' !! m = Some (mkPerMethod (rules p ++ (Some <$> method_rules m (upgraded <$> rs))) (T m)).
Proof.
  revert pms. induction rs as [|r rs IH]; intros pms Hh Hl H.
  { exists pms. split; [done|]. split; [done|]. intros m p Hm Hp. destruct (H m Hm) as (p' & Hp' & Ht). rewrite Hp in Hp'.
    injection Hp' as <-. injection Ht as <-. rewrite app_nil_r. by destruct p. }
  cbn [fmap list_fmap] in Hh, H. apply Forall_cons in Hh as [Hr Hh].
  set (g := fun m => match pms !! m with
    | Some p => if for_method m (upgraded r)
                then mkPerMethod (rules p ++ [Some (upgraded r)]) (default fresh_node (add_all (rule_entries (upgraded r) (length (rules p))) (trie p)))
                else p
    | None => new_per_method end).
  assert (Hg : forall m, m < 34 -> exists p, pms !! m = Some p /\ g m = (if for_method m (upgraded r)
      then mkPerMethod (rules p ++ [Some (upgraded r)]) (default fresh_node (add_all (rule_entries (upgraded r) (length (rules p))) (trie p)))
      else p) /\
    add_all (entries_from (length (rules (g m))) (method_rules m (upgraded <$> rs))) (trie (g m)) = Some (T m) /\
    (for_method m (upgraded r) = true -> exists t, add_all (rule_entries (upgraded r) (length (rules p))) (trie p) = Some t)).
  { intros m Hm. destruct (H m Hm) as (p & Hp & Ht). exists p. split; [done|]. unfold g. rewrite Hp. split; [done|].
    unfold method_rules in *. cbn [List.filter] in Ht. destruct (for_method m (upgraded r)); [|done].
    cbn [entries_from] in Ht. rewrite add_all_app in Ht. destruct (add_all (rule_entries _ _) _) as [t|]; [|done]. split; [|by eexists].
    cbn [default rules trie]. rewrite length_app, Nat.add_1_r. exact Ht. }
  destruct (register_rule_run own r pms g Hr Hl) as (pms1 & E1 & Hl1 & H1).
  { intros m Hm. destruct (Hg m Hm) as (p & Hp & Hgm & _ & Hex). exists p. split; [done|].
    destruct (for_method m (upgraded r)); [|done]. destruct (Hex eq_refl) as (t & Ht). exists t. rewrite Ht in Hgm. done. }
  cbn [for_each]. rewrite E1. cbn [mbind built_bind]. destruct (IH pms1 Hh Hl1) as (pms2 & E2 & Hl2 & H2).
  { intros m Hm. destruct (Hg m Hm) as (p & _ & _ & Ht & _). exists (g m). by rewrite H1. }
  exists pms2. split; [done|]. split; [done|]. intros m p Hm Hp.
  rewrite (H2 m (g m) Hm (H1 m Hm)). destruct (Hg m Hm) as (p' & Hp' & Hgm & _). rewrite Hp in Hp'. injection Hp' as <-.
  do 2 f_equal. rewrite Hgm. unfold method_rules. cbn [fmap list_fmap List.filter].
  destruct (for_method m (upgraded r)); [|done]. cbn [rules fmap list_fmap]. by rewrite <- app_assoc.
Qed.

(** ** Trees without blueprints *)

Inductive plain : Node -> Prop :=
  | plain_node rule k p cs : Forall plain cs -> plain (mkNode rule INVALID_BP_ID k p cs).

Definition plain_progress (st : progress) : Prop := found_BP st = [] /\ blueprints st = [].

Definition finds_none (url : bytes) (n : Node) : Prop :=
  forall pos ps r, find url n pos ps [] = Some r -> r.1.1.2 = [] /\ r.2 = [].

Lemma plain_each url pos ps cs st st' : Forall (fun c => plain c -> finds_none url c) cs -> Forall plain cs -> plain_progress st ->
  each (fun child => try_child url pos ps child (find url child)) cs st = Some st' -> plain_progress st'.
Proof.
  intros Hf Hp. revert Hf st. induction Hp as [|c cs Hc _ IH]; intros Hf st Hst H; cbn [each] in H; [by injection H as <-|].
  inversion Hf as [|? ? Hd Hf']; subst. specialize (Hd Hc).
  destruct (try_child _ _ _ _ _ _) as [st1|] eqn:E; [|done]. apply (IH Hf' st1); [|done]. clear IH H.
  unfold try_child in E. destruct (enter url pos c ps) as [[epos ps1]|]; [|by injection E as <-].
  destruct Hst as [H1 H2]. destruct Hc as [rule k p cs' _]. cbn [blueprint_index] in E. rewrite Z.eqb_refl, H2 in E.
  destruct (find url _ epos ps1 []) as [[[[r bp] ps2] bps]|] eqn:Ef; [|done]. destruct (Hd _ _ _ Ef) as [Hb Hl]. cbn in Hb, Hl. subst bp bps.
  cbn [mbind option_bind] in E. injection E as <-. unfold update_found. by destruct (_ && _).
Qed.

(** No blueprint is ever found. *)
Lemma plain_find url n : plain n -> finds_none url n.
Proof.
  induction n as [rule bp k p cs IH] using node_ind'. intros Hn pos ps r H. inversion Hn as [? ? ? ? Hc]; subst.
  cbn [find] in H. case_bool_decide; [by injection H as <-|]. case_bool_decide; [done|].
  destruct (each _ _ _) as [st|] eqn:E; [|done]. cbn [mbind option_bind] in H. injection H as <-.
  destruct (plain_each _ pos ps _ (mkProgress 0 [] no_params false []) st IH Hc) as [Hb Hl]; [done|exact E|]. by destruct (found_fragment st); rewrite ?Hb, ?Hl.
Qed.

Lemma plain_descend p new go n n' thrown : plain n -> plain new ->
  (forall c c' thrown, plain c -> go c = Some (c', thrown) -> plain c') -> descend p new go n = Some (n', thrown) -> plain n'.
Proof.
  intros [rule k pr cs Hc] Hnew Hgo. unfold descend. cbn [children rule_index blueprint_index key param].
  destruct (list_find p cs) as [[i c]|] eqn:E; intros H.
  - apply list_find_Some in E as (Hi & _). destruct (go c) as [[c' th]|] eqn:Eg; [|done]. injection H as <- _. constructor.
    apply Forall_insert; [done|]. eapply Hgo; [|exact Eg]. by apply (Forall_lookup_1 _ _ _ _ Hc Hi).
  - destruct (go new) as [[c' th]|] eqn:Eg; [|done]. injection H as <- _. constructor. apply Forall_app. split; [done|].
    constructor; [|done]. by eapply Hgo.
Qed.

Lemma plain_add_loop fuel url rule len i n n' thrown : plain n -> add_loop fuel url rule len INVALID_BP_ID i n = Some (n', thrown) -> plain n'.
Proof.
  assert (Hnew : forall t c, plain (mkNode 0 INVALID_BP_ID c t [])) by (by constructor).
  revert i n n' thrown. induction fuel as [|fuel IH]; intros i n n' thrown Hn H; [done|]. cbn [add_loop] in H.
  destruct (url !! i) as [c|].
  - destruct (Ascii.eqb c "<").
    + destruct (trait_at url i) as [[t name]|]; [|by eapply IH]. eapply plain_descend; [exact Hn|apply Hnew| |exact H].
      intros; by eapply IH.
    + rewrite Z.eqb_refl, andb_false_r in H. cbn [negb andb] in H. eapply plain_descend; [exact Hn|apply Hnew| |exact H].
      intros; by eapply IH.
  - destruct (rule_index n =? 0)%Z; injection H as <- _; [|done]. destruct Hn. by constructor.
Qed.

Lemma plain_add_all es n t : Forall (fun e => e_blueprint e = INVALID_BP_ID) es -> plain n -> add_all es n = Some t -> plain t.
Proof.
  intros Hf. revert n. induction Hf as [|e es He _ IH]; intros n Hn H; [by injection H as <-|]. cbn [add_all] in H. rewrite He in H.
  destruct (add _ _ _ _ n) as [[n' thrown]|] eqn:E; [|done]. cbn [mbind option_bind] in H. destruct thrown; [done|].
  apply (IH n'); [|done]. by eapply plain_add_loop.
Qed.

Lemma plain_optimize_as n k p : plain n -> plain (optimize_as k p n).
Proof.
  revert k p. induction n as [rule bp k0 p0 cs IH] using node_ind'. intros k p Hn. inversion Hn as [? ? ? ? Hc]; subst.
  cbn [optimize_as]. destruct cs as [|c cs]; [by constructor|].
  assert (H : Forall (fun c => forall k p, plain (optimize_as k p c)) (c :: cs)).
  { apply Forall_forall. intros x Hx k1 p1. by apply (proj1 (Forall_forall _ _) IH x Hx), (proj1 (Forall_forall _ _) Hc). }
  destruct (IsSimpleNode _); [by inversion H|]. constructor. apply Forall_fmap. eapply Forall_impl; [exact H|]. cbn. auto.
Qed.

Lemma plain_optimize n : plain n -> plain (optimize n).
Proof.
  intros [rule k p cs Hc]. constructor. cbn [children]. apply Forall_fmap. eapply Forall_impl; [exact Hc|].
  intros c H. by apply plain_optimize_as.
Qed.

(** ** What a router promises *)

(** The rules, all with the router, can be told apart for each method: their patterns,
    and for a rule that ends in a slash the pattern without it, under which the
    redirection is stored, are different ([method_entries] lists both). *)
Record routable (rs : list BaseRule) : Prop := {
  rt_handlers : Forall has_handler rs;
  rt_rooted : Forall (fun r => Forall (fun c => c <> NUL) (rule_ r) /\ rule_ r !! 0 = Some "/"%char) rs;
  rt_distinct : forall m, m < 34 -> exists pats,
    mapM (fun e => pattern (e_url e)) (method_entries m rs) = Some pats /\ NoDup pats;
  rt_few : (Z.of_nat (length rs) < 65534)%Z
}.

Definition url_match (rule url : bytes) : option routing_params := pat ← pattern rule; consume url pat 0 no_params.

(** The rule would match with a slash more. *)
Definition slash_match (url : bytes) (r : BaseRule) : bool :=
  ends_in_slash (rule_ r) && bool_decide (is_Some (url_match (removelast (rule_ r)) url)).

Fixpoint first_match (url : bytes) (rs : list BaseRule) : option (BaseRule * routing_params) :=
  match rs with
  | [] => None
  | r :: rs => match url_match (rule_ r) url with Some ps => Some (r, ps) | None => first_match url rs end
  end.

Definition matched (url : bytes) (rs : list BaseRule) (m : nat) : bool :=
  existsb (slash_match url) (method_rules m rs) || bool_decide (is_Some (first_match url (method_rules m rs))).

Definition respond_options (rs : list BaseRule) (req : request) (res : response) : response :=
  if bool_decide (req_url req = of_text "/*")
  then allowed (List.filter (fun m => negb (bool_decide (method_rules m rs = []))) (seq 0 34)) res
  else let ms := List.filter (matched (req_url req) rs) (seq 0 34) in
    if bool_decide (ms = []) then end_ (reset_to 404 res) else allowed ms res.

Definition respond_method (c : option (request -> response -> response)) (rs : list BaseRule) (m : nat)
    (req : request) (res : response) : response :=
  if existsb (slash_match (req_url req)) (method_rules m rs) then redirect_slash req res
  else
    match first_match (req_url req) (method_rules m rs) with
    | Some (r, ps) => let '(res, thrown) := rule_handle r req ps res in if (thrown : bool) then end_ (reset_to 500 res) else res
    | None =>
        let res := set_code (if existsb (matched (req_url req) rs) (seq 0 34) then 405 else 404) res in
        end_ (match c with Some h => h req res | None => res end)
    end.

Definition respond (c : option (request -> response -> response)) (rs : list BaseRule) (req : request) (res : response)
    : response :=
  if (InternalMethodCount <=? req_method req)%Z then res
  else if (req_method req =? Z.of_nat (method_number Options))%Z then respond_options rs req res
  else if (req_method req =? Z.of_nat (method_number Head))%Z then respond_method c rs (method_number Get) req (set_skip_body res)
  else respond_method c rs (Z.to_nat (req_method req)) req res.

(** ** What a method's tree finds *)

Lemma entries_from_elem k rs e : e ∈ entries_from k rs <-> exists i r, rs !! i = Some r /\ e ∈ rule_entries r (k + i).
Proof.
  revert k. induction rs as [|r rs IH]; intros k; cbn [entries_from].
  - split; [by intros ?%elem_of_nil|]. by intros (i & r & H & _).
  - rewrite elem_of_app, IH. split.
    + intros [H|(i & r' & Hi & H)]; [exists 0, r; by rewrite Nat.add_0_r|]. exists (S i), r'. split; [done|]. by rewrite Nat.add_succ_r.
    + intros ([|i] & r' & Hi & H); [left; injection Hi as ->; by rewrite Nat.add_0_r in H|].
      right. exists i, r'. split; [done|]. by rewrite Nat.add_succ_r in H.
Qed.

Lemma rule_entries_elem r k e : e ∈ rule_entries r k <->
  e = mkEntry (rule_ r) (wrap_u 16 (Z.of_nat k)) 0 INVALID_BP_ID \/
  ends_in_slash (rule_ r) = true /\ e = mkEntry (removelast (rule_ r)) RULE_SPECIAL_REDIRECT_SLASH 0 INVALID_BP_ID.
Proof.
  unfold rule_entries. rewrite elem_of_cons. destruct (ends_in_slash (rule_ r)).
  - rewrite list_elem_of_singleton. tauto.
  - rewrite elem_of_nil. naive_solver.
Qed.

Lemma wrap_index k : (Z.of_nat k < 65536)%Z -> wrap_u 16 (Z.of_nat k) = Z.of_nat k.
Proof. intros. unfold wrap_u. change (2 ^ 16)%Z with 65536%Z. apply Z.mod_small. lia. Qed.

Lemma matches_url e url ps : matches e url ps <-> url_match (e_url e) url = Some ps.
Proof. unfold matches, url_match. destruct (pattern _); cbn; naive_solver. Qed.

Lemma first_match_at url rs i r ps : rs !! i = Some r -> url_match (rule_ r) url = Some ps ->
  (forall j r', j < i -> rs !! j = Some r' -> url_match (rule_ r') url = None) -> first_match url rs = Some (r, ps).
Proof.
  revert i. induction rs as [|r0 rs IH]; intros i Hi Hm Hn; [done|]. cbn [first_match]. destruct i as [|i].
  - injection Hi as ->. by rewrite Hm.
  - rewrite (Hn 0 r0) by (done || lia). apply (IH i Hi Hm). intros j r' Hj. apply (Hn (S j)). lia.
Qed.

Lemma first_match_none url rs : Forall (fun r => url_match (rule_ r) url = None) rs -> first_match url rs = None.
Proof. induction 1 as [|r rs Hr _ IH]; [done|]. cbn [first_match]. by rewrite Hr. Qed.

(** The number found says what to do. *)
Definition answers (url : bytes) (rs : list BaseRule) (f : Z) (ps : routing_params) : Prop :=
  if existsb (slash_match url) rs then f = 1%Z
  else match first_match url rs with
       | Some (r, ps') => ps' = ps /\ exists i, rs !! i = Some r /\ f = Z.of_nat (2 + i)
       | None => f = 0%Z
       end.

Lemma least_answers rs url f ps : (Z.of_nat (length rs) < 65534)%Z -> least_match (entries_from 2 rs) url f ps -> answers url rs f ps.
Proof.
  intros Hl H. assert (Hw : forall i r, rs !! i = Some r -> wrap_u 16 (Z.of_nat (2 + i)) = Z.of_nat (2 + i)).
  { intros i r Hi%lookup_lt_Some. apply wrap_index. lia. }
  assert (Hslash : existsb (slash_match url) rs = true <-> exists e ps', e ∈ entries_from 2 rs /\ e_rule e = 1%Z /\ matches e url ps').
  { rewrite existsb_exists. split.
    - intros (r & Hr & [Hs [ps' Hm]%bool_decide_eq_true]%andb_true_iff). apply list_elem_of_In, list_elem_of_lookup in Hr as [i Hi].
      eexists (mkEntry _ _ _ _), ps'. rewrite entries_from_elem. split; [exists i, r; split; [done|]; apply rule_entries_elem; by right|].
      split; [done|]. by apply matches_url.
    - intros (e & ps' & (i & r & Hi & [->|[Hs ->]]%rule_entries_elem)%entries_from_elem & He & Hm%matches_url).
      + cbn [e_rule] in He. rewrite (Hw i r Hi) in He. lia.
      + exists r. split; [by apply list_elem_of_In, (list_elem_of_lookup_2 _ i)|]. unfold slash_match. rewrite Hs. cbn [andb e_url] in *.
        apply bool_decide_eq_true. by eexists. }
  unfold answers. destruct H as [[-> Hno]|[(e & He & <- & Hm) Hmin]].
  - destruct (existsb _ rs); [destruct (proj1 Hslash eq_refl) as (e & ps' & He & _ & Hm); by destruct (Hno e ps' He)|].
    rewrite first_match_none; [done|]. apply Forall_forall. intros r [i Hi]%list_elem_of_lookup.
    destruct (url_match (rule_ r) url) as [ps'|] eqn:E; [|done]. exfalso.
    apply (Hno (mkEntry (rule_ r) (wrap_u 16 (Z.of_nat (2 + i))) 0 INVALID_BP_ID) ps'); [|by apply matches_url].
    apply entries_from_elem. exists i, r. split; [done|]. apply rule_entries_elem. by left.
  - pose proof He as (i & r & Hi & Hr)%entries_from_elem. apply rule_entries_elem in Hr as [->|[Hs ->]]; cbn [e_rule] in *.
    + rewrite (Hw i r Hi) in *. destruct (existsb _ rs).
      { destruct (proj1 Hslash eq_refl) as (e' & ps' & He' & H1 & Hm'). specialize (Hmin e' ps' He' Hm'). lia. }
      rewrite (first_match_at url rs i r ps Hi); [by split; [|exists i]|by apply matches_url in Hm|].
      intros j r' Hj Hr'. destruct (url_match (rule_ r') url) as [ps'|] eqn:E; [|done]. exfalso.
      assert (Hle : (Z.of_nat (2 + i) <= Z.of_nat (2 + j))%Z); [|lia]. rewrite <- (Hw j r' Hr').
      apply (Hmin (mkEntry (rule_ r') (wrap_u 16 (Z.of_nat (2 + j))) 0 INVALID_BP_ID) ps'); [|by apply matches_url].
      apply entries_from_elem. exists j, r'. split; [done|]. apply rule_entries_elem. by left.
    + destruct (existsb _ rs); [done|]. assert (Hc : false = true); [|done]. apply Hslash. by eexists _, ps.
Qed.

(** ** Building the trees *)

Lemma Forall_entries (P : entry -> Prop) k rs :
  (forall i r, rs !! i = Some r -> P (mkEntry (rule_ r) (wrap_u 16 (Z.of_nat (k + i))) 0 INVALID_BP_ID) /\
    (ends_in_slash (rule_ r) = true -> P (mkEntry (removelast (rule_ r)) RULE_SPECIAL_REDIRECT_SLASH 0 INVALID_BP_ID))) ->
  Forall P (entries_from k rs).
Proof.
  intros H. apply Forall_forall. intros e (i & r & Hi & [->|[Hs ->]]%rule_entries_elem)%entries_from_elem; by apply (H i r Hi).
Qed.

Lemma proper_entries rs : Forall (fun r => Forall (fun c => c <> NUL) (rule_ r) /\ rule_ r !! 0 = Some "/"%char) rs ->
  (Z.of_nat (length rs) < 65534)%Z -> Forall proper (entries_from 2 rs).
Proof.
  intros Hf Hl. apply Forall_entries. intros i r Hi. destruct (Forall_lookup_1 _ _ _ _ Hf Hi) as [Hz Hs]. apply lookup_lt_Some in Hi.
  split; [split; [done|split; [cbn [e_rule]; rewrite wrap_index; lia|done]]|].
  unfold ends_in_slash. intros [Hlen%bool_decide_eq_true _]%andb_true_iff. unfold proper. cbn [e_url e_rule].
  destruct (rule_ r) as [|c s]; [done|]. injection Hs as ->. destruct s as [|d s]; [cbn in Hlen; lia|].
  change (removelast ("/"%char :: d :: s)) with ("/"%char :: removelast (d :: s)). split; [|done].
  inversion Hz as [|? ? Hc Hrest]; subst. constructor; [done|]. rewrite (app_removelast_last NUL (l := d :: s)) in Hrest by done.
  by apply Forall_app in Hrest as [? _].
Qed.

Lemma method_rules_length m rs : length (method_rules m rs) <= length rs.
Proof. apply List.filter_length_le. Qed.

Lemma method_rules_Forall (P : BaseRule -> Prop) m rs : Forall P rs -> Forall P (method_rules m rs).
Proof. rewrite !Forall_forall. intros H r [Hr _]%list_elem_of_In%filter_In. by apply H, list_elem_of_In. Qed.

Lemma method_tree rs m : routable rs -> m < 34 -> exists t, add_all (method_entries m rs) fresh_node = Some t /\
  validate t = Some (optimize t) /\ is_empty (optimize t) = bool_decide (method_rules m rs = []) /\
  forall url, exists f ps, find_url (optimize t) url = Some (f, [], ps) /\ answers url (method_rules m rs) f ps.
Proof.
  intros [_ Hroot Hdist Hfew] Hm. destruct (Hdist m Hm) as (pats & Hpats & Hd). pose proof (method_rules_length m rs) as Hl.
  assert (Hp : Forall proper (method_entries m rs)) by (apply proper_entries; [by apply method_rules_Forall|lia]).
  destruct (add_all_fresh _ _ Hp Hpats Hd) as (t & Ht & Hv & Hg & Hperm). exists t. split; [done|]. split; [done|].
  assert (Hpl : plain (optimize t)).
  { apply plain_optimize. eapply plain_add_all; [|by constructor|exact Ht]. by apply Forall_entries. }
  split.
  - unfold is_empty. apply bool_decide_ext. unfold method_entries in *. destruct (method_rules m rs) as [|r l].
    + injection Ht as <-. done.
    + split; [|done]. intros Hc. exfalso. assert (Hr : routes t = []).
      { unfold validate in Hv. destruct (IsSimpleNode t) eqn:Es; [|done]. apply IsSimpleNode_spec in Es as (Hr0 & _).
        destruct t as [ri bp k p cs]. unfold optimize in Hc. cbn in Hc, Hr0. apply fmap_nil_inv in Hc as ->. by subst ri. }
      rewrite Hr in Hperm. apply Permutation_nil in Hperm. cbn [entries_from rule_entries app mapM] in Hpats, Hperm.
      destruct (pattern _); [|done]. cbn [mbind option_bind] in Hpats. destruct (mapM _ _); [|done]. by injection Hpats as <-.
  - intros url. destruct (find_least _ _ t url Hp Hpats Hg Hperm) as (f & bp & ps & Hf & Hleast). exists f, ps. split.
    + unfold find_url in *. destruct (find url (optimize t) 0 no_params []) as [r|] eqn:E; [|done].
      destruct (plain_find url _ Hpl _ _ _ E) as [Hb _]. destruct r as [[[f' bp'] ps'] l']. cbn in Hf, Hb. injection Hf as -> -> ->. by subst bp.
    + apply least_answers; [lia|done].
Qed.

Lemma mapM_built {A B} (f : A -> built B) (g : A -> B) l : Forall (fun x => f x = Built (g x)) l -> mapM f l = Built (g <$> l).
Proof. induction 1 as [|x l Hx _ IH]; [done|]. cbn [mapM fmap list_fmap]. rewrite Hx. cbn [mbind built_bind]. by rewrite IH. Qed.

(** A method, once validated. *)
Definition built_method (rs : list BaseRule) (m : nat) (t : Node) : PerMethod :=
  mkPerMethod (None :: None :: (Some <$> method_rules m rs)) (optimize t).

Lemma router_built c rs : routable (upgraded <$> rs) ->
  exists pms, router_validate (mkRouter c (per_methods_ new_router) rs []) = Built (mkRouter c pms rs []) /\ length pms = 34 /\
    forall m, m < 34 -> exists t, pms !! m = Some (built_method (upgraded <$> rs) m t) /\
      add_all (method_entries m (upgraded <$> rs)) fresh_node = Some t.
Proof.
  intros Hr. set (T := fun m => default fresh_node (add_all (method_entries m (upgraded <$> rs)) fresh_node)).
  assert (HT : forall m, m < 34 -> add_all (method_entries m (upgraded <$> rs)) fresh_node = Some (T m) /\ validate (T m) = Some (optimize (T m))).
  { intros m Hm. destruct (method_tree _ m Hr Hm) as (t & Ht & Hv & _). unfold T. by rewrite Ht. }
  assert (Hnew : forall m, m < 34 -> per_methods_ new_router !! m = Some new_per_method).
  { intros m Hm. apply lookup_replicate. split; [done|]. exact Hm. }
  destruct (register_rules_run [] rs (per_methods_ new_router) T) as (pms & E & Hl & H); [by apply rt_handlers|done| |].
  { intros m Hm. exists new_per_method. split; [by apply Hnew|]. by apply HT. }
  unfold router_validate. cbn [blueprints_ per_methods_ all_rules_ catchall_rule_ validate_bp mbind built_bind] in *. rewrite E. cbn [mbind built_bind].
  set (g := fun p => mkPerMethod (rules p) (optimize (trie p))). unfold validate_tries. rewrite (mapM_built _ g).
  - exists (g <$> pms). split; [done|]. split; [by rewrite length_fmap|]. intros m Hm. exists (T m). split; [|by apply HT].
    rewrite list_lookup_fmap. by rewrite (H m new_per_method Hm (Hnew m Hm)).
  - apply Forall_lookup. intros m p Hp. assert (Hm : m < 34) by (rewrite <- Hl; by eapply lookup_lt_Some).
    rewrite (H m new_per_method Hm (Hnew m Hm)) in Hp. injection Hp as <-. cbn [trie rules]. unfold g. cbn [trie rules].
    by rewrite (proj2 (HT m Hm)).
Qed.

(** ** Handling *)

Section Handling.
  Context (c : option (request -> response -> response)) (all rs : list BaseRule) (pms : list PerMethod).
  Hypothesis Hrt : routable rs.
  Hypothesis Hlen : length pms = 34.
  Hypothesis Hpms : forall m, m < 34 -> exists t, pms !! m = Some (built_method rs m t) /\
    add_all (method_entries m rs) fresh_node = Some t.

Let ro : Router := mkRouter c pms all [].

Lemma method_answers m : m < 34 -> exists p, pms !! m = Some p /\ rules p = None :: None :: (Some <$> method_rules m rs) /\
  is_empty (trie p) = bool_decide (method_rules m rs = []) /\
  forall req, exists f ps, find_rule req p = Built (f, [], ps) /\ answers (req_url req) (method_rules m rs) f ps.
Proof.
  intros Hm. destruct (Hpms m Hm) as (t & Hp & Ht). destruct (method_tree rs m Hrt Hm) as (t' & Ht' & _ & He & Hf).
  rewrite Ht in Ht'. injection Ht' as <-. eexists. split; [exact Hp|]. split; [done|]. split; [done|]. intros req.
  destruct (Hf (req_url req)) as (f & ps & Hfind & Ha). exists f, ps. split; [|done].
  unfold find_rule. cbn [trie built_method]. by rewrite Hfind.
Qed.

Lemma answers_matched m url f ps : answers url (method_rules m rs) f ps -> (f =? 0)%Z = negb (matched url rs m).
Proof.
  unfold answers, matched. destruct (existsb _ _); [by intros ->|]. destruct (first_match _ _) as [[r ps']|]; cbn [orb].
  - intros (_ & i & _ & ->). rewrite bool_decide_eq_true_2 by done. apply Z.eqb_neq. lia.
  - intros ->. by rewrite bool_decide_eq_false_2 by (by intros []).
Qed.

Lemma methods_run req k l : (forall i p, l !! i = Some p -> pms !! (k + i) = Some p) ->
  found_elsewhere req l = Built (existsb (matched (req_url req) rs) (seq k (length l))) /\
  methods_found req k l = Built (List.filter (matched (req_url req) rs) (seq k (length l))).
Proof.
  revert k. induction l as [|p l IH]; intros k H; [done|]. pose proof (H 0 p eq_refl) as Hk. rewrite Nat.add_0_r in Hk.
  assert (Hm : k < 34) by (rewrite <- Hlen; by eapply lookup_lt_Some).
  destruct (method_answers k Hm) as (p' & Hp' & _ & _ & Hf). rewrite Hk in Hp'. injection Hp' as <-.
  destruct (Hf req) as (f & ps & Hfind & Ha%answers_matched). destruct (IH (S k)) as [IH1 IH2].
  { intros i q Hi. rewrite Nat.add_succ_l, <- Nat.add_succ_r. by apply H. }
  cbn [found_elsewhere methods_found length seq existsb List.filter]. rewrite Hfind. cbn [mbind built_bind fst snd]. rewrite Ha, IH1, IH2.
  cbn [mbind built_bind]. by destruct (matched _ _ k).
Qed.

Lemma options_run req res : handle_options ro req res = Built (respond_options rs req res).
Proof.
  unfold handle_options, respond_options. cbn [per_methods_ ro]. rewrite Hlen. case_bool_decide.
  - do 2 f_equal. apply filter_ext_in. intros m [_ Hm]%in_seq. destruct (method_answers m Hm) as (p & -> & _ & -> & _). done.
  - destruct (methods_run req 0 pms) as [_ ->]; [done|]. cbn [mbind built_bind]. rewrite Hlen. unfold allow_text.
    destruct (List.filter _ _) as [|m ms]; [done|]. rewrite !bool_decide_eq_false_2; [done|done|].
    intros Hc. apply (f_equal length) in Hc. rewrite !length_app in Hc. cbn [fmap list_fmap List.concat] in Hc. rewrite !length_app in Hc.
    cbn [of_text length app String.list_ascii_of_string] in Hc. lia.
Qed.

Lemma method_run m req res : m < 34 ->
  (p ← inside (pms !! m);
   found ← find_rule req p;
   if (found.1.1 =? 0)%Z then
     other ← found_elsewhere req pms;
     res ← get_error ro (if (other : bool) then 405 else 404) found req res;
     Built (end_ res)
   else run_rule rule_handle p found req res) = Built (respond_method c rs m req res).
Proof.
  intros Hm. destruct (method_answers m Hm) as (p & -> & Hr & _ & Hf). cbn [inside mbind built_bind].
  destruct (Hf req) as (f & ps & -> & Ha). cbn [mbind built_bind fst snd]. unfold respond_method, answers in *.
  assert (Hrun : f <> 0%Z -> (f < Z.of_nat (2 + length (method_rules m rs)))%Z -> forall req res,
    run_rule rule_handle p (f, [], ps) req res = if (f =? RULE_SPECIAL_REDIRECT_SLASH)%Z then Built (redirect_slash req res) else
      r ← inside (rules p !! Z.to_nat f ≫= id); let '(res, thrown) := rule_handle r req ps res in
      Built (if (thrown : bool) then end_ (reset_to 500 res) else res)).
  { intros _ Hlt req' res'. unfold run_rule. rewrite Hr. cbn [length]. rewrite length_fmap. by rewrite (proj2 (Z.leb_gt _ _)) by lia. }
  destruct (existsb _ (method_rules m rs)) eqn:Es.
  - subst f. cbn [Z.eqb]. apply Hrun; [done|]. destruct (method_rules m rs); [done|]. cbn [length]. lia.
  - destruct (first_match _ _) as [[r ps']|].
    + destruct Ha as (-> & i & Hi & ->). pose proof (lookup_lt_Some _ _ _ Hi) as Hlt. rewrite (proj2 (Z.eqb_neq _ _)) by lia.
      rewrite Hrun by lia. unfold RULE_SPECIAL_REDIRECT_SLASH. rewrite (proj2 (Z.eqb_neq _ _)) by lia.
      rewrite Nat2Z.id, Hr.
      change ((None :: None :: ?l) !! (2 + ?n)) with (l !! n).
      rewrite list_lookup_fmap, Hi. cbn [fmap option_fmap option_map mbind option_bind inside built_bind id].
      by destruct (rule_handle r req ps res).
    + subst f. cbn [Z.eqb]. destruct (methods_run req 0 pms) as [-> _]; [done|]. rewrite Hlen. cbn [mbind built_bind].
      unfold get_error. cbn [blueprints_ ro fst snd get_found_bp mbind built_bind tail rev List.find catchall_rule_]. by destruct c.
Qed.

Lemma handle_run req res : (0 <= req_method req)%Z -> handle ro req res = Built (respond c rs req res).
Proof.
  intros H0. unfold handle, respond. destruct (Z.leb_spec InternalMethodCount (req_method req)) as [|Hlt]; [done|].
  change InternalMethodCount with 34%Z in Hlt.
  destruct (req_method req =? Z.of_nat (method_number Options))%Z; [apply options_run|].
  destruct (req_method req =? Z.of_nat (method_number Head))%Z.
  - rewrite Nat2Z.id. apply method_run. by apply Nat.ltb_lt.
  - apply method_run. lia.
Qed.
End Handling.

(** C19: Let all rules be registered with the router itself (no blueprints), fewer
    than 65534 of them, each with a handler and with a pattern without NUL that begins
    with a slash and whose parameters are of known types; and let, for every method,
    the patterns of its rules, and those of its rules that end in a slash taken
    without it, all be different (so "/a" and "/a/" cannot both be there, see
    [slash_twice]).  Then [validate] accepts the router, and [handle] answers every
    request, of any method number, without an exception of its own: a URL that only
    lacks the slash of a rule is redirected; otherwise the first matching rule of the
    method, in the order of registration, handles it with the parameters of the URL,
    and what it throws becomes a 500; otherwise it is an error 405 or 404, by whether
    another method has a rule for the URL, which the catch-all rule may fill.  [HEAD]
    is answered as [GET] without a body, and [OPTIONS] with the methods that have a
    rule for the URL. *)
Theorem router_dispatch c rs : routable (upgraded <$> rs) ->
  exists ro, router_validate (mkRouter c (per_methods_ new_router) rs []) = Built ro /\
    forall req res, (0 <= req_method req)%Z -> handle ro req res = Built (respond c (upgraded <$> rs) req res).
Proof.
  intros Hr. destruct (router_built c rs Hr) as (pms & Hv & Hl & Hp). eexists. split; [exact Hv|]. intros req res H0.
  by apply handle_run.
Qed.

(** The redirection of the second rule is stored where the first already is. *)
Example slash_twice :
  router_validate (mkRouter None (per_methods_ new_router) [new_rule (of_text "/a") (echo "a"); new_rule (of_text "/a/") (echo "a/")] []) =
  Raises "handler already exists".
Proof. by vm_compute. Qed.

(** [/<int>/], for GET and POST, and [/<path>], for GET. *)
Definition sample_routes : list BaseRule :=
  [mkRule (of_text "/<int>/") 10 (echo "int") None; new_rule (of_text "/<path>") (echo "path ")].

Definition distinct_entries (es : list entry) : bool :=
  match mapM (fun e => pattern (e_url e)) es with Some pats => bool_decide (NoDup pats) | None => false end.

Lemma distinct_entries_spec es : distinct_entries es = true ->
  exists pats, mapM (fun e => pattern (e_url e)) es = Some pats /\ NoDup pats.
Proof. unfold distinct_entries. destruct (mapM _ es) as [pats|]; [|done]. intros H%bool_decide_eq_true. by exists pats. Qed.

Lemma sample_routable : routable (upgraded <$> sample_routes).
Proof.
  constructor; [by repeat constructor|by repeat constructor| |done]. intros m Hm. apply distinct_entries_spec.
  assert (H : forallb (fun m => distinct_entries (method_entries m (upgraded <$> sample_routes))) (seq 0 34) = true) by (by vm_compute).
  rewrite forallb_forall in H. apply H, in_seq. lia.
Qed.

Lemma router_dispatch_witness : exists ro, router_validate (mkRouter None (per_methods_ new_router) sample_routes []) = Built ro /\
  forall req res, (0 <= req_method req)%Z -> handle ro req res = Built (respond None (upgraded <$> sample_routes) req res).
Proof. exact (router_dispatch None sample_routes sample_routable). Defined.
