(* ===== verification/WebSocket.v ===== *)
(** * Web socket connections: include/crow_all.h, crow::websocket::Connection

    A connection is driven by the completions of its reads and writes and by calls
    from outside; it asks for reads and writes and calls its handlers.  A step takes
    one completion or call and is run to its end, as in the one thread of the
    [io_service]; [dispatch] from there runs the function at once.

    The connection is a value; what it does is appended to a log.  A handler is a
    function of the log and its arguments that gives the calls it makes on the
    connection.  [None] is the use of a connection after [delete this].

    The theorems are in [WebSocketSpec]: the message handler is given the messages of
    the frames received, what one connection sends another receives, and a
    connection is not used after its deletion while it has sent no close frame.

    Left out: the checks of [CROW_ENABLE_DEBUG] and [CROW_ENFORCE_WS_SPEC], which are
    not defined, and what a failed read leaves in the members it was for. *)

From S2P Require Import Prelude CInt CFloat CArray Base64 Sha1 CNum HttpData Trie TrieSpec RuleTags Router.

(** ** Bytes of integers *)

Definition char_of (z : Z) : ascii := Ascii.ascii_of_N (Z.to_N (z mod 256)).

(** The object representation, on a little-endian machine. *)
Fixpoint le_value (l : bytes) : Z := match l with [] => 0 | c :: l => uc c + 256 * le_value l end.

Fixpoint le_bytes (n : nat) (z : Z) : bytes :=
  match n with O => [] | S n => char_of z :: le_bytes n (z / 256) end.

(** [htons] is [ntohs], and [htonl] is [ntohl]. *)
Definition htons (z : Z) : Z := le_value (rev (le_bytes 2 z)).
Definition htonl (z : Z) : Z := le_value (rev (le_bytes 4 z)).

(** The eight bytes of a length, the other way round. *)
Definition swap64 (z : Z) : Z := Z.lor (Z.shiftl (htonl (Z.land z 0xFFFFFFFF)) 32) (htonl (Z.shiftr z 32)).

Definition build_header (opcode size : Z) : bytes :=
  let b := char_of (0x80 + opcode) in
  if size <? 126 then [b; char_of size]
  else if size <? 0x10000 then [b; char_of 126] ++ le_bytes 2 (htons (wrap_u 16 size))
  else [b; char_of 127] ++ le_bytes 8 (swap64 size).

(** ** The connection *)

Inductive WebSocketReadState := MiniHeader | Len16 | Len64 | Mask | Payload.

(** What can be called on a connection. *)
Inductive command := SendPing (msg : bytes) | SendPong (msg : bytes) | SendBinary (msg : bytes) | SendText (msg : bytes) | Close (msg : bytes).

(** What it does: reads of up to, and of exactly, a number of bytes, writes, calls
    of the handlers, functions dispatched, closing the socket, deleting itself.
    A message is binary or not, or it is not known ([is_binary_] starts
    uninitialised). *)
Inductive action :=
  | AsyncReadSome (n : Z) | AsyncRead (n : Z) | AsyncWrite (buffers : list bytes)
  | Opened | Message (msg : bytes) (is_binary : option bool) | Closed (msg : bytes) | Failed
  | Dispatched (c : command) | AdaptorClosed | Deleted.

Record handlers := mkHandlers {
  open_handler_ : option (list action -> list command);
  message_handler_ : option (list action -> bytes -> option bool -> list command);
  close_handler_ : option (list action -> bytes -> list command);
  error_handler_ : option (list action -> list command);
  accept_handler_ : option (request -> bool)
}.

Record reader := mkReader {
  state_ : WebSocketReadState;
  is_reading : bool;
  mini_header_ : Z;
  remaining_length16_ : Z;
  remaining_length_ : Z;
  has_mask_ : bool;
  mask_ : bytes;
  fragment_ : bytes;
  message_ : bytes;
  is_binary_ : option bool
}.

Record writer := mkWriter { sending_buffers_ : list bytes; write_buffers_ : list bytes }.

Record flags := mkFlags {
  close_connection_ : bool;
  has_sent_close_ : bool;
  has_recv_close_ : bool;
  pong_received_ : bool;
  is_close_handler_called_ : bool
}.

Record Connection := mkConnection { rd : reader; wr : writer; fl : flags; log : list action; freed : bool }.

(** ** Assignments *)

Definition on_reader (f : reader -> reader) (c : Connection) : Connection := mkConnection (f (rd c)) (wr c) (fl c) (log c) (freed c).
Definition on_writer (f : writer -> writer) (c : Connection) : Connection := mkConnection (rd c) (f (wr c)) (fl c) (log c) (freed c).
Definition on_flags (f : flags -> flags) (c : Connection) : Connection := mkConnection (rd c) (wr c) (f (fl c)) (log c) (freed c).
Definition emit (a : action) (c : Connection) : Connection := mkConnection (rd c) (wr c) (fl c) (log c ++ [a]) (freed c).

Definition set_state (s : WebSocketReadState) (r : reader) : reader :=
  mkReader s (is_reading r) (mini_header_ r) (remaining_length16_ r) (remaining_length_ r) (has_mask_ r) (mask_ r) (fragment_ r) (message_ r) (is_binary_ r).
Definition set_reading (b : bool) (r : reader) : reader :=
  mkReader (state_ r) b (mini_header_ r) (remaining_length16_ r) (remaining_length_ r) (has_mask_ r) (mask_ r) (fragment_ r) (message_ r) (is_binary_ r).
Definition set_mini_header (z : Z) (r : reader) : reader :=
  mkReader (state_ r) (is_reading r) z (remaining_length16_ r) (remaining_length_ r) (has_mask_ r) (mask_ r) (fragment_ r) (message_ r) (is_binary_ r).
Definition set_length16 (z : Z) (r : reader) : reader :=
  mkReader (state_ r) (is_reading r) (mini_header_ r) z (remaining_length_ r) (has_mask_ r) (mask_ r) (fragment_ r) (message_ r) (is_binary_ r).
Definition set_remaining (z : Z) (r : reader) : reader :=
  mkReader (state_ r) (is_reading r) (mini_header_ r) (remaining_length16_ r) z (has_mask_ r) (mask_ r) (fragment_ r) (message_ r) (is_binary_ r).
Definition set_has_mask (b : bool) (r : reader) : reader :=
  mkReader (state_ r) (is_reading r) (mini_header_ r) (remaining_length16_ r) (remaining_length_ r) b (mask_ r) (fragment_ r) (message_ r) (is_binary_ r).
Definition set_mask (m : bytes) (r : reader) : reader :=
  mkReader (state_ r) (is_reading r) (mini_header_ r) (remaining_length16_ r) (remaining_length_ r) (has_mask_ r) m (fragment_ r) (message_ r) (is_binary_ r).
Definition set_fragment (s : bytes) (r : reader) : reader :=
  mkReader (state_ r) (is_reading r) (mini_header_ r) (remaining_length16_ r) (remaining_length_ r) (has_mask_ r) (mask_ r) s (message_ r) (is_binary_ r).
Definition set_message (s : bytes) (r : reader) : reader :=
  mkReader (state_ r) (is_reading r) (mini_header_ r) (remaining_length16_ r) (remaining_length_ r) (has_mask_ r) (mask_ r) (fragment_ r) s (is_binary_ r).
Definition set_binary (b : bool) (r : reader) : reader :=
  mkReader (state_ r) (is_reading r) (mini_header_ r) (remaining_length16_ r) (remaining_length_ r) (has_mask_ r) (mask_ r) (fragment_ r) (message_ r) (Some b).

Definition set_closing (f : flags) : flags := mkFlags true (has_sent_close_ f) (has_recv_close_ f) (pong_received_ f) (is_close_handler_called_ f).
Definition set_sent_close (f : flags) : flags := mkFlags (close_connection_ f) true (has_recv_close_ f) (pong_received_ f) (is_close_handler_called_ f).
Definition set_recv_close (f : flags) : flags := mkFlags (close_connection_ f) (has_sent_close_ f) true (pong_received_ f) (is_close_handler_called_ f).
Definition set_pong (f : flags) : flags := mkFlags (close_connection_ f) (has_sent_close_ f) (has_recv_close_ f) true (is_close_handler_called_ f).
Definition set_called (f : flags) : flags := mkFlags (close_connection_ f) (has_sent_close_ f) (has_recv_close_ f) (pong_received_ f) true.

(** ** Writing *)

Definition do_write (c : Connection) : Connection :=
  match sending_buffers_ (wr c) with
  | [] => emit (AsyncWrite (write_buffers_ (wr c))) (on_writer (fun w => mkWriter (write_buffers_ w) []) c)
  | _ => c
  end.

Definition enqueue (buffers : list bytes) (c : Connection) : Connection :=
  do_write (on_writer (fun w => mkWriter (sending_buffers_ w) (write_buffers_ w ++ buffers)) c).

Definition send (opcode : Z) (msg : bytes) : Connection -> Connection :=
  enqueue [build_header opcode (Z.of_nat (length msg)); msg].

Section Handlers.
  Context (hs : handlers).

(** ** Calls on the connection *)

(** A handler, if there is one, and the calls it makes. *)
Definition call_handler {A} (run : list command -> Connection -> option Connection) (h : option A)
    (a : action) (calls : A -> list action -> list command) (c : Connection) : option Connection :=
  match h with
  | Some h => let c := emit a c in run (calls h (log c)) c
  | None => Some c
  end.

Definition call_close (run : list command -> Connection -> option Connection) (msg : bytes) : Connection -> option Connection :=
  call_handler run (close_handler_ hs) (Closed msg) (fun h l => h l msg).

Definition close (run : list command -> Connection -> option Connection) (msg : bytes) (c : Connection) : option Connection :=
  let c := on_flags set_sent_close c in
  c ← (if has_recv_close_ (fl c) && negb (is_close_handler_called_ (fl c))
       then call_close run msg (on_flags set_called c)
       else Some c);
  Some (send 0x8 msg c).

Definition command_with (run : list command -> Connection -> option Connection) (k : command) (c : Connection) : option Connection :=
  let c := emit (Dispatched k) c in
  match k with
  | SendPing msg => Some (send 0x9 msg c)
  | SendPong msg => Some (send 0xA msg c)
  | SendBinary msg => Some (send 2 msg c)
  | SendText msg => Some (send 1 msg c)
  | Close msg => close run msg c
  end.

Fixpoint commands_with (run : list command -> Connection -> option Connection) (l : list command) (c : Connection) : option Connection :=
  match l with
  | [] => Some c
  | k :: l => c ← command_with run k c; commands_with run l c
  end.

(** The close handler is called once at most by [close], so that its own calls do
    not call it again: a second level is enough ([commands_run]). *)
Definition nested : list command -> Connection -> option Connection := commands_with (fun _ _ => None).
Definition commands : list command -> Connection -> option Connection := commands_with nested.
Definition command_ : command -> Connection -> option Connection := command_with nested.

Definition check_destroy (c : Connection) : option Connection :=
  c ← (if is_close_handler_called_ (fl c) then Some c else call_close commands (of_text "uncleanly") c);
  Some (if bool_decide (sending_buffers_ (wr c) = []) && negb (is_reading (rd c))
        then emit Deleted (mkConnection (rd c) (wr c) (fl c) (log c) true) else c).

(** ** Reading *)

Definition is_FIN (c : Connection) : bool := negb (Z.land (mini_header_ (rd c)) 0x8000 =? 0).
Definition opcode (c : Connection) : Z := Z.shiftr (Z.land (mini_header_ (rd c)) 0x0f00) 8.

Definition xor_char (a b : ascii) : ascii := char_of (Z.lxor (uc a) (uc b)).

Definition unmask (m : bytes) (s : bytes) : bytes := imap (fun i x => xor_char x (default NUL (m !! (i mod 4)%nat))) s.

(** [message_ += fragment_], and the handler at the last fragment. *)
Definition add_fragment (c : Connection) : option Connection :=
  let c := on_reader (fun r => set_message (message_ r ++ fragment_ r) r) c in
  if is_FIN c then
    c ← call_handler commands (message_handler_ hs) (Message (message_ (rd c)) (is_binary_ (rd c)))
          (fun h l => h l (message_ (rd c)) (is_binary_ (rd c))) c;
    Some (on_reader (set_message []) c)
  else Some c.

(** The second close frame. *)
Definition closed_twice (c : Connection) : option Connection :=
  let c := on_flags set_closing (emit AdaptorClosed c) in
  c ← (if is_close_handler_called_ (fl c) then Some c
       else c ← call_close commands (fragment_ (rd c)) c; Some (on_flags set_called c));
  check_destroy c.

Definition handle_fragment (c : Connection) : option Connection :=
  let c := if has_mask_ (rd c) then on_reader (fun r => set_fragment (unmask (mask_ r) (fragment_ r)) r) c else c in
  c ← (if opcode c =? 0 then add_fragment c
       else if opcode c =? 1 then add_fragment (on_reader (set_binary false) c)
       else if opcode c =? 2 then add_fragment (on_reader (set_binary true) c)
       else if opcode c =? 0x8 then
         let c := on_flags set_recv_close c in
         if negb (has_sent_close_ (fl c)) then command_ (Close (fragment_ (rd c))) c else closed_twice c
       else if opcode c =? 0x9 then command_ (SendPong (fragment_ (rd c))) c
       else if opcode c =? 0xA then Some (on_flags set_pong c)
       else Some c);
  if freed c then None else Some (on_reader (set_fragment []) c).

Definition read_payload (c : Connection) : Connection := emit (AsyncReadSome (Z.min 4096 (remaining_length_ (rd c)))) c.

Definition do_read (c : Connection) : Connection :=
  let c := on_reader (set_reading true) c in
  match state_ (rd c) with
  | MiniHeader => emit (AsyncReadSome 2) (on_reader (set_mini_header 0) c)
  | Len16 => emit (AsyncRead 2) (on_reader (fun r => set_length16 0 (set_remaining 0 r)) c)
  | Len64 => emit (AsyncRead 8) c
  | Mask => if has_mask_ (rd c) then emit (AsyncRead 4) c else read_payload (on_reader (set_state Payload) c)
  | Payload => read_payload c
  end.

(** The completion of a read; the bytes come into an object of zeros or, for the
    lengths and the mask, fill it. *)
Definition on_mini_header (data : bytes) (c : Connection) : Connection :=
  let h := htons (le_value data) in
  let c := on_reader (fun r => set_has_mask (Z.land h 0x80 =? 0x80) (set_mini_header h r)) c in
  do_read (on_reader (fun r =>
    if Z.land h 0x7f =? 127 then set_state Len64 r
    else if Z.land h 0x7f =? 126 then set_state Len16 r
    else set_state Mask (set_remaining (Z.land h 0x7f) r)) c).

Definition on_len16 (data : bytes) (c : Connection) : Connection :=
  let n := htons (le_value data) in
  do_read (on_reader (fun r => set_state Mask (set_remaining n (set_length16 n r))) c).

Definition on_len64 (data : bytes) (c : Connection) : Connection :=
  do_read (on_reader (fun r => set_state Mask (set_remaining (swap64 (le_value data)) r)) c).

Definition on_mask (data : bytes) (c : Connection) : Connection :=
  do_read (on_reader (fun r => set_state Payload (set_mask data r)) c).

Definition on_payload (data : bytes) (c : Connection) : option Connection :=
  let c := on_reader (fun r => set_remaining (to_u64 (remaining_length_ r - Z.of_nat (length data))) (set_fragment (fragment_ r ++ data) r)) c in
  if remaining_length_ (rd c) =? 0 then
    c ← handle_fragment c;
    Some (do_read (on_reader (set_state MiniHeader) c))
  else Some (do_read c).

Definition on_read (data : bytes) (c : Connection) : option Connection :=
  let c := on_reader (set_reading false) c in
  match state_ (rd c) with
  | MiniHeader => Some (on_mini_header data c)
  | Len16 => Some (on_len16 data c)
  | Len64 => Some (on_len64 data c)
  | Mask => Some (on_mask data c)
  | Payload => on_payload data c
  end.

Definition call_error : Connection -> option Connection :=
  call_handler commands (error_handler_ hs) Failed (fun h l => h l).

(** Where the mask or the payload fails, nothing is destroyed. *)
Definition on_read_error (c : Connection) : option Connection :=
  let c := on_flags set_closing (on_reader (set_reading false) c) in
  match state_ (rd c) with
  | MiniHeader | Len16 | Len64 => c ← call_error (emit AdaptorClosed c); check_destroy c
  | Mask | Payload => c ← call_error c; Some (emit AdaptorClosed c)
  end.

(** The completion of a write. *)
Definition on_write (ok : bool) (c : Connection) : option Connection :=
  let c := on_writer (fun w => mkWriter [] (write_buffers_ w)) c in
  if ok && negb (close_connection_ (fl c)) then
    let c := if bool_decide (write_buffers_ (wr c) = []) then c else do_write c in
    Some (if has_sent_close_ (fl c) then on_flags set_closing c else c)
  else check_destroy (on_flags set_closing c).

(** ** Steps *)

Inductive event := ReadDone (data : bytes) | ReadFailed | Written (ok : bool) | Call (k : command).

Definition step (c : Connection) (e : event) : option Connection :=
  if freed c then None
  else match e with
       | ReadDone data => on_read data c
       | ReadFailed => on_read_error c
       | Written ok => on_write ok c
       | Call k => command_ k c
       end.

Fixpoint run (es : list event) (c : Connection) : option Connection :=
  match es with
  | [] => Some c
  | e :: es => c ← step c e; run es c
  end.

(** ** The handshake *)

Definition guid : bytes := of_text "258EAFA5-E914-47DA-95CA-C5AB0DC85B11".
Definition crlf : bytes := [char_of 13; char_of 10].

Definition accept_header : bytes :=
  of_text "HTTP/1.1 101 Switching Protocols" ++ crlf ++ of_text "Upgrade: websocket" ++ crlf ++
  of_text "Connection: Upgrade" ++ crlf ++ of_text "Sec-WebSocket-Accept: ".

(** The hash of the key; [memory] is what is in the block before. *)
Definition hello (key : bytes) (memory : list Z) : bytes :=
  base64encode std_key (getDigestBytes (processBytes (uc <$> (key ++ guid)) (SHA1_new memory))).

Definition blank_reader : reader := mkReader MiniHeader false 0 0 0 false [] [] [] None.
Definition blank : Connection := mkConnection blank_reader (mkWriter [] []) (mkFlags false false false false false) [] false.

Definition start (hello : bytes) (c : Connection) : option Connection :=
  let c := enqueue [accept_header; hello; crlf; crlf] c in
  c ← call_handler commands (open_handler_ hs) Opened (fun h l => h l) c;
  Some (do_read c).

(** The constructor: a refused request closes the socket and deletes the object. *)
Definition refuse : Connection :=
  let c := emit Deleted (emit AdaptorClosed blank) in mkConnection (rd c) (wr c) (fl c) (log c) true.

Definition accepted (req : request) : bool :=
  iequals (get_header_value (req_headers req) (of_text "upgrade")) (of_text "websocket") &&
  match accept_handler_ hs with Some h => h req | None => true end.

Definition connect (req : request) (memory : list Z) : option Connection :=
  if accepted req then start (hello (get_header_value (req_headers req) (of_text "Sec-WebSocket-Key")) memory) blank
  else Some refuse.
End Handlers.

(** The example of RFC 6455, section 1.3. *)
Example rfc_token : hello (of_text "dGhlIHNhbXBsZSBub25jZQ==") (repeat 0 64) = of_text "s3pPLMBiTxaQ9kYGzzhZRbK+xOo=".
Proof. by vm_compute. Qed.
