(* ===== verification/WebSocketFrames.v ===== *)
(** * Web socket frames: the format of RFC 6455, section 5.2

    [encode] and [parse] are the reference; the byte orders of the code are shown to
    be the network's, and [build_header] to write a frame. *)

From S2P Require Import Prelude CInt CFloat CArray Base64 Sha1 CNum HttpData Trie TrieSpec RuleTags Router WebSocket.

#[local] Open Scope Z_scope.

(** ** Frames *)

(** How the length is given. *)
Inductive length_form := Short | Long16 | Long64.

Definition be_bytes (n : nat) (z : Z) : bytes := rev (le_bytes n z).

(** A frame as it is on the wire: its first byte, with the final bit and the opcode,
    its mask, if it is masked, and its payload as it is sent. *)
Record frame := mkFrame { first : ascii; form : length_form; key : option bytes; raw : bytes }.

Definition size (f : frame) : Z := Z.of_nat (length (raw f)).

Definition second (l : length_form) (masked : bool) (n : Z) : ascii :=
  char_of ((if masked then 128 else 0) + match l with Short => n | Long16 => 126 | Long64 => 127 end).

Definition extended (l : length_form) (n : Z) : bytes :=
  match l with Short => [] | Long16 => be_bytes 2 n | Long64 => be_bytes 8 n end.

(** What comes before the mask. *)
Definition opening (b : ascii) (l : length_form) (masked : bool) (n : Z) : bytes := [b; second l masked n] ++ extended l n.

Definition fits_form (l : length_form) (n : Z) : Prop :=
  match l with Short => 0 <= n < 126 | Long16 => 0 <= n < 65536 | Long64 => 0 <= n < 2 ^ 64 end.

Definition valid (f : frame) : Prop :=
  fits_form (form f) (size f) /\ match key f with Some m => length m = 4%nat | None => True end.

Definition encode (f : frame) : bytes := opening (first f) (form f) (bool_decide (is_Some (key f))) (size f) ++ default [] (key f) ++ raw f.

Definition be_value (l : bytes) : Z := le_value (rev l).

(** The first frame of some bytes, and what follows. *)
Definition parse (s : bytes) : option (frame * bytes) :=
  match s with
  | b :: x :: s =>
      let code := Z.land (uc x) 0x7f in
      '(l, n, s) ←
        (if code =? 127 then if 8 <=? Z.of_nat (length s) then Some (Long64, be_value (take 8 s), drop 8 s) else None
         else if code =? 126 then if 2 <=? Z.of_nat (length s) then Some (Long16, be_value (take 2 s), drop 2 s) else None
         else Some (Short, code, s));
      '(k, s) ←
        (if 128 <=? uc x then if 4 <=? Z.of_nat (length s) then Some (Some (take 4 s), drop 4 s) else None
         else Some (None, s));
      if n <=? Z.of_nat (length s) then Some (mkFrame b l k (take (Z.to_nat n) s), drop (Z.to_nat n) s) else None
  | _ => None
  end.

(** ** What frames say *)

Definition fin (f : frame) : bool := 128 <=? uc (first f).
Definition frame_opcode (f : frame) : Z := uc (first f) mod 16.
Definition data (f : frame) : bytes := match key f with Some m => unmask m (raw f) | None => raw f end.

(** The message so far, and the messages that are complete. *)
Record assembly := mkAssembly { partial : bytes; binary : option bool; complete : list (bytes * option bool) }.

Definition join (b : option bool) (f : frame) (a : assembly) : assembly :=
  if fin f then mkAssembly [] b (complete a ++ [(partial a ++ data f, b)]) else mkAssembly (partial a ++ data f) b (complete a).

Definition absorb (a : assembly) (f : frame) : assembly :=
  if frame_opcode f =? 0 then join (binary a) f a
  else if frame_opcode f =? 1 then join (Some false) f a
  else if frame_opcode f =? 2 then join (Some true) f a
  else a.

Definition assemble (fs : list frame) : assembly := foldl absorb (mkAssembly [] None []) fs.

(** ** Bytes *)

Lemma uc_char_of z : uc (char_of z) = z mod 256.
Proof.
  unfold uc, char_of. pose proof (Z.mod_pos_bound z 256). rewrite Ascii.N_ascii_embedding by lia. lia.
Qed.

Lemma char_of_uc c : char_of (uc c) = c.
Proof. apply uc_inj. rewrite uc_char_of, Z.mod_small; [done|]. apply uc_range. Qed.

Lemma le_bytes_length n z : length (le_bytes n z) = n.
Proof. revert z. induction n as [|n IH]; intros z; cbn; [done|]. by rewrite IH. Qed.

Lemma be_bytes_length n z : length (be_bytes n z) = n.
Proof. unfold be_bytes. by rewrite length_rev, le_bytes_length. Qed.

Lemma le_value_range l : 0 <= le_value l < 256 ^ Z.of_nat (length l).
Proof.
  induction l as [|c l IH]; [done|]. cbn [le_value length]. rewrite Nat2Z.inj_succ, Z.pow_succ_r by lia.
  pose proof (uc_range c). lia.
Qed.

Lemma le_bytes_value l : le_bytes (length l) (le_value l) = l.
Proof.
  induction l as [|c l IH]; [done|]. cbn [length le_bytes le_value]. pose proof (uc_range c) as Hc. f_equal.
  - apply uc_inj. rewrite uc_char_of, (Z.mul_comm 256), Z_mod_plus_full. by apply Z.mod_small.
  - rewrite (Z.mul_comm 256), Z.div_add, Z.div_small, Z.add_0_l by lia. done.
Qed.

Lemma le_value_bytes n z : 0 <= z < 256 ^ Z.of_nat n -> le_value (le_bytes n z) = z.
Proof.
  revert z. induction n as [|n IH]; intros z Hz.
  { cbn in Hz. cbn. lia. }
  rewrite Nat2Z.inj_succ, Z.pow_succ_r in Hz by lia. cbn [le_bytes le_value]. rewrite uc_char_of, IH.
  - pose proof (Z.div_mod z 256). lia.
  - split; [apply Z.div_pos; lia|]. apply Z.div_lt_upper_bound; lia.
Qed.

Lemma be_value_bytes n z : 0 <= z < 256 ^ Z.of_nat n -> be_value (be_bytes n z) = z.
Proof. intros. unfold be_value, be_bytes. rewrite rev_involutive. by apply le_value_bytes. Qed.

Lemma be_bytes_value l n : length l = n -> be_bytes n (be_value l) = l.
Proof.
  intros <-. unfold be_value, be_bytes. rewrite <- (length_rev l), le_bytes_value. apply rev_involutive.
Qed.

Lemma le_bytes_mod n z k : le_bytes n (z mod 256 ^ (Z.of_nat n + Z.of_nat k)) = le_bytes n z.
Proof.
  revert z. induction n as [|n IH]; intros z; [done|]. cbn [le_bytes].
  assert (Hp : 256 ^ (Z.of_nat (S n) + Z.of_nat k) = 256 * 256 ^ (Z.of_nat n + Z.of_nat k)).
  { rewrite <- Z.pow_succ_r by lia. f_equal. lia. }
  assert (0 < 256 ^ (Z.of_nat n + Z.of_nat k)) by (apply Z.pow_pos_nonneg; lia). f_equal.
  - apply uc_inj. rewrite !uc_char_of, Hp. rewrite Z.rem_mul_r by lia. rewrite (Z.mul_comm 256), Z_mod_plus_full. by rewrite Z.mod_mod.
  - rewrite Hp, Z.rem_mul_r by lia. rewrite (Z.mul_comm 256 (_ mod _)), Z.div_add, (Z.div_small (z mod 256)), Z.add_0_l by (lia || apply Z.mod_pos_bound; lia).
    apply IH.
Qed.

Lemma le_bytes_app n m z : le_bytes (n + m) z = le_bytes n z ++ le_bytes m (z / 256 ^ Z.of_nat n).
Proof.
  revert z. induction n as [|n IH]; intros z; cbn [Nat.add le_bytes app].
  - by rewrite Z.div_1_r.
  - f_equal. rewrite IH. do 2 f_equal. rewrite Z.div_div by (try lia; apply Z.pow_pos_nonneg; lia).
    f_equal. rewrite Nat2Z.inj_succ, Z.pow_succ_r by lia. lia.
Qed.

(** ** Byte orders *)

Lemma be_is_rev n z : rev (le_bytes n z) = be_bytes n z.
Proof. done. Qed.

Lemma htons_bytes z : le_bytes 2 (htons z) = be_bytes 2 z.
Proof.
  unfold htons. pose proof (le_bytes_value (rev (le_bytes 2 z))) as H. by rewrite length_rev, le_bytes_length in H.
Qed.

Lemma htonl_bytes z : le_bytes 4 (htonl z) = be_bytes 4 z.
Proof.
  unfold htonl. pose proof (le_bytes_value (rev (le_bytes 4 z))) as H. by rewrite length_rev, le_bytes_length in H.
Qed.

Lemma htonl_range z : 0 <= htonl z < 2 ^ 32.
Proof. unfold htonl. pose proof (le_value_range (rev (le_bytes 4 z))) as H. rewrite length_rev, le_bytes_length in H. exact H. Qed.

Lemma lor_shifted a b k : 0 <= k -> 0 <= b < 2 ^ k -> Z.lor (Z.shiftl a k) b = a * 2 ^ k + b.
Proof.
  intros Hk Hb. rewrite Z.shiftl_mul_pow2 by done. symmetry. apply Z.add_nocarry_lor. apply Z.bits_inj'. intros i Hi.
  rewrite Z.land_spec, Z.bits_0. destruct (Z.lt_ge_cases i k).
  - by rewrite Z.mul_pow2_bits_low.
  - rewrite <- (Z.mod_small b (2 ^ k)), Z.mod_pow2_bits_high, andb_false_r by (done || lia). done.
Qed.

Lemma swap64_bytes z : le_bytes 8 (swap64 z) = be_bytes 8 z.
Proof.
  unfold swap64. pose proof (htonl_range (Z.shiftr z 32)) as Hr. rewrite lor_shifted by (lia || done).
  change 8%nat with (4 + 4)%nat. rewrite le_bytes_app. change (256 ^ Z.of_nat 4) with (2 ^ 32).
  rewrite Z.div_add_l, (Z.div_small (htonl (Z.shiftr z 32))), Z.add_0_r by (lia || done). rewrite htonl_bytes.
  rewrite <- (le_bytes_mod 4 (_ * _ + _) 0). change (256 ^ (Z.of_nat 4 + Z.of_nat 0)) with (2 ^ 32).
  rewrite Z.add_comm, Z_mod_plus_full, Z.mod_small by done. rewrite htonl_bytes.
  unfold be_bytes. rewrite le_bytes_app, rev_app_distr. change (256 ^ Z.of_nat 4) with (2 ^ 32). rewrite Z.shiftr_div_pow2 by done. f_equal.
  change 0xFFFFFFFF with (Z.ones 32). rewrite Z.land_ones by done. f_equal. by rewrite <- (le_bytes_mod 4 z 0).
Qed.

Lemma htons_value l : length l = 2%nat -> htons (le_value l) = be_value l.
Proof. intros H. unfold htons, be_value. by rewrite <- H, le_bytes_value. Qed.

Lemma swap64_range z : 0 <= z -> 0 <= swap64 z < 2 ^ 64.
Proof.
  intros Hz. unfold swap64. pose proof (htonl_range (Z.shiftr z 32)). pose proof (htonl_range (Z.land z 0xFFFFFFFF)).
  rewrite lor_shifted by (lia || done). lia.
Qed.

Lemma swap64_value l : length l = 8%nat -> swap64 (le_value l) = be_value l.
Proof.
  intros H. pose proof (le_value_range l) as Hl. rewrite <- (le_value_bytes 8 (swap64 _)).
  - rewrite swap64_bytes. unfold be_value, be_bytes. by rewrite <- H, le_bytes_value.
  - apply swap64_range. lia.
Qed.

(** ** Headers *)

Lemma header_value x y : htons (le_value [x; y]) = uc x * 256 + uc y.
Proof. rewrite htons_value by done. unfold be_value. cbn [rev app le_value]. lia. Qed.

Lemma header_bits x y : 0 <= x < 256 -> 0 <= y < 256 ->
  (Z.land (x * 256 + y) 0x80 =? 0x80) = (128 <=? y) /\ Z.land (x * 256 + y) 0x7f = Z.land y 0x7f /\
  negb (Z.land (x * 256 + y) 0x8000 =? 0) = (128 <=? x) /\ Z.shiftr (Z.land (x * 256 + y) 0x0f00) 8 = x mod 16.
Proof.
  intros Hx Hy.
  set (P := fun x y => Bool.eqb (Z.land (x * 256 + y) 0x80 =? 0x80) (128 <=? y) && (Z.land (x * 256 + y) 0x7f =? Z.land y 0x7f) &&
    Bool.eqb (negb (Z.land (x * 256 + y) 0x8000 =? 0)) (128 <=? x) && (Z.shiftr (Z.land (x * 256 + y) 0x0f00) 8 =? x mod 16)).
  assert (H : forallb (fun x => forallb (P x) all_bytes) all_bytes = true) by (by vm_compute).
  pose proof (check1 _ H x Hx) as H1. cbv beta in H1. pose proof (check1 _ H1 y Hy) as H2. unfold P in H2.
  apply andb_true_iff in H2 as [H2 H4%Z.eqb_eq]. apply andb_true_iff in H2 as [H2 H3%eqb_prop].
  apply andb_true_iff in H2 as [H2%eqb_prop H5%Z.eqb_eq]. split_and!; assumption.
Qed.

Definition code (l : length_form) (n : Z) : Z := match l with Short => n | Long16 => 126 | Long64 => 127 end.

Lemma code_range l n : fits_form l n -> 0 <= code l n < 128.
Proof. destruct l; cbn; lia. Qed.

Lemma second_bits l m n : fits_form l n -> Z.land (uc (second l m n)) 0x7f = code l n /\ (128 <=? uc (second l m n)) = m.
Proof.
  intros Hf%code_range. unfold second. fold (code l n). rewrite uc_char_of. change 0x7f with (Z.ones 7). rewrite Z.land_ones by lia. change (2 ^ 7) with 128.
  destruct m.
  - rewrite (Z.mod_small _ 256) by lia. split; [|lia]. rewrite <- (Z.mul_1_l 128) at 1. rewrite Z.add_comm, Z_mod_plus_full. by apply Z.mod_small.
  - rewrite (Z.mod_small _ 256) by lia. split; [|lia]. by apply Z.mod_small.
Qed.

Lemma second_of x l n : code l n = Z.land (uc x) 0x7f -> second l (128 <=? uc x) n = x.
Proof.
  intros H. apply uc_inj. unfold second. fold (code l n). rewrite H, uc_char_of. change 0x7f with (Z.ones 7). rewrite Z.land_ones by lia. change (2 ^ 7) with 128.
  pose proof (uc_range x). destruct (Z.leb_spec 128 (uc x)).
  - rewrite <- (Z_mod_plus_full (uc x) (-1) 128), (Z.mod_small (_ + _) 128), Z.mod_small by lia. lia.
  - rewrite (Z.mod_small _ 128), Z.mod_small by lia. lia.
Qed.

Lemma extended_length l n : Z.of_nat (length (extended l n)) = match l with Short => 0 | Long16 => 2 | Long64 => 8 end.
Proof. destruct l; cbn [extended]; rewrite ?be_bytes_length; done. Qed.

Lemma take_be n z (s : bytes) : take n (be_bytes n z ++ s) = be_bytes n z.
Proof. apply take_app_length'. by rewrite be_bytes_length. Qed.

Lemma drop_be n z (s : bytes) : drop n (be_bytes n z ++ s) = s.
Proof. apply drop_app_length'. by rewrite be_bytes_length. Qed.

(** The length and the rest are read back. *)
Definition parse_length (c : Z) (s : bytes) : option (length_form * Z * bytes) :=
  if c =? 127 then if 8 <=? Z.of_nat (length s) then Some (Long64, be_value (take 8 s), drop 8 s) else None
  else if c =? 126 then if 2 <=? Z.of_nat (length s) then Some (Long16, be_value (take 2 s), drop 2 s) else None
  else Some (Short, c, s).

Definition parse_mask (masked : bool) (s : bytes) : option (option bytes * bytes) :=
  if masked then if 4 <=? Z.of_nat (length s) then Some (Some (take 4 s), drop 4 s) else None else Some (None, s).

Lemma parse_two b x s : parse (b :: x :: s) =
  '(l, n, s) ← parse_length (Z.land (uc x) 0x7f) s;
  '(k, s) ← parse_mask (128 <=? uc x) s;
  if n <=? Z.of_nat (length s) then Some (mkFrame b l k (take (Z.to_nat n) s), drop (Z.to_nat n) s) else None.
Proof. done. Qed.

Lemma parse_extended l n s : fits_form l n -> parse_length (code l n) (extended l n ++ s) = Some (l, n, s).
Proof.
  intros Hf. unfold parse_length. destruct l; cbn [code extended fits_form] in *.
  - rewrite (proj2 (Z.eqb_neq n 127)), (proj2 (Z.eqb_neq n 126)) by lia. done.
  - cbn [Z.eqb]. change (126 =? 127) with false. change (126 =? 126) with true. cbv iota. rewrite length_app, be_bytes_length.
    rewrite (proj2 (Z.leb_le 2 _)) by lia. rewrite take_be, drop_be.
    by rewrite be_value_bytes.
  - change (127 =? 127) with true. cbv iota. rewrite length_app, be_bytes_length.
    rewrite (proj2 (Z.leb_le 8 _)) by lia. rewrite take_be, drop_be.
    by rewrite be_value_bytes.
Qed.

Lemma parse_opening b l m n s : fits_form l n -> parse (opening b l m n ++ s) =
  '(k, s) ← parse_mask m s;
  if n <=? Z.of_nat (length s) then Some (mkFrame b l k (take (Z.to_nat n) s), drop (Z.to_nat n) s) else None.
Proof.
  intros Hf. unfold opening. cbn [app]. rewrite parse_two. destruct (second_bits l m n Hf) as [-> ->].
  by rewrite parse_extended.
Qed.

Lemma parse_key (k : option bytes) s : match k with Some m => length m = 4%nat | None => True end ->
  parse_mask (bool_decide (is_Some k)) (default [] k ++ s) = Some (k, s).
Proof.
  intros Hk. destruct k as [m|]; [|done]. change (default [] (Some m)) with m. rewrite bool_decide_eq_true_2 by done. unfold parse_mask.
  rewrite length_app, Hk, (proj2 (Z.leb_le _ _)) by lia. by rewrite take_app_length', drop_app_length' by done.
Qed.

Lemma parse_encode f s : valid f -> parse (encode f ++ s) = Some (f, s).
Proof.
  intros [Hf Hk]. unfold encode. rewrite <- !app_assoc, parse_opening by done. rewrite parse_key by done. cbn [mbind option_bind].
  unfold size. rewrite length_app, (proj2 (Z.leb_le _ _)) by lia. rewrite take_app_length', drop_app_length' by lia. by destruct f.
Qed.

Definition wire (fs : list frame) : bytes := List.concat (encode <$> fs).

(** Frames are told apart by their bytes. *)
Lemma wire_inj fs gs s : Forall valid fs -> Forall valid gs -> parse s = None ->
  forall t, parse t = None -> wire fs ++ s = wire gs ++ t -> fs = gs /\ s = t.
Proof.
  intros Hf. revert gs. unfold wire. induction Hf as [|f fs Hv Hf IH]; intros gs Hg Hs t Ht H; destruct Hg as [|g gs Hg Hgs]; cbn [fmap list_fmap List.concat app] in H; [done| | |].
  - rewrite <- app_assoc in H. rewrite H, parse_encode in Hs by done. done.
  - rewrite <- app_assoc in H. rewrite <- H, parse_encode in Ht by done. done.
  - rewrite <- !app_assoc in H. pose proof (parse_encode f (List.concat (encode <$> fs) ++ s) Hv) as E. rewrite H, parse_encode in E by done.
    injection E as -> E. destruct (IH gs Hgs Hs t Ht) as [-> ->]; done.
Qed.

Lemma wire_app fs gs : wire (fs ++ gs) = wire fs ++ wire gs.
Proof. unfold wire. by rewrite fmap_app, concat_app. Qed.

(** What [build_header] writes is a frame, unmasked and final. *)
Definition form_of (n : Z) : length_form := if n <? 126 then Short else if n <? 65536 then Long16 else Long64.

Definition final_frame (opcode : Z) (msg : bytes) : frame := mkFrame (char_of (0x80 + opcode)) (form_of (Z.of_nat (length msg))) None msg.

Lemma final_frame_valid opcode msg : Z.of_nat (length msg) < 2 ^ 64 -> valid (final_frame opcode msg).
Proof.
  intros H. split; [|done]. cbn [form final_frame]. unfold size, form_of. cbn [raw final_frame].
  destruct (Z.ltb_spec (Z.of_nat (length msg)) 126); [cbn; lia|]. destruct (Z.ltb_spec (Z.of_nat (length msg)) 65536); cbn; lia.
Qed.

Lemma build_header_frame opcode msg : Z.of_nat (length msg) < 2 ^ 64 ->
  build_header opcode (Z.of_nat (length msg)) ++ msg = encode (final_frame opcode msg).
Proof.
  intros H. unfold encode, opening, build_header. cbn [first form key raw final_frame]. unfold size. cbn [raw final_frame]. unfold form_of, second.
  change (bool_decide (is_Some None)) with false. cbv iota. change (default [] None) with (@nil ascii). cbn [app].
  destruct (Z.ltb_spec (Z.of_nat (length msg)) 126); [done|].
  destruct (Z.ltb_spec (Z.of_nat (length msg)) 65536); cbn [extended app].
  - rewrite htons_bytes. unfold wrap_u. rewrite Z.mod_small by lia. done.
  - by rewrite swap64_bytes.
Qed.
