(* ===== verification/WebSocketSpec.v ===== *)
(** * Web socket connections: messages received, frames written, and their life

    [took] relates a reader to the bytes it was given: frames, and the beginning of
    one.  [wrote] relates the log to the bytes written.  The examples at the end show
    where a connection is used after it was deleted. *)

From S2P Require Import Prelude CInt CFloat CArray Query Base64 Sha1 CNum HttpData Trie TrieSpec RuleTags Router WebSocket WebSocketFrames.

(** ** The messages in a log *)

Definition message_of (a : action) : option (bytes * option bool) := match a with Message m b => Some (m, b) | _ => None end.
Definition messages (l : list action) : list (bytes * option bool) := omap message_of l.

Definition quiet (a : action) : Prop := message_of a = None.

Lemma messages_snoc l a : messages (l ++ [a]) = messages l ++ match message_of a with Some m => [m] | None => [] end.
Proof. unfold messages. by rewrite omap_app. Qed.

(** Nothing has happened to what is read. *)
Definition same (c c' : Connection) : Prop := rd c' = rd c /\ messages (log c') = messages (log c).

#[global] Instance same_refl : Reflexive same.
Proof. by split. Qed.

#[global] Instance same_trans : Transitive same.
Proof. intros a b c [H1 H2] [H3 H4]. split; congruence. Qed.

Lemma same_emit a c : quiet a -> same c (emit a c).
Proof. intros H. split; [done|]. cbn [log emit]. rewrite messages_snoc, H. apply app_nil_r. Qed.

Lemma same_enqueue l c : same c (enqueue l c).
Proof.
  unfold enqueue, do_write. destruct (sending_buffers_ _); [|done]. etransitivity; [|by apply same_emit]. done.
Qed.

(** What calls do not take back. *)
Record keeps (c c' : Connection) : Prop := {
  keeps_freed : freed c' = freed c;
  keeps_sent : has_sent_close_ (fl c) = true -> has_sent_close_ (fl c') = true;
  keeps_called : is_close_handler_called_ (fl c) = true -> is_close_handler_called_ (fl c') = true;
  keeps_sending : sending_buffers_ (wr c) <> [] -> sending_buffers_ (wr c') <> []
}.

#[global] Instance keeps_refl : Reflexive keeps.
Proof. by split. Qed.

#[global] Instance keeps_trans : Transitive keeps.
Proof. intros a b c [H1 H2 H3 H4] [H5 H6 H7 H8]. split; auto. congruence. Qed.

Lemma keeps_enqueue l c : keeps c (enqueue l c).
Proof. unfold enqueue, do_write. cbn [wr on_writer sending_buffers_]. destruct (sending_buffers_ (wr c)) eqn:E; split; try done; cbn; by rewrite E. Qed.

Lemma flags_enqueue l c : fl (enqueue l c) = fl c.
Proof. unfold enqueue, do_write. by destruct (sending_buffers_ _). Qed.

Lemma same_do_write c : same c (do_write c).
Proof. unfold do_write. destruct (sending_buffers_ _); [|done]. etransitivity; [|by apply same_emit]. done. Qed.

Section Proofs.
  Context (hs : handlers).

(** What the calls on a connection leave as it is, at any level. *)
Definition gentle (run : list command -> Connection -> option Connection) : Prop :=
  forall l c c', run l c = Some c' -> same c c' /\ keeps c c'.

Lemma gentle_handler {A} run (h : option A) a calls c c' : gentle run -> quiet a -> call_handler run h a calls c = Some c' ->
  same c c' /\ keeps c c'.
Proof.
  intros Hr Ha. unfold call_handler. destruct h as [h|]; [|by intros [= <-]]. intros [H1 H2]%Hr.
  split; [|etransitivity; [|exact H2]; done]. etransitivity; [by apply (same_emit a c)|done].
Qed.

Lemma gentle_close run msg c c' : gentle run -> close hs run msg c = Some c' -> same c c' /\ keeps c c'.
Proof.
  intros Hr. unfold close. set (d := on_flags set_sent_close c). assert (Hd : same c d /\ keeps c d) by done.
  destruct (if _ && _ then _ else _) as [e|] eqn:E; [|done]. cbn [mbind option_bind]. intros [= <-].
  assert (He : same d e /\ keeps d e).
  { destruct (_ && _); [|by injection E as <-]. apply gentle_handler in E as [H1 H2]; [|done|done].
    split; [etransitivity; [|exact H1]; done|]. etransitivity; [|exact H2]. done. }
  destruct Hd as [H1 H2], He as [H3 H4]. split.
  - etransitivity; [exact H1|]. etransitivity; [exact H3|apply same_enqueue].
  - etransitivity; [exact H2|]. etransitivity; [exact H4|apply keeps_enqueue].
Qed.

Lemma gentle_command run k c c' : gentle run -> command_with hs run k c = Some c' -> same c c' /\ keeps c c'.
Proof.
  intros Hr. unfold command_with. set (d := emit (Dispatched k) c). assert (Hd : same c d) by by apply same_emit.
  assert (Hk : keeps c d) by done.
  destruct k; try (intros [= <-]; split; [etransitivity; [exact Hd|apply same_enqueue]|etransitivity; [exact Hk|apply keeps_enqueue]]).
  intros [H1 H2]%gentle_close; [|done]. split; by etransitivity.
Qed.

Lemma gentle_commands run : gentle run -> gentle (commands_with hs run).
Proof.
  intros Hr l. induction l as [|k l IH]; intros c c' H; cbn [commands_with] in H; [by injection H as <-|].
  destruct (command_with hs run k c) as [d|] eqn:E; [|done]. cbn [mbind option_bind] in H.
  apply gentle_command in E as [H1 H2]; [|done]. apply IH in H as [H3 H4]. split; by etransitivity.
Qed.

Lemma gentle_none : gentle (fun _ _ => None).
Proof. by intros l c c'. Qed.

Lemma gentle_nested : gentle (nested hs).
Proof. apply gentle_commands, gentle_none. Qed.

Lemma gentle_all : gentle (commands hs).
Proof. apply gentle_commands, gentle_nested. Qed.

(** ** The calls always end *)

(** Once the close handler was called, no level below is needed. *)
Lemma commands_called run l c : is_close_handler_called_ (fl c) = true ->
  exists c', commands_with hs run l c = Some c'.
Proof.
  revert c. induction l as [|k l IH]; intros c Hc; [by exists c|]. cbn [commands_with].
  assert (H : exists d, command_with hs run k c = Some d /\ is_close_handler_called_ (fl d) = true).
  { unfold command_with, close. destruct k; cbn [fl on_flags emit has_recv_close_ set_sent_close is_close_handler_called_];
      rewrite ?Hc, ?andb_false_r; cbn [negb mbind option_bind]; rewrite ?andb_false_r;
      (eexists; split; [reflexivity|]; unfold send; by rewrite flags_enqueue). }
  destruct H as (d & -> & Hd). by apply IH.
Qed.

Lemma commands_level run l c : (forall l c, is_close_handler_called_ (fl c) = true -> exists c', run l c = Some c') ->
  exists c', commands_with hs run l c = Some c'.
Proof.
  intros Hr. revert c. induction l as [|k l IH]; intros c; [by exists c|]. cbn [commands_with].
  assert (H : exists d, command_with hs run k c = Some d).
  { unfold command_with. destruct k; try (by eexists). unfold close. destruct (_ && _); [|by eexists].
    unfold call_close, call_handler. destruct (close_handler_ hs) as [h|]; [|by eexists].
    match goal with |- context [run ?l ?c] => destruct (Hr l c) as (d & ->) end; [done|by eexists]. }
  destruct H as (d & ->). by apply IH.
Qed.

(** Two levels are enough. *)
Lemma commands_run l c : exists c', commands hs l c = Some c'.
Proof. apply commands_level. intros. by apply commands_called. Qed.

Lemma call_handler_run {A} (h : option A) a calls c : exists c', call_handler (commands hs) h a calls c = Some c'.
Proof. unfold call_handler. destruct h as [h|]; [apply commands_run|by exists c]. Qed.

Lemma command_run k c : exists c', command_ hs k c = Some c'.
Proof. destruct (commands_run [k] c) as (c' & H). cbn in H. unfold command_. destruct (command_with _ _ k c) as [d|]; [by exists d|done]. Qed.

Lemma same_check_destroy c c' : check_destroy hs c = Some c' -> same c c'.
Proof.
  unfold check_destroy. intros H.
  destruct (if is_close_handler_called_ (fl c) then Some c else call_close hs (commands hs) (of_text "uncleanly") c) as [d|] eqn:E; [|done].
  assert (Hd : same c d).
  { destruct (is_close_handler_called_ (fl c)); [by injection E as <-|].
    unfold call_close in E. by apply gentle_handler in E as (? & _); [|apply gentle_all|]. }
  cbn [mbind option_bind] in H. injection H as <-. destruct (_ && _); [|done]. etransitivity; [exact Hd|].
  etransitivity; [|by apply same_emit]. done.
Qed.

(** ** What a reader has of a frame *)

Definition header (r : reader) (b x : ascii) : Prop := mini_header_ r = uc b * 256 + uc x.

Inductive open (r : reader) : bytes -> Prop :=
  | open_mini : state_ r = MiniHeader -> fragment_ r = [] -> open r []
  | open_16 b x : state_ r = Len16 -> fragment_ r = [] -> header r b x -> has_mask_ r = (128 <=? uc x) ->
      Z.land (uc x) 0x7f = 126 -> open r [b; x]
  | open_64 b x : state_ r = Len64 -> fragment_ r = [] -> header r b x -> has_mask_ r = (128 <=? uc x) ->
      Z.land (uc x) 0x7f = 127 -> open r [b; x]
  | open_mask b l n : state_ r = Mask -> fragment_ r = [] -> header r b (second l true n) -> has_mask_ r = true ->
      fits_form l n -> remaining_length_ r = n -> open r (opening b l true n)
  | open_payload b l k n : state_ r = Payload -> header r b (second l (bool_decide (is_Some k)) n) ->
      has_mask_ r = bool_decide (is_Some k) -> (forall m, k = Some m -> mask_ r = m /\ length m = 4%nat) -> fits_form l n ->
      remaining_length_ r = n - Z.of_nat (length (fragment_ r)) -> 0 <= remaining_length_ r ->
      open r (opening b l (bool_decide (is_Some k)) n ++ default [] k ++ fragment_ r).

(** The state of the message. *)
Definition agree (r : reader) (l : list action) (a : assembly) : Prop :=
  message_ r = partial a /\ is_binary_ r = binary a /\ messages l = complete a.

Lemma agree_same c c' a : same c c' -> agree (rd c) (log c) a -> agree (rd c') (log c') a.
Proof. intros [H1 H2]. unfold agree. by rewrite H1, H2. Qed.

(** Asking for more bytes. *)
Lemma do_read_agree c a : agree (rd c) (log c) a -> agree (rd (do_read c)) (log (do_read c)) a.
Proof.
  unfold agree, do_read, read_payload. intros (H1 & H2 & H3).
  destruct (state_ _) eqn:E; cbn [rd log emit on_reader]; rewrite ?messages_snoc, ?app_nil_r; try done.
  destruct (has_mask_ _); cbn [rd log emit on_reader]; rewrite ?messages_snoc, ?app_nil_r; done.
Qed.

(** Where a length is known the mask is next, or the payload. *)
Lemma open_length c b l n : state_ (rd c) = Mask -> fragment_ (rd c) = [] -> header (rd c) b (second l (has_mask_ (rd c)) n) ->
  fits_form l n -> remaining_length_ (rd c) = n -> open (rd (do_read c)) (opening b l (has_mask_ (rd c)) n).
Proof.
  intros Hs Hf Hh Hn Hr. unfold do_read. cbn [rd on_reader state_ set_reading has_mask_]. rewrite Hs.
  destruct (has_mask_ (rd c)) eqn:Em.
  - by apply open_mask.
  - set (r := rd (read_payload _)). assert (Hfr : fragment_ r = []) by done.
    replace (opening b l false n) with (opening b l (bool_decide (is_Some (@None bytes))) n ++ default [] (@None bytes) ++ fragment_ r)
      by (rewrite Hfr; cbn; by rewrite app_nil_r).
    apply open_payload; try done; subst r; cbn; rewrite ?Hf; cbn; destruct l; cbn in Hn; lia.
Qed.

Lemma mini_header_open b x c : fragment_ (rd c) = [] -> open (rd (on_mini_header [b; x] c)) [b; x].
Proof.
  intros Hf. unfold on_mini_header. rewrite header_value. destruct (header_bits (uc b) (uc x) (uc_range b) (uc_range x)) as (Hm & H7 & _ & _).
  rewrite Hm, H7. destruct (Z.land (uc x) 127 =? 127) eqn:E7; [apply Z.eqb_eq in E7; by apply open_64|].
  destruct (Z.land (uc x) 127 =? 126) eqn:E6; [apply Z.eqb_eq in E6; by apply open_16|].
  assert (Hx : 0 <= Z.land (uc x) 127 < 126).
  { apply Z.eqb_neq in E6, E7. change 127 with (Z.ones 7) in *. rewrite Z.land_ones in * by lia. change (2 ^ 7) with 128 in *.
    pose proof (Z.mod_pos_bound (uc x) 128). change (Z.ones 7) with 127 in *. lia. }
  assert (Hs : second Short (128 <=? uc x) (Z.land (uc x) 127) = x) by by apply second_of.
  match goal with |- open (rd (do_read ?d)) _ => pose proof (open_length d b Short (Z.land (uc x) 127)) as H end.
  cbn [rd on_reader set_state set_remaining set_has_mask set_mini_header state_ fragment_ has_mask_ remaining_length_] in H.
  unfold opening in H. cbn [extended] in H. rewrite app_nil_r, Hs in H. by apply H.
Qed.

Lemma len16_open b x d c : fragment_ (rd c) = [] -> header (rd c) b x -> has_mask_ (rd c) = (128 <=? uc x) ->
  Z.land (uc x) 0x7f = 126 -> length d = 2%nat -> open (rd (on_len16 d c)) ([b; x] ++ d).
Proof.
  intros Hf Hh Hm Hx Hd. unfold on_len16. rewrite htons_value by done.
  match goal with |- open (rd (do_read ?d')) _ => pose proof (open_length d' b Long16 (be_value d)) as H end.
  cbn [rd on_reader set_state set_remaining set_length16 state_ fragment_ has_mask_ remaining_length_] in H.
  unfold opening in H. cbn [extended] in H. rewrite be_bytes_value, Hm, (second_of x Long16) in H by done. apply H; try done.
  cbn. unfold be_value. pose proof (le_value_range (rev d)) as Hr. by rewrite length_rev, Hd in Hr.
Qed.

Lemma len64_open b x d c : fragment_ (rd c) = [] -> header (rd c) b x -> has_mask_ (rd c) = (128 <=? uc x) ->
  Z.land (uc x) 0x7f = 127 -> length d = 8%nat -> open (rd (on_len64 d c)) ([b; x] ++ d).
Proof.
  intros Hf Hh Hm Hx Hd. unfold on_len64. rewrite swap64_value by done.
  match goal with |- open (rd (do_read ?d')) _ => pose proof (open_length d' b Long64 (be_value d)) as H end.
  cbn [rd on_reader set_state set_remaining set_length16 state_ fragment_ has_mask_ remaining_length_] in H.
  unfold opening in H. cbn [extended] in H. rewrite be_bytes_value, Hm, (second_of x Long64) in H by done. apply H; try done.
  cbn. unfold be_value. pose proof (le_value_range (rev d)) as Hr. by rewrite length_rev, Hd in Hr.
Qed.

Lemma mask_open b l n d c : fragment_ (rd c) = [] -> header (rd c) b (second l true n) -> has_mask_ (rd c) = true ->
  fits_form l n -> remaining_length_ (rd c) = n -> length d = 4%nat -> open (rd (on_mask d c)) (opening b l true n ++ d).
Proof.
  intros Hf Hh Hm Hn Hr Hd. unfold on_mask, do_read. cbn [rd on_reader set_reading set_state set_mask state_]. unfold read_payload.
  set (r := rd (emit _ _)). assert (Hfr : fragment_ r = []) by done.
  replace (opening b l true n ++ d) with (opening b l (bool_decide (is_Some (Some d))) n ++ default [] (Some d) ++ fragment_ r)
    by (rewrite Hfr; cbn; by rewrite app_nil_r).
  apply open_payload; try done; [by intros m [= <-]| |]; subst r; cbn; rewrite ?Hf; cbn; destruct l; cbn in Hn; lia.
Qed.

(** ** A frame is complete *)

Hypothesis Hmessage : is_Some (message_handler_ hs).

Lemma add_fragment_spec c c' a f b : agree (rd c) (log c) a -> is_FIN c = fin f -> fragment_ (rd c) = data f ->
  is_binary_ (rd c) = b -> add_fragment hs c = Some c' -> agree (rd c') (log c') (join b f a).
Proof.
  intros (Hp & Hb & Hm) Hfin Hd Hbin. unfold add_fragment, join. change (is_FIN (on_reader _ c)) with (is_FIN c). rewrite Hfin.
  set (d := on_reader _ c). assert (Hmsg : message_ (rd d) = partial a ++ data f) by (by cbn; rewrite Hp, Hd).
  destruct (fin f).
  - destruct Hmessage as (h & Eh). unfold call_handler. rewrite Eh.
    destruct (commands hs _ _) as [e|] eqn:E; [|done]. cbn [mbind option_bind]. intros [= <-].
    apply gentle_all in E as ([H1 H2] & _). split; [done|]. cbn [rd on_reader set_message is_binary_ log]. rewrite H1, H2. cbn [rd emit log d on_reader].
    rewrite messages_snoc, Hm. split; [done|]. cbn [message_of complete]. subst d. cbn [rd on_reader set_message message_ is_binary_] in *. by rewrite Hmsg, Hbin.
  - intros [= <-]. split; [done|]. split; [exact Hbin|done].
Qed.

Definition given (c : Connection) (f : frame) : Prop :=
  opcode c = frame_opcode f /\ is_FIN c = fin f /\
  (if has_mask_ (rd c) then unmask (mask_ (rd c)) (fragment_ (rd c)) else fragment_ (rd c)) = data f.

Lemma same_closed_twice c c' : closed_twice hs c = Some c' -> same c c'.
Proof.
  unfold closed_twice. set (d := on_flags set_closing _).
  assert (Hd : same c d) by (etransitivity; [by apply (same_emit AdaptorClosed)|]; done). intros H.
  destruct (if is_close_handler_called_ (fl d) then Some d else _) as [e|] eqn:E; [|done]. cbn [mbind option_bind] in H.
  apply same_check_destroy in H. etransitivity; [|exact H]. etransitivity; [exact Hd|].
  destruct (is_close_handler_called_ (fl d)); [by injection E as <-|].
  destruct (call_close _ _ _ _) as [g|] eqn:Eg; [|done]. cbn [mbind option_bind] in E. injection E as <-.
  unfold call_close in Eg. apply gentle_handler in Eg as (Hg & _); [|apply gentle_all|done]. etransitivity; [exact Hg|done].
Qed.

Lemma same_command k c c' : command_ hs k c = Some c' -> same c c'.
Proof. intros H. by apply gentle_command in H as (? & _); [|apply gentle_nested]. Qed.

Lemma handle_fragment_spec c c' a f : given c f -> agree (rd c) (log c) a -> handle_fragment hs c = Some c' ->
  agree (rd c') (log c') (absorb a f) /\ fragment_ (rd c') = [] /\ freed c' = false.
Proof.
  intros (Hop & Hfin & Hdata) Ha. unfold handle_fragment.
  set (d := if has_mask_ (rd c) then _ else c).
  assert (Hd : agree (rd d) (log d) a /\ opcode d = frame_opcode f /\ is_FIN d = fin f /\ fragment_ (rd d) = data f).
  { subst d. destruct (has_mask_ (rd c)); done. }
  clearbody d. clear Hop Hfin Hdata Ha. destruct Hd as (Ha & Hop & Hfin & Hdata). rewrite Hop. intros H.
  match type of H with (?m ≫= _) = _ => destruct m as [e|] eqn:E; [|done] end. cbn [mbind option_bind] in H.
  destruct (freed e) eqn:Ef; [done|]. injection H as <-. split; [|done]. unfold absorb.
  cut (agree (rd e) (log e) (if frame_opcode f =? 0 then join (binary a) f a
    else if frame_opcode f =? 1 then join (Some false) f a else if frame_opcode f =? 2 then join (Some true) f a else a)); [done|].
  destruct (frame_opcode f =? 0); [eapply add_fragment_spec; [exact Ha|done|done|apply Ha|exact E]|].
  destruct (frame_opcode f =? 1).
  { refine (add_fragment_spec _ _ (mkAssembly (partial a) (Some false) (complete a)) f _ _ _ _ _ E); try done. split; [apply Ha|split; [done|apply Ha]]. }
  destruct (frame_opcode f =? 2).
  { refine (add_fragment_spec _ _ (mkAssembly (partial a) (Some true) (complete a)) f _ _ _ _ _ E); try done. split; [apply Ha|split; [done|apply Ha]]. }
  apply (agree_same d); [|done]. destruct (frame_opcode f =? 8).
  { destruct (negb _); [apply same_command in E|apply same_closed_twice in E]; (etransitivity; [|exact E]); done. }
  destruct (frame_opcode f =? 9); [by apply same_command in E|]. destruct (frame_opcode f =? 10); by injection E as <-.
Qed.

(** ** What was read *)

(** The completions that asio gives: [async_read_some] of at least one byte (unless
    none was asked for) and no more than were asked for, so of one or both bytes of a
    header; [async_read] of all. *)
Definition awaited (r : reader) (d : bytes) : Prop :=
  match state_ r with
  | MiniHeader => (1 <= length d <= 2)%nat
  | Len16 => length d = 2%nat
  | Len64 => length d = 8%nat
  | Mask => length d = 4%nat
  | Payload => Z.of_nat (length d) <= Z.min 4096 (remaining_length_ r) /\ (d = [] -> remaining_length_ r = 0)
  end.

Definition possible (c : Connection) (e : event) : Prop :=
  match e with
  | ReadDone d => is_reading (rd c) = true /\ awaited (rd c) d
  | ReadFailed => is_reading (rd c) = true
  | Written _ => sending_buffers_ (wr c) <> []
  | Call _ => True
  end.

(** The connections that a connection can become. *)
Inductive reaches (c0 : Connection) : list event -> Connection -> Prop :=
  | reaches_start : reaches c0 [] c0
  | reaches_step es c e c' : reaches c0 es c -> possible c e -> step hs c e = Some c' -> reaches c0 (es ++ [e]) c'.

Definition received (es : list event) : bytes := List.concat ((fun e => match e with ReadDone d => d | _ => [] end) <$> es).

Lemma received_snoc es e : received (es ++ [e]) = received es ++ match e with ReadDone d => d | _ => [] end.
Proof. unfold received. rewrite fmap_app, concat_app. cbn. by rewrite app_nil_r. Qed.

(** A header byte that comes alone is taken for the whole header: the code goes on as
    if a zero byte had followed it. *)
Definition read_as (c : Connection) (e : event) : bytes :=
  match e with
  | ReadDone [b] => match state_ (rd c) with MiniHeader => [b; NUL] | _ => [b] end
  | ReadDone d => d
  | _ => []
  end.

Fixpoint understood (c : Connection) (es : list event) : bytes :=
  match es with
  | [] => []
  | e :: es => read_as c e ++ match step hs c e with Some c => understood c es | None => [] end
  end.

(** Every header that was read came whole. *)
Fixpoint whole_headers (c : Connection) (es : list event) : bool :=
  match es with
  | [] => true
  | e :: es => match e, state_ (rd c) with ReadDone [_], MiniHeader => false | _, _ => true end &&
      match step hs c e with Some c => whole_headers c es | None => true end
  end.

Lemma run_snoc es e c : run hs (es ++ [e]) c = (c ← run hs es c; step hs c e).
Proof.
  revert c. induction es as [|x es IH]; intros c; cbn [app run]; [cbn [mbind option_bind]; by destruct (step hs c e)|].
  destruct (step hs c x) as [d|]; [apply IH|done].
Qed.

Lemma reaches_run c0 es c : reaches c0 es c -> run hs es c0 = Some c.
Proof. induction 1 as [|es c e c' _ IH _ Hs]; [done|]. rewrite run_snoc, IH. exact Hs. Qed.

Lemma understood_snoc es e c0 c : run hs es c0 = Some c -> understood c0 (es ++ [e]) = understood c0 es ++ read_as c e.
Proof.
  revert c0. induction es as [|x es IH]; intros c0 H; cbn [app run understood] in *.
  - injection H as ->. by destruct (step hs c e); rewrite app_nil_r.
  - destruct (step hs c0 x) as [d|]; [|done]. by rewrite (IH d H), app_assoc.
Qed.

Lemma understood_whole es c0 c : run hs es c0 = Some c -> whole_headers c0 es = true -> understood c0 es = received es.
Proof.
  revert c0. induction es as [|x es IH]; intros c0 H Hw; [done|]. cbn [run understood whole_headers] in *.
  destruct (step hs c0 x) as [d|]; [|done]. apply andb_true_iff in Hw as [Hx Hw]. rewrite (IH d H Hw). unfold received. cbn [fmap list_fmap List.concat].
  f_equal. destruct x as [[|b [|]]| | |]; try done. cbn [read_as] in *. by destruct (state_ (rd c0)).
Qed.

(** Frames that were read, and the beginning of the next. *)
Definition took (c : Connection) (s : bytes) : Prop := exists fs pre, Forall valid fs /\ s = wire fs ++ pre /\
  open (rd c) pre /\ agree (rd c) (log c) (assemble fs).

Lemma took_more (c' : Connection) s t fs pre : Forall valid fs -> s = wire fs ++ pre -> open (rd c') (pre ++ t) ->
  agree (rd c') (log c') (assemble fs) -> took c' (s ++ t).
Proof. intros Hf -> Ho Ha. exists fs, (pre ++ t). by rewrite app_assoc. Qed.

Lemma agree_read (c c' : Connection) a : agree (rd c) (log c) a -> message_ (rd c') = message_ (rd c) -> is_binary_ (rd c') = is_binary_ (rd c) ->
  log c' = log c -> agree (rd (do_read c')) (log (do_read c')) a.
Proof. intros (H1 & H2 & H3) E1 E2 E3. apply do_read_agree. unfold agree. by rewrite E1, E2, E3. Qed.

Lemma payload_frame (c : Connection) b l k n (s : bytes) : header (rd c) b (second l (bool_decide (is_Some k)) n) -> has_mask_ (rd c) = bool_decide (is_Some k) ->
  (forall m, k = Some m -> mask_ (rd c) = m /\ length m = 4%nat) -> fits_form l n -> fragment_ (rd c) = s -> Z.of_nat (length s) = n ->
  given c (mkFrame b l k s) /\ valid (mkFrame b l k s) /\
  encode (mkFrame b l k s) = opening b l (bool_decide (is_Some k)) n ++ default [] k ++ s.
Proof.
  intros Hh Hm Hk Hn Hs Hl. destruct (header_bits (uc b) _ (uc_range b) (uc_range (second l (bool_decide (is_Some k)) n))) as (_ & _ & H1 & H2).
  split; [|split].
  - unfold given, opcode, is_FIN, frame_opcode, fin, data. rewrite Hh, H1, H2. cbn [first key raw]. split; [done|]. split; [done|].
    rewrite Hm, Hs. destruct k as [m|]; [|done]. by destruct (Hk m eq_refl) as [-> _].
  - split; cbn [form key]; unfold size; cbn [raw]; [by rewrite Hl|]. destruct k as [m|]; [|done]. by apply Hk.
  - unfold encode, size. cbn [first form key raw]. by rewrite Hl.
Qed.

Lemma took_payload c c' d s : took c s -> state_ (rd c) = Payload -> awaited (rd c) d -> on_payload hs d c = Some c' -> took c' (s ++ d).
Proof.
  intros (fs & pre & Hf & Hs & Ho & Ha) Hst Haw H. unfold awaited in Haw. rewrite Hst in Haw. destruct Haw as [Hlen Hnil].
  inversion Ho as [E|? ? E|? ? E|? ? ? E|b l k n _ Hh Hm Hk Hn Hrem Hpos E]; [congruence..|]. unfold on_payload in H.
  set (e := on_reader _ c) in H.
  assert (Hrem' : remaining_length_ (rd e) = n - Z.of_nat (length (fragment_ (rd c) ++ d))).
  { assert (Hsmall : remaining_length_ (rd c) < 2 ^ 64) by (rewrite Hrem; destruct l; cbn in Hn; lia).
    transitivity (remaining_length_ (rd c) - Z.of_nat (length d)); [apply Z.mod_small; lia|]. rewrite Hrem, length_app. lia. }
  assert (Hae : agree (rd e) (log e) (assemble fs)) by exact Ha.
  assert (Hpre : pre ++ d = opening b l (bool_decide (is_Some k)) n ++ default [] k ++ fragment_ (rd e)) by (rewrite <- E; by rewrite <- !app_assoc).
  destruct (Z.eqb_spec (remaining_length_ (rd e)) 0) as [Hz|Hz].
  - destruct (payload_frame e b l k n (fragment_ (rd e)) Hh Hm Hk Hn eq_refl) as (Hg & Hv & He); [cbn [rd e on_reader set_remaining set_fragment fragment_] in *; lia|].
    destruct (handle_fragment hs e) as [g|] eqn:Eg; [|done]. cbn [mbind option_bind] in H. injection H as <-.
    destruct (handle_fragment_spec _ _ _ _ Hg Hae Eg) as (Hag & Hfg & _).
    exists (fs ++ [mkFrame b l k (fragment_ (rd e))]), []. split; [by apply Forall_app; split; [|constructor]|]. split.
    { rewrite wire_app, Hs, <- !app_assoc, Hpre, <- He. f_equal. unfold wire. cbn. by rewrite !app_nil_r. }
    unfold assemble. rewrite foldl_app. cbn [foldl]. split; [by apply open_mini|by apply (agree_read g)].
  - injection H as <-. apply (took_more _ _ _ fs pre Hf Hs); [|by apply (agree_read e)]. rewrite Hpre.
    assert (Hst' : state_ (rd e) = Payload) by exact Hst. unfold do_read. cbn [rd on_reader set_reading state_]. rewrite Hst'.
    apply (open_payload (rd (read_payload (on_reader (set_reading true) e)))); try done.
    change (0 <= remaining_length_ (rd e)). rewrite Hrem', length_app. lia.
Qed.

Lemma open_reading r q pre : open r pre -> open (set_reading q r) pre.
Proof.
  intros [H|b x H|b x H|b l n H|b l k n H];
    [by apply open_mini|by apply open_16|by apply open_64|by apply open_mask|by apply (open_payload (set_reading q r))].
Qed.

Lemma mini_header_alone b c : on_mini_header [b] c = on_mini_header [b; NUL] c.
Proof. unfold on_mini_header, le_value. cbn [foldr]. by rewrite Z.mul_0_r. Qed.

Lemma took_read c c' d s : took c s -> awaited (rd c) d -> on_read hs d c = Some c' -> took c' (s ++ read_as c (ReadDone d)).
Proof.
  intros Ht Haw H. unfold on_read in H. set (e := on_reader (set_reading false) c) in H.
  assert (Hte : took e s) by (destruct Ht as (fs & pre & Hf & Hs & Ho & Ha); exists fs, pre; split; [done|]; split; [done|]; split; [by apply open_reading|done]).
  clear Ht. change (state_ (rd e)) with (state_ (rd c)) in H. change (awaited (rd e) d) in Haw.
  assert (Hst : state_ (rd e) = state_ (rd c)) by done.
  assert (Hd : read_as c (ReadDone d) = match state_ (rd c), d with MiniHeader, [b] => [b; NUL] | _, _ => d end)
    by (destruct d as [|b []]; cbn; by destruct (state_ (rd c))).
  rewrite Hd. clear Hd. revert H. destruct (state_ (rd c)); intros H; [..|by apply (took_payload e)].
  all: unfold awaited in Haw; rewrite Hst in Haw; destruct Hte as (fs & pre & Hf & Hs & Ho & Ha); injection H as <-;
    apply (took_more _ _ _ fs pre Hf Hs);
    [|unfold on_mini_header, on_len16, on_len64, on_mask; apply (agree_read e); try done; cbn [rd on_reader]; by repeat case_match];
    inversion Ho as [E|? ? E|? ? E|? ? ? E|? ? ? ? E]; subst; try congruence.
  - destruct d as [|b [|x [|]]]; try (cbn in Haw; lia); [rewrite mini_header_alone|]; by apply mini_header_open.
  - by apply len16_open.
  - by apply len64_open.
  - by apply mask_open.
Qed.

Lemma took_same c c' s : same c c' -> took c s -> took c' s.
Proof.
  intros H (fs & pre & Hf & Hs & Ho & Ha). exists fs, pre. split; [done|]. split; [done|].
  split; [by rewrite (proj1 H)|by apply (agree_same c)].
Qed.

Lemma same_write ok c c' : on_write hs ok c = Some c' -> same c c'.
Proof.
  unfold on_write. set (d := on_writer _ c). assert (Hd : same c d) by done. destruct (ok && _).
  - intros [= <-]. etransitivity; [exact Hd|]. destruct (bool_decide _), (has_sent_close_ _); try done; apply same_do_write.
  - intros H%same_check_destroy. etransitivity; [|exact H]. done.
Qed.

Lemma took_error c c' s : took c s -> on_read_error hs c = Some c' -> took c' s.
Proof.
  intros (fs & pre & Hf & Hs & Ho & Ha) H. unfold on_read_error in H. set (d := on_flags _ _) in H.
  assert (Hd : took d s) by (exists fs, pre; split; [done|]; split; [done|]; split; [exact (open_reading _ false _ Ho)|exact Ha]).
  assert (He : forall c c', call_error hs c = Some c' -> same c c').
  { intros e e' E. unfold call_error in E. by apply gentle_handler in E as (? & _); [|apply gentle_all|]. }
  apply (took_same d); [|done]. clear Hd. destruct (state_ (rd d)).
  1-3: destruct (call_error _ _) as [e|] eqn:E; [|done]; cbn [mbind option_bind] in H; apply same_check_destroy in H;
    (etransitivity; [|exact H]); apply He in E; (etransitivity; [|exact E]); by apply same_emit.
  all: destruct (call_error _ _) as [e|] eqn:E; [|done]; cbn [mbind option_bind] in H; injection H as <-; apply He in E;
    (etransitivity; [exact E|]); by apply same_emit.
Qed.

Lemma reaches_took c0 es c : took c0 [] -> reaches c0 es c -> took c (understood c0 es).
Proof.
  intros H0. induction 1 as [|es c e c' Hr IH Hp Hs]; [done|]. rewrite (understood_snoc es e c0 c) by by apply reaches_run. unfold step in Hs.
  destruct (freed c) eqn:Ef; [done|]. destruct e as [d| |ok|k]; cbn [read_as]; rewrite ?app_nil_r.
  - eapply took_read; [exact IH|apply Hp|exact Hs].
  - by eapply took_error.
  - apply same_write in Hs. by eapply took_same.
  - apply same_command in Hs. by eapply took_same.
Qed.

Lemma took_start h c : start hs h blank = Some c -> took c [].
Proof.
  unfold start. intros H. destruct (call_handler _ _ _ _ _) as [d|] eqn:E; [|done]. cbn [mbind option_bind] in H. injection H as <-.
  apply gentle_handler in E as ([H1 H2] & _); [|apply gentle_all|done].
  assert (Hd : rd d = blank_reader) by done. exists [], []. split; [done|]. split; [done|]. split.
  - unfold do_read. cbn [rd on_reader set_reading state_]. rewrite Hd. cbn [state_ blank_reader].
    apply open_mini; cbn [rd emit on_reader set_mini_header set_reading state_ fragment_]; by rewrite Hd.
  - apply do_read_agree. unfold agree. rewrite Hd, H2. done.
Qed.

(** What a reader has is not a frame yet, unless a read of nothing is asked for. *)
Lemma open_parse r pre : open r pre -> ~ (state_ r = Payload /\ remaining_length_ r = 0) -> parse pre = None.
Proof.
  intros [_ _|b x _ _ _ _ H|b x _ _ _ _ H|b l n _ _ _ _ H _|b l k n Hst _ _ Hk Hn Hr Hp] Hno; [done| | | |].
  - rewrite parse_two, H. done.
  - rewrite parse_two, H. done.
  - rewrite <- (app_nil_r (opening _ _ _ _)), parse_opening by done. done.
  - rewrite parse_opening by done. assert (Hk' : match k with Some m => length m = 4%nat | None => True end) by (destruct k; [by apply Hk|done]).
    rewrite parse_key by done. cbn [mbind option_bind]. rewrite (proj2 (Z.leb_gt _ _)); [done|].
    destruct (decide (remaining_length_ r = 0)); [by destruct Hno|lia].
Qed.

Lemma reaches_messages h c0 es c fs pre : start hs h blank = Some c0 -> reaches c0 es c -> understood c0 es = wire fs ++ pre ->
  Forall valid fs -> parse pre = None -> ~ (state_ (rd c) = Payload /\ remaining_length_ (rd c) = 0) ->
  messages (log c) = complete (assemble fs).
Proof.
  intros H0%took_start Hr He Hv Hp Hno. destruct (reaches_took _ _ _ H0 Hr) as (gs & s & Hg & Hs & Ho & Ha). rewrite He in Hs.
  destruct (wire_inj fs gs pre Hv Hg Hp s (open_parse _ _ Ho Hno) Hs) as [<- _]. apply Ha.
Qed.

(** ** What is written *)

Definition buffers_of (a : action) : bytes := match a with AsyncWrite l => List.concat l | _ => [] end.

(** The bytes handed to the socket so far. *)
Definition written (l : list action) : bytes := List.concat (buffers_of <$> l).

Definition dispatched (l : list action) : list command := omap (fun a => match a with Dispatched k => Some k | _ => None end) l.

Definition text (k : command) : bytes := match k with SendPing m | SendPong m | SendBinary m | SendText m | Close m => m end.
Definition code_of (k : command) : Z := match k with SendPing _ => 0x9 | SendPong _ => 0xA | SendBinary _ => 2 | SendText _ => 1 | Close _ => 0x8 end.

Definition command_bytes (k : command) : bytes := build_header (code_of k) (Z.of_nat (length (text k))) ++ text k.

(** What was written or waits to be is [greeting] and whole frames: those of the
    functions dispatched but for [late], and in that order unless there is a handler
    that may send before the close frame. *)
Definition wrote (greeting : bytes) (late : list command) (c : Connection) : Prop :=
  exists ks, late ++ ks ≡ₚ dispatched (log c) /\ (close_handler_ hs = None -> dispatched (log c) = ks ++ late) /\
    written (log c) ++ List.concat (write_buffers_ (wr c)) = greeting ++ List.concat (command_bytes <$> ks).

Definition writes (a : action) : Prop := match a with AsyncWrite _ | Dispatched _ => True | _ => False end.

Lemma written_snoc l a : written (l ++ [a]) = written l ++ buffers_of a.
Proof. unfold written. rewrite fmap_app, concat_app. cbn. by rewrite app_nil_r. Qed.

Lemma dispatched_snoc l a : dispatched (l ++ [a]) = dispatched l ++ match a with Dispatched k => [k] | _ => [] end.
Proof. unfold dispatched. rewrite omap_app. by destruct a. Qed.

Lemma wrote_eq g late c c' : wr c' = wr c -> log c' = log c -> wrote g late c -> wrote g late c'.
Proof. intros H1 H2. unfold wrote. by rewrite H1, H2. Qed.

Lemma wrote_emit g late a c : ~ writes a -> wrote g late c -> wrote g late (emit a c).
Proof.
  intros Ha (ks & Hp & Ho & Hw). exists ks. cbn [log emit wr]. rewrite dispatched_snoc, written_snoc.
  destruct a; try (by destruct Ha); cbn [buffers_of]; by rewrite !app_nil_r.
Qed.

Definition ordered (late : list command) : Prop := close_handler_ hs = None -> late = [].

Lemma wrote_dispatched g late k c : ordered late -> wrote g late c -> wrote g (k :: late) (emit (Dispatched k) c).
Proof.
  intros Hl (ks & Hp & Ho & Hw). exists ks. cbn [log emit wr]. rewrite dispatched_snoc, written_snoc, app_nil_r. split; [|split; [|done]].
  - rewrite <- Hp. cbn [app]. by rewrite Permutation_cons_append.
  - intros H. by rewrite (Ho H), (Hl H), app_nil_r.
Qed.

(** [do_write] only moves bytes. *)
Lemma wrote_do_write g late c : wrote g late c -> wrote g late (do_write c).
Proof.
  intros (ks & Hp & Ho & Hw). unfold do_write. destruct (sending_buffers_ (wr c)); [|by exists ks]. exists ks.
  cbn [log emit on_writer wr write_buffers_]. rewrite dispatched_snoc, written_snoc, app_nil_r. split; [done|]. split; [done|].
  cbn [buffers_of List.concat]. by rewrite app_nil_r.
Qed.

Lemma wrote_enqueue g late k c : ordered late -> wrote g (k :: late) c -> wrote g late (send (code_of k) (text k) c).
Proof.
  intros Hl (ks & Hp & Ho & Hw). apply wrote_do_write. exists (ks ++ [k]). cbn [log on_writer wr write_buffers_]. split; [|split].
  - rewrite <- Hp. rewrite app_assoc. by rewrite <- Permutation_cons_append.
  - intros H. by rewrite (Ho H), (Hl H), app_nil_r.
  - rewrite (concat_app (write_buffers_ _)), app_assoc, Hw, fmap_app, concat_app, <- app_assoc. do 2 f_equal. cbn. by rewrite !app_nil_r.
Qed.

Definition keeps_writing (run : list command -> Connection -> option Connection) : Prop :=
  forall g late l c c', ordered late -> run l c = Some c' -> wrote g late c -> wrote g late c'.

Lemma wrote_handler {A} g late run (h : option A) a calls c c' : keeps_writing run -> ordered late -> ~ writes a ->
  call_handler run h a calls c = Some c' -> wrote g late c -> wrote g late c'.
Proof.
  intros Hr Hl Ha. unfold call_handler. destruct h as [h|]; [|by intros [= <-]]. intros H Hw. eapply Hr; [exact Hl|exact H|]. by apply wrote_emit.
Qed.

Lemma wrote_command g late run k c c' : keeps_writing run -> ordered late -> command_with hs run k c = Some c' -> wrote g late c -> wrote g late c'.
Proof.
  intros Hr Hl H Hw. apply (wrote_dispatched _ _ k) in Hw; [|done]. unfold command_with in H. set (d := emit _ c) in *.
  destruct k as [msg|msg|msg|msg|msg]; try (injection H as <-; by apply (wrote_enqueue _ _ _ _ Hl) in Hw).
  unfold close in H. set (e := on_flags set_sent_close d) in H. assert (He : wrote g (Close msg :: late) e) by (by apply (wrote_eq _ _ d)).
  destruct (if _ && _ then _ else _) as [q|] eqn:E; [|done]. cbn [mbind option_bind] in H. injection H as <-.
  apply (wrote_enqueue g late (Close msg)); [done|]. destruct (_ && _); [|by injection E as <-].
  unfold call_close, call_handler in E. destruct (close_handler_ hs) as [h|] eqn:Eh; [|injection E as <-; by apply (wrote_eq _ _ e)].
  eapply Hr; [|exact E|]; [by intros ?; congruence|]. apply wrote_emit; [by intros []|]. by apply (wrote_eq _ _ e).
Qed.

Lemma wrote_commands run : keeps_writing run -> keeps_writing (commands_with hs run).
Proof.
  intros Hr g late l c c' Hl. revert c. induction l as [|k l IH]; intros c H Hw; cbn [commands_with] in H; [by injection H as <-|].
  destruct (command_with hs run k c) as [d|] eqn:E; [|done]. cbn [mbind option_bind] in H.
  eapply IH; [exact H|]. by eapply wrote_command.
Qed.

Lemma wrote_nested : keeps_writing (nested hs).
Proof. apply wrote_commands. by intros g late l c c'. Qed.

Lemma wrote_all : keeps_writing (commands hs).
Proof. apply wrote_commands, wrote_nested. Qed.

Lemma wrote_call g k c c' : command_ hs k c = Some c' -> wrote g [] c -> wrote g [] c'.
Proof. by apply wrote_command; [apply wrote_nested|]. Qed.

Section Written.
  Context (g : bytes).

Lemma wrote_check_destroy c c' : check_destroy hs c = Some c' -> wrote g [] c -> wrote g [] c'.
Proof.
  unfold check_destroy. intros H Hw. destruct (if is_close_handler_called_ (fl c) then _ else _) as [d|] eqn:E; [|done].
  cbn [mbind option_bind] in H. injection H as <-. assert (Hd : wrote g [] d).
  { destruct (is_close_handler_called_ (fl c)); [by injection E as <-|]. unfold call_close in E.
    eapply wrote_handler; [apply wrote_all|done| |exact E|done]. by intros []. }
  destruct (_ && _); [|done]. apply wrote_emit; [by intros []|]. by apply (wrote_eq _ _ d).
Qed.

Lemma wrote_do_read c : wrote g [] c -> wrote g [] (do_read c).
Proof.
  intros Hw. unfold do_read, read_payload. assert (Hd : forall f, wrote g [] (on_reader f c)) by (intros f; by apply (wrote_eq _ _ c)).
  destruct (state_ _); [| | |destruct (has_mask_ _)|]; (apply wrote_emit; [by intros []|]); by apply (wrote_eq _ _ c).
Qed.

Lemma wrote_add_fragment c c' : add_fragment hs c = Some c' -> wrote g [] c -> wrote g [] c'.
Proof.
  unfold add_fragment. intros H Hw. set (d := on_reader _ c) in H. assert (Hd : wrote g [] d) by (by apply (wrote_eq _ _ c)).
  destruct (is_FIN d); [|by injection H as <-]. destruct (call_handler _ _ _ _ _) as [e|] eqn:E; [|done].
  cbn [mbind option_bind] in H. injection H as <-. apply (wrote_eq _ _ e); [done|done|].
  eapply wrote_handler; [apply wrote_all|done| |exact E|done]. by intros [].
Qed.

Lemma wrote_closed_twice c c' : closed_twice hs c = Some c' -> wrote g [] c -> wrote g [] c'.
Proof.
  unfold closed_twice. intros H Hw. set (d := on_flags set_closing _) in H.
  assert (Hd : wrote g [] d) by (apply (wrote_eq _ _ (emit AdaptorClosed c)); [done|done|]; apply wrote_emit; [by intros []|done]).
  destruct (if is_close_handler_called_ (fl d) then Some d else _) as [e|] eqn:E; [|done]. cbn [mbind option_bind] in H.
  apply (wrote_check_destroy e); [done|]. destruct (is_close_handler_called_ (fl d)); [by injection E as <-|].
  destruct (call_close _ _ _ _) as [q|] eqn:Eq; [|done]. cbn [mbind option_bind] in E. injection E as <-.
  apply (wrote_eq _ _ q); [done|done|]. unfold call_close in Eq. eapply wrote_handler; [apply wrote_all|done| |exact Eq|done]. by intros [].
Qed.

Lemma wrote_handle_fragment c c' : handle_fragment hs c = Some c' -> wrote g [] c -> wrote g [] c'.
Proof.
  unfold handle_fragment. intros H Hw. set (d := if has_mask_ (rd c) then _ else c) in H.
  assert (Hd : forall f, wrote g [] (on_reader f d)) by (intros f; subst d; destruct (has_mask_ _); by apply (wrote_eq _ _ c)).
  assert (Hd0 : wrote g [] d) by (subst d; destruct (has_mask_ _); by apply (wrote_eq _ _ c)). clearbody d.
  match type of H with (?m ≫= _) = _ => destruct m as [e|] eqn:E; [|done] end. cbn [mbind option_bind] in H.
  destruct (freed e); [done|]. injection H as <-. apply (wrote_eq _ _ e); [done|done|].
  assert (Hf : wrote g [] (on_flags set_recv_close d)) by (by apply (wrote_eq _ _ d)).
  repeat match type of E with (if ?b then _ else _) = _ => destruct b end;
    first [by injection E as <- | by eapply wrote_add_fragment | by eapply wrote_call | by eapply wrote_closed_twice].
Qed.

Lemma wrote_step c e c' : step hs c e = Some c' -> wrote g [] c -> wrote g [] c'.
Proof.
  unfold step. destruct (freed c); [done|]. intros H Hw. destruct e as [d| |ok|k].
  - unfold on_read in H. set (r := on_reader (set_reading false) c) in H. assert (Hr : wrote g [] r) by (by apply (wrote_eq _ _ c)).
    destruct (state_ (rd r)); try (injection H as <-; apply wrote_do_read; by apply (wrote_eq _ _ c)).
    unfold on_payload in H. set (p := on_reader _ r) in H. assert (Hp : wrote g [] p) by (by apply (wrote_eq _ _ c)).
    destruct (remaining_length_ (rd p) =? 0); [|injection H as <-; by apply wrote_do_read].
    destruct (handle_fragment hs p) as [q|] eqn:E; [|done]. cbn [mbind option_bind] in H. injection H as <-.
    apply wrote_handle_fragment in E; [|done]. apply wrote_do_read. by apply (wrote_eq _ _ q).
  - unfold on_read_error in H. set (r := on_flags _ _) in H. assert (Hr : wrote g [] r) by (by apply (wrote_eq _ _ c)).
    assert (Ha : wrote g [] (emit AdaptorClosed r)) by (apply wrote_emit; [by intros []|done]).
    assert (Hc : forall p q, call_error hs p = Some q -> wrote g [] p -> wrote g [] q).
    { intros p q Hpq. unfold call_error in Hpq. eapply wrote_handler; [apply wrote_all|done| |exact Hpq]. by intros []. }
    destruct (state_ (rd r)).
    1-3: destruct (call_error hs _) as [p|] eqn:E; [|done]; cbn [mbind option_bind] in H; eapply wrote_check_destroy; [exact H|]; by eapply Hc.
    all: destruct (call_error hs _) as [p|] eqn:E; [|done]; cbn [mbind option_bind] in H; injection H as <-;
      apply wrote_emit; [by intros []|]; by eapply Hc.
  - unfold on_write in H. set (d := on_writer _ c) in H.
    assert (Hd : wrote g [] d) by (by destruct Hw as (ks & ? & ? & ?); exists ks).
    destruct (ok && _).
    + injection H as <-. assert (Hb : wrote g [] (if bool_decide (write_buffers_ (wr d) = []) then d else do_write d)).
      { destruct (bool_decide _); [done|]. by apply wrote_do_write. }
      by destruct (has_sent_close_ _); [apply (wrote_eq _ _ (if bool_decide (write_buffers_ (wr d) = []) then d else do_write d))|].
    + apply wrote_check_destroy in H; [done|]. by apply (wrote_eq _ _ d).
  - by eapply wrote_call.
Qed.

Lemma reaches_wrote c0 es c : wrote g [] c0 -> reaches c0 es c -> wrote g [] c.
Proof. intros H0. induction 1; [done|]. by eapply wrote_step. Qed.
End Written.

Definition greeting (hello : bytes) : bytes := accept_header ++ hello ++ crlf ++ crlf.

Lemma wrote_start h c : start hs h blank = Some c -> wrote (greeting h) [] c.
Proof.
  unfold start. intros H. destruct (call_handler _ _ _ _ _) as [d|] eqn:E; [|done]. cbn [mbind option_bind] in H. injection H as <-.
  apply wrote_do_read. eapply wrote_handler; [apply wrote_all|done| |exact E|]; [by intros []|]. exists []. split; [done|]. split; [done|].
  unfold written, greeting. cbn. by rewrite !app_nil_r, <- ?app_assoc.
Qed.

(** ** The connection lives *)

Lemma check_destroy_run c : exists c', check_destroy hs c = Some c' /\ (freed c = false -> sending_buffers_ (wr c) <> [] -> freed c' = false).
Proof.
  unfold check_destroy. assert (H : exists d, (if is_close_handler_called_ (fl c) then Some c else call_close hs (commands hs) (of_text "uncleanly") c) = Some d /\ keeps c d).
  { destruct (is_close_handler_called_ (fl c)); [by exists c|]. unfold call_close.
    destruct (call_handler_run (close_handler_ hs) (Closed (of_text "uncleanly")) (fun h l => h l (of_text "uncleanly")) c) as (d & E).
    exists d. split; [done|]. by apply gentle_handler in E as [_ ?]; [|apply gentle_all|]. }
  destruct H as (d & -> & Hd). cbn [mbind option_bind]. eexists. split; [done|]. intros Hf Hs.
  rewrite bool_decide_eq_false_2 by (by apply (keeps_sending _ _ Hd)). cbn [andb]. by rewrite (keeps_freed _ _ Hd).
Qed.

Lemma closed_twice_run c : exists c', closed_twice hs c = Some c' /\ (freed c = false -> sending_buffers_ (wr c) <> [] -> freed c' = false).
Proof.
  unfold closed_twice. set (d := on_flags set_closing _).
  assert (H : exists e, (if is_close_handler_called_ (fl d) then Some d else c ← call_close hs (commands hs) (fragment_ (rd d)) d; Some (on_flags set_called c)) = Some e /\ keeps d e).
  { destruct (is_close_handler_called_ (fl d)); [by exists d|]. unfold call_close.
    destruct (call_handler_run (close_handler_ hs) (Closed (fragment_ (rd d))) (fun h l => h l (fragment_ (rd d))) d) as (e & E).
    rewrite E. cbn [mbind option_bind]. eexists. split; [done|]. apply gentle_handler in E as [_ H]; [|apply gentle_all|done].
    etransitivity; [exact H|]. done. }
  destruct H as (e & -> & He). cbn [mbind option_bind]. destruct (check_destroy_run e) as (c' & -> & Hc). exists c'. split; [done|].
  intros Hf Hs. apply Hc; [by rewrite (keeps_freed _ _ He)|by apply (keeps_sending _ _ He)].
Qed.

Lemma keeps_handler {A} run (h : option A) a calls c c' : gentle run -> call_handler run h a calls c = Some c' -> keeps c c'.
Proof.
  intros Hr. unfold call_handler. destruct h as [h|]; [|by intros [= <-]]. intros [_ H]%Hr. etransitivity; [|exact H]. done.
Qed.

Lemma add_fragment_run c : exists c', add_fragment hs c = Some c' /\ freed c' = freed c.
Proof.
  unfold add_fragment. set (d := on_reader _ c). destruct (is_FIN d); [|by exists d].
  match goal with |- context [call_handler ?r ?h ?a ?k ?x] => destruct (call_handler_run h a k x) as (e & E) end. rewrite E.
  eexists. split; [done|]. exact (keeps_freed _ _ (keeps_handler _ _ _ _ _ _ gentle_all E)).
Qed.

Lemma handle_fragment_run c : freed c = false -> has_sent_close_ (fl c) = false \/ sending_buffers_ (wr c) <> [] ->
  exists c', handle_fragment hs c = Some c'.
Proof.
  intros Hf Hs. unfold handle_fragment. set (d := if has_mask_ (rd c) then _ else c).
  assert (Hd : freed d = false /\ (has_sent_close_ (fl d) = false \/ sending_buffers_ (wr d) <> [])) by (subst d; by destruct (has_mask_ (rd c))).
  clearbody d. clear Hf Hs. destruct Hd as [Hf Hs].
  match goal with |- exists c', (?m ≫= _) = _ => assert (H : exists e, m = Some e /\ freed e = false) end.
  { assert (Hk : forall k e, freed e = false -> exists q, command_ hs k e = Some q /\ freed q = false).
    { intros k e He. destruct (command_run k e) as (q & E). exists q. split; [done|].
      apply gentle_command in E as [_ H]; [by rewrite (keeps_freed _ _ H)|apply gentle_nested]. }
    assert (Ha : forall e, freed e = false -> exists q, add_fragment hs e = Some q /\ freed q = false).
    { intros e He. destruct (add_fragment_run e) as (q & E & Hq). exists q. by rewrite Hq. }
    repeat match goal with |- exists e, (if ?b then _ else _) = _ /\ _ => destruct b eqn:? end;
      try (by apply Hk || by apply Ha); try (by eexists).
    destruct (closed_twice_run (on_flags set_recv_close d)) as (q & E & Hq). exists q. split; [done|]. apply Hq; [done|].
    destruct Hs as [Hs|]; [|done]. match goal with H : negb _ = false |- _ => apply negb_false_iff in H; cbn in H; congruence end. }
  destruct H as (e & -> & He). cbn [mbind option_bind]. rewrite He. by eexists.
Qed.

Lemma step_run c e : freed c = false -> has_sent_close_ (fl c) = false \/ sending_buffers_ (wr c) <> [] ->
  exists c', step hs c e = Some c'.
Proof.
  intros Hf Hs. unfold step. rewrite Hf. destruct e as [d| |ok|k]; [| | |apply command_run].
  - unfold on_read. destruct (state_ _); try by eexists. unfold on_payload. set (p := on_reader _ _).
    destruct (remaining_length_ (rd p) =? 0); [|by eexists]. by destruct (handle_fragment_run p Hf Hs) as (q & ->); eexists.
  - unfold on_read_error. assert (Hc : forall c, exists c', call_error hs c = Some c') by (intros; apply call_handler_run).
    destruct (state_ _).
    1-3: destruct (Hc (emit AdaptorClosed (on_flags set_closing (on_reader (set_reading false) c)))) as (q & ->); cbn [mbind option_bind];
      destruct (check_destroy_run q) as (q' & -> & _); by eexists.
    all: destruct (Hc (on_flags set_closing (on_reader (set_reading false) c))) as (q & ->); by eexists.
  - unfold on_write. destruct (ok && _); [by eexists|]. destruct (check_destroy_run (on_flags set_closing (on_writer (fun w => mkWriter [] (write_buffers_ w)) c))) as (q & -> & _).
    by eexists.
Qed.
End Proofs.

(** ** The theorems *)

Lemma connect_run hs req memory : exists c0, connect hs req memory = Some c0.
Proof.
  unfold connect, start. destruct (accepted hs req); [|by eexists].
  match goal with |- context [call_handler ?r ?h ?a ?k ?x] => destruct (call_handler_run hs h a k x) as (e & E) end. rewrite E. by eexists.
Qed.

(** C20: However the bytes of a peer are cut into reads, and whatever is sent, written
    or closed in between, the message handler of an accepted connection has been
    called with exactly the messages that the complete frames understood so far make,
    in order: unmasked, fragments joined, control frames in between left out.  What is
    understood is what was received, as long as each time both bytes of a frame's
    header came in one completion of [async_read_some]; where only the first did, the
    code goes on as if a zero byte had followed it (see [short_header]). *)
Theorem ws_messages hs req memory c0 es c fs pre : is_Some (message_handler_ hs) -> accepted hs req = true ->
  connect hs req memory = Some c0 -> reaches hs c0 es c -> understood hs c0 es = wire fs ++ pre -> Forall valid fs -> parse pre = None ->
  ~ (state_ (rd c) = Payload /\ remaining_length_ (rd c) = 0) ->
  messages (log c) = complete (assemble fs) /\ (whole_headers hs c0 es = true -> understood hs c0 es = received es).
Proof.
  intros Hm Ha Hc Hr He Hv Hp Hno. split.
  - unfold connect in Hc. rewrite Ha in Hc. by eapply reaches_messages.
  - eapply understood_whole. by apply reaches_run.
Qed.

(** C22: A connection can always be made, and while it is not deleted and either has
    sent no close frame or has a write under way, every completion and every call is
    processed without the connection being used after its deletion, whatever its
    handlers do. *)
Theorem ws_alive hs req memory : exists c0, connect hs req memory = Some c0 /\
  forall es c e, reaches hs c0 es c -> freed c = false -> has_sent_close_ (fl c) = false \/ sending_buffers_ (wr c) <> [] ->
    exists c', step hs c e = Some c'.
Proof. destruct (connect_run hs req memory) as (c0 & H). exists c0. split; [done|]. intros. by apply step_run. Qed.

Definition key_of (req : request) : bytes := get_header_value (req_headers req) (of_text "Sec-WebSocket-Key").

(** What is written is the greeting and whole frames. *)
Lemma connect_wrote hs req memory c0 es c : accepted hs req = true -> connect hs req memory = Some c0 -> reaches hs c0 es c ->
  wrote hs (greeting (hello (key_of req) memory)) [] c.
Proof. intros Ha Hc Hr. unfold connect in Hc. rewrite Ha in Hc. eapply reaches_wrote; [by eapply wrote_start|exact Hr]. Qed.

Definition frame_of (k : command) : frame := final_frame (code_of k) (text k).

(** What a peer makes of a call. *)
Definition content (k : command) : option (bytes * option bool) :=
  match k with SendText m => Some (m, Some false) | SendBinary m => Some (m, Some true) | _ => None end.

Lemma frame_of_opcode k : frame_opcode (frame_of k) = code_of k /\ fin (frame_of k) = true.
Proof. unfold frame_opcode, fin. cbn [first frame_of final_frame]. rewrite uc_char_of. by destruct k. Qed.

Lemma assemble_sent ks : complete (assemble (frame_of <$> ks)) = omap content ks /\ partial (assemble (frame_of <$> ks)) = [].
Proof.
  unfold assemble. induction ks as [|k ks [IH1 IH2]] using rev_ind; [done|]. rewrite fmap_app, foldl_app, omap_app. cbn [foldl fmap list_fmap].
  set (a := foldl absorb _ _) in *. clearbody a. unfold absorb, join. destruct (frame_of_opcode k) as [-> ->].
  destruct k; cbn [code_of Z.eqb Pos.eqb]; cbn [complete partial content omap list_omap]; rewrite ?IH1, ?IH2, ?app_nil_r; done.
Qed.

Lemma wire_sent ks : Forall (fun k => Z.of_nat (length (text k)) < 2 ^ 64) ks -> List.concat (command_bytes <$> ks) = wire (frame_of <$> ks).
Proof.
  unfold wire. induction 1 as [|k ks Hk _ IH]; [done|]. cbn [fmap list_fmap List.concat]. rewrite IH. f_equal. by apply build_header_frame.
Qed.

(** C21: What one connection sends another receives: when everything was written, and
    the peer has read what follows the greeting, each time with both bytes of a
    frame's header in one completion of [async_read_some] (asio may deliver them one
    by one, and the peer then misreads: [short_header]), the peer's handler has been called
    with each text and binary message sent, as it was sent; in the order of the
    calls, unless a close handler sends frames ahead of the close frame. *)
Theorem ws_end_to_end hs req memory c0 es c hs' req' memory' d0 es' d :
  accepted hs req = true -> connect hs req memory = Some c0 -> reaches hs c0 es c -> write_buffers_ (wr c) = [] ->
  Forall (fun k => Z.of_nat (length (text k)) < 2 ^ 64) (dispatched (log c)) ->
  is_Some (message_handler_ hs') -> accepted hs' req' = true -> connect hs' req' memory' = Some d0 -> reaches hs' d0 es' d ->
  whole_headers hs' d0 es' = true -> ~ (state_ (rd d) = Payload /\ remaining_length_ (rd d) = 0) ->
  greeting (hello (key_of req) memory) ++ received es' = written (log c) ->
  exists ks, ks ≡ₚ dispatched (log c) /\ (close_handler_ hs = None -> ks = dispatched (log c)) /\ messages (log d) = omap content ks.
Proof.
  intros Ha Hc Hr Hw Hsize Hm Ha' Hc' Hr' Hwhole Hno Hsame. destruct (connect_wrote _ _ _ _ _ _ Ha Hc Hr) as (ks & Hp & Ho & Hb).
  rewrite Hw, app_nil_r, <- Hsame in Hb. apply app_inv_head in Hb. exists ks. split; [done|]. split.
  { intros H. by rewrite (Ho H), app_nil_r. }
  assert (Hs : Forall (fun k => Z.of_nat (length (text k)) < 2 ^ 64) ks) by (by rewrite <- Hp in Hsize).
  rewrite wire_sent in Hb by done. unfold connect in Hc'. rewrite Ha' in Hc'.
  rewrite (reaches_messages hs' Hm _ d0 es' d (frame_of <$> ks) [] Hc' Hr'); [apply assemble_sent|rewrite app_nil_r, <- Hb; eapply understood_whole; [by apply reaches_run|done]| |done|done].
  apply Forall_fmap. eapply Forall_impl; [exact Hs|]. intros k Hk. by apply final_frame_valid.
Qed.

(** ** Executable runs *)

#[global] Instance possible_dec c e : Decision (possible c e).
Proof. destruct e; cbn; unfold awaited; repeat case_match; apply _. Defined.

Fixpoint drive (hs : handlers) (es : list event) (c : Connection) : option Connection :=
  match es with
  | [] => Some c
  | e :: es => if bool_decide (possible c e) then c ← step hs c e; drive hs es c else None
  end.

Lemma drive_reaches hs c0 es c es' c' : reaches hs c0 es c -> drive hs es' c = Some c' -> reaches hs c0 (es ++ es') c'.
Proof.
  revert es c. induction es' as [|e es' IH]; intros es c Hr H; cbn [drive] in H.
  - injection H as <-. by rewrite app_nil_r.
  - case_bool_decide as Hp; [|done]. destruct (step hs c e) as [d|] eqn:E; [|done]. cbn [mbind option_bind] in H.
    change (e :: es') with ([e] ++ es'). rewrite app_assoc. eapply IH; [|exact H]. by eapply reaches_step.
Qed.

Definition sample_handlers : handlers := mkHandlers None (Some (fun _ _ _ => [])) (Some (fun _ _ => [])) None None.
Definition upgrade_request : request := mkRequest 1 (of_text "/ws") (of_text "/ws") (QueryString [NUL] []) [(of_text "Upgrade", of_text "websocket"); (of_text "Sec-WebSocket-Key", of_text "dGhlIHNhbXBsZSBub25jZQ==")] [] 1 1 true false true.

(** A text in two frames with a ping in between, the second frame masked. *)
Definition sample_frames : list frame :=
  [mkFrame (char_of 0x01) Short None (of_text "he"); mkFrame (char_of 0x89) Short None (of_text "p");
   mkFrame (char_of 0x80) Long16 (Some (of_text "abcd")) (unmask (of_text "abcd") (of_text "llo"))].

(** Cut as the reads ask for it, the payload in pieces. *)
Definition sample_events : list event :=
  [ReadDone (char_of 1 :: [char_of 2]); ReadDone (of_text "h"); Written true; ReadDone (of_text "e");
   ReadDone (char_of 0x89 :: [char_of 1]); Call (SendText (of_text "x")); ReadDone (of_text "p");
   ReadDone (char_of 0x80 :: [char_of 254]); ReadDone (char_of 0 :: [char_of 3]); ReadDone (of_text "abcd");
   ReadDone (unmask (of_text "abcd") (of_text "llo"))].

Definition sample_start : Connection := default blank (connect sample_handlers upgrade_request (repeat 0 64)).
Definition sample_end : Connection := default blank (drive sample_handlers sample_events sample_start).

Lemma sample_reaches : reaches sample_handlers sample_start sample_events sample_end.
Proof. eapply (drive_reaches _ _ []); [constructor|]. by vm_compute. Qed.

Lemma ws_messages_witness : messages (log sample_end) = [(of_text "hello", Some false)] /\
  understood sample_handlers sample_start sample_events = received sample_events.
Proof.
  destruct (ws_messages sample_handlers upgrade_request (repeat 0 64) sample_start sample_events sample_end sample_frames []) as [H1 H2];
    [by eexists|by vm_compute|by vm_compute|apply sample_reaches|by vm_compute| |done| |].
  - repeat (apply Forall_cons; split; [split; [unfold size; cbn; lia|done]|]). constructor.
  - intros [H _]. by vm_compute in H.
  - split; [rewrite H1; by vm_compute|apply H2; by vm_compute].
Defined.

(** The peer of the sample: it is sent a text and a binary message. *)
Definition sender_end : Connection :=
  default blank (drive sample_handlers [Call (SendText (of_text "one")); Call (SendBinary (of_text "2")); Written true; Written true] sample_start).
Definition peer_events : list event :=
  [ReadDone (char_of 0x81 :: [char_of 3]); ReadDone (of_text "one"); ReadDone (char_of 0x82 :: [char_of 1]); ReadDone (of_text "2")].
Definition peer_end : Connection := default blank (drive sample_handlers peer_events sample_start).

Lemma ws_end_to_end_witness : exists ks, ks ≡ₚ dispatched (log sender_end) /\
  (close_handler_ sample_handlers = None -> ks = dispatched (log sender_end)) /\ messages (log peer_end) = omap content ks.
Proof.
  apply (ws_end_to_end sample_handlers upgrade_request (repeat 0 64) sample_start
    [Call (SendText (of_text "one")); Call (SendBinary (of_text "2")); Written true; Written true] sender_end
    sample_handlers upgrade_request (repeat 0 64) sample_start peer_events peer_end);
    [by vm_compute|by vm_compute|eapply (drive_reaches _ _ []); [constructor|by vm_compute]|by vm_compute| |by eexists
    |by vm_compute|by vm_compute|eapply (drive_reaches _ _ []); [constructor|by vm_compute]|by vm_compute| |by vm_compute].
  - assert (E : dispatched (log sender_end) = [SendText (of_text "one"); SendBinary (of_text "2")]) by (by vm_compute).
    rewrite E. repeat (apply Forall_cons; split; [done|]). constructor.
  - intros [H _]. by vm_compute in H.
Defined.

(** ** What goes wrong *)

Definition close_frame : list event := [ReadDone (char_of 0x88 :: [char_of 0]); ReadDone []].

(** A peer that sends two close frames: the connection is used after it has been
    deleted. *)
Example second_close : drive sample_handlers (close_frame ++ [Written true; Written true] ++ close_frame) sample_start = None /\
  exists c, drive sample_handlers (close_frame ++ [Written true; Written true] ++ removelast close_frame) sample_start = Some c.
Proof. split; [by vm_compute|]. eexists. by vm_compute. Qed.

Definition closings (c : Connection) : list bytes := omap (fun a => match a with Closed m => Some m | _ => None end) (log c).

(** The usual end of a connection that closes first does the same: the close frame
    was written, and the peer answers it. *)
Example close_answered : drive sample_handlers ([Written true; Call (Close (of_text "quit")); Written true] ++ close_frame) sample_start = None.
Proof. by vm_compute. Qed.

(** Closing while another write is under way: the close handler is called as if the
    connection had broken, and once more when the peer answers. *)
Example closed_handlers : closings <$> drive sample_handlers
    ([Call (SendText (of_text "x")); Call (Close (of_text "quit")); Written true; Written true; Call (SendText (of_text "y"))] ++ close_frame) sample_start =
  Some [of_text "uncleanly"; of_text ""].
Proof. by vm_compute. Qed.

(** A first frame that continues no message: whether it is binary was never set. *)
Example continuation_first : messages <$> (log <$> drive sample_handlers [ReadDone (char_of 0x80 :: [char_of 1]); ReadDone (of_text "x")] sample_start) =
  Some [(of_text "x", None)].
Proof. by vm_compute. Qed.

(** Where the first byte of a header comes alone, it is taken for the whole; the second
    is then read as the first of the next header. *)
Example short_header : state_ <$> (rd <$> step sample_handlers sample_start (ReadDone [char_of 0x81])) = Some Payload.
Proof. by vm_compute. Qed.
