(* ===== verification/Multipart.v ===== *)
(** * Multipart messages: include/crow_all.h, crow::multipart

    A message is written part by part between delimiters and read back from the
    body of a request.  An [unordered_map] is the list of its entries in the order
    they were put in; the order of its iteration, which the standard leaves open, is
    taken to be the same, for the entries of one key too.  Positions are [size_t]: [npos] is the greatest, and adding to
    it wraps around, which the code relies on where it does not test for it.

    [multipart_roundtrip] shows that what [dump] writes is read back; the examples
    show what other bodies do. *)

From S2P Require Import Prelude CInt CFloat CArray CNum HttpData Trie TrieSpec RuleTags Router.

#[local] Open Scope nat_scope.

(** ** Positions in strings *)

Definition starts (needle s : bytes) : bool := bool_decide (take (length needle) s = needle).

(** [s.find(needle)]; [None] is [npos]. *)
Fixpoint find_at (needle s : bytes) : option nat :=
  if starts needle s then Some 0
  else match s with [] => None | _ :: s => S <$> find_at needle s end.

(** [found + k], for [k] above 0. *)
Definition plus (found : option nat) (k : nat) : nat := match found with Some n => n + k | None => k - 1 end.

(** [s.substr(0, found)], [s.substr(pos)] and [s.substr(pos, n)], which throw behind
    the end; [s.erase(0, n)] is [drop]. *)
Definition before (s : bytes) (found : option nat) : bytes := match found with Some n => take n s | None => s end.

Definition substr_from (s : bytes) (pos : nat) : built bytes :=
  if bool_decide (pos <= length s) then Built (drop pos s) else Raises "std::out_of_range".

(** [s.substr(pos, s.length() - 2)], the length wrapping around. *)
Definition but_two (s : bytes) (pos : nat) : bytes :=
  if bool_decide (length s < 2) then drop pos s else take (length s - 2) (drop pos s).

(** ** Messages *)

Record header := mkHeader { value : bytes; params : list (bytes * bytes) }.

Definition mph_map : Type := list (bytes * header).

Record part := mkPart { part_headers : mph_map; part_body : bytes }.

Record message := mkMessage {
  content_type : bytes;
  message_headers : headers;
  boundary : bytes;
  parts : list part;
  part_map : list (bytes * part)
}.

Definition dd : bytes := of_text "--".
Definition crlf : bytes := [cr; lf].
Definition quote : ascii := chr 34.

(** [emplace] of an [unordered_map]: what is there stays. *)
Definition emplace (k v : bytes) (m : list (bytes * bytes)) : list (bytes * bytes) :=
  if bool_decide (k ∈ m.*1) then m else m ++ [(k, v)].

Definition get_header_object (m : mph_map) (k : bytes) : header :=
  match List.find (fun x => iequals (fst x) k) m with Some x => snd x | None => mkHeader [] [] end.

(** [params.find("name")->second]. *)
Definition name_of (p : part) : built bytes :=
  inside (snd <$> List.find (fun x => bool_decide (fst x = of_text "name"))
                    (params (get_header_object (part_headers p) (of_text "Content-Disposition")))).

Definition get_part_by_name (name : bytes) (m : message) : built part :=
  inside (snd <$> List.find (fun x => iequals (fst x) name) (part_map m)).

(** ** Writing *)

Definition pad (s : bytes) : bytes := [quote] ++ s ++ [quote].

Definition dump_param (x : bytes * bytes) : bytes := of_text "; " ++ fst x ++ of_text "=" ++ pad (snd x).

Definition dump_header (x : bytes * header) : bytes :=
  fst x ++ of_text ": " ++ value (snd x) ++ List.concat (dump_param <$> params (snd x)) ++ crlf.

Definition dump_part (p : part) : bytes := List.concat (dump_header <$> part_headers p) ++ crlf ++ part_body p ++ crlf.

Definition dump (m : message) : bytes :=
  List.concat ((fun p => dd ++ boundary m ++ crlf ++ dump_part p) <$> parts m) ++ dd ++ boundary m ++ dd ++ crlf.

(** ** Reading *)

Definition trim (s : bytes) : bytes :=
  if bool_decide (1 < length s) && bool_decide (head s = Some quote) && bool_decide (last s = Some quote) then but_two s 1 else s.

(** The parameters in the rest of a line, into [m]. *)
Fixpoint parse_params (fuel : nat) (line : bytes) (m : list (bytes * bytes)) : built (list (bytes * bytes)) :=
  match fuel with
  | O => Hangs
  | S fuel =>
      if bool_decide (line = []) then Built m
      else
        let found := find_at (of_text "; ") line in
        let param := before line found in
        let line := match found with Some n => drop (n + 2) line | None => [] end in
        let split := find_at (of_text "=") param in
        v ← substr_from param (plus split 1);
        parse_params fuel line (emplace (before param split) (trim v) m)
  end.

(** One line of the head of a part: its key and its header. *)
Definition parse_line (line : bytes) : built (bytes * header) :=
  if bool_decide (line = []) then Built ([], mkHeader [] [])
  else
    let found := find_at (of_text "; ") line in
    let first := before line found in
    let line := match found with Some n => drop (n + 2) line | None => [] end in
    let split := find_at (of_text ": ") first in
    v ← substr_from first (plus split 2);
    ps ← parse_params (S (length line)) line [];
    Built (before first split, mkHeader v ps).

Fixpoint parse_section_head (fuel : nat) (lines : bytes) (m : mph_map) : built mph_map :=
  match fuel with
  | O => Hangs
  | S fuel =>
      if bool_decide (lines = []) then Built m
      else
        let found := find_at crlf lines in
        h ← parse_line (before lines found);
        parse_section_head fuel (drop (plus found 2) lines) (m ++ [h])
  end.

Definition parse_section (section : bytes) : built part :=
  let found := find_at (crlf ++ crlf) section in
  let head_line := take (plus found 2) section in
  let section := drop (plus found 4) section in
  hs ← parse_section_head (S (length head_line)) head_line [];
  Built (mkPart hs (but_two section 0)).

(** The loop ends at a body that is one line end; one turn takes the text up to the
    delimiter and two bytes more. *)
Fixpoint parse_body (fuel : nat) (delimiter body : bytes) (sections : list part) (part_map : list (bytes * part))
    : built (list part * list (bytes * part)) :=
  match fuel with
  | O => Hangs
  | S fuel =>
      if bool_decide (body = crlf) then Built (sections, part_map)
      else
        let found := find_at delimiter body in
        let section := before body found in
        let body := drop (plus found (length delimiter + 2)) body in
        if bool_decide (section = []) then parse_body fuel delimiter body sections part_map
        else
          p ← parse_section section;
          n ← name_of p;
          parse_body fuel delimiter body (sections ++ [p]) (part_map ++ [(n, p)])
  end.

(** [find] gives 0 only for a header that begins with the word. *)
Definition get_boundary (h : bytes) : built bytes :=
  let found := find_at (of_text "boundary=") h in
  if bool_decide (found = Some 0) then Built []
  else
    b ← substr_from h (plus found 9);
    Built (if bool_decide (head b = Some quote) then but_two b 1 else b).

Definition content_type_of (b : bytes) : bytes :=
  of_text "multipart/form-data; boundary=" ++ if bool_decide (b = []) then of_text "CROW-BOUNDARY" else b.

(** The two constructors. *)
Definition message_of_request (h : headers) (body : bytes) : built message :=
  b ← get_boundary (get_header_value h (of_text "Content-Type"));
  '(ps, m) ← parse_body (S (length body)) (dd ++ b) body [] [];
  Built (mkMessage (content_type_of b) h b ps m).

Definition message_of_parts (h : headers) (b : bytes) (sections : list part) : built message :=
  m ← mapM (fun p => n ← name_of p; Built (n, p)) sections;
  Built (mkMessage (content_type_of b) h b sections m).

(** ** Examples *)

Definition sample_part (name text : string) : part :=
  mkPart [(of_text "Content-Disposition", mkHeader (of_text "form-data") [(of_text "name", of_text name)])] (of_text text).

Definition sample_type (b : string) : headers := [(of_text "Content-Type", of_text "multipart/form-data; boundary=" ++ of_text b)].

Definition sample_message : built message := message_of_parts (sample_type "xyz") (of_text "xyz") [sample_part "a" "1"; sample_part "b" "two"].

Example sample_read : (m ← sample_message; message_of_request (sample_type "xyz") (dump m)) = sample_message.
Proof. by vm_compute. Qed.

(** Without its boundary a content type of eight characters or more gives another,
    and a shorter one throws. *)
Example no_boundary : get_boundary (of_text "text/plain") = Built (of_text "in") /\ get_boundary [] = Raises "std::out_of_range".
Proof. by vm_compute. Qed.

(** A part without a name dereferences the end of the parameters. *)
Example no_name : parse_body 9 (of_text "--x") (of_text "--x" ++ crlf ++ of_text "A: b" ++ crlf ++ crlf ++ of_text "t" ++ crlf ++ of_text "--x--" ++ crlf) [] [] =
  Undefined.
Proof. by vm_compute. Qed.

(** ** Finding *)

Lemma starts_app needle s : starts needle (needle ++ s) = true.
Proof. unfold starts. apply bool_decide_eq_true. by rewrite take_app_length. Qed.

Lemma starts_other c needle x s : x <> c -> starts (c :: needle) (x :: s) = false.
Proof. intros H. unfold starts. apply bool_decide_eq_false. cbn. congruence. Qed.

Lemma find_step needle x s : starts needle (x :: s) = false -> find_at needle (x :: s) = S <$> find_at needle s.
Proof. intros H. cbn [find_at]. by rewrite H. Qed.

Lemma find_here needle s : find_at needle (needle ++ s) = Some 0.
Proof. pose proof (starts_app needle s) as H. destruct (needle ++ s); cbn [find_at]; by rewrite H. Qed.

(** Behind characters that do not begin the word. *)
Lemma find_behind c needle pre s : c ∉ pre -> find_at (c :: needle) (pre ++ s) = (fun n => length pre + n) <$> find_at (c :: needle) s.
Proof.
  induction pre as [|x pre IH]; intros H.
  - cbn [app length]. by destruct (find_at _ s).
  - apply not_elem_of_cons in H as [Hx Hp]. cbn [app length]. rewrite find_step by (by apply starts_other). rewrite IH by done.
    by destruct (find_at _ s).
Qed.

Lemma find_clean c needle pre s : c ∉ pre -> find_at (c :: needle) (pre ++ (c :: needle) ++ s) = Some (length pre).
Proof. intros H. rewrite find_behind, find_here by done. cbn. by rewrite Nat.add_0_r. Qed.

Lemma find_none c needle s : c ∉ s -> find_at (c :: needle) s = None.
Proof. intros H. rewrite <- (app_nil_r s), find_behind by done. done. Qed.

(** The first place does not depend on what follows the word. *)
Lemma find_app needle p s : find_at needle (p ++ needle) = Some (length p) -> find_at needle (p ++ needle ++ s) = Some (length p).
Proof.
  induction p as [|x p IH]; intros H; [exact (find_here needle s)|]. cbn [app length] in *.
  destruct (starts needle (x :: p ++ needle)) eqn:E; [cbn [find_at] in H; by rewrite E in H|].
  rewrite find_step in H by done. destruct (find_at needle (p ++ needle)) as [n|] eqn:En; [|done]. cbn in H. injection H as ->.
  rewrite find_step, IH; [done|done|]. rewrite <- E. unfold starts. do 2 f_equal.
  change (x :: p ++ needle ++ s) with ((x :: p) ++ needle ++ s). change (x :: p ++ needle) with ((x :: p) ++ needle).
  rewrite app_assoc, take_app_le; [done|]. rewrite length_app. lia.
Qed.

(** ** Headers *)

Definition clean (bad : list ascii) (s : bytes) : Prop := Forall (fun c => c ∉ bad) s.

Lemma clean_not bad s c : clean bad s -> c ∈ bad -> c ∉ s.
Proof. intros H Hc Hs. by apply (proj1 (Forall_forall _ _) H c Hs). Qed.

Definition wf_param (x : bytes * bytes) : Prop := clean [";"%char; "="%char; cr] (fst x) /\ clean [";"%char; cr] (snd x).

Definition wf_header (x : bytes * header) : Prop :=
  clean [":"%char; ";"%char; cr] (fst x) /\ clean [";"%char; cr] (value (snd x)) /\
  NoDup (params (snd x)).*1 /\ Forall wf_param (params (snd x)).

Definition param_text (x : bytes * bytes) : bytes := fst x ++ of_text "=" ++ pad (snd x).

(** The line of parameters, without the first separator. *)
Definition line_of (ps : list (bytes * bytes)) : bytes :=
  match ps with [] => [] | x :: ps => param_text x ++ List.concat (dump_param <$> ps) end.

Lemma trim_pad s : trim (pad s) = s.
Proof.
  assert (Hl : length (pad s) = length s + 2) by (unfold pad; cbn [app length]; rewrite length_app; cbn; lia).
  unfold trim. rewrite (bool_decide_eq_true_2 (1 < _)), (bool_decide_eq_true_2 (head _ = _)), (bool_decide_eq_true_2 (last _ = _));
    [|unfold pad; by rewrite app_assoc, last_snoc|done|lia].
  cbn [andb]. unfold but_two. rewrite bool_decide_eq_false_2 by lia. rewrite Hl, Nat.add_sub.
  change (drop 1 (pad s)) with (s ++ [quote]). apply take_app_length.
Qed.

Lemma param_text_clean c x : wf_param x -> c ∈ [";"%char; cr] -> c ∉ param_text x.
Proof.
  intros [Hk Hv] Hc. unfold param_text, pad. rewrite !not_elem_of_app.
  assert (Hq : (c ∉ of_text "=") /\ (c ∉ [quote])) by (apply list_elem_of_In in Hc; destruct Hc as [<-|[<-|[]]]; split; apply (bool_decide_unpack _); by vm_compute).
  split_and!; [|apply Hq|apply Hq|by eapply clean_not|apply Hq]. eapply clean_not; [exact Hk|].
  apply list_elem_of_In in Hc. apply list_elem_of_In. cbn in *. tauto.
Qed.

Lemma line_cons x ps : line_of (x :: ps) = param_text x ++ match ps with [] => [] | _ => of_text "; " ++ line_of ps end.
Proof. destruct ps as [|y ps]; [done|]. cbn [line_of fmap list_fmap List.concat]. by f_equal. Qed.

Lemma parse_params_run ps fuel m : Forall wf_param ps -> NoDup (m ++ ps).*1 -> length ps < fuel ->
  parse_params fuel (line_of ps) m = Built (m ++ ps).
Proof.
  intros Hf. revert fuel m. induction Hf as [|x ps Hx Hf IH]; intros fuel m Hd Hl; (destruct fuel as [|fuel]; [lia|]).
  { cbn. by rewrite app_nil_r. }
  cbn [parse_params]. cbn [length] in Hl. rewrite bool_decide_eq_false_2 by (rewrite line_cons; unfold param_text; by destruct (fst x)).
  assert (Hsplit : before (line_of (x :: ps)) (find_at (of_text "; ") (line_of (x :: ps))) = param_text x /\
    match find_at (of_text "; ") (line_of (x :: ps)) with Some n => drop (n + 2) (line_of (x :: ps)) | None => [] end = line_of ps).
  { rewrite line_cons. assert (Hc : ";"%char ∉ param_text x) by (apply param_text_clean; [done|by left]). destruct ps as [|y ps].
    - rewrite app_nil_r. change (of_text "; ") with [";"%char; " "%char]. by rewrite find_none.
    - change (of_text "; ") with (";"%char :: [" "%char]). rewrite find_clean by done. cbn [before].
      rewrite take_app_length, drop_app_add. done. }
  destruct Hsplit as [-> ->]. unfold param_text. change (of_text "=") with ("="%char :: []).
  assert (He : "="%char ∉ fst x) by (eapply clean_not; [apply Hx|]; apply (bool_decide_unpack _); by vm_compute).
  rewrite find_clean by done. cbn [plus before]. unfold substr_from. rewrite bool_decide_eq_true_2 by (rewrite length_app; cbn; lia).
  cbn [mbind built_bind]. rewrite take_app_length, drop_app_add. cbn [app drop].
  rewrite drop_0, trim_pad. unfold emplace. rewrite bool_decide_eq_false_2.
  - rewrite <- surjective_pairing, (IH fuel) by (try lia; by rewrite <- app_assoc). by rewrite <- app_assoc.
  - intros Hin. rewrite fmap_app in Hd. apply NoDup_app in Hd as (_ & Hd & _). apply (Hd _ Hin). by left.
Qed.

Lemma params_line_clean x : wf_header x -> cr ∉ List.concat (dump_param <$> params (snd x)).
Proof.
  intros (_ & _ & _ & Hp). induction Hp as [|p ps Hx _ IH]; cbn [fmap list_fmap List.concat]; [apply not_elem_of_nil|].
  rewrite not_elem_of_app. split; [|done]. change (dump_param p) with (of_text "; " ++ param_text p). rewrite not_elem_of_app.
  split; [apply (bool_decide_unpack _); by vm_compute|]. apply param_text_clean; [done|]. right. by left.
Qed.

(** A header without the end of its line. *)
Definition line_text (x : bytes * header) : bytes :=
  fst x ++ of_text ": " ++ value (snd x) ++ List.concat (dump_param <$> params (snd x)).

Lemma dump_header_line x : dump_header x = line_text x ++ crlf.
Proof. unfold dump_header, line_text. by rewrite <- !app_assoc. Qed.

Lemma line_text_clean x : wf_header x -> cr ∉ line_text x.
Proof.
  intros Hx. pose proof (params_line_clean x Hx) as Hp. destruct Hx as (Hk & Hv & _). unfold line_text. rewrite !not_elem_of_app.
  split_and!; [|apply (bool_decide_unpack _); by vm_compute| |done].
  - eapply clean_not; [exact Hk|]. right. right. by left.
  - eapply clean_not; [exact Hv|]. right. by left.
Qed.

Lemma parse_line_run x : wf_header x -> parse_line (line_text x) = Built x.
Proof.
  intros (Hk & Hv & Hd & Hp). unfold parse_line.
  rewrite bool_decide_eq_false_2 by (unfold line_text; by destruct (fst x)).
  set (first := fst x ++ of_text ": " ++ value (snd x)).
  assert (Hc : ";"%char ∉ first).
  { unfold first. rewrite !not_elem_of_app. split_and!; [|apply (bool_decide_unpack _); by vm_compute|]; (eapply clean_not; [eassumption|]);
      apply (bool_decide_unpack _); by vm_compute. }
  assert (Hsplit : before (line_text x) (find_at (of_text "; ") (line_text x)) = first /\
    match find_at (of_text "; ") (line_text x) with Some n => drop (n + 2) (line_text x) | None => [] end = line_of (params (snd x))).
  { assert (Hl : line_text x = first ++ List.concat (dump_param <$> params (snd x))) by (unfold line_text, first; by rewrite <- !app_assoc).
    rewrite Hl. destruct (params (snd x)) as [|y ps].
    - cbn [fmap list_fmap List.concat]. rewrite app_nil_r. change (of_text "; ") with [";"%char; " "%char]. by rewrite find_none.
    - change (List.concat (dump_param <$> y :: ps)) with ((";"%char :: [" "%char]) ++ line_of (y :: ps)). change (of_text "; ") with (";"%char :: [" "%char]).
      rewrite find_clean by done. cbn [before]. by rewrite take_app_length, drop_app_add. }
  destruct Hsplit as [-> ->]. unfold first. change (of_text ": ") with (":"%char :: [" "%char]).
  assert (He : ":"%char ∉ fst x) by (eapply clean_not; [exact Hk|]; by left).
  rewrite find_clean by done. cbn [plus before]. unfold substr_from. rewrite bool_decide_eq_true_2 by (rewrite !length_app; cbn; lia).
  cbn [mbind built_bind]. rewrite take_app_length, drop_app_add. rewrite (parse_params_run _ _ []); [|done|done|].
  - cbn [mbind built_bind app drop]. rewrite drop_0. by destruct x as [k [v ps]].
  - clear. enough (H : length (params (snd x)) <= length (line_of (params (snd x)))) by lia. destruct (params (snd x)) as [|y ps]; [done|].
    cbn [line_of length]. rewrite length_app. assert (Hy : 1 <= length (param_text y)) by (unfold param_text; rewrite !length_app; cbn; lia).
    enough (length ps <= length (List.concat (dump_param <$> ps))) by lia. clear Hy. induction ps as [|z ps IH]; [done|].
    cbn [fmap list_fmap List.concat length]. rewrite length_app. unfold dump_param at 1. rewrite length_app. cbn. lia.
Qed.

Lemma parse_section_head_run hs fuel m : Forall wf_header hs -> length hs < fuel ->
  parse_section_head fuel (List.concat (dump_header <$> hs)) m = Built (m ++ hs).
Proof.
  intros Hf. revert fuel m. induction Hf as [|x hs Hx _ IH]; intros fuel m Hl; (destruct fuel as [|fuel]; [cbn in Hl; lia|]).
  { cbn. by rewrite app_nil_r. }
  cbn [fmap list_fmap List.concat parse_section_head length] in *. rewrite dump_header_line, <- app_assoc.
  pose proof (line_text_clean x Hx) as Hc. change crlf with (cr :: [lf]). rewrite find_clean by done. cbn [before plus].
  rewrite bool_decide_eq_false_2 by (unfold line_text; by destruct (fst x)). rewrite take_app_length, drop_app_add, parse_line_run by done.
  cbn [mbind built_bind app drop]. rewrite drop_0, IH by lia. by rewrite <- app_assoc.
Qed.

(** The empty line. *)
Lemma find_blank hs s : hs <> [] -> Forall wf_header hs ->
  find_at (crlf ++ crlf) (List.concat (dump_header <$> hs) ++ crlf ++ s) = Some (length (List.concat (dump_header <$> hs)) - 2).
Proof.
  intros Hne Hf. induction Hf as [|x hs Hx Hf IH]; [done|]. cbn [fmap list_fmap List.concat]. rewrite dump_header_line.
  pose proof (line_text_clean x Hx) as Hc. change (crlf ++ crlf) with (cr :: lf :: crlf) in *. rewrite <- !app_assoc, find_behind by done.
  destruct hs as [|y hs].
  - cbn [fmap list_fmap List.concat app]. change (crlf ++ crlf ++ s) with ((cr :: lf :: crlf) ++ s). rewrite find_here. cbn. f_equal. rewrite !length_app. cbn. lia.
  - specialize (IH ltac:(done)). set (t := List.concat (dump_header <$> y :: hs)) in *.
    assert (H2 : 2 <= length t) by (subst t; cbn [fmap list_fmap List.concat]; rewrite dump_header_line, !length_app; cbn [crlf length]; lia).
    assert (Hy : exists c r, t = c :: r /\ c <> cr).
    { subst t. cbn [fmap list_fmap List.concat]. rewrite dump_header_line. pose proof (line_text_clean y (Forall_inv Hf)) as Hcy.
      assert (Hn : line_text y <> []) by (unfold line_text; by destruct (fst y)). destruct (line_text y) as [|c r]; [done|].
      cbn [app]. eexists _, _. split; [done|]. intros ->. apply Hcy. by left. }
    destruct Hy as (c & r & Ht & Hcr). clearbody t. change (crlf ++ t ++ crlf ++ s) with (cr :: lf :: t ++ crlf ++ s).
    rewrite find_step by (rewrite Ht; unfold starts; apply bool_decide_eq_false; intros Heq; apply Hcr; by injection Heq).
    rewrite find_step by (by apply starts_other). rewrite IH. cbn. f_equal. rewrite !length_app. cbn [crlf length]. lia.
Qed.

Lemma parse_section_run p : part_headers p <> [] -> Forall wf_header (part_headers p) -> parse_section (dump_part p) = Built p.
Proof.
  intros Hne Hf. unfold parse_section, dump_part. rewrite find_blank by done. cbn [plus]. set (t := List.concat _).
  assert (Hl : length (part_headers p) <= length t /\ 2 <= length t).
  { subst t. clear Hf. destruct (part_headers p) as [|x hs]; [done|]. clear Hne. revert x. induction hs as [|y hs IH]; intros x.
    - cbn. rewrite app_nil_r, dump_header_line, length_app. cbn. lia.
    - cbn [fmap list_fmap List.concat length]. rewrite length_app. specialize (IH y). cbn [fmap list_fmap List.concat length] in IH.
      rewrite dump_header_line, length_app. cbn. lia. }
  replace (length t - 2 + 2) with (length t) by lia. replace (length t - 2 + 4) with (length t + 2) by lia.
  rewrite take_app_length, drop_app_add. subst t. rewrite (parse_section_head_run _ _ []) by (done || lia). cbn [mbind built_bind app].
  change (drop 2 (crlf ++ part_body p ++ crlf)) with (part_body p ++ crlf). unfold but_two.
  rewrite bool_decide_eq_false_2 by (rewrite length_app; cbn; lia). rewrite drop_0, length_app. change (length crlf) with 2.
  rewrite Nat.add_sub, take_app_length. by destruct p.
Qed.

(** ** Bodies *)

(** A part that can be written: its headers are plain, and the delimiter is not in
    its text. *)
Definition wf_part (delimiter : bytes) (p : part) : Prop :=
  part_headers p <> [] /\ Forall wf_header (part_headers p) /\
  find_at delimiter (dump_part p ++ delimiter) = Some (length (dump_part p)).

(** What follows the first delimiter and the line end. *)
Fixpoint rest_text (d : bytes) (ps : list part) : bytes :=
  match ps with
  | [] => crlf
  | p :: ps => dump_part p ++ d ++ (match ps with [] => dd | _ => crlf end) ++ rest_text d ps
  end.

Lemma dump_rest m : dump m = (dd ++ boundary m) ++ (match parts m with [] => dd | _ => crlf end) ++ rest_text (dd ++ boundary m) (parts m).
Proof.
  unfold dump. induction (parts m) as [|p ps IH]; [by rewrite <- !app_assoc|]. cbn [fmap list_fmap List.concat].
  rewrite <- !app_assoc. do 3 f_equal. rewrite IH. cbn [rest_text]. by rewrite <- !app_assoc.
Qed.

Lemma dump_part_length p : 4 <= length (dump_part p).
Proof. unfold dump_part. rewrite !length_app. cbn. lia. Qed.

Lemma rest_text_length d ps : length ps <= length (rest_text d ps).
Proof.
  induction ps as [|p ps IH]; [cbn; lia|]. cbn [rest_text length]. rewrite !length_app. pose proof (dump_part_length p). lia.
Qed.

Lemma parse_rest d ps fuel sections m names : Forall (wf_part d) ps -> mapM (fun p => n ← name_of p; Built (n, p)) ps = Built names ->
  length ps < fuel -> parse_body fuel d (rest_text d ps) sections m = Built (sections ++ ps, m ++ names).
Proof.
  intros Hf. revert fuel sections m names. induction Hf as [|p ps (Hne & Hh & Hd) _ IH]; intros fuel sections m names Hn Hl;
    (destruct fuel as [|fuel]; [cbn in Hl; lia|]).
  { injection Hn as <-. cbn [parse_body rest_text]. rewrite bool_decide_eq_true_2 by done. by rewrite !app_nil_r. }
  cbn [parse_body rest_text length] in *. pose proof (dump_part_length p) as H4.
  rewrite bool_decide_eq_false_2 by (intros H; apply (f_equal length) in H; rewrite !length_app in H; cbn [crlf length] in H; lia).
  rewrite find_app by done. cbn [before plus]. rewrite take_app_length, drop_app_add.
  rewrite bool_decide_eq_false_2 by (intros H; rewrite H in H4; cbn in H4; lia). rewrite parse_section_run by done.
  cbn [mbind built_bind]. cbn [mapM] in Hn. destruct (name_of p) as [n| | |]; try done. cbn [mbind built_bind] in *.
  destruct (mapM _ ps) as [ns| | |]; try done. injection Hn as <-. rewrite drop_app_add.
  replace (drop 2 _) with (rest_text d ps) by (by destruct ps). rewrite (IH _ _ _ ns) by (done || lia). by rewrite <- !app_assoc.
Qed.

(** C24: A message whose parts have plain headers and a name, and no delimiter in
    their text, is read back from what [dump] writes: the loop ends, and parts, their
    headers and parameters, and the map by name are those of the message.  (The maps
    are lists here, walked through in the order in which they were filled; the
    standard leaves the order of an [unordered_multimap] open, so what is proved is
    for that order, in writing and in comparing.) *)
Theorem multipart_roundtrip h b ps m : message_of_parts h b ps = Built m ->
  get_boundary (get_header_value h (of_text "Content-Type")) = Built b -> Forall (wf_part (dd ++ b)) ps ->
  message_of_request h (dump m) = Built m.
Proof.
  unfold message_of_parts, message_of_request. intros Hm Hb Hf. rewrite Hb. destruct (mapM _ ps) as [names| | |] eqn:E; try done.
  injection Hm as <-. cbn [mbind built_bind]. rewrite dump_rest. cbn [boundary parts]. set (d := dd ++ b) in *.
  cbn [parse_body]. rewrite bool_decide_eq_false_2.
  2: { intros H. apply (f_equal length) in H. rewrite !length_app in H. destruct ps; cbn in H; rewrite ?length_app in H; cbn in H; lia. }
  rewrite find_here. cbn [before plus]. rewrite bool_decide_eq_true_2 by done. rewrite Nat.add_0_l, drop_app_add.
  replace (drop 2 _) with (rest_text d ps) by (by destruct ps). rewrite (parse_rest _ _ _ _ _ names); [done|done|done|].
  assert (Hd : 2 <= length d) by (subst d; rewrite length_app; cbn; lia). rewrite !length_app. pose proof (rest_text_length d ps). lia.
Qed.

Lemma multipart_roundtrip_witness : exists m, sample_message = Built m /\ message_of_request (sample_type "xyz") (dump m) = Built m.
Proof.
  eexists. split; [by vm_compute|]. apply (multipart_roundtrip (sample_type "xyz") (of_text "xyz") [sample_part "a" "1"; sample_part "b" "two"]).
  - by vm_compute.
  - by vm_compute.
  - repeat (apply Forall_cons; split; [split_and!; [done|apply Forall_cons; split; [|constructor]|by vm_compute]|]); [| |constructor];
      (split_and!; [apply (bool_decide_unpack _); by vm_compute|apply (bool_decide_unpack _); by vm_compute
        |apply (bool_decide_unpack _); by vm_compute|apply Forall_cons; split; [split; apply (bool_decide_unpack _); by vm_compute|constructor]]).
Defined.

(** ** The loop *)

Lemma drop_found found (s : bytes) k : 2 <= k -> s <> [] -> length (drop (plus found k) s) < length s.
Proof. intros Hk Hs. rewrite length_drop. destruct s; [done|]. unfold plus. cbn [length]. destruct found; lia. Qed.

(** An empty body is never left. *)
Lemma empty_hangs d fuel sections m : d <> [] -> parse_body fuel d [] sections m = Hangs.
Proof.
  intros Hd. induction fuel as [|fuel IH]; [done|]. cbn [parse_body]. rewrite bool_decide_eq_false_2 by done. destruct d as [|c d]; [done|].
  cbn [find_at]. change (starts (c :: d) []) with false. cbn [before]. rewrite bool_decide_eq_true_2 by done. by rewrite drop_nil.
Qed.

Lemma parse_params_ends fuel line m : length line < fuel -> parse_params fuel line m <> Hangs.
Proof.
  revert line m. induction fuel as [|fuel IH]; intros line m Hl; [lia|]. cbn [parse_params]. case_bool_decide as Hn; [done|].
  unfold substr_from. case_bool_decide; [|done]. cbn [mbind built_bind]. apply IH.
  destruct (find_at _ line) as [n|] eqn:E; [|destruct line; cbn in *; [done|lia]].
  pose proof (drop_found (Some n) line 2 ltac:(lia) Hn) as H2. cbn [plus] in H2. lia.
Qed.

Lemma parse_line_ends line : parse_line line <> Hangs.
Proof.
  unfold parse_line. case_bool_decide; [done|]. unfold substr_from. case_bool_decide; [|done]. cbn [mbind built_bind].
  match goal with |- context [parse_params ?f ?l ?m] => pose proof (parse_params_ends f l m ltac:(lia)) end.
  by destruct (parse_params _ _ _).
Qed.

Lemma parse_section_head_ends fuel lines m : length lines < fuel -> parse_section_head fuel lines m <> Hangs.
Proof.
  revert lines m. induction fuel as [|fuel IH]; intros lines m Hl; [lia|]. cbn [parse_section_head]. case_bool_decide as Hn; [done|].
  match goal with |- context [parse_line ?l] => pose proof (parse_line_ends l); destruct (parse_line l) as [h| | |]; try done end.
  cbn [mbind built_bind]. apply IH. rewrite length_drop. destruct lines; [done|]. unfold plus. cbn [length] in *. destruct (find_at _ _); lia.
Qed.

Lemma parse_section_ends s : parse_section s <> Hangs.
Proof.
  unfold parse_section.
  match goal with |- context [parse_section_head ?f ?l ?m] => pose proof (parse_section_head_ends f l m ltac:(lia)) end.
  by destruct (parse_section_head _ _ _).
Qed.

(** The loop over a body of n bytes has ended after n + 1 turns or never ends:
    more turns do not change what it gives, the loops over a section always end, and
    the loop never ends on an empty body. *)
Theorem multipart_loop d body fuel sections m : d <> [] -> length body < fuel ->
  parse_body fuel d body sections m = parse_body (S (length body)) d body sections m /\
  (forall s, parse_section s <> Hangs) /\ parse_body fuel d [] sections m = Hangs.
Proof.
  intros Hd Hl. split; [|split; [apply parse_section_ends|by apply empty_hangs]].
  assert (H : forall f1 f2 b ss mm, length b < f1 -> length b < f2 -> parse_body f1 d b ss mm = parse_body f2 d b ss mm); [|apply H; lia].
  clear fuel body sections m Hl. induction f1 as [|f1 IH]; intros f2 b ss mm H1 H2; [lia|]. destruct f2 as [|f2]; [lia|].
  destruct (decide (b = [])) as [->|Hb]; [by rewrite !empty_hangs|]. cbn [parse_body]. case_bool_decide; [done|].
  assert (Hk : 2 <= length d + 2) by lia. pose proof (drop_found (find_at d b) b _ Hk Hb).
  case_bool_decide; [apply IH; lia|]. destruct (parse_section _) as [p| | |]; [|done..]. cbn [mbind built_bind].
  destruct (name_of p) as [n| | |]; [|done..]. cbn [mbind built_bind]. apply IH; lia.
Qed.

Lemma multipart_loop_witness : parse_body 30 (of_text "--x") (of_text "--x--" ++ crlf) [] [] = parse_body 8 (of_text "--x") (of_text "--x--" ++ crlf) [] [] /\
  (forall s, parse_section s <> Hangs) /\ parse_body 30 (of_text "--x") [] [] [] = Hangs.
Proof. apply (multipart_loop (of_text "--x") (of_text "--x--" ++ crlf) 30 [] []); [done|]. by apply Nat.ltb_lt. Defined.
