(* ===== verification/HttpParser.v ===== *)
(** * The HTTP parser: include/crow_all.h, http_parser_execute

    [http_parser_execute] is one [switch] on the state inside a loop over the
    bytes of a buffer, with [goto]s: to [reexecute] (the same byte in a new
    state) and to [error].  Here the loop's local variables are the record
    [machine], a piece of the function's code is an [M A] (a state monad whose
    runs may also leave the function), each [case] is a definition that ends in
    [Break] (on to the next byte) or [Reexecute], and [loop] puts the cases
    together.  The pointers [p] and the marks are offsets from [data].

    Callbacks are functions on the parser and the state [U] of the program
    that uses it.  A failed [assert], a read outside the buffer and the
    subtraction of a null pointer are explicit results ([Stuck]). *)

From S2P Require Import Prelude CInt CArray HttpData.

(** Callbacks return an [int]; a null callback is [None]. *)
Definition http_cb (U : Type) := http_parser -> U -> Z * http_parser * U.
Definition http_data_cb (U : Type) := http_parser -> U -> list ascii -> Z * http_parser * U.

Record http_parser_settings (U : Type) := Settings {
  on_message_begin : option (http_cb U);
  on_url : option (http_data_cb U);
  on_header_field : option (http_data_cb U);
  on_header_value : option (http_data_cb U);
  on_headers_complete : option (http_cb U);
  on_body : option (http_data_cb U);
  on_message_complete : option (http_cb U)
}.
Arguments Settings {U}.
Arguments on_message_begin {U}.
Arguments on_url {U}.
Arguments on_header_field {U}.
Arguments on_header_value {U}.
Arguments on_headers_complete {U}.
Arguments on_body {U}.
Arguments on_message_complete {U}.

(** The locals of [http_parser_execute] together with what it works on.  [nread_]
    is the local copy of [parser->nread]. *)
Record machine (U : Type) := Machine {
  parser : http_parser;
  user : U;
  p : Z;
  nread_ : Z;
  header_field_mark : option Z;
  header_value_mark : option Z;
  url_mark : option Z;
  url_start_mark : option Z;
  body_mark : option Z
}.
Arguments Machine {U}.
Arguments parser {U}.
Arguments user {U}.
Arguments p {U}.
Arguments nread_ {U}.
Arguments header_field_mark {U}.
Arguments header_value_mark {U}.
Arguments url_mark {U}.
Arguments url_start_mark {U}.
Arguments body_mark {U}.

(** Where C gives the execution no meaning, or stops it; [NoFuel] is the
    model's own bound on loops. *)
Inductive stuck := NullPointerDifference | AssertFailed | OutOfBounds | NoFuel.

Inductive outcome (U A : Type) :=
  | Value (a : A) (m : machine U)
  | GotoError (m : machine U)
  | Return (n : Z) (m : machine U)
  | Stuck (why : stuck).
Arguments Value {U A}.
Arguments GotoError {U A}.
Arguments Return {U A}.
Arguments Stuck {U A}.

(** How a [case] ends: [break], or [goto reexecute] with the local [ch]. *)
Inductive jump := Break | Reexecute (ch : ascii).

Definition M (U A : Type) := machine U -> outcome U A.

Definition ret {U A} (a : A) : M U A := fun m => Value a m.

Definition bind {U A B} (c : M U A) (k : A -> M U B) : M U B := fun m =>
  match c m with
  | Value a m => k a m
  | GotoError m => GotoError m
  | Return n m => Return n m
  | Stuck why => Stuck why
  end.

Declare Scope http_scope.
Delimit Scope http_scope with http.
Notation "x <- c ;; k" := (bind c (fun x => k))
  (at level 100, c at next level, right associativity) : http_scope.
Notation "c ;; k" := (bind c (fun _ => k))
  (at level 100, right associativity) : http_scope.
#[local] Open Scope http_scope.

Section operations.
Context {U : Type}.

Definition gets {A} (f : machine U -> A) : M U A := fun m => Value (f m) m.

Definition modify (f : machine U -> machine U) : M U unit := fun m => Value tt (f m).

(** Assignments to the fields of the parser and to the locals. *)
Definition on_parser (f : http_parser -> http_parser) : M U unit := modify (fun m =>
  Machine (f (parser m)) (user m) (p m) (nread_ m) (header_field_mark m) (header_value_mark m)
    (url_mark m) (url_start_mark m) (body_mark m)).

Definition set_p (f : Z -> Z) : M U unit := modify (fun m =>
  Machine (parser m) (user m) (f (p m)) (nread_ m) (header_field_mark m) (header_value_mark m)
    (url_mark m) (url_start_mark m) (body_mark m)).

Definition set_local_nread (n : Z) : M U unit := modify (fun m =>
  Machine (parser m) (user m) (p m) n (header_field_mark m) (header_value_mark m)
    (url_mark m) (url_start_mark m) (body_mark m)).

(** After a callback: what it left in the parser and in its own state. *)
Definition called (r : Z * http_parser * U) : M U Z := fun m =>
  let '(code, q, u) := r in
  Value code (Machine q u (p m) (nread_ m) (header_field_mark m) (header_value_mark m)
    (url_mark m) (url_start_mark m) (body_mark m)).

Definition stop {A} (why : stuck) : M U A := fun _ => Stuck why.
Definition goto_error {A} : M U A := fun m => GotoError m.
Definition return_ {A} (n : Z) : M U A := fun m => Return n m.

Definition assert_ (b : bool) : M U unit := if b then ret tt else stop AssertFailed.

(** The fields that hold a mark, by the callback they belong to. *)
Inductive mark := Header_field | Header_value | Url | Url_start | Body.

Definition mark_of (k : mark) (m : machine U) : option Z :=
  match k with
  | Header_field => header_field_mark m
  | Header_value => header_value_mark m
  | Url => url_mark m
  | Url_start => url_start_mark m
  | Body => body_mark m
  end.

Definition set_mark (k : mark) (x : option Z) : M U unit := modify (fun m =>
  match k with
  | Header_field =>
      Machine (parser m) (user m) (p m) (nread_ m) x (header_value_mark m)
        (url_mark m) (url_start_mark m) (body_mark m)
  | Header_value =>
      Machine (parser m) (user m) (p m) (nread_ m) (header_field_mark m) x
        (url_mark m) (url_start_mark m) (body_mark m)
  | Url =>
      Machine (parser m) (user m) (p m) (nread_ m) (header_field_mark m) (header_value_mark m)
        x (url_start_mark m) (body_mark m)
  | Url_start =>
      Machine (parser m) (user m) (p m) (nread_ m) (header_field_mark m) (header_value_mark m)
        (url_mark m) x (body_mark m)
  | Body =>
      Machine (parser m) (user m) (p m) (nread_ m) (header_field_mark m) (header_value_mark m)
        (url_mark m) (url_start_mark m) x
  end).

(** [CROW_SET_ERRNO]. *)
Definition CROW_SET_ERRNO (e : http_errno) : M U unit :=
  n <- gets nread_ ;; on_parser (set_nread n) ;; on_parser (set_http_errno e).

(** [CROW_SET_ERRNO(e); goto error;] *)
Definition fail_with {A} (e : http_errno) : M U A := CROW_SET_ERRNO e ;; goto_error.

Definition errno : M U http_errno := gets (fun m => http_errno_ (parser m)).

(** [CROW_MARK]. *)
Definition CROW_MARK (k : mark) : M U unit :=
  x <- gets (mark_of k) ;;
  match x with
  | Some _ => ret tt
  | None => here <- gets p ;; set_mark k (Some here)
  end.

(** [CROW_COUNT_HEADER_SIZE]. *)
Definition CROW_COUNT_HEADER_SIZE (max_header_size v : Z) : M U unit :=
  n <- gets nread_ ;;
  set_local_nread (to_u32 (n + to_u32 v)) ;;
  n <- gets nread_ ;;
  if max_header_size <? n then fail_with CHPE_HEADER_OVERFLOW else ret tt.

(** [CROW_STRICT_CHECK]. *)
Definition CROW_STRICT_CHECK (cond : bool) : M U unit :=
  if cond then fail_with CHPE_STRICT else ret tt.

End operations.

Section execute.
Context {U : Type} (settings : http_parser_settings U) (max_header_size : Z) (data : list ascii).

Definition len : Z := Z.of_nat (length data).

(** [data[i]], a read of the buffer. *)
Definition read (i : Z) : M U ascii :=
  if (0 <=? i) && (i <? len) then
    match data !! Z.to_nat i with Some c => ret c | None => stop OutOfBounds end
  else stop OutOfBounds.

Definition at_end : M U bool := gets (fun m => p m =? len).

(** The bytes from offset [i] on, [n] of them. *)
Definition bytes_at (i n : Z) : M U (list ascii) :=
  if (0 <=? i) && (0 <=? n) && (i + n <=? len)
  then ret (take (Z.to_nat n) (drop (Z.to_nat i) data))
  else stop OutOfBounds.

Definition parser_is (f : http_parser -> bool) : M U bool := gets (fun m => f (parser m)).

Definition COUNT_HEADER_SIZE : Z -> M U unit := CROW_COUNT_HEADER_SIZE max_header_size.

(** ** Callbacks *)

(** The end of a callback: out of the function unless all is well. *)
Definition leave_if_errored (er : Z) : M U unit :=
  e <- errno ;; if bool_decide (e = CHPE_OK) then ret tt else return_ er.

(** [CROW_CALLBACK_NOTIFY_(FOR, ER)], with the callback and its error. *)
Definition CROW_CALLBACK_NOTIFY_ (cb : option (http_cb U)) (e : http_errno) (er : Z) : M U unit :=
  now <- errno ;;
  assert_ (bool_decide (now = CHPE_OK)) ;;
  match cb with
  | None => ret tt
  | Some f =>
      m <- gets (fun m => m) ;;
      code <- called (f (parser m) (user m)) ;;
      (if code =? 0 then ret tt else CROW_SET_ERRNO e) ;;
      leave_if_errored er
  end.

(** [CROW_CALLBACK_NOTIFY]: the current byte is consumed. *)
Definition CROW_CALLBACK_NOTIFY (cb : option (http_cb U)) (e : http_errno) : M U unit :=
  here <- gets p ;; CROW_CALLBACK_NOTIFY_ cb e (here + 1).

Definition NOTIFY_message_begin : M U unit :=
  CROW_CALLBACK_NOTIFY (on_message_begin settings) CHPE_CB_message_begin.
Definition NOTIFY_message_complete : M U unit :=
  CROW_CALLBACK_NOTIFY (on_message_complete settings) CHPE_CB_message_complete.

Definition callback_of (k : mark) : option (http_data_cb U) :=
  match k with
  | Header_field => on_header_field settings
  | Header_value => on_header_value settings
  | Url | Url_start => on_url settings
  | Body => on_body settings
  end.

Definition callback_error (k : mark) : http_errno :=
  match k with
  | Header_field => CHPE_CB_header_field
  | Header_value => CHPE_CB_header_value
  | Url | Url_start => CHPE_CB_url
  | Body => CHPE_CB_body
  end.

(** [CROW_CALLBACK_DATA_(FOR, LEN, ER)]; [LEN] is [p - FOR_mark + more]. *)
Definition CROW_CALLBACK_DATA_ (k : mark) (more er : Z) : M U unit :=
  now <- errno ;;
  assert_ (bool_decide (now = CHPE_OK)) ;;
  x <- gets (mark_of k) ;;
  match x with
  | None => ret tt
  | Some from =>
      match callback_of k with
      | None => ret tt
      | Some f =>
          m <- gets (fun m => m) ;;
          bytes <- bytes_at from (p m - from + more) ;;
          code <- called (f (parser m) (user m) bytes) ;;
          (if code =? 0 then ret tt else CROW_SET_ERRNO (callback_error k)) ;;
          leave_if_errored er
      end ;;
      set_mark k None
  end.

(** [CROW_CALLBACK_DATA] and [CROW_CALLBACK_DATA_NOADVANCE]. *)
Definition CROW_CALLBACK_DATA (k : mark) : M U unit :=
  here <- gets p ;; CROW_CALLBACK_DATA_ k 0 (here + 1).
Definition CROW_CALLBACK_DATA_NOADVANCE (k : mark) : M U unit :=
  here <- gets p ;; CROW_CALLBACK_DATA_ k 0 here.

(** ** The cases of the switch *)

Definition goto_state (s : state) : M U unit := on_parser (set_state s).
Definition break : M U jump := ret Break.
Definition reexecute (ch : ascii) : M U jump := ret (Reexecute ch).
Definition same (c : ascii) (ch : ascii) : bool := Ascii.eqb ch c.

Definition case_dead (ch : ascii) : M U jump :=
  if same cr ch || same lf ch then break else fail_with CHPE_CLOSED_CONNECTION.

(** The first letter of the method. *)
Definition first_method (ch : ascii) : option HTTPMethod :=
  if same "A" ch then Some Acl
  else if same "B" ch then Some Bind
  else if same "C" ch then Some Connect
  else if same "D" ch then Some Delete
  else if same "G" ch then Some Get
  else if same "H" ch then Some Head
  else if same "L" ch then Some Lock
  else if same "M" ch then Some MkCol
  else if same "N" ch then Some Notify
  else if same "O" ch then Some Options
  else if same "P" ch then Some Post
  else if same "R" ch then Some Report
  else if same "S" ch then Some Subscribe
  else if same "T" ch then Some Trace
  else if same "U" ch then Some Unlock
  else None.

Definition case_start_req (ch : ascii) : M U jump :=
  if same cr ch || same lf ch then break
  else
    on_parser (set_flags 0) ;;
    on_parser (set_uses_transfer_encoding false) ;;
    on_parser (set_content_length CROW_ULLONG_MAX) ;;
    if negb (CROW_IS_ALPHA ch) then fail_with CHPE_INVALID_METHOD
    else
      on_parser (set_method Delete) ;;
      on_parser (set_index 1) ;;
      match first_method ch with
      | None => fail_with CHPE_INVALID_METHOD
      | Some m =>
          on_parser (set_method m) ;;
          goto_state s_req_method ;;
          NOTIFY_message_begin ;;
          break
      end.

(** The inner switch: another method whose name starts alike. *)
Definition other_method (m : HTTPMethod) (index : Z) (ch : ascii) : option HTTPMethod :=
  match m, index with
  | Post, 1 => if same "U" ch then Some Put else if same "A" ch then Some Patch
               else if same "R" ch then Some Propfind else None
  | Put, 2 => if same "R" ch then Some Purge else None
  | Connect, 1 => if same "H" ch then Some Checkout else None
  | Connect, 2 => if same "P" ch then Some Copy else None
  | MkCol, 1 => if same "O" ch then Some Move else if same "E" ch then Some Merge
                else if same "-" ch then Some MSearch else None
  | MkCol, 2 => if same "A" ch then Some MkActivity else None
  | MkCol, 3 => if same "A" ch then Some MkCalendar else None
  | Subscribe, 1 => if same "E" ch then Some Search else if same "O" ch then Some Source else None
  | Report, 2 => if same "B" ch then Some Rebind else None
  | Propfind, 4 => if same "P" ch then Some Proppatch else None
  | Lock, 1 => if same "I" ch then Some Link else None
  | Unlock, 2 => if same "S" ch then Some Unsubscribe else if same "B" ch then Some Unbind else None
  | Unlock, 3 => if same "I" ch then Some Unlink else None
  | _, _ => None
  end.

(** [s[i]] of a string literal, its terminator included. *)
Definition char_at (s : string) (i : Z) : option ascii :=
  if (0 <=? i) && (i <? slen s) then String.get (Z.to_nat i) s
  else if i =? slen s then Some NUL
  else None.

Definition read_literal (s : string) (i : Z) : M U ascii :=
  match char_at s i with Some c => ret c | None => stop OutOfBounds end.

Definition case_req_method (ch : ascii) : M U jump :=
  if same NUL ch then fail_with CHPE_INVALID_METHOD
  else
    matcher <- gets (fun m => method_string (method (parser m))) ;;
    i <- gets (fun m => index (parser m)) ;;
    here <- read_literal matcher i ;;
    (if same " " ch && same NUL here then goto_state s_req_spaces_before_url
     else if same here ch then ret tt
     else if between "A" "Z" ch || same "-" ch then
       m <- gets (fun m => method (parser m)) ;;
       match other_method m i ch with
       | Some new_meth => on_parser (set_method new_meth)
       | None => fail_with CHPE_INVALID_METHOD
       end
     else fail_with CHPE_INVALID_METHOD) ;;
    on_parser (set_index (i + 1)) ;;
    break.

(** The call of [parse_url_char] and the check of its result. *)
Definition step_url (ch : ascii) : M U jump :=
  q <- gets parser ;;
  start <- gets url_start_mark ;;
  here <- gets p ;;
  match parse_url_char (state_ q) ch q start here with
  | None => stop NullPointerDifference
  | Some (s, q) =>
      on_parser (fun _ => q) ;;
      goto_state s ;;
      if bool_decide (s = s_dead) then fail_with CHPE_INVALID_URL else break
  end.

Definition case_req_spaces_before_url (ch : ascii) : M U jump :=
  if same " " ch then break
  else
    CROW_MARK Url ;;
    CROW_MARK Url_start ;;
    connect <- parser_is (fun q => bool_decide (method q = Connect)) ;;
    (if (connect : bool) then goto_state s_req_server_start else ret tt) ;;
    step_url ch.

Definition case_req_schema (ch : ascii) : M U jump :=
  if same " " ch || same cr ch || same lf ch then fail_with CHPE_INVALID_URL else step_url ch.

Definition case_req_url (ch : ascii) : M U jump :=
  if same " " ch then
    goto_state s_req_http_start ;; CROW_CALLBACK_DATA Url ;; break
  else if same cr ch || same lf ch then
    get <- parser_is (fun q => bool_decide (method q = Get)) ;;
    if (negb get : bool) then goto_state s_dead ;; fail_with CHPE_INVALID_VERSION
    else
      on_parser (set_version 0 9) ;;
      goto_state (if same cr ch then s_req_line_almost_done else s_header_field_start) ;;
      CROW_CALLBACK_DATA Url ;;
      break
  else step_url ch.

Definition case_req_http_start (ch : ascii) : M U jump :=
  source <- parser_is (fun q => bool_decide (method q = Source)) ;;
  if same " " ch then break
  else if same "H" ch then goto_state s_req_http_H ;; break
  else if same "I" ch && (source : bool) then goto_state s_req_http_I ;; break
  else fail_with CHPE_INVALID_CONSTANT.

(** One letter of [HTTP/] or [ICE/]. *)
Definition case_req_http_letter (expected : ascii) (next : state) (ch : ascii) : M U jump :=
  CROW_STRICT_CHECK (negb (same expected ch)) ;; goto_state next ;; break.

Definition case_req_http_major (ch : ascii) : M U jump :=
  if negb (CROW_IS_NUM ch) then fail_with CHPE_INVALID_VERSION
  else
    on_parser (fun q => set_version (uc ch - 48) (http_minor q) q) ;;
    goto_state s_req_http_dot ;; break.

Definition case_req_http_dot (ch : ascii) : M U jump :=
  if negb (same "." ch) then fail_with CHPE_INVALID_VERSION
  else goto_state s_req_http_minor ;; break.

Definition case_req_http_minor (ch : ascii) : M U jump :=
  if negb (CROW_IS_NUM ch) then fail_with CHPE_INVALID_VERSION
  else
    on_parser (fun q => set_version (http_major q) (uc ch - 48) q) ;;
    goto_state s_req_http_end ;; break.

Definition case_req_http_end (ch : ascii) : M U jump :=
  if same cr ch then goto_state s_req_line_almost_done ;; break
  else if same lf ch then goto_state s_header_field_start ;; break
  else fail_with CHPE_INVALID_VERSION.

Definition case_req_line_almost_done (ch : ascii) : M U jump :=
  if negb (same lf ch) then fail_with CHPE_LF_EXPECTED
  else goto_state s_header_field_start ;; break.

(** *** Header fields *)

Definition case_header_field_start (ch : ascii) : M U jump :=
  if same cr ch then goto_state s_headers_almost_done ;; break
  else if same lf ch then goto_state s_headers_almost_done ;; reexecute ch
  else
    let c := CROW_TOKEN ch in
    if same NUL c then fail_with CHPE_INVALID_HEADER_TOKEN
    else
      CROW_MARK Header_field ;;
      on_parser (set_index 0) ;;
      goto_state s_header_field ;;
      on_parser (set_header_state
        (if same "c" c then h_C
         else if same "p" c then h_matching_proxy_connection
         else if same "t" c then h_matching_transfer_encoding
         else if same "u" c then h_matching_upgrade
         else h_general)) ;;
      break.

Definition CROW_PROXY_CONNECTION : string := "proxy-connection".
Definition CROW_CONNECTION : string := "connection".
Definition CROW_CONTENT_LENGTH : string := "content-length".
Definition CROW_TRANSFER_ENCODING : string := "transfer-encoding".
Definition CROW_UPGRADE : string := "upgrade".
Definition CROW_CHUNKED : string := "chunked".
Definition CROW_KEEP_ALIVE : string := "keep-alive".
Definition CROW_CLOSE : string := "close".

(** One more character of a word being matched: whether it is still the word,
    and whether the word is complete.  [sizeof] counts the terminator. *)
Inductive progress := Mismatch | Matching | Matched.

Definition match_word (word : string) (c : ascii) : M U progress :=
  on_parser (fun q => set_index (index q + 1) q) ;;
  i <- gets (fun m => index (parser m)) ;;
  if slen word + 1 - 1 <? i then ret Mismatch
  else
    w <- read_literal word i ;;
    ret (if negb (Ascii.eqb c w) then Mismatch
         else if i =? slen word + 1 - 2 then Matched
         else Matching).

Definition match_field (word : string) (c : ascii) (reached : header_states) : M U unit :=
  r <- match_word word c ;;
  match r with
  | Mismatch => on_parser (set_header_state h_general)
  | Matching => ret tt
  | Matched => on_parser (set_header_state reached)
  end.

(** [while (p+1 < pe && CROW_TOKEN(p[1])) p++;] *)
Fixpoint skip_tokens (fuel : nat) (pe : Z) : M U unit :=
  match fuel with
  | O => stop NoFuel
  | S fuel =>
      here <- gets p ;;
      if here + 1 <? pe then
        next <- read (here + 1) ;;
        if is_token next then set_p Z.succ ;; skip_tokens fuel pe else ret tt
      else ret tt
  end.

(** [CROW_MIN(left, max_header_size)] bytes from [p] on. *)
Definition run_end : M U Z :=
  here <- gets p ;; ret (here + Z.min (len - here) max_header_size).

(** The switch on [header_state] for one character of a field's name. *)
Definition header_field_char (fuel : nat) (ch c : ascii) : M U unit :=
  let advance := on_parser (fun q => set_index (index q + 1) q) in
  h <- gets (fun m => header_state (parser m)) ;;
  match h with
  | h_general => pe <- run_end ;; skip_tokens fuel pe
  | h_C => advance ;; on_parser (set_header_state (if same "o" c then h_CO else h_general))
  | h_CO => advance ;; on_parser (set_header_state (if same "n" c then h_CON else h_general))
  | h_CON =>
      advance ;;
      on_parser (set_header_state
        (if same "n" c then h_matching_connection
         else if same "t" c then h_matching_content_length
         else h_general))
  | h_matching_connection => match_field CROW_CONNECTION c h_connection
  | h_matching_proxy_connection => match_field CROW_PROXY_CONNECTION c h_connection
  | h_matching_content_length => match_field CROW_CONTENT_LENGTH c h_content_length
  | h_matching_transfer_encoding =>
      match_field CROW_TRANSFER_ENCODING c h_transfer_encoding ;;
      done <- parser_is (fun q => bool_decide (header_state q = h_transfer_encoding)) ;;
      if (done : bool) then on_parser (set_uses_transfer_encoding true) else ret tt
  | h_matching_upgrade => match_field CROW_UPGRADE c h_upgrade
  | h_connection | h_content_length | h_transfer_encoding | h_upgrade =>
      if negb (same " " ch) then on_parser (set_header_state h_general) else ret tt
  | _ => assert_ false
  end.

(** The loop over the name: the character that ended it, or [None] at the end of
    the buffer. *)
Fixpoint header_field_loop (fuel : nat) : M U (option ascii) :=
  match fuel with
  | O => stop NoFuel
  | S fuel =>
      over <- at_end ;;
      if (over : bool) then ret None
      else
        here <- gets p ;;
        ch <- read here ;;
        let c := CROW_TOKEN ch in
        if same NUL c then ret (Some ch)
        else
          header_field_char (S (length data)) ch c ;;
          set_p Z.succ ;;
          header_field_loop fuel
  end.

Definition case_header_field : M U jump :=
  start <- gets p ;;
  ended <- header_field_loop (S (length data)) ;;
  match ended with
  | None =>
      set_p Z.pred ;;
      here <- gets p ;;
      COUNT_HEADER_SIZE (here - start) ;;
      break
  | Some ch =>
      here <- gets p ;;
      COUNT_HEADER_SIZE (here - start) ;;
      if same ":" ch then
        goto_state s_header_value_discard_ws ;;
        CROW_CALLBACK_DATA Header_field ;;
        break
      else fail_with CHPE_INVALID_HEADER_TOKEN
  end.

(** *** Header values *)

(** The switch on [header_state] for the first character of a value. *)
Definition header_value_first (ch : ascii) : M U unit :=
  let c := CROW_LOWER ch in
  let go h := on_parser (set_header_state h) in
  h <- gets (fun m => header_state (parser m)) ;;
  match h with
  | h_upgrade => on_parser (add_flag F_UPGRADE) ;; go h_general
  | h_transfer_encoding =>
      go (if same "c" c then h_matching_transfer_encoding_chunked
          else h_matching_transfer_encoding_token)
  | h_matching_transfer_encoding_token_start => ret tt
  | h_content_length =>
      if negb (CROW_IS_NUM ch) then fail_with CHPE_INVALID_CONTENT_LENGTH
      else
        seen <- parser_is (has_flag F_CONTENTLENGTH) ;;
        if (seen : bool) then fail_with CHPE_UNEXPECTED_CONTENT_LENGTH
        else
          on_parser (add_flag F_CONTENTLENGTH) ;;
          on_parser (set_content_length (uc ch - 48)) ;;
          go h_content_length_num
  | h_content_length_ws => ret tt
  | h_connection =>
      if same "k" c then go h_matching_connection_keep_alive
      else if same "c" c then go h_matching_connection_close
      else if same " " c || same tab c then ret tt
      else go h_general
  | _ => go h_general
  end.

Definition case_header_value_start (ch : ascii) : M U jump :=
  CROW_MARK Header_value ;;
  goto_state s_header_value ;;
  on_parser (set_index 0) ;;
  header_value_first ch ;;
  break.

Definition case_header_value_discard_ws (ch : ascii) : M U jump :=
  if same " " ch || same tab ch then break
  else if same cr ch then goto_state s_header_value_discard_ws_almost_done ;; break
  else if same lf ch then goto_state s_header_value_discard_lws ;; break
  else case_header_value_start ch.

Definition lenient : M U bool := parser_is lenient_http_headers.

(** [for (; p != pe; p++)] over a value nothing same expected of: it stops before
    a line end. *)
Fixpoint skip_value (fuel : nat) (lenient : bool) (pe : Z) : M U unit :=
  match fuel with
  | O => stop NoFuel
  | S fuel =>
      here <- gets p ;;
      if here =? pe then ret tt
      else
        ch <- read here ;;
        if same cr ch || same lf ch then set_p Z.pred
        else if negb lenient && negb (CROW_IS_HEADER_CHAR ch) then fail_with CHPE_INVALID_HEADER_TOKEN
        else set_p Z.succ ;; skip_value fuel lenient pe
  end.

(** A digit of [Content-Length]. *)
Definition content_length_digit (ch : ascii) : M U header_states :=
  if same " " ch then ret h_content_length_ws
  else if negb (CROW_IS_NUM ch) then
    CROW_SET_ERRNO CHPE_INVALID_CONTENT_LENGTH ;;
    on_parser (set_header_state h_content_length_num) ;; goto_error
  else
    n <- gets (fun m => content_length (parser m)) ;;
    let t := to_u64 (to_u64 (n * 10) + (uc ch - 48)) in
    if (CROW_ULLONG_MAX - 10) / 10 <? n then
      CROW_SET_ERRNO CHPE_INVALID_CONTENT_LENGTH ;;
      on_parser (set_header_state h_content_length_num) ;; goto_error
    else on_parser (set_content_length t) ;; ret h_content_length_num.

(** A word of a value: [h_state] after one more character. *)
Definition match_value (word : string) (c : ascii) (on_match otherwise h_state : header_states)
    : M U header_states :=
  r <- match_word word c ;;
  ret (match r with Mismatch => otherwise | Matching => h_state | Matched => on_match end).

(** The switch on [h_state] for one more character of a value. *)
Definition header_value_char (fuel : nat) (lenient : bool) (h_state : header_states) (ch : ascii)
    : M U header_states :=
  let c := CROW_LOWER ch in
  match h_state with
  | h_general =>
      pe <- run_end ;;
      skip_value fuel lenient pe ;;
      over <- at_end ;;
      (if (over : bool) then set_p Z.pred else ret tt) ;;
      ret h_state
  | h_connection | h_transfer_encoding => assert_ false ;; ret h_state
  | h_content_length =>
      if same " " ch then ret h_state else content_length_digit ch
  | h_content_length_num => content_length_digit ch
  | h_content_length_ws =>
      if same " " ch then ret h_state
      else
        CROW_SET_ERRNO CHPE_INVALID_CONTENT_LENGTH ;;
        on_parser (set_header_state h_state) ;; goto_error
  | h_matching_transfer_encoding_token_start =>
      ret (if same "c" c then h_matching_transfer_encoding_chunked
           else if is_token c then h_matching_transfer_encoding_token
           else if same " " c || same tab c then h_state
           else h_general)
  | h_matching_transfer_encoding_chunked =>
      match_value CROW_CHUNKED c h_transfer_encoding_chunked h_matching_transfer_encoding_token h_state
  | h_matching_transfer_encoding_token =>
      if same "," ch then
        on_parser (set_index 0) ;; ret h_matching_transfer_encoding_token_start
      else ret h_state
  | h_matching_connection_keep_alive =>
      match_value CROW_KEEP_ALIVE c h_connection_keep_alive h_general h_state
  | h_matching_connection_close =>
      match_value CROW_CLOSE c h_connection_close h_general h_state
  | h_transfer_encoding_chunked =>
      ret (if negb (same " " ch) then h_matching_transfer_encoding_token else h_state)
  | h_connection_keep_alive | h_connection_close =>
      ret (if negb (same " " ch) then h_general else h_state)
  | _ => goto_state s_header_value ;; ret h_general
  end.

(** How the loop over a value ends: [AtCR], with the loop left by [break], or at
    the end of the buffer ([h_state] is returned); [AtLF], on to the line feed
    in the new state. *)
Inductive value_end := Broke (h_state : header_states) | AtLF.

Fixpoint header_value_loop (fuel : nat) (lenient : bool) (start : Z) (h_state : header_states)
    : M U value_end :=
  match fuel with
  | O => stop NoFuel
  | S fuel =>
      over <- at_end ;;
      if (over : bool) then ret (Broke h_state)
      else
        here <- gets p ;;
        ch <- read here ;;
        if same cr ch then
          goto_state s_header_almost_done ;;
          on_parser (set_header_state h_state) ;;
          CROW_CALLBACK_DATA Header_value ;;
          ret (Broke h_state)
        else if same lf ch then
          goto_state s_header_almost_done ;;
          COUNT_HEADER_SIZE (here - start) ;;
          on_parser (set_header_state h_state) ;;
          CROW_CALLBACK_DATA_NOADVANCE Header_value ;;
          ret AtLF
        else if negb lenient && negb (CROW_IS_HEADER_CHAR ch) then fail_with CHPE_INVALID_HEADER_TOKEN
        else
          h_state <- header_value_char (S (length data)) lenient h_state ch ;;
          set_p Z.succ ;;
          header_value_loop fuel lenient start h_state
  end.

Definition case_header_value (lenient : bool) : M U jump :=
  start <- gets p ;;
  h_state <- gets (fun m => header_state (parser m)) ;;
  ended <- header_value_loop (S (length data)) lenient start h_state ;;
  match ended with
  | AtLF => reexecute lf
  | Broke h_state =>
      on_parser (set_header_state h_state) ;;
      over <- at_end ;;
      (if (over : bool) then set_p Z.pred else ret tt) ;;
      here <- gets p ;;
      COUNT_HEADER_SIZE (here - start) ;;
      break
  end.

Definition case_header_almost_done (ch : ascii) : M U jump :=
  if negb (same lf ch) then fail_with CHPE_LF_EXPECTED
  else goto_state s_header_value_lws ;; break.

Definition case_header_value_lws (ch : ascii) : M U jump :=
  h <- gets (fun m => header_state (parser m)) ;;
  if same " " ch || same tab ch then
    (match h with
     | h_content_length_num => on_parser (set_header_state h_content_length_ws)
     | _ => ret tt
     end) ;;
    goto_state s_header_value_start ;;
    reexecute ch
  else
    (match h with
     | h_connection_keep_alive => on_parser (add_flag F_CONNECTION_KEEP_ALIVE)
     | h_connection_close => on_parser (add_flag F_CONNECTION_CLOSE)
     | h_transfer_encoding_chunked => on_parser (add_flag F_CHUNKED)
     | _ => ret tt
     end) ;;
    goto_state s_header_field_start ;;
    reexecute ch.

Definition case_header_value_discard_ws_almost_done (ch : ascii) : M U jump :=
  CROW_STRICT_CHECK (negb (same lf ch)) ;; goto_state s_header_value_discard_lws ;; break.

Definition case_header_value_discard_lws (ch : ascii) : M U jump :=
  if same " " ch || same tab ch then goto_state s_header_value_discard_ws ;; break
  else
    CROW_MARK Header_value ;;
    goto_state s_header_field_start ;;
    CROW_CALLBACK_DATA_NOADVANCE Header_value ;;
    reexecute ch.

(** *** The end of the headers *)

(** Whether the headers combine [Transfer-Encoding] with [Content-Length] in a
    way that is not allowed. *)
Definition conflicting_lengths (lenient allow_chunked_length : bool) (q : http_parser) : bool :=
  uses_transfer_encoding q && has_flag F_CONTENTLENGTH q &&
  (if has_flag F_CHUNKED q then negb allow_chunked_length else negb lenient).

(** The call of [on_headers_complete], whose result also says what follows the
    headers. *)
Definition headers_complete_callback : M U unit :=
  match on_headers_complete settings with
  | None => ret tt
  | Some f =>
      m <- gets (fun m => m) ;;
      code <- called (f (parser m) (user m)) ;;
      if code =? 0 then ret tt
      else if code =? 2 then on_parser (set_upgrade true) ;; on_parser (add_flag F_SKIPBODY)
      else if code =? 1 then on_parser (add_flag F_SKIPBODY)
      else
        CROW_SET_ERRNO CHPE_CB_headers_complete ;;
        n <- gets nread_ ;; on_parser (set_nread n) ;;
        here <- gets p ;; return_ here
  end.

Definition case_headers_almost_done (lenient allow_chunked_length : bool) (ch : ascii) : M U jump :=
  CROW_STRICT_CHECK (negb (same lf ch)) ;;
  trailing <- parser_is (has_flag F_TRAILING) ;;
  if (trailing : bool) then NOTIFY_message_complete ;; break
  else
    conflict <- parser_is (conflicting_lengths lenient allow_chunked_length) ;;
    if (conflict : bool) then fail_with CHPE_UNEXPECTED_CONTENT_LENGTH
    else
      goto_state s_headers_done ;;
      on_parser (fun q => set_upgrade (has_flag F_UPGRADE q || bool_decide (method q = Connect)) q) ;;
      headers_complete_callback ;;
      e <- errno ;;
      if bool_decide (e = CHPE_OK) then reexecute ch
      else
        n <- gets nread_ ;; on_parser (set_nread n) ;;
        here <- gets p ;; return_ here.

Definition reset_nread : M U unit := on_parser (set_nread 0) ;; set_local_nread 0.

Definition case_headers_done (lenient : bool) (ch : ascii) : M U jump :=
  CROW_STRICT_CHECK (negb (same lf ch)) ;;
  reset_nread ;;
  q <- gets parser ;;
  if upgrade q then
    NOTIFY_message_complete ;;
    n <- gets nread_ ;; on_parser (set_nread n) ;;
    here <- gets p ;; return_ (here + 1)
  else if has_flag F_SKIPBODY q then NOTIFY_message_complete ;; break
  else if has_flag F_CHUNKED q then goto_state s_chunk_size_start ;; break
  else if uses_transfer_encoding q then
    if negb lenient then
      CROW_SET_ERRNO CHPE_INVALID_TRANSFER_ENCODING ;;
      n <- gets nread_ ;; on_parser (set_nread n) ;;
      here <- gets p ;; return_ here
    else goto_state s_body_identity_eof ;; break
  else if content_length q =? 0 then NOTIFY_message_complete ;; break
  else if negb (content_length q =? CROW_ULLONG_MAX) then goto_state s_body_identity ;; break
  else NOTIFY_message_complete ;; break.

(** *** Bodies *)

Definition body_asserts : M U unit :=
  n <- gets (fun m => content_length (parser m)) ;;
  assert_ (negb (n =? 0) && negb (n =? CROW_ULLONG_MAX)).

(** As many bytes of the body as the buffer has. *)
Definition take_body : M U unit :=
  n <- gets (fun m => content_length (parser m)) ;;
  here <- gets p ;;
  let to_read := Z.min n (to_u64 (len - here)) in
  CROW_MARK Body ;;
  on_parser (set_content_length (to_u64 (n - to_read))) ;;
  set_p (fun p => p + to_read - 1).

Definition body_left : M U bool := gets (fun m => negb (content_length (parser m) =? 0)).

Definition case_body_identity (ch : ascii) : M U jump :=
  body_asserts ;;
  take_body ;;
  left <- body_left ;;
  if (left : bool) then break
  else
    goto_state s_message_done ;;
    here <- gets p ;;
    CROW_CALLBACK_DATA_ Body 1 here ;;
    reexecute ch.

Definition case_body_identity_eof : M U jump :=
  CROW_MARK Body ;; set_p (fun _ => len - 1) ;; break.

Definition case_message_done : M U jump := NOTIFY_message_complete ;; break.

Definition assert_chunked : M U unit := b <- parser_is (has_flag F_CHUNKED) ;; assert_ b.

Definition case_chunk_size_start (ch : ascii) : M U jump :=
  n <- gets nread_ ;;
  assert_ (n =? 1) ;;
  assert_chunked ;;
  let unhex_val := unhex ch in
  if unhex_val =? -1 then fail_with CHPE_INVALID_CHUNK_SIZE
  else on_parser (set_content_length unhex_val) ;; goto_state s_chunk_size ;; break.

Definition case_chunk_size (ch : ascii) : M U jump :=
  assert_chunked ;;
  if same cr ch then goto_state s_chunk_size_almost_done ;; break
  else
    let unhex_val := unhex ch in
    if unhex_val =? -1 then
      if same ";" ch || same " " ch then goto_state s_chunk_parameters ;; break
      else fail_with CHPE_INVALID_CHUNK_SIZE
    else
      n <- gets (fun m => content_length (parser m)) ;;
      let t := to_u64 (to_u64 (n * 16) + unhex_val) in
      if (CROW_ULLONG_MAX - 16) / 16 <? n then fail_with CHPE_INVALID_CONTENT_LENGTH
      else on_parser (set_content_length t) ;; break.

Definition case_chunk_parameters (ch : ascii) : M U jump :=
  assert_chunked ;;
  if same cr ch then goto_state s_chunk_size_almost_done ;; break else break.

Definition case_chunk_size_almost_done (ch : ascii) : M U jump :=
  assert_chunked ;;
  CROW_STRICT_CHECK (negb (same lf ch)) ;;
  reset_nread ;;
  left <- body_left ;;
  (if (left : bool) then goto_state s_chunk_data
   else on_parser (add_flag F_TRAILING) ;; goto_state s_header_field_start) ;;
  break.

Definition case_chunk_data : M U jump :=
  assert_chunked ;;
  body_asserts ;;
  take_body ;;
  left <- body_left ;;
  (if (left : bool) then ret tt else goto_state s_chunk_data_almost_done) ;;
  break.

Definition case_chunk_data_almost_done (ch : ascii) : M U jump :=
  assert_chunked ;;
  left <- body_left ;;
  assert_ (negb left) ;;
  CROW_STRICT_CHECK (negb (same cr ch)) ;;
  goto_state s_chunk_data_done ;;
  CROW_CALLBACK_DATA Body ;;
  break.

Definition case_chunk_data_done (ch : ascii) : M U jump :=
  assert_chunked ;;
  CROW_STRICT_CHECK (negb (same lf ch)) ;;
  reset_nread ;;
  goto_state s_chunk_size_start ;;
  break.

(** ** The switch and the loops *)

Definition switch (lenient allow_chunked_length : bool) (s : state) (ch : ascii) : M U jump :=
  match s with
  | s_dead => case_dead ch
  | s_start_req => case_start_req ch
  | s_req_method => case_req_method ch
  | s_req_spaces_before_url => case_req_spaces_before_url ch
  | s_req_schema | s_req_schema_slash | s_req_schema_slash_slash | s_req_server_start =>
      case_req_schema ch
  | s_req_server | s_req_server_with_at | s_req_path | s_req_query_string_start
  | s_req_query_string => case_req_url ch
  | s_req_http_start => case_req_http_start ch
  | s_req_http_H => case_req_http_letter "T" s_req_http_HT ch
  | s_req_http_HT => case_req_http_letter "T" s_req_http_HTT ch
  | s_req_http_HTT => case_req_http_letter "P" s_req_http_HTTP ch
  | s_req_http_I => case_req_http_letter "C" s_req_http_IC ch
  | s_req_http_IC => case_req_http_letter "E" s_req_http_HTTP ch
  | s_req_http_HTTP => case_req_http_letter "/" s_req_http_major ch
  | s_req_http_major => case_req_http_major ch
  | s_req_http_dot => case_req_http_dot ch
  | s_req_http_minor => case_req_http_minor ch
  | s_req_http_end => case_req_http_end ch
  | s_req_line_almost_done => case_req_line_almost_done ch
  | s_header_field_start => case_header_field_start ch
  | s_header_field => case_header_field
  | s_header_value_discard_ws => case_header_value_discard_ws ch
  | s_header_value_start => case_header_value_start ch
  | s_header_value => case_header_value lenient
  | s_header_almost_done => case_header_almost_done ch
  | s_header_value_lws => case_header_value_lws ch
  | s_header_value_discard_ws_almost_done => case_header_value_discard_ws_almost_done ch
  | s_header_value_discard_lws => case_header_value_discard_lws ch
  | s_headers_almost_done => case_headers_almost_done lenient allow_chunked_length ch
  | s_headers_done => case_headers_done lenient ch
  | s_body_identity => case_body_identity ch
  | s_body_identity_eof => case_body_identity_eof
  | s_message_done => case_message_done
  | s_chunk_size_start => case_chunk_size_start ch
  | s_chunk_size => case_chunk_size ch
  | s_chunk_parameters => case_chunk_parameters ch
  | s_chunk_size_almost_done => case_chunk_size_almost_done ch
  | s_chunk_data => case_chunk_data
  | s_chunk_data_almost_done => case_chunk_data_almost_done ch
  | s_chunk_data_done => case_chunk_data_done ch
  end.

(** [reexecute:]; no byte is looked at in more than four states. *)
Fixpoint execute_byte (fuel : nat) (lenient allow_chunked_length : bool) (ch : ascii) : M U unit :=
  match fuel with
  | O => stop NoFuel
  | S fuel =>
      s <- gets (fun m => state_ (parser m)) ;;
      j <- switch lenient allow_chunked_length s ch ;;
      match j with
      | Break => ret tt
      | Reexecute ch => execute_byte fuel lenient allow_chunked_length ch
      end
  end.

Definition reexecutions : nat := 6.

(** What the loop does with one byte. *)
Definition loop_body (lenient allow_chunked_length : bool) (ch : ascii) : M U unit :=
  s <- gets (fun m => state_ (parser m)) ;;
  (if CROW_PARSING_HEADER s then COUNT_HEADER_SIZE 1 else ret tt) ;;
  execute_byte reexecutions lenient allow_chunked_length ch.

(** [for (p=data; p != data + len; p++)]. *)
Fixpoint loop (fuel : nat) (lenient allow_chunked_length : bool) : M U unit :=
  match fuel with
  | O => stop NoFuel
  | S fuel =>
      over <- at_end ;;
      if (over : bool) then ret tt
      else
        here <- gets p ;;
        ch <- read here ;;
        loop_body lenient allow_chunked_length ch ;;
        set_p Z.succ ;;
        loop fuel lenient allow_chunked_length
  end.

(** The mark a fresh call starts with, by the state it resumes in. *)
Definition start_marks : M U unit :=
  s <- gets (fun m => state_ (parser m)) ;;
  match s with
  | s_header_field => set_mark Header_field (Some 0)
  | s_header_value => set_mark Header_value (Some 0)
  | s_req_path | s_req_schema | s_req_schema_slash | s_req_schema_slash_slash
  | s_req_server_start | s_req_server | s_req_server_with_at
  | s_req_query_string_start | s_req_query_string => set_mark Url (Some 0)
  | _ => ret tt
  end.

Definition is_set (x : option Z) : Z := match x with Some _ => 1 | None => 0 end.

Definition mark_count (m : machine U) : Z :=
  is_set (header_field_mark m) + is_set (header_value_mark m) + is_set (url_mark m) + is_set (body_mark m).

(** The callbacks for the marks left at the end of the buffer. *)
Definition flush_marks : M U unit :=
  n <- gets mark_count ;;
  assert_ (n <=? 1) ;;
  CROW_CALLBACK_DATA_NOADVANCE Header_field ;;
  CROW_CALLBACK_DATA_NOADVANCE Header_value ;;
  CROW_CALLBACK_DATA_NOADVANCE Url ;;
  CROW_CALLBACK_DATA_NOADVANCE Body.

(** An empty buffer stands for the end of the stream. *)
Definition execute_eof : M U Z :=
  s <- gets (fun m => state_ (parser m)) ;;
  match s with
  | s_body_identity_eof =>
      here <- gets p ;;
      CROW_CALLBACK_NOTIFY_ (on_message_complete settings) CHPE_CB_message_complete here ;;
      ret 0
  | s_dead | s_start_req => ret 0
  | _ => CROW_SET_ERRNO CHPE_INVALID_EOF_STATE ;; ret 1
  end.

(** The body of the function before the label [error]. *)
Definition execute_buffer : M U Z :=
  e <- errno ;;
  if negb (bool_decide (e = CHPE_OK)) then ret 0
  else if len =? 0 then execute_eof
  else
    lenient <- parser_is lenient_http_headers ;;
    allow_chunked_length <- parser_is allow_chunked_length ;;
    start_marks ;;
    loop (S (length data)) lenient allow_chunked_length ;;
    flush_marks ;;
    n <- gets nread_ ;; on_parser (set_nread n) ;;
    ret len.

Definition start (q : http_parser) (u : U) : machine U :=
  Machine q u 0 (nread q) None None None None None.

(** [http_parser_execute]: the number of bytes taken, the parser and the
    callbacks' state. *)
Definition http_parser_execute (q : http_parser) (u : U) : stuck + Z * http_parser * U :=
  match execute_buffer (start q u) with
  | Value n m | Return n m => inr (n, parser m, user m)
  | GotoError m =>
      let q := parser m in
      let q := if bool_decide (http_errno_ q = CHPE_OK)
               then set_http_errno CHPE_UNKNOWN (set_nread (nread_ m) q) else q in
      inr (p m, set_nread (nread_ m) q, user m)
  | Stuck why => inl why
  end.

End execute.
