(* ===== verification/HttpSteps.v ===== *)
(** * One byte of the HTTP parser in two buffers *)

From S2P Require Import Prelude CInt CArray HttpData HttpParser.
#[local] Open Scope http_scope.

(** ** Callbacks that succeed and leave the parser alone *)

Record handlers (U : Type) := Handlers {
  begun : http_parser -> U -> U;
  headers_read : http_parser -> U -> U;
  completed : http_parser -> U -> U;
  feed : mark -> U -> list ascii -> U
}.
Arguments begun {U}.
Arguments headers_read {U}.
Arguments completed {U}.
Arguments feed {U}.

Definition plain {U} (h : handlers U) : http_parser_settings U :=
  let notify (g : http_parser -> U -> U) : option (http_cb U) := Some (fun q u => (0, q, g q u)) in
  let data k : option (http_data_cb U) := Some (fun q u bytes => (0, q, feed h k u bytes)) in
  Settings (notify (begun h)) (data Url) (data Header_field) (data Header_value)
    (notify (headers_read h)) (data Body) (notify (completed h)).

(** Two pieces of data may be given as one, and the count of header bytes is
    not looked at. *)
Class Mergeable {U} (h : handlers U) := {
  feed_app k u a b : feed h k (feed h k u a) b = feed h k u (a ++ b);
  begun_nread q q' u : set_nread 0 q = set_nread 0 q' -> begun h q u = begun h q' u;
  headers_read_nread q q' u : set_nread 0 q = set_nread 0 q' -> headers_read h q u = headers_read h q' u;
  completed_nread q q' u : set_nread 0 q = set_nread 0 q' -> completed h q u = completed h q' u
}.

(** ** The invariant *)

(** The mark that is set while the parser is in a state. *)
Definition marked (s : state) : option mark :=
  match s with
  | s_req_path | s_req_schema | s_req_schema_slash | s_req_schema_slash_slash
  | s_req_server_start | s_req_server | s_req_server_with_at
  | s_req_query_string_start | s_req_query_string => Some Url
  | s_header_field => Some Header_field
  | s_header_value => Some Header_value
  | _ => None
  end.

(** The states in which bytes of the body may be pending. *)
Definition in_body (s : state) : Prop :=
  match s with s_chunk_data | s_chunk_data_almost_done | s_body_identity => True | _ => False end.

Definition field_state (h : header_states) : Prop :=
  match h with
  | h_general | h_C | h_CO | h_CON | h_matching_connection | h_matching_proxy_connection
  | h_matching_content_length | h_matching_transfer_encoding | h_matching_upgrade
  | h_connection | h_content_length | h_transfer_encoding | h_upgrade => True
  | _ => False
  end.

Definition value_state (h : header_states) : Prop :=
  match h with h_connection | h_transfer_encoding => False | _ => True end.

(** [first] is the count of header bytes at the start of a chunk's size: 0
    between two bytes, 1 once the byte has been counted. *)
Definition state_ok (first : Z) (q : http_parser) (n : Z) : Prop :=
  let cl := content_length q in
  match state_ q with
  | s_req_method => 1 <= index q <= slen (method_string (method q))
  | s_header_field => field_state (header_state q)
  | s_header_value | s_header_almost_done | s_header_value_lws | s_header_value_start =>
      value_state (header_state q)
  | s_chunk_size_start => has_flag F_CHUNKED q = true /\ n = first
  | s_chunk_size | s_chunk_parameters | s_chunk_size_almost_done =>
      has_flag F_CHUNKED q = true /\ cl <> CROW_ULLONG_MAX
  | s_chunk_data => has_flag F_CHUNKED q = true /\ cl <> 0 /\ cl <> CROW_ULLONG_MAX
  | s_chunk_data_almost_done => has_flag F_CHUNKED q = true /\ cl = 0
  | s_chunk_data_done => has_flag F_CHUNKED q = true
  | s_body_identity => cl <> 0 /\ cl <> CROW_ULLONG_MAX
  | s_body_identity_eof => False
  | _ => True
  end.

Record parser_ok (max first : Z) (q : http_parser) (n : Z) : Prop := {
  ok_errno : http_errno_ q = CHPE_OK;
  ok_lenient : lenient_http_headers q = false;
  ok_strict : HttpData.allow_chunked_length q = false;
  ok_nread : 0 <= n <= max;
  ok_length : 0 <= content_length q <= CROW_ULLONG_MAX;
  ok_state : state_ok first q n
}.

(** The bytes of a buffer from one offset to another. *)
Definition slice (d : list ascii) (i j : Z) : list ascii :=
  take (Z.to_nat (j - i)) (drop (Z.to_nat i) d).

Lemma slice_empty d i : slice d i i = [].
Proof. unfold slice. by rewrite Z.sub_diag. Qed.

Lemma feed_pending {U} (h : handlers U) `{!Mergeable h} k u d i o : i <= o ->
  feed h k (if i <? o then feed h k u (slice d i o) else u) [] = feed h k u (slice d i o).
Proof.
  intros Hi. destruct (i <? o) eqn:E; [by rewrite feed_app, app_nil_r|].
  b2p. replace o with i by lia. by rewrite slice_empty.
Qed.

Section steps.
Context {U : Type} (h : handlers U) `{!Mergeable h} (max : Z).

(** The mark that is set, if any: the bytes from there on have not been given to
    their callback yet. *)
Definition pending (m : machine U) : option (mark * Z) :=
  match header_field_mark m, header_value_mark m, url_mark m, body_mark m with
  | Some i, _, _, _ => Some (Header_field, i)
  | _, Some i, _, _ => Some (Header_value, i)
  | _, _, Some i, _ => Some (Url, i)
  | _, _, _, Some i => Some (Body, i)
  | _, _, _, _ => None
  end.

Definition mark_ok (m : machine U) (k : mark) : Prop :=
  let s := state_ (parser m) in
  match mark_of k m with
  | None => marked s <> Some k
  | Some i => 0 <= i <= p m /\
      (marked s = Some k \/ k = Body /\ in_body s /\ i < p m)
  end.

(** Before a byte is looked at ([first = 0]) or a case is entered ([first = 1]). *)
Record machine_ok (first : Z) (m : machine U) : Prop := {
  ok_parser : parser_ok max first (parser m) (nread_ m);
  ok_marks : forall k, k <> Url_start -> mark_ok m k;
  ok_fresh_url : match state_ (parser m) with
                 | s_start_req | s_req_method | s_req_spaces_before_url => url_start_mark m = None
                 | _ => True end;
  ok_p : 0 <= p m
}.

(** The callbacks' state after the pending bytes, those before [p]. *)
Definition flushed (d : list ascii) (m : machine U) : U :=
  match pending m with
  | Some (k, i) => if i <? p m then feed h k (user m) (slice d i (p m)) else user m
  | None => user m
  end.

(** ** Two runs side by side *)

Definition wp2 {A} (r r' : outcome U A) (Q : A -> machine U -> A -> machine U -> Prop) : Prop :=
  match r', r with
  | Value a' m', Value a m => Q a m a' m'
  | (GotoError _ | Return _ _), (GotoError _ | Return _ _) => True
  | Stuck why, Stuck why' => why = why'
  | _, _ => False
  end.

Lemma wp2_bind {A B} (c c' : M U A) (k k' : A -> M U B) m m' Q :
  wp2 (c m) (c' m') (fun a m a' m' => wp2 (k a m) (k' a' m') Q) ->
  wp2 (bind c k m) (bind c' k' m') Q.
Proof. unfold bind. by destruct (c m), (c' m'). Qed.

(** What is known of the run of a piece of the function. *)
Definition wp {A} (r : outcome U A) (Q : A -> machine U -> Prop) : Prop :=
  match r with
  | Value a m => Q a m
  | GotoError _ | Return _ _ => True
  | Stuck why => why = NullPointerDifference
  end.

Lemma run_bind {A B} (c : M U A) (k : A -> M U B) m (Q : B -> machine U -> Prop) :
  wp (c m) (fun a m' => wp (k a m') Q) -> wp (bind c k m) Q.
Proof. unfold bind. by destruct (c m). Qed.

Lemma execute_byte_S st d fuel le al ch :
  @execute_byte U st max d (S fuel) le al ch =
    (s <- gets (fun m => state_ (parser m)) ;;
     j <- switch st max d le al s ch ;;
     match j with
     | Break => ret tt
     | Reexecute ch => execute_byte st max d fuel le al ch
     end).
Proof. done. Qed.

Lemma parse_url_char_result s ch q start p s' q' :
  parse_url_char s ch q start p = Some (s', q') ->
  (s' = s_dead \/ marked s' = Some Url) /\ exists x, q' = set_qs_point x q.
Proof.
  assert (Hq : exists x, q = set_qs_point x q) by (exists (qs_point q); by destruct q).
  unfold parse_url_char, url_mark_distance.
  repeat case_match; intros [= <- <-]; split; eauto.
Qed.

(** How far [p] is from the start of the URL, where that is known. *)
Definition url_distance (start : option Z) (p : Z) : option Z := option_map (fun s => p - s) start.

Lemma parse_url_char_two s ch q start p n start' p' :
  url_distance start p = url_distance start' p' ->
  parse_url_char s ch (set_nread n q) start' p' =
    option_map (fun r => (fst r, set_nread n (snd r))) (parse_url_char s ch q start p).
Proof.
  intros E. assert (Hd : url_mark_distance start' p' (set_nread n q) =
    option_map (fun r => (fst r, set_nread n (snd r))) (url_mark_distance start p q)).
  { destruct start, start'; cbn in E |- *; try discriminate E; [|done]. by injection E as ->. }
  unfold parse_url_char. rewrite Hd. repeat case_match; done.
Qed.

(** The machine after [parse_url_char]. *)
Definition url_machine (s : state) (x : Z) (m : machine U) : machine U :=
  Machine (set_state s (set_qs_point x (parser m))) (user m) (p m) (nread_ m)
    (header_field_mark m) (header_value_mark m) (url_mark m) (url_start_mark m) (body_mark m).

Lemma wp_step_url ch m (Q : jump -> machine U -> Prop) :
  (forall s x, marked s = Some Url -> Q Break (url_machine s x m)) -> wp (step_url ch m) Q.
Proof.
  intros HQ. unfold step_url. cbn.
  destruct (parse_url_char _ _ _ _ _) as [[s q]|] eqn:E; [|done].
  destruct (parse_url_char_result _ _ _ _ _ _ _ E) as [Hs [x ->]]. cbn.
  case_bool_decide as Hd; [done|]. apply HQ. by destruct Hs.
Qed.

Lemma wp2_step_url ch m m' (Q : jump -> machine U -> jump -> machine U -> Prop) :
  set_nread 0 (parser m) = set_nread 0 (parser m') ->
  url_distance (url_start_mark m) (p m) = url_distance (url_start_mark m') (p m') ->
  (forall s x, marked s = Some Url -> Q Break (url_machine s x m) Break (url_machine s x m')) ->
  wp2 (step_url ch m) (step_url ch m') Q.
Proof.
  intros Hq Hstart HQ.
  assert (Hq' : parser m' = set_nread (nread (parser m')) (parser m)).
  { destruct (parser m), (parser m'). by injection Hq as -> -> -> -> -> -> -> -> -> -> -> -> -> ->. }
  unfold step_url. cbn. change (state_ (parser m')) with (state_ (set_nread 0 (parser m'))).
  rewrite <- Hq. cbn [set_nread state_].
  assert (E' := parse_url_char_two (state_ (parser m)) ch (parser m) _ _ (nread (parser m')) _ _ Hstart).
  rewrite <- Hq' in E'. rewrite E'. clear E'.
  destruct (parse_url_char _ _ (parser m) _ _) as [[s q]|] eqn:E; [|done].
  destruct (parse_url_char_result _ _ _ _ _ _ _ E) as [Hs [x ->]]. cbn.
  case_bool_decide as Hd; [done|]. destruct Hs as [|Hs]; [done|].
  specialize (HQ s x Hs). unfold url_machine in HQ. rewrite Hq' in HQ |- *. exact HQ.
Qed.

(** What a data callback leaves. *)
Definition after_callback (d : list ascii) (k : mark) (i : Z) (m : machine U) : machine U :=
  let clear k' x := match k, k' with
    | Header_field, Header_field | Header_value, Header_value | Url, Url | Body, Body => None
    | _, _ => x end in
  Machine (parser m) (feed h k (user m) (slice d i (p m))) (p m) (nread_ m)
    (clear Header_field (header_field_mark m)) (clear Header_value (header_value_mark m))
    (clear Url (url_mark m)) (url_start_mark m) (clear Body (body_mark m)).

Lemma callback_unmarked d k er m :
  http_errno_ (parser m) = CHPE_OK -> mark_of k m = None ->
  CROW_CALLBACK_DATA_ (plain h) d k 0 er m = Value tt m.
Proof.
  intros He Hk. unfold CROW_CALLBACK_DATA_, bind, errno, gets. rewrite He. rewrite bool_decide_true by done. cbn -[mark_of]. by rewrite Hk.
Qed.

Lemma callback_marked d k er m i :
  http_errno_ (parser m) = CHPE_OK -> mark_of k m = Some i -> k <> Url_start -> 0 <= i <= p m ->
  p m <= len d ->
  CROW_CALLBACK_DATA_ (plain h) d k 0 er m = Value tt (after_callback d k i m).
Proof.
  intros He Hk Hu Hi Hp. unfold CROW_CALLBACK_DATA_, bind, errno, gets. rewrite He. rewrite bool_decide_true by done. cbn -[mark_of]. rewrite Hk.
  assert (callback_of (plain h) k = Some (fun q u bytes => (0, q, feed h k u bytes))) as -> by by destruct k.
  cbn -[mark_of]. unfold bytes_at. rewrite !(proj2 (Z.leb_le _ _)) by lia. cbn.
  rewrite He, bool_decide_true by done. rewrite Z.add_0_r. by destruct m, k.
Qed.

(** The states whose case looks at the current byte only. *)
Definition simple (s : state) : Prop :=
  match s with
  | s_header_field | s_header_value | s_body_identity | s_chunk_data | s_body_identity_eof => False
  | _ => True
  end.

Definition sync (d : list ascii) (o : Z) (m m' : machine U) : Prop :=
  p m' = 0 /\ p m = o /\ nread_ m = nread_ m' /\ set_nread 0 (parser m) = set_nread 0 (parser m') /\
  pending m' = option_map (fun x => (fst x, 0)) (pending m) /\ mark_count m' = mark_count m /\
  url_start_mark m' = option_map (fun s => s - o) (url_start_mark m) /\
  user m' = flushed d m.


Lemma is_num_range c : negb (CROW_IS_NUM c) = false -> 0 <= uc c - 48 <= 9.
Proof.
  unfold CROW_IS_NUM, between. change (uc "0") with 48. change (uc "9") with 57.
  intros H. b2p. lia.
Qed.

Lemma lower_blank c : same " " (CROW_LOWER c) || same tab (CROW_LOWER c) = true -> c = NUL \/ same " " c = true.
Proof. destruct c as [[] [] [] [] [] [] [] []]; vm_compute; tauto. Qed.

Lemma first_method_ok c m : first_method c = Some m -> 1 <= slen (method_string m).
Proof. unfold first_method. repeat case_match; intros [= <-]; by vm_compute. Qed.

Lemma other_method_ok m i c m' :
  other_method m i c = Some m' -> i + 1 <= slen (method_string m').
Proof.
  unfold other_method. repeat case_match; intros [= <-]; by vm_compute.
Qed.

Lemma method_string_short m : slen (method_string m) < 31.
Proof. by destruct m. Qed.

Lemma char_at_next s i c : char_at s i = Some c -> c <> NUL -> 0 <= i /\ i + 1 <= slen s.
Proof. unfold char_at. intros. repeat case_match; b2p; simplify_eq/=; lia. Qed.

Lemma char_at_defined s i : 0 <= i <= slen s -> char_at s i <> None.
Proof.
  unfold char_at, slen. intros. destruct (_ && _) eqn:E; b2p.
  - intros Hn. assert (Hl : (Z.to_nat i < String.length s)%nat) by lia. clear - Hn Hl.
    revert Hn Hl. generalize (Z.to_nat i) as n. intros n; revert s.
    induction n as [|n IH]; intros [|a s]; cbn; try done; try lia. intros. apply (IH s); [done|lia].
  - rewrite (proj2 (Z.eqb_eq _ _)); [done|]. lia.
Qed.

Lemma index_next i n : 0 <= i -> i + 1 <= n -> n < 31 -> 1 <= wrap_u 5 (i + 1) <= n.
Proof. intros. unfold wrap_u. rewrite Z.mod_small; lia. Qed.

Lemma unhex_range c : -1 <= unhex c <= 15.
Proof. destruct c as [[] [] [] [] [] [] [] []]; vm_compute; by split. Qed.

Lemma next_digit b n x : 1 < b -> 0 <= x < b -> b <= 16 ->
  ((CROW_ULLONG_MAX - b) / b <? n) = false -> 0 <= n ->
  to_u64 (to_u64 (n * b) + x) = n * b + x /\ n * b + x < CROW_ULLONG_MAX.
Proof.
  intros Hb Hx Hb' H Hn. b2p. unfold CROW_ULLONG_MAX in *. unfold to_u64, wrap_u.
  assert (n * b <= 2 ^ 64 - 1 - b).
  { transitivity ((2 ^ 64 - 1 - b) / b * b); [nia|]. rewrite Z.mul_comm. apply Z.mul_div_le. lia. }
  rewrite (Z.mod_small (n * b)) by lia. rewrite Z.mod_small; lia.
Qed.

Lemma count_one n : 0 <= n -> n < 2 ^ 31 -> to_u32 (n + to_u32 1) = n + 1.
Proof. intros. unfold to_u32, wrap_u. rewrite (Z.mod_small 1) by lia. rewrite Z.mod_small; lia. Qed.

#[global] Arguments method_string : simpl never.
#[global] Arguments slen : simpl never.

Definition mark_cond (s : state) (k : mark) (o : Z) (x : option Z) : Prop :=
  match x with
  | None => marked s <> Some k
  | Some i => 0 <= i <= o /\ (marked s = Some k \/ k = Body /\ in_body s /\ i < o)
  end.

Lemma machine_ok_mk first q u o n hf hv um us bm :
  parser_ok max first q n -> 0 <= o ->
  mark_cond (state_ q) Header_field o hf -> mark_cond (state_ q) Header_value o hv ->
  mark_cond (state_ q) Url o um -> mark_cond (state_ q) Body o bm ->
  match state_ q with
  | s_start_req | s_req_method | s_req_spaces_before_url => us = None
  | _ => True end ->
  machine_ok first (Machine q u o n hf hv um us bm).
Proof. intros. split; [done| |done|done]. by intros []. Qed.

(** The machine that is in the same state on the rest of the input, everything
    before [p] having been given to the callbacks. *)
Definition twin (d : list ascii) (m : machine U) (n : Z) : machine U :=
  let at0 k := match marked (state_ (parser m)), k with
    | Some Header_field, Header_field | Some Header_value, Header_value | Some Url, Url => Some 0
    | _, _ => None end in
  Machine (set_nread n (parser m)) (flushed d m) 0 (nread_ m)
    (at0 Header_field) (at0 Header_value) (at0 Url) (option_map (fun s => s - p m) (url_start_mark m)) None.

End steps.

(** *** Symbolic execution *)

Ltac fields t := eval cbv [parser user p nread_ header_field_mark header_value_mark url_mark
  url_start_mark body_mark set_flags set_state set_header_state set_index set_uses_transfer_encoding
  set_nread set_content_length set_qs_point set_version set_method set_http_errno set_upgrade flags
  state_ header_state index uses_transfer_encoding HttpData.allow_chunked_length lenient_http_headers
  nread content_length qs_point http_major http_minor method http_errno_ upgrade add_flag mark_of
  on_message_begin on_url on_header_field on_header_value on_headers_complete on_body
  on_message_complete plain callback_of CROW_PARSING_HEADER
  has_flag conflicting_lengths] in t.

Ltac head t := match t with ?f _ => head f | _ => t end.

(** One step of a single run. *)
Ltac wp1 :=
  lazymatch goal with
  | |- wp (bind ?c ?k ?m) ?Q => refine (run_bind c k m Q _)
  | |- wp (ret ?a ?m) ?Q => change (Q a m); cbv beta
  | |- wp (gets ?f ?m) ?Q => let v := fields (f m) in change (Q v m); cbv beta
  | |- wp (modify ?f ?m) ?Q => let v := fields (f m) in change (Q tt v); cbv beta
  | |- wp (stop ?w ?m) ?Q => change (w = NullPointerDifference)
  | |- wp (goto_error ?m) ?Q => exact I
  | |- wp (return_ ?n ?m) ?Q => exact I
  | |- wp (fail_with ?n ?m) ?Q => exact I
  | |- wp (called ?r ?m) ?Q =>
      let v := fields (called r m) in let v := eval cbv beta iota delta [called] in v in
      let v := fields v in change (wp v Q)
  | |- wp (Value ?a ?m) ?Q => change (Q a m); cbv beta
  | |- wp ((let x := ?v in @?b x) ?m) ?Q => change (wp (b v m) Q); cbv beta
  | |- wp ((if true then ?x else _) ?m) ?Q => change (wp (x m) Q)
  | |- wp ((if false then _ else ?x) ?m) ?Q => change (wp (x m) Q)
  | |- wp ((if bool_decide (CHPE_OK = CHPE_OK) then ?x else _) ?m) ?Q => change (wp (x m) Q)
  | |- wp ((if 0 =? 0 then ?x else _) ?m) ?Q => change (wp (x m) Q)
  | |- wp ((if ?b then _ else _) _) _ => destruct b eqn:?; try discriminate
  | |- wp (step_url ?c ?m) _ =>
      refine (wp_step_url c m _ _); let s := fresh "s" in let x := fresh "x" in let H := fresh in
      intros s x H; let v := fields (url_machine s x m) in
      let v := eval cbv [url_machine] in v in let v := fields v in change (url_machine s x m) with v
  | |- wp ((match ?b with _ => _ end) _) _ =>
      let v := fields b in change b with v;
      tryif (let f := head v in is_constructor f)
      then match goal with |- wp ?t ?Q => let t' := eval cbv beta iota in t in change (wp t' Q) end
      else (destruct v eqn:?; try discriminate)
  | |- wp (execute_byte _ _ _ (S ?n) _ _ _ _) _ => rewrite execute_byte_S
  | |- wp (switch ?st ?mx ?dd ?l ?a ?s ?c ?m) ?Q =>
      let v := eval cbv beta iota delta [switch] in (switch st mx dd l a s c) in change (wp (v m) Q)
  | |- wp ?t ?Q => let f := head t in let v := eval cbv beta delta [f] in t in change (wp v Q)
  end.

(** One step of two runs in a row. *)
Ltac wp11 :=
  lazymatch goal with
  | |- wp2 (bind ?c ?k ?m) (bind ?c' ?k' ?m') ?Q => refine (wp2_bind c c' k k' m m' Q _)
  | |- wp2 (ret ?a ?m) (ret ?a' ?m') ?Q => change (Q a m a' m'); cbv beta
  | |- wp2 (gets ?f ?m) (gets ?f' ?m') ?Q =>
      let v := fields (f m) in let v' := fields (f' m') in change (Q v m v' m'); cbv beta
  | |- wp2 (modify ?f ?m) (modify ?f' ?m') ?Q =>
      let v := fields (f m) in let v' := fields (f' m') in change (Q tt v tt v'); cbv beta
  | |- wp2 (stop ?w ?m) (stop ?w' ?m') ?Q => first [exact eq_refl | exact I]
  | |- wp2 (goto_error ?m) (goto_error ?m') ?Q => exact I
  | |- wp2 (return_ ?n ?m) (return_ ?n' ?m') ?Q => exact I
  | |- wp2 (fail_with ?n ?m) (fail_with ?n' ?m') ?Q => exact I
  | |- wp2 (called ?r ?m) (called ?r' ?m') ?Q =>
      let v := fields (called r m) in let v := eval cbv beta iota delta [called] in v in
      let v' := fields (called r' m') in let v' := eval cbv beta iota delta [called] in v' in
      let v := fields v in let v' := fields v' in
      change (wp2 v v' Q)
  | |- wp2 (Value ?a ?m) (Value ?a' ?m') ?Q => change (Q a m a' m'); cbv beta
  | |- wp2 (CROW_CALLBACK_DATA_ _ _ _ _ _ _) _ _ =>
      first [ rewrite callback_unmarked by reflexivity
            | erewrite callback_marked by (first [reflexivity | discriminate | cbn [p]; lia]) ];
      let t := lazymatch goal with |- wp2 ?t _ _ => t end in
      let v := eval cbv [after_callback] in t in let v := fields v in change t with v
  | |- wp2 _ (CROW_CALLBACK_DATA_ _ _ _ _ _ _) _ =>
      first [ rewrite callback_unmarked by reflexivity
            | erewrite callback_marked by (first [reflexivity | discriminate | cbn; lia]) ];
      let t := lazymatch goal with |- wp2 _ ?t _ => t end in
      let v := eval cbv [after_callback] in t in let v := fields v in change t with v
  | |- wp2 ((let x := ?v in @?b x) ?m) ((let y := ?v' in @?b' y) ?m') ?Q =>
      change (wp2 (b v m) (b' v' m') Q); cbv beta
  | |- wp2 ((if true then ?x else _) ?m) ?r ?Q => change (wp2 (x m) r Q)
  | |- wp2 ((if false then _ else ?x) ?m) ?r ?Q => change (wp2 (x m) r Q)
  | |- wp2 ?r ((if true then ?x else _) ?m) ?Q => change (wp2 r (x m) Q)
  | |- wp2 ?r ((if false then _ else ?x) ?m) ?Q => change (wp2 r (x m) Q)
  | |- wp2 ((if bool_decide (CHPE_OK = CHPE_OK) then ?x else _) ?m) ?r ?Q => change (wp2 (x m) r Q)
  | |- wp2 ?r ((if bool_decide (CHPE_OK = CHPE_OK) then ?x else _) ?m) ?Q => change (wp2 r (x m) Q)
  | |- wp2 ((if 0 =? 0 then ?x else _) ?m) ?r ?Q => change (wp2 (x m) r Q)
  | |- wp2 ?r ((if 0 =? 0 then ?x else _) ?m) ?Q => change (wp2 r (x m) Q)
  | |- wp2 ((if ?b then _ else _) _) _ _ => destruct b eqn:?; try discriminate
  | |- wp2 _ ((if ?b then _ else _) _) _ => destruct b eqn:?; try discriminate
  | |- wp2 (step_url ?c ?m) (step_url ?c' ?m') _ =>
      refine (wp2_step_url c m m' _ eq_refl _ _);
      [unfold url_distance; cbn; first [reflexivity | f_equal; lia | lazymatch goal with |- context [option_map _ ?o] => destruct o; cbn; f_equal; lia end] |];
      let s := fresh "s" in let x := fresh "x" in let H := fresh in intros s x H;
      let v := eval cbv [url_machine] in (url_machine s x m) in
      let v := fields v in change (url_machine s x m) with v;
      let v := eval cbv [url_machine] in (url_machine s x m') in
      let v := fields v in change (url_machine s x m') with v
  | |- wp2 ((match ?b with _ => _ end) _) ((match ?b' with _ => _ end) _) _ =>
      let v := fields b in change b with v; let v' := fields b' in change b' with v';
      tryif (let f := head v in is_constructor f)
      then match goal with |- wp2 ?t ?t' ?Q =>
             let u := eval cbv beta iota in t in let u' := eval cbv beta iota in t' in
             change (wp2 u u' Q) end
      else (destruct v eqn:?; try discriminate)
  | |- wp2 (execute_byte _ _ _ (S ?n) _ _ _ _) _ _ => rewrite !execute_byte_S
  | |- wp2 (switch ?st ?mx ?dd ?l ?a ?s ?c ?m) (switch ?st' ?mx' ?dd' ?l' ?a' ?s' ?c' ?m') ?Q =>
      let v := eval cbv beta iota delta [switch] in (switch st mx dd l a s c) in
      let v' := eval cbv beta iota delta [switch] in (switch st' mx' dd' l' a' s' c') in
      change (wp2 (v m) (v' m') Q)
  | |- wp2 ?t ?t' ?Q =>
      let f := head t in let v := eval cbv beta delta [f] in t in
      let v' := eval cbv beta delta [f] in t' in change (wp2 v v' Q)
  end.

