(* ===== verification/HttpBytes.v ===== *)
(** * One byte of the HTTP parser

    What each case of the switch keeps ([switch_ok]) and that two machines that
    differ in the number of bytes before them stay in step ([switch_sync]),
    carried over to [execute_byte] and [loop_body]. *)

From S2P Require Import Prelude CInt CArray HttpData HttpParser HttpSteps.
#[local] Open Scope http_scope.

Section bytes.
Context {U : Type} (h : handlers U) `{!Mergeable h} (max : Z).

(** How many more states a byte may be looked at in. *)
Definition rank (s : state) : nat :=
  match s with
  | s_header_value_lws | s_header_value_discard_lws => 4
  | s_header_field_start => 3
  | s_headers_almost_done => 2
  | _ => 1
  end.

Definition switched_ok (c : ascii) (m : machine U) (j : jump) (m' : machine U) : Prop :=
  p m' = p m /\
  match j with
  | Break => machine_ok max 0 m'
  | Reexecute c' => c' = c /\ machine_ok max 1 m' /\ simple (state_ (parser m')) /\
      (rank (state_ (parser m')) < rank (state_ (parser m)))%nat
  end.

Lemma switch_ok d m c al : machine_ok max 1 m -> p m < len d -> simple (state_ (parser m)) -> c <> NUL ->
  wp (switch (plain h) max d false al (state_ (parser m)) c m) (switched_ok c m).
Proof.
intros [[He Hl Ha Hn Hc Hs] Hm Hu Hp] Hlt Hsi Hnul.
destruct m as [q u o n hf hv um us bm]. cbn in *.
pose proof (Hm Header_field ltac:(done)) as M1. pose proof (Hm Header_value ltac:(done)) as M2.
pose proof (Hm Url ltac:(done)) as M3. pose proof (Hm Body ltac:(done)) as M4. clear Hm.
destruct q as [fl s hs ix ute acl len_ nr cl qs ma mi me er up]. cbn in *. subst er len_ acl.
unfold mark_ok in *. cbn in *.
destruct s; cbn in Hsi, Hs; try done.
all: destruct hf as [xf|]; try (exfalso; first [by apply M1 | destruct M1 as (?&[?|[? _]]); discriminate]).
all: destruct hv as [xv|]; try (exfalso; first [by apply M2 | destruct M2 as (?&[?|[? _]]); discriminate]).
all: destruct um as [xu|]; try (exfalso; first [by apply M3 | destruct M3 as (?&[?|[? _]]); discriminate]).
all: destruct bm as [xb|]; try (exfalso; first [by apply M4 | first [destruct M4 as (_&[?|(_&[]&_)]); discriminate | by destruct M4 as (_&[?|(_&[]&_)])]]).
all: repeat wp1.
all: try done.
all: repeat match goal with H : ?x = ?x |- _ => clear H end.
all: unfold switched_ok; cbn [p].
all: try match goal with |- context [if same cr ?x then _ else _] => destruct (same cr x) end.
all: try (split; [done|]; try (split; [done|]; split; [|by split; [|cbn; lia]]);
  apply machine_ok_mk; cbn [parser state_ marked mark_cond];
  [split; [done|done|done|cbn; lia|cbn [content_length]; unfold CROW_ULLONG_MAX|
     unfold state_ok; cbn [state_ content_length header_state index method]]|..]; try done; try lia;
  try match goal with H : marked ?s = Some Url |- _ => destruct s; try discriminate H; try done; try lia end;
  try (split; [lia|]; first [by left|right; split; [done|]; split; [done|lia]])).
all: try (exfalso; cbn [p] in *; rewrite ?andb_false_iff, ?Z.leb_gt in *; lia).
all: try (by repeat case_match).
all: try (destruct (is_num_range c); [done|lia]).
all: try match type of Hs with _ /\ _ => destruct Hs as [Hf Hs] end.
all: try (pose proof (unhex_range c); b2p; unfold CROW_ULLONG_MAX in *; lia).
all: try (exfalso; unfold has_flag in *; cbn [flags] in *; congruence).
all: try (split; [assumption|pose proof (unhex_range c); b2p; unfold CROW_ULLONG_MAX; try split; try done; lia]).
all: try (b2p; done).
- split; [done|by eapply first_method_ok].
- match goal with H : char_at _ _ = Some ?a, H' : same ?a c = true |- _ =>
    apply Ascii.eqb_eq in H'; subst; destruct (char_at_next _ _ _ H Hnul) end.
  apply index_next; [lia|lia|apply method_string_short].
- match goal with H : other_method _ _ _ = Some _ |- _ => apply other_method_ok in H end.
  apply index_next; [lia|lia|apply method_string_short].
- exfalso. eapply char_at_defined; [|eassumption]. lia.
- match goal with H : same " " (CROW_LOWER c) || _ = true |- _ => destruct (lower_blank c H) as [->|E] end; [done|].
  b2p; congruence.
- destruct (next_digit 16 cl (unhex c)) as [-> ?]; [lia|pose proof (unhex_range c); b2p; lia|lia|done|lia|].
  pose proof (unhex_range c). b2p. unfold CROW_ULLONG_MAX in *. lia.
- destruct (next_digit 16 cl (unhex c)) as [-> ?]; [lia|pose proof (unhex_range c); b2p; lia|lia|done|lia|].
  split; [done|]. unfold CROW_ULLONG_MAX in *. lia.
Qed.

Lemma execute_byte_ok d c al m fuel : machine_ok max 1 m -> p m < len d -> simple (state_ (parser m)) ->
  c <> NUL -> (rank (state_ (parser m)) <= fuel)%nat ->
  wp (execute_byte (plain h) max d fuel false al c m) (fun _ m' => p m' = p m /\ machine_ok max 0 m').
Proof.
  revert m. induction fuel as [|fuel IH]; intros m Hm Hp Hs Hc Hr.
  { exfalso. by destruct (state_ (parser m)); cbn in Hr; lia. }
  rewrite execute_byte_S. apply run_bind. cbn [gets wp]. apply run_bind.
  assert (H := switch_ok d m c al Hm Hp Hs Hc). revert H.
  destruct (switch _ _ _ _ _ _ _ _) as [j m'| | |]; cbn [wp]; try done.
  destruct j as [|c']; [done|]. intros (Hp' & -> & Hm' & Hs' & Hr').
  rewrite <- Hp'. apply IH; [done|lia|done|done|lia].
Qed.

Definition switched_sync (d : list ascii) (o : Z) (j : jump) (m : machine U) (j' : jump) (m' : machine U) : Prop :=
  j' = j /\
  match j with
  | Break => sync h d o m m'
  | Reexecute _ => exists n, m' = twin h d m n
  end.

Lemma switch_sync d m c al n' : machine_ok max 1 m -> p m < len d -> simple (state_ (parser m)) ->
  wp2 (switch (plain h) max d false al (state_ (parser m)) c m)
    (switch (plain h) max [c] false al (state_ (parser m)) c (twin h d m n'))
    (switched_sync d (p m)).
Proof.
intros [[He Hl Ha Hn Hc Hs] Hm Hu Hp] Hlt Hsi.
destruct m as [q u o n hf hv um us bm]. cbn in *.
pose proof (Hm Header_field ltac:(done)) as M1. pose proof (Hm Header_value ltac:(done)) as M2.
pose proof (Hm Url ltac:(done)) as M3. pose proof (Hm Body ltac:(done)) as M4. clear Hm.
destruct q as [fl s hs ix ute acl len_ nr cl qs ma mi me er up]. cbn in *. subst er len_ acl.
unfold mark_ok, twin, flushed, pending in *. cbn in *.
destruct s; cbn in Hsi, Hs; try done.
all: destruct hf as [xf|]; try (exfalso; first [by apply M1 | destruct M1 as (?&[?|[? _]]); discriminate]).
all: destruct hv as [xv|]; try (exfalso; first [by apply M2 | destruct M2 as (?&[?|[? _]]); discriminate]).
all: destruct um as [xu|]; try (exfalso; first [by apply M3 | destruct M3 as (?&[?|[? _]]); discriminate]).
all: destruct bm as [xb|]; try (exfalso; first [by apply M4 | first [destruct M4 as (_&[?|(_&[]&_)]); discriminate | by destruct M4 as (_&[?|(_&[]&_)])]]).
all: cbv [marked].
all: match goal with |- wp2 _ (_ (Machine _ ?u _ _ _ _ _ _ _)) _ => remember u as u' eqn:Eu end.
all: repeat wp11.
all: try done.
all: unfold switched_sync, sync; cbn [p nread_ parser user].
all: tryif (split; [done|]) then idtac else (match goal with |- ?g => idtac "BAD" g end).
all: try (split_and!; [done|done|done|reflexivity|reflexivity|reflexivity|first [reflexivity | cbn; f_equal; lia]|]).
all: unfold twin, flushed, pending; cbn [header_field_mark header_value_mark url_mark body_mark state_ marked fst option_map user p parser nread_];
  rewrite ?Z.ltb_irrefl.
all: try match goal with H : marked ?s = Some Url |- _ => rewrite H end.
all: try done.
all: subst u'; rewrite ?slice_empty.
all: try (by first [apply begun_nread | apply completed_nread]).
all: try (apply feed_pending; [exact _|lia]).
all: try (by exists n').
all: try (exists n'; unfold set_nread; cbn [flags state_ header_state index uses_transfer_encoding
 HttpData.allow_chunked_length lenient_http_headers nread content_length qs_point http_major http_minor method http_errno_ upgrade]; f_equal; by apply headers_read_nread).
all: try (by exists 0).
destruct M4 as (_ & [?|(_ & _ & ?)]); [done|]. rewrite (proj2 (Z.ltb_lt xb o)); [done|lia].
Qed.

Lemma execute_byte_sync d c al m n' fuel : machine_ok max 1 m -> p m < len d ->
  simple (state_ (parser m)) -> c <> NUL ->
  wp2 (execute_byte (plain h) max d fuel false al c m)
    (execute_byte (plain h) max [c] fuel false al c (twin h d m n'))
    (fun _ m1 _ m1' => sync h d (p m) m1 m1').
Proof.
  revert m n'. induction fuel as [|fuel IH]; intros m n' Hm Hp Hs Hc; [done|].
  rewrite !execute_byte_S. apply wp2_bind. cbn [gets wp2]. apply wp2_bind.
  change (state_ (parser (twin h d m n'))) with (state_ (parser m)).
  assert (H := switch_sync d m c al n' Hm Hp Hs). assert (H1 := switch_ok d m c al Hm Hp Hs Hc).
  revert H H1. destruct (switch _ _ d _ _ _ _ _) as [j m1| | |], (switch _ _ [c] _ _ _ _ _) as [j' m1'| | |];
    cbn [wp2 wp]; try done.
  intros [-> H] [Hp1 H1]. destruct j as [|c']; [done|].
  destruct H as [n1 ->], H1 as (-> & Hm1 & Hs1 & _). rewrite <- Hp1. apply IH; [done|lia|done|done].
Qed.

(** *** With the count of the header bytes *)

Definition counted (m : machine U) : machine U :=
  if CROW_PARSING_HEADER (state_ (parser m)) then
    Machine (parser m) (user m) (p m) (nread_ m + 1) (header_field_mark m) (header_value_mark m)
      (url_mark m) (url_start_mark m) (body_mark m)
  else m.

Lemma counted_ok m : machine_ok max 0 m -> nread_ (counted m) <= max -> machine_ok max 1 (counted m).
Proof.
  intros [[He Hl Ha Hn Hc Hs] Hm Hu Hp] Hle. unfold counted in *.
  destruct (CROW_PARSING_HEADER _) eqn:E; cbn [nread_] in *.
  - split; [|exact Hm|exact Hu|exact Hp]. split; cbn [parser nread_]; [done|done|done|lia|done|].
    unfold state_ok in *. destruct (state_ (parser m)); try done. destruct Hs. split; [done|lia].
  - split; [|exact Hm|exact Hu|exact Hp]. split; [done..|].
    unfold state_ok in *. by destruct (state_ (parser m)).
Qed.

Lemma loop_body_counted st d le al c m : max < 2 ^ 31 -> 0 <= nread_ m <= max ->
  nread_ (counted m) <= max /\
    loop_body st max d le al c m = execute_byte st max d reexecutions le al c (counted m) \/
  max < nread_ (counted m) /\ exists m', loop_body st max d le al c m = GotoError m'.
Proof.
  intros Hmax Hr. unfold loop_body, counted, bind, gets. destruct (CROW_PARSING_HEADER _) eqn:E; [|left; split; [lia|done]].
  unfold COUNT_HEADER_SIZE, CROW_COUNT_HEADER_SIZE, bind, gets, set_local_nread, modify. cbn [nread_].
  rewrite !count_one by lia. destruct (max <? nread_ m + 1) eqn:E'; b2p.
  - right. split; [done|]. by eexists.
  - left. by split.
Qed.

Lemma counted_state m : parser (counted m) = parser m.
Proof. unfold counted. by case_match. Qed.

Lemma counted_p m : p (counted m) = p m.
Proof. unfold counted. by case_match. Qed.

Lemma counted_twin d m : counted (twin h d m (nread_ m)) = twin h d (counted m) (nread_ m).
Proof. unfold counted, twin, flushed, pending. cbn. by destruct (CROW_PARSING_HEADER _). Qed.

(** One byte of the loop, for the states that look at one byte only. *)
Lemma loop_body_ok d m c al : machine_ok max 0 m -> p m < len d -> simple (state_ (parser m)) -> c <> NUL ->
  max < 2 ^ 31 ->
  wp (loop_body (plain h) max d false al c m) (fun _ m' => p m' = p m /\ machine_ok max 0 m').
Proof.
  intros Hm Hp Hs Hc Hmax.
  destruct (loop_body_counted (plain h) d false al c m Hmax (ok_nread _ _ _ _ (ok_parser _ _ _ Hm)))
    as [[Hle ->]|[_ [m' ->]]]; [|done].
  rewrite <- counted_p. apply execute_byte_ok; rewrite ?counted_p, ?counted_state; try done.
  - by apply counted_ok.
  - unfold reexecutions. destruct (state_ _); cbn; lia.
Qed.

Lemma loop_body_sync d m c al : machine_ok max 0 m -> p m < len d -> simple (state_ (parser m)) -> c <> NUL ->
  max < 2 ^ 31 ->
  wp2 (loop_body (plain h) max d false al c m)
    (loop_body (plain h) max [c] false al c (twin h d m (nread_ m)))
    (fun _ m1 _ m1' => sync h d (p m) m1 m1').
Proof.
  intros Hm Hp Hs Hc Hmax.
  assert (Hn := ok_nread _ _ _ _ (ok_parser _ _ _ Hm)).
  assert (Hc' : nread_ (counted (twin h d m (nread_ m))) = nread_ (counted m)) by (rewrite counted_twin; done).
  destruct (loop_body_counted (plain h) d false al c m Hmax Hn) as [[Hle ->]|[Hlt [m' ->]]],
    (loop_body_counted (plain h) [c] false al c (twin h d m (nread_ m)) Hmax Hn) as [[Hle' ->]|[Hlt' [m'' ->]]];
    rewrite ?Hc' in *; try lia; [|done].
  rewrite counted_twin, <- (counted_p m). apply execute_byte_sync; rewrite ?counted_p, ?counted_state; try done.
  by apply counted_ok.
Qed.

End bytes.
