(* ===== verification/HttpFeed.v ===== *)
(** * Turns of the loop over a buffer of the HTTP parser

    What a call of [http_parser_execute] comes to from a point of its loop on
    ([rest]), what it gives to the callbacks at the end of a buffer
    ([flush_spec]), a buffer of one byte ([run_byte]), and closed forms of the
    inner loops, which take more than one byte in a turn. *)

From S2P Require Import Prelude CInt CArray HttpData HttpParser HttpSteps HttpBytes.
#[local] Open Scope http_scope.

Section pieces.
Context {U : Type} (h : handlers U) `{!Mergeable h} (max : Z).

(** Where the URL starts, from [p] on: before it. *)
Definition url_from (m : machine U) : option Z := option_map (fun s => s - p m) (url_start_mark m).

(** What comes of a call: the buffer was taken in whole and the parser can go
    on, or not (an error, or the change to another protocol). *)
Inductive verdict := Accepted (q : http_parser) (u : U) (from : option Z) | Rejected | Undefined (why : stuck).

Definition classify {A} (r : outcome U A) : verdict :=
  match r with
  | Value _ m => Accepted (parser m) (user m) (url_from m)
  | GotoError _ | Return _ _ => Rejected
  | Stuck why => Undefined why
  end.

(** The start of a call that knows where the URL started.  The function does not:
    its [url_start_mark] starts as a null pointer. *)
Definition start_from (from : option Z) (q : http_parser) (u : U) : machine U :=
  Machine q u 0 (nread q) None None None from None.

Definition resume (d : list ascii) (q : http_parser) (u : U) (from : option Z) : verdict :=
  classify (execute_buffer (plain h) max d (start_from from q u)).

Definition run_buffer (d : list ascii) (q : http_parser) (u : U) : verdict := resume d q u None.

(** Every byte in a buffer of its own, the start of the URL being remembered. *)
Fixpoint bytewise (d : list ascii) (q : http_parser) (u : U) (from : option Z) : verdict :=
  match d with
  | [] => Accepted q u from
  | c :: d =>
      match resume [c] q u from with
      | Accepted q u from => bytewise d q u from
      | v => v
      end
  end.

(** The rest of a call from a machine on. *)
Definition rest (d : list ascii) (fuel : nat) : M U Z :=
  loop (plain h) max d fuel false false ;; flush_marks (plain h) d ;;
  n <- gets nread_ ;; on_parser (set_nread n) ;; ret (len d).

Lemma bind_ret {A B} (a : A) (k : A -> M U B) m : bind (ret a) k m = k a m.
Proof. done. Qed.

Lemma bind_gets {A B} (f : machine U -> A) (k : A -> M U B) m : bind (gets f) k m = k (f m) m.
Proof. done. Qed.

Lemma bind_assoc {A B C} (c : M U A) (k : A -> M U B) (k' : B -> M U C) m :
  bind (bind c k) k' m = bind c (fun a => bind (k a) k') m.
Proof. unfold bind. by destruct (c m). Qed.

Lemma bind_ext {A B} (c : M U A) (k k' : A -> M U B) m :
  (forall a m', k a m' = k' a m') -> bind c k m = bind c k' m.
Proof. intros H. unfold bind. by destruct (c m). Qed.

(** One turn of the loop, at offset [i]. *)
Lemma loop_turn {A} d fuel (m : machine U) c (k : unit -> M U A) :
  0 <= p m < len d -> d !! Z.to_nat (p m) = Some c ->
  bind (loop (plain h) max d (S fuel) false false) k m =
  (loop_body (plain h) max d false false c ;; set_p Z.succ ;;
   bind (loop (plain h) max d fuel false false) k) m.
Proof.
  intros Hp Hc. cbn [loop]. rewrite bind_assoc. unfold at_end. rewrite bind_gets.
  rewrite (proj2 (Z.eqb_neq _ _)) by lia. rewrite bind_assoc, bind_gets, bind_assoc.
  unfold read. rewrite (proj2 (Z.leb_le _ _)), (proj2 (Z.ltb_lt _ _)) by lia. cbn [andb].
  rewrite Hc, bind_ret, bind_assoc. apply bind_ext. intros [] m'. by rewrite bind_assoc.
Qed.

Lemma bind_value {A B} (c : M U A) (k : A -> M U B) m a m' :
  c m = Value a m' -> bind c k m = k a m'.
Proof. unfold bind. by intros ->. Qed.

(** ** Pending bytes at the end of a buffer *)

Definition given (d : list ascii) (m : machine U) : U :=
  match pending m with
  | Some (k, i) => feed h k (user m) (slice d i (p m))
  | None => user m
  end.

Lemma pending_in (m : machine U) first k i : machine_ok max first m -> pending m = Some (k, i) -> 0 <= i <= p m.
Proof.
  intros [_ Hm _ _] H. pose proof (Hm Header_field ltac:(done)) as M1.
  pose proof (Hm Header_value ltac:(done)) as M2. pose proof (Hm Url ltac:(done)) as M3.
  pose proof (Hm Body ltac:(done)) as M4. unfold pending, mark_ok in *. cbn in *.
  destruct (header_field_mark m), (header_value_mark m), (url_mark m), (body_mark m); simplify_eq/=; tauto.
Qed.

Lemma machine_lone (m : machine U) first : machine_ok max first m -> mark_count m <= 1.
Proof.
  intros [_ Hm _ _]. pose proof (Hm Header_field ltac:(done)) as M1.
  pose proof (Hm Header_value ltac:(done)) as M2. pose proof (Hm Url ltac:(done)) as M3.
  pose proof (Hm Body ltac:(done)) as M4. unfold mark_count, mark_ok in *. cbn in *.
  destruct (header_field_mark m), (header_value_mark m), (url_mark m), (body_mark m); cbn; try lia.
  all: destruct (state_ (parser m)); cbn in *; naive_solver.
Qed.

Ltac flush1 := erewrite bind_value;
  [|rewrite bind_gets; cbn [p]; first [apply callback_unmarked; [assumption|reflexivity]
     | eapply callback_marked; [assumption|reflexivity|discriminate|cbn [p]; lia|cbn [p]; lia]]];
  cbn [after_callback p parser nread_ user header_field_mark header_value_mark url_mark url_start_mark body_mark].

Lemma flush_spec d (m : machine U) : http_errno_ (parser m) = CHPE_OK -> mark_count m <= 1 -> p m <= len d ->
  (forall k i, pending m = Some (k, i) -> 0 <= i <= p m) ->
  exists m', flush_marks (plain h) d m = Value tt m' /\ parser m' = parser m /\ nread_ m' = nread_ m /\
    user m' = given d m /\ url_from m' = url_from m.
Proof.
  intros He Hl Hp Hi. unfold flush_marks, CROW_CALLBACK_DATA_NOADVANCE, given.
  unfold pending, mark_count in *. destruct m as [q u o n hf hv um us bm]. cbn [parser p] in *.
  rewrite bind_gets. cbn [header_field_mark header_value_mark url_mark body_mark] in *.
  rewrite (proj2 (Z.leb_le _ _) Hl). change (assert_ true) with (@ret U unit tt). rewrite bind_ret.
  destruct hf as [xf|]; [|destruct hv as [xv|]; [|destruct um as [xu|]; [|destruct bm as [xb|]]]].
  all: try match type of Hi with forall k i, Some (?K, ?I) = _ -> _ => specialize (Hi K I eq_refl) end.
  all: try (destruct hv; [exfalso; cbn in Hl; by destruct um, bm|]).
  all: try (destruct um; [exfalso; cbn in Hl; by destruct bm|]).
  all: try (destruct bm; [exfalso; by cbn in Hl|]).
  all: do 3 flush1; rewrite bind_gets; cbn [p];
    first [rewrite callback_unmarked by (first [assumption|reflexivity])
          | erewrite callback_marked by (first [assumption|reflexivity|discriminate|cbn [p]; lia])].
  all: by eexists.
Qed.

(** ** A buffer of one byte *)

Definition advance (m : machine U) : machine U :=
  Machine (parser m) (user m) (Z.succ (p m)) (nread_ m) (header_field_mark m) (header_value_mark m)
    (url_mark m) (url_start_mark m) (body_mark m).

Lemma start_twin d m :
  start_marks (start_from (url_from m) (set_nread (nread_ m) (parser m)) (flushed h d m)) =
    Value tt (twin h d m (nread_ m)).
Proof.
  unfold start_marks, start_from, twin, bind, gets. cbn [parser set_nread state_ nread].
  by destruct (state_ (parser m)).
Qed.

Lemma run_byte d (m : machine U) c : parser_ok max 0 (parser m) (nread_ m) ->
  resume [c] (set_nread (nread_ m) (parser m)) (flushed h d m) (url_from m) =
  classify ((loop_body (plain h) max [c] false false c ;;
    set_p Z.succ ;; rest [c] 1) (twin h d m (nread_ m))).
Proof.
  intros [He Hl Ha _ _ _]. unfold resume, execute_buffer, errno. f_equal.
  rewrite bind_gets. cbn [parser start_from set_nread http_errno_]. rewrite He, bool_decide_true by done.
  change (len [c] =? 0) with false. cbn [negb]. unfold parser_is. rewrite !bind_gets.
  cbn [parser start_from set_nread lenient_http_headers HttpData.allow_chunked_length]. rewrite Hl, Ha.
  erewrite bind_value by apply start_twin. by rewrite (loop_turn _ _ _ c) by (cbn; (lia || done)).
Qed.

Lemma rest_end d (m : machine U) fuel : (0 < fuel)%nat -> p m = len d -> http_errno_ (parser m) = CHPE_OK ->
  mark_count m <= 1 -> (forall k i, pending m = Some (k, i) -> 0 <= i <= p m) ->
  classify (rest d fuel m) = Accepted (set_nread (nread_ m) (parser m)) (given d m) (url_from m).
Proof.
  intros Hf Hp He Hl Hi. unfold rest.
  erewrite bind_value; [|destruct fuel; [lia|]; cbn [loop]; unfold at_end; rewrite bind_gets, Hp, Z.eqb_refl; done].
  destruct (flush_spec d m He Hl ltac:(lia) Hi) as (m' & Hm & Hq & Hn & Hu & Hf').
  erewrite bind_value by exact Hm. rewrite bind_gets. rewrite <- Hu, <- Hf', <- Hq, <- Hn. done.
Qed.

Lemma run_byte_value d (m : machine U) c m1 : parser_ok max 0 (parser m) (nread_ m) ->
  loop_body (plain h) max [c] false false c (twin h d m (nread_ m)) = Value tt m1 ->
  p m1 = 0 -> http_errno_ (parser m1) = CHPE_OK -> mark_count m1 <= 1 ->
  (forall k i, pending m1 = Some (k, i) -> i = 0) ->
  resume [c] (set_nread (nread_ m) (parser m)) (flushed h d m) (url_from m) =
    Accepted (set_nread (nread_ m1) (parser m1)) (given [c] (advance m1)) (url_from (advance m1)).
Proof.
  intros Hok H Hp He Hl Hi. rewrite run_byte by done. erewrite bind_value by exact H.
  unfold set_p. rewrite (bind_value _ _ _ tt (advance m1)) by done.
  rewrite rest_end; [done|lia|unfold len; cbn; lia|done|done|].
  intros k i Hk. cbn. rewrite Hp. specialize (Hi k i Hk). lia.
Qed.

Lemma run_byte_stop d (m : machine U) c : parser_ok max 0 (parser m) (nread_ m) ->
  (forall m1, loop_body (plain h) max [c] false false c (twin h d m (nread_ m)) <> Value tt m1) ->
  resume [c] (set_nread (nread_ m) (parser m)) (flushed h d m) (url_from m) =
    classify (loop_body (plain h) max [c] false false c (twin h d m (nread_ m))).
Proof.
  intros Hok H. rewrite run_byte by done. unfold bind.
  destruct (loop_body _ _ _ _ _ _ _) as [[] m1| | |]; try done. by destruct (H m1).
Qed.

(** ** Moving in a buffer *)

Definition at_ (m : machine U) (q : http_parser) (o n : Z) : machine U :=
  Machine q (user m) o n (header_field_mark m) (header_value_mark m) (url_mark m) (url_start_mark m)
    (body_mark m).

Lemma read_at d o c m : 0 <= o -> d !! Z.to_nat o = Some c -> read d o m = Value (U := U) c m.
Proof.
  intros Ho Hc. pose proof (lookup_lt_Some _ _ _ Hc). unfold read, len.
  rewrite (proj2 (Z.leb_le _ _)), (proj2 (Z.ltb_lt _ _)) by lia. cbn. by rewrite Hc.
Qed.

Lemma slice_step d o e c : 0 <= o < e -> d !! Z.to_nat o = Some c -> slice d o e = c :: slice d (o + 1) e.
Proof.
  intros Ho Hc. unfold slice. rewrite (drop_S _ _ _ Hc).
  replace (Z.to_nat (e - o)) with (S (Z.to_nat (e - (o + 1)))) by lia. cbn. do 2 f_equal. f_equal. lia.
Qed.

Lemma slice_app d i o e : 0 <= i <= o -> o <= e -> slice d i o ++ slice d o e = slice d i e.
Proof.
  intros Hi Ho. unfold slice. replace (Z.to_nat o) with (Z.to_nat i + Z.to_nat (o - i))%nat by lia.
  rewrite <- drop_drop. replace (Z.to_nat (e - i)) with (Z.to_nat (o - i) + Z.to_nat (e - o))%nat by lia.
  by rewrite take_take_drop.
Qed.

(** ** The name of a header *)

Definition with_header (hs : header_states) (ix : Z) (b : bool) (q : http_parser) : http_parser :=
  Parser (flags q) (state_ q) hs ix b (HttpData.allow_chunked_length q) (lenient_http_headers q)
    (nread q) (content_length q) (qs_point q) (http_major q) (http_minor q) (method q) (http_errno_ q) (upgrade q).

(** [match_word] at an index: what it finds. *)
Definition match_next (word : string) (c : ascii) (i : Z) : progress :=
  if slen word <? i then Mismatch
  else if negb (bool_decide (char_at word i = Some c)) then Mismatch
  else if i =? slen word - 1 then Matched else Matching.

Lemma match_word_run word c (m : machine U) :
  match_word word c m =
    Value (match_next word c (wrap_u 5 (index (parser m) + 1)))
      (at_ m (set_index (index (parser m) + 1) (parser m)) (p m) (nread_ m)).
Proof.
  unfold match_word, match_next, bind, on_parser, modify, gets, ret. cbn [parser index set_index].
  set (i := wrap_u 5 (index (parser m) + 1)).
  replace (slen word + 1 - 1) with (slen word) by lia. replace (slen word + 1 - 2) with (slen word - 1) by lia.
  destruct (slen word <? i) eqn:E; [done|].
  unfold read_literal. destruct (char_at word i) as [w|] eqn:Ew.
  - unfold ret. destruct (Ascii.eqb_spec c w) as [->|Hn].
    + by rewrite bool_decide_true.
    + rewrite bool_decide_false by congruence. done.
  - exfalso. eapply char_at_defined; [|exact Ew]. b2p. split; [|lia].
    unfold i, wrap_u. apply Z.mod_pos_bound. lia.
Qed.

(** The parser after one more character of a name. *)
Definition field_step (q : http_parser) (ch : ascii) : http_parser :=
  let c := CROW_TOKEN ch in
  let hs := header_state q in
  let b := uses_transfer_encoding q in
  let i := wrap_u 5 (index q + 1) in
  let word w reached :=
    with_header (match match_next w c i with Mismatch => h_general | Matching => hs | Matched => reached end) i b q in
  match hs with
  | h_C => with_header (if same "o" c then h_CO else h_general) i b q
  | h_CO => with_header (if same "n" c then h_CON else h_general) i b q
  | h_CON =>
      with_header (if same "n" c then h_matching_connection
                   else if same "t" c then h_matching_content_length else h_general) i b q
  | h_matching_connection => word CROW_CONNECTION h_connection
  | h_matching_proxy_connection => word CROW_PROXY_CONNECTION h_connection
  | h_matching_content_length => word CROW_CONTENT_LENGTH h_content_length
  | h_matching_transfer_encoding =>
      match match_next CROW_TRANSFER_ENCODING c i with
      | Mismatch => with_header h_general i b q
      | Matching => with_header hs i b q
      | Matched => with_header h_transfer_encoding i true q
      end
  | h_matching_upgrade => word CROW_UPGRADE h_upgrade
  | h_connection | h_content_length | h_transfer_encoding | h_upgrade =>
      if negb (same " " ch) then with_header h_general (index q) b q else q
  | _ => q
  end.

Ltac run := unfold header_field_char, match_field, bind, on_parser, modify, gets, ret, parser_is;
  cbn [parser user p nread_ header_field_mark header_value_mark url_mark url_start_mark body_mark
       header_state index set_index set_header_state].

Lemma field_step_run max' d fuel ch (m : machine U) :
  field_state (header_state (parser m)) -> header_state (parser m) <> h_general ->
  header_field_char max' d fuel ch (CROW_TOKEN ch) m =
    Value tt (at_ m (field_step (parser m) ch) (p m) (nread_ m)).
Proof.
  intros Hf Hg. unfold field_step.
  destruct (header_state (parser m)) eqn:E; try done; run; rewrite E; rewrite ?match_word_run; try done.
  all: try (destruct (match_next _ _ _); unfold with_header, set_index, at_; cbn; rewrite ?E; done).
  all: try (destruct (negb _); [|by destruct m]; done).
Qed.

Lemma field_step_shape q ch : field_state (header_state q) ->
  exists hs ix b, field_state hs /\ field_step q ch = with_header hs ix b q.
Proof.
  intros Hf. assert (Hq : q = with_header (header_state q) (index q) (uses_transfer_encoding q) q) by by destruct q.
  unfold field_step. destruct (header_state q) eqn:E; try done.
  all: try (destruct (match_next CROW_TRANSFER_ENCODING _ _)).
  all: try (destruct (negb _)).
  all: try (eexists _, _, _; split; [|reflexivity]; done).
  all: try (eexists _, _, _; split; [|exact Hq]; done).
  all: eexists _, _, _; split; [|reflexivity].
  all: try (by destruct (match_next _ _ _)).
  all: destruct (same _ _); [done|]; try done; by destruct (same _ _).
Qed.

Lemma field_step_nread n q ch : field_step (set_nread n q) ch = set_nread n (field_step q ch).
Proof.
  unfold field_step. cbn. destruct (header_state q); try done.
  all: first [by destruct (match_next _ _ _) | by destruct (negb _)].
Qed.

(** ** Runs of characters of a class *)

Fixpoint leading (f : ascii -> bool) (l : list ascii) : nat :=
  match l with
  | [] => 0
  | c :: l => if f c then S (leading f l) else 0
  end.

(** Where the run that starts at [o] ends. *)
Definition run_to (f : ascii -> bool) (d : list ascii) (o : Z) : Z :=
  o + Z.of_nat (leading f (drop (Z.to_nat o) d)).

Lemma run_to_in f d o c : 0 <= o -> d !! Z.to_nat o = Some c -> f c = true -> run_to f d o = run_to f d (o + 1).
Proof.
  intros Ho Hc Hf. unfold run_to. rewrite (drop_S _ _ _ Hc). cbn. rewrite Hf.
  replace (Z.to_nat (o + 1)) with (S (Z.to_nat o)) by lia. lia.
Qed.

Lemma run_to_out f d o c : d !! Z.to_nat o = Some c -> f c = false -> run_to f d o = o.
Proof. intros Hc Hf. unfold run_to. rewrite (drop_S _ _ _ Hc). cbn. rewrite Hf. lia. Qed.

Lemma run_to_end f d : run_to f d (len d) = len d.
Proof. unfold run_to, len. rewrite drop_ge by lia. cbn. lia. Qed.

Lemma leading_le f l : (leading f l <= length l)%nat.
Proof. induction l as [|c l IH]; cbn; [lia|]. case_match; lia. Qed.

Lemma run_to_bounds f d o : 0 <= o <= len d -> o <= run_to f d o <= len d.
Proof.
  intros Ho. unfold run_to, len in *. pose proof (leading_le f (drop (Z.to_nat o) d)) as H.
  rewrite length_drop in H. lia.
Qed.

Lemma run_to_stop f d o c : 0 <= o <= len d -> d !! Z.to_nat (run_to f d o) = Some c -> f c = false.
Proof.
  intros Ho. unfold run_to. replace (Z.to_nat (o + _)) with (Z.to_nat o + leading f (drop (Z.to_nat o) d))%nat by lia.
  rewrite <- lookup_drop. generalize (drop (Z.to_nat o) d). intros l.
  induction l as [|a l IH]; cbn; [done|]. destruct (f a) eqn:E; [exact IH|]. cbn. by intros [= ->].
Qed.

Lemma lookup_len (d : list ascii) o : 0 <= o < len d -> exists c, d !! Z.to_nat o = Some c.
Proof. unfold len. intros. apply lookup_lt_is_Some. lia. Qed.

Lemma lookup_none (d : list ascii) : d !! Z.to_nat (len d) = None.
Proof. apply lookup_ge_None. unfold len. lia. Qed.

Lemma skip_tokens_run d fuel (m : machine U) : 0 <= p m < len d -> len d - p m < Z.of_nat fuel ->
  skip_tokens d fuel (len d) m =
    Value tt (at_ m (parser m) (run_to is_token d (p m + 1) - 1) (nread_ m)).
Proof.
  revert m. induction fuel as [|fuel IH]; intros m Hp Hf; [lia|].
  cbn [skip_tokens]. rewrite bind_gets. destruct (p m + 1 <? len d) eqn:E; b2p.
  - destruct (lookup_len d (p m + 1)) as [c Hc]; [lia|].
    erewrite bind_value by (apply read_at; [lia|exact Hc]).
    destruct (is_token c) eqn:Et.
    + unfold set_p. rewrite (bind_value _ _ _ tt (at_ m (parser m) (p m + 1) (nread_ m))) by (by destruct m).
      rewrite IH by (cbn; lia). cbn. by rewrite (run_to_in _ _ (p m + 1) c) by (lia || done).
    + rewrite (run_to_out _ _ _ _ Hc Et). unfold ret, at_. replace (p m + 1 - 1) with (p m) by lia. by destruct m.
  - replace (p m + 1) with (len d) by lia. rewrite run_to_end. unfold ret, at_.
    replace (len d - 1) with (p m) by lia. by destruct m.
Qed.

Lemma fold_general d i j q : header_state q = h_general -> fold_left field_step (slice d i j) q = q.
Proof.
  intros Hq. induction (slice d i j) as [|c l IH]; [done|]. cbn. unfold field_step at 2. by rewrite Hq.
Qed.

Lemma field_loop_run d fuel (m : machine U) : len d <= max -> 0 <= p m <= len d ->
  len d - p m < Z.of_nat fuel -> field_state (header_state (parser m)) ->
  let e := run_to is_token d (p m) in
  header_field_loop max d fuel m =
    Value (d !! Z.to_nat e) (at_ m (fold_left field_step (slice d (p m) e) (parser m)) e (nread_ m)).
Proof.
  intros Hmax. revert m. induction fuel as [|fuel IH]; intros m Hp Hf Hs; [lia|].
  cbn [header_field_loop]. unfold at_end. rewrite bind_gets. destruct (p m =? len d) eqn:E; b2p.
  { rewrite E, run_to_end, lookup_none, slice_empty. unfold ret, at_. cbn. rewrite <- E. by destruct m. }
  destruct (lookup_len d (p m)) as [c Hc]; [lia|].
  rewrite bind_gets. erewrite bind_value by (apply read_at; [lia|exact Hc]).
  destruct (is_token c) eqn:Et.
  - assert (same NUL (CROW_TOKEN c) = false) as -> by (unfold is_token in Et; by b2p).
    rewrite (run_to_in _ _ (p m) c) by (lia || done).
    assert (He := run_to_bounds is_token d (p m + 1) ltac:(lia)).
    rewrite (slice_step d (p m) _ c) by (lia || done). cbn [fold_left].
    destruct (decide (header_state (parser m) = h_general)) as [Hg|Hg].
    + unfold header_field_char. rewrite bind_assoc, bind_gets, Hg, bind_assoc.
      unfold run_end. rewrite bind_assoc, bind_gets, bind_ret.
      replace (p m + Z.min (len d - p m) max) with (len d) by lia.
      erewrite bind_value by (apply skip_tokens_run; unfold len in *; lia).
      unfold set_p. rewrite (bind_value _ _ _ tt (at_ m (parser m) (run_to is_token d (p m + 1)) (nread_ m)))
        by (unfold modify, at_; cbn; do 2 f_equal; lia).
      rewrite IH; [|cbn; lia|cbn; lia|done]. cbn [at_ p parser nread_].
      assert (Hself : run_to is_token d (run_to is_token d (p m + 1)) = run_to is_token d (p m + 1)).
      { destruct (decide (run_to is_token d (p m + 1) = len d)) as [-> | Hne]; [apply run_to_end|].
        destruct (lookup_len d (run_to is_token d (p m + 1))) as [c' Hc']; [lia|].
        eapply run_to_out; [exact Hc'|]. eapply run_to_stop; [|exact Hc']. lia. }
      rewrite Hself, slice_empty. cbn [fold_left]. unfold field_step at 2. rewrite Hg.
      by rewrite (fold_general _ _ _ _ Hg).
    + erewrite bind_value by (apply field_step_run; done).
      unfold set_p. rewrite (bind_value _ _ _ tt (at_ m (field_step (parser m) c) (p m + 1) (nread_ m))) by done.
      destruct (field_step_shape (parser m) c Hs) as (hs & ix & b & Hs' & Hq).
      rewrite IH; [done|cbn; lia|cbn; lia|]. cbn. by rewrite Hq.
  - assert (same NUL (CROW_TOKEN c) = true) as -> by (unfold is_token in Et; by b2p).
    rewrite (run_to_out _ _ _ _ Hc Et), slice_empty, Hc. unfold ret, at_. by destruct m.
Qed.

(** ** One turn of the loop in a header's name *)

Lemma count_run v (m : machine U) : 0 <= v < 2 ^ 31 -> 0 <= nread_ m <= max -> max < 2 ^ 31 ->
  (max < nread_ m + v /\ exists m', COUNT_HEADER_SIZE max v m = GotoError m') \/
  (nread_ m + v <= max /\ COUNT_HEADER_SIZE max v m = Value tt (at_ m (parser m) (p m) (nread_ m + v))).
Proof.
  intros Hv Hn Hmax. unfold COUNT_HEADER_SIZE, CROW_COUNT_HEADER_SIZE. rewrite bind_gets.
  assert (to_u32 (nread_ m + to_u32 v) = nread_ m + v) as ->.
  { unfold to_u32, wrap_u. rewrite (Z.mod_small v) by lia. rewrite Z.mod_small; lia. }
  unfold set_local_nread. rewrite (bind_value _ _ _ tt (at_ m (parser m) (p m) (nread_ m + v))) by done.
  rewrite bind_gets. cbn [at_ nread_]. destruct (max <? nread_ m + v) eqn:E; b2p; [left|right]; split; eauto; lia.
Qed.

(** [COUNT_HEADER_SIZE] before anything else. *)
Lemma classify_count {A} v (m : machine U) (k : unit -> M U A) : 0 <= v < 2 ^ 31 -> 0 <= nread_ m <= max ->
  max < 2 ^ 31 ->
  classify (bind (COUNT_HEADER_SIZE max v) k m) =
    if max <? nread_ m + v then Rejected else classify (k tt (at_ m (parser m) (p m) (nread_ m + v))).
Proof.
  intros Hv Hn Hmax. destruct (count_run v m Hv Hn Hmax) as [[H [m' Hm]]|[H Hm]].
  - unfold bind. rewrite Hm. rewrite (proj2 (Z.ltb_lt _ _)) by lia. done.
  - erewrite bind_value by exact Hm. rewrite (proj2 (Z.ltb_ge _ _)) by lia. done.
Qed.

(** The header bytes read by a turn that starts at [o] and runs to [e]. *)
Definition turn_bytes (d : list ascii) (o e : Z) : Z :=
  match d !! Z.to_nat e with Some _ => e - o + 1 | None => e - o end.

Lemma field_turn {A} d (m : machine U) c i (k : unit -> M U A) :
  machine_ok max 0 m -> state_ (parser m) = s_header_field -> header_field_mark m = Some i ->
  0 <= p m < len d -> 0 <= i <= p m -> d !! Z.to_nat (p m) = Some c -> len d <= max -> max < 2 ^ 31 ->
  let e := run_to is_token d (p m) in
  let q := fold_left field_step (slice d (p m) e) (parser m) in
  let n := nread_ m + turn_bytes d (p m) e in
  classify (bind (loop_body (plain h) max d false false c) k m) =
    if max <? n then Rejected
    else match d !! Z.to_nat e with
         | None => classify (k tt (at_ m q (e - 1) n))
         | Some ch =>
             if same ":" ch
             then classify (k tt (after_callback h d Header_field i (at_ m (set_state s_header_value_discard_ws q) e n)))
             else Rejected
         end.
Proof.
  intros Hok Hs Hi Hp Hip Hc Hlen Hmax e q n.
  destruct Hok as [[He Hl Ha Hn Hcl Hst] _ _ _].
  assert (Hfs : field_state (header_state (parser m))) by (unfold state_ok in Hst; by rewrite Hs in Hst).
  assert (Hee : p m <= e <= len d) by (apply run_to_bounds; lia).
  assert (Hq : exists hs ix b, q = with_header hs ix b (parser m)).
  { subst q. clear - Hfs. revert Hfs. generalize (parser m). induction (slice d (p m) e) as [|a l IH]; intros q Hf.
    - exists (header_state q), (index q), (uses_transfer_encoding q). by destruct q.
    - cbn. destruct (field_step_shape q a Hf) as (hs & ix & b & Hf' & ->).
      destruct (IH (with_header hs ix b q) Hf') as (hs' & ix' & b' & ->). by exists hs', ix', b'. }
  destruct Hq as (hs & ix & b & Hq).
  unfold loop_body. rewrite bind_assoc, bind_gets, Hs, bind_assoc. cbn [CROW_PARSING_HEADER].
  rewrite classify_count by lia. unfold reexecutions. rewrite execute_byte_S, bind_assoc, bind_gets.
  cbn [at_ parser]. rewrite Hs, bind_assoc. cbn [switch]. unfold case_header_field at 1.
  rewrite bind_assoc, bind_gets, bind_assoc. cbn [at_ p].
  destruct (d !! Z.to_nat e) as [ch|] eqn:Hch.
  - assert (Hn' : n = nread_ m + 1 + (e - p m)) by (subst n; unfold turn_bytes; rewrite Hch; lia).
    clearbody n. assert (e < len d) by (apply lookup_lt_Some in Hch; unfold len; lia).
    destruct (max <? nread_ m + 1) eqn:E1; [rewrite (proj2 (Z.ltb_lt max n)) by (b2p; lia); done|].
    erewrite bind_value by (apply field_loop_run; cbn; (done || (unfold len in *; lia))).
    cbn [at_ p parser nread_]. fold e. rewrite Hch. rewrite bind_assoc, bind_gets, bind_assoc. cbn [at_ p].
    rewrite classify_count by (cbn; b2p; lia). cbn [at_ p nread_ parser].
    replace (nread_ m + 1 + (e - p m)) with n by lia.
    destruct (max <? n); [done|]. fold q. destruct (same ":" ch); [|done].
    unfold goto_state, on_parser, CROW_CALLBACK_DATA. rewrite !bind_assoc.
    erewrite bind_value by reflexivity. cbn [at_ user p nread_ parser]. rewrite !bind_assoc, bind_gets.
    erewrite bind_value by (apply callback_marked; [cbn; by rewrite Hq|cbn; exact Hi|discriminate|cbn; lia|cbn; lia]).
    unfold break. rewrite !bind_ret. done.
  - assert (Hn' : n = nread_ m + (e - p m)) by (subst n; unfold turn_bytes; rewrite Hch; lia).
    clearbody n. assert (e = len d) as Hel by (apply lookup_ge_None in Hch; unfold len in *; lia).
    destruct (max <? nread_ m + 1) eqn:E1; [rewrite (proj2 (Z.ltb_lt max n)) by (b2p; lia); done|].
    erewrite bind_value by (apply field_loop_run; cbn; (done || (unfold len in *; lia))).
    cbn [at_ p parser nread_]. fold e. rewrite Hch. unfold set_p.
    rewrite bind_assoc. erewrite bind_value by reflexivity. cbn [at_ user p nread_ parser].
    rewrite bind_assoc, bind_gets, bind_assoc. cbn [p].
    rewrite classify_count by (cbn; b2p; lia). cbn [at_ p nread_ parser].
    replace (nread_ m + 1 + (Z.pred e - p m)) with n by lia.
    destruct (max <? n); [done|]. unfold break. rewrite !bind_ret. done.
Qed.

End pieces.

#[global] Arguments loop_turn {U h max A}.
#[global] Arguments run_byte {U h max}.
#[global] Arguments run_byte_value {U h max}.
#[global] Arguments run_byte_stop {U h max}.
#[global] Arguments field_turn {U h max A}.
#[global] Arguments rest_end {U h max}.
#[global] Arguments pending_in {U max}.
#[global] Arguments machine_lone {U max}.
#[global] Arguments classify_count {U max A}.
#[global] Arguments field_loop_run {U max}.
#[global] Arguments flush_spec {U h}.
#[global] Arguments count_run {U max}.
