(* ===== verification/HttpTurns.v ===== *)
(** * Turns of the loop in a header's value and in a body

    A turn of the loop of [http_parser_execute] takes all the bytes of a header's
    value, or of a body, that the buffer has: [value_turn] and [body_turn] say
    what comes of it. *)

From S2P Require Import Prelude CInt CArray HttpData HttpParser HttpSteps HttpBytes HttpFeed.
#[local] Open Scope http_scope.

Section turns.
Context {U : Type} (h : handlers U) `{!Mergeable h} (max : Z).

(** ** The value of a header *)

Definition line_end (c : ascii) : bool := same cr c || same lf c.

(** The header's state and the parser after one more character of a value that
    does not end its line; [None] for an error. *)
Definition value_step (hs : header_states) (q : http_parser) (ch : ascii) : option (header_states * http_parser) :=
  let c := CROW_LOWER ch in
  let i := wrap_u 5 (index q + 1) in
  let n := content_length q in
  let digit :=
    if same " " ch then Some (h_content_length_ws, q)
    else if negb (CROW_IS_NUM ch) then None
    else if (CROW_ULLONG_MAX - 10) / 10 <? n then None
    else Some (h_content_length_num, set_content_length (to_u64 (to_u64 (n * 10) + (uc ch - 48))) q) in
  let word w reached otherwise :=
    Some (match match_next w c i with Mismatch => otherwise | Matching => hs | Matched => reached end,
          set_index (index q + 1) q) in
  if negb (CROW_IS_HEADER_CHAR ch) then None
  else match hs with
  | h_general => Some (hs, q)
  | h_connection | h_transfer_encoding => None
  | h_content_length => if same " " ch then Some (hs, q) else digit
  | h_content_length_num => digit
  | h_content_length_ws => if same " " ch then Some (hs, q) else None
  | h_matching_transfer_encoding_token_start =>
      Some (if same "c" c then h_matching_transfer_encoding_chunked
            else if is_token c then h_matching_transfer_encoding_token
            else if same " " c || same tab c then hs
            else h_general, q)
  | h_matching_transfer_encoding_chunked =>
      word CROW_CHUNKED h_transfer_encoding_chunked h_matching_transfer_encoding_token
  | h_matching_transfer_encoding_token =>
      if same "," ch then Some (h_matching_transfer_encoding_token_start, set_index 0 q) else Some (hs, q)
  | h_matching_connection_keep_alive => word CROW_KEEP_ALIVE h_connection_keep_alive h_general
  | h_matching_connection_close => word CROW_CLOSE h_connection_close h_general
  | h_transfer_encoding_chunked =>
      Some (if negb (same " " ch) then h_matching_transfer_encoding_token else hs, q)
  | h_connection_keep_alive | h_connection_close => Some (if negb (same " " ch) then h_general else hs, q)
  | _ => Some (h_general, set_state s_header_value q)
  end.

Fixpoint value_run (l : list ascii) (hs : header_states) (q : http_parser) : option (header_states * http_parser) :=
  match l with
  | [] => Some (hs, q)
  | c :: l => match value_step hs q c with Some (hs, q) => value_run l hs q | None => None end
  end.

(** One character through [header_value_char], in any state but [h_general]. *)
Lemma value_step_run d fuel hs ch (m : machine U) : value_state hs -> hs <> h_general ->
  negb (CROW_IS_HEADER_CHAR ch) = false ->
  match value_step hs (parser m) ch with
  | Some (hs', q') => header_value_char max d fuel false hs ch m = Value hs' (at_ m q' (p m) (nread_ m))
  | None => exists m', header_value_char max d fuel false hs ch m = GotoError m'
  end.
Proof.
  intros Hv Hg Hch. unfold value_step. rewrite Hch.
  assert (Hself : m = at_ m (parser m) (p m) (nread_ m)) by by destruct m.
  destruct hs; try done; cbn [header_value_char].
  all: unfold content_length_digit, match_value, bind, on_parser, modify, gets, ret; rewrite ?match_word_run.
  all: repeat match goal with |- context [if ?b then _ else _] => destruct b eqn:? end.
  all: try (by eexists); try (by rewrite <- Hself); try done.
Qed.

Lemma value_step_state hs q c hs' q' : value_step hs q c = Some (hs', q') -> value_state hs'.
Proof.
  unfold value_step. destruct (negb (CROW_IS_HEADER_CHAR c)); [done|].
  destruct hs; try done; repeat case_match; intros [= <- <-]; done.
Qed.

Definition with_value (ix n : Z) (q : http_parser) : http_parser :=
  Parser (flags q) (state_ q) (header_state q) ix (uses_transfer_encoding q) (HttpData.allow_chunked_length q)
    (lenient_http_headers q) (nread q) n (qs_point q) (http_major q) (http_minor q) (method q)
    (http_errno_ q) (upgrade q).

Lemma value_step_shape hs q c hs' q' : value_step hs q c = Some (hs', q') -> state_ q = s_header_value ->
  exists ix n, q' = with_value ix n q /\
    (0 <= content_length q <= CROW_ULLONG_MAX -> 0 <= n <= CROW_ULLONG_MAX).
Proof.
  intros H Hs. assert (Hq : q = with_value (index q) (content_length q) q) by by destruct q.
  assert (Hq' : q = set_state s_header_value q) by (destruct q; cbn in *; by subst).
  revert H. unfold value_step. destruct (negb (CROW_IS_HEADER_CHAR c)); [done|].
  destruct hs; try done; repeat case_match; intros [= <- <-]; try done.
  all: try (eexists _, _; split; [exact Hq|done]).
  all: try (eexists _, _; split; [rewrite <- Hq'; exact Hq|done]).
  all: eexists _, _; split; [reflexivity|intros Hn]; try exact Hn.
  all: match goal with H : ((CROW_ULLONG_MAX - 10) / 10 <? content_length ?q) = false, H' : negb (CROW_IS_NUM ?c) = false |- _ =>
    destruct (next_digit 10 (content_length q) (uc c - 48)) as [-> ?];
      [lia|pose proof (is_num_range c H'); lia|lia|exact H|lia|pose proof (is_num_range c H'); lia] end.
Qed.

(** A step does not look at the field of the header's state or at the count. *)
Lemma value_step_fields x n hs q c :
  value_step hs (set_header_state x (set_nread n q)) c =
    option_map (fun r => (fst r, set_header_state x (set_nread n (snd r)))) (value_step hs q c).
Proof. unfold value_step. cbn [set_header_state set_nread index content_length]. repeat case_match; done. Qed.

Lemma value_run_fields x n l hs q :
  value_run l hs (set_header_state x (set_nread n q)) =
    option_map (fun r => (fst r, set_header_state x (set_nread n (snd r)))) (value_run l hs q).
Proof.
  revert hs q. induction l as [|c l IH]; intros hs q; [done|]. cbn. rewrite value_step_fields.
  destruct (value_step hs q c) as [[hs' q']|]; [|done]. apply IH.
Qed.

Lemma value_run_state l hs q hs' q' : value_run l hs q = Some (hs', q') -> value_state hs -> value_state hs'.
Proof.
  revert hs q. induction l as [|c l IH]; intros hs q; cbn; [by intros [= <- _]|].
  destruct (value_step hs q c) as [[hs1 q1]|] eqn:E; [|done]. intros H _.
  by eapply IH; [exact H|eapply value_step_state].
Qed.

Lemma value_run_shape l hs q hs' q' : value_run l hs q = Some (hs', q') -> state_ q = s_header_value ->
  exists ix n, q' = with_value ix n q /\
    (0 <= content_length q <= CROW_ULLONG_MAX -> 0 <= n <= CROW_ULLONG_MAX).
Proof.
  revert hs q. induction l as [|c l IH]; intros hs q; cbn.
  { intros [= _ <-] _. exists (index q), (content_length q). by destruct q. }
  destruct (value_step hs q c) as [[hs1 q1]|] eqn:E; [|done]. intros H Hs.
  destruct (value_step_shape _ _ _ _ _ E Hs) as (ix & n & -> & Hn).
  destruct (IH _ _ H Hs) as (ix' & n' & -> & Hn'). exists ix', n'. split; [done|auto].
Qed.

(** The general state takes every character a header may have. *)
Lemma value_run_general l q :
  value_run l h_general q = if forallb CROW_IS_HEADER_CHAR l then Some (h_general, q) else None.
Proof.
  induction l as [|c l IH]; [done|]. cbn. unfold value_step. cbn.
  by destruct (CROW_IS_HEADER_CHAR c).
Qed.

Definition text (c : ascii) : bool := negb (line_end c).

Lemma skip_value_run d fuel (m : machine U) : 0 <= p m <= len d -> len d - p m < Z.of_nat fuel ->
  let e := run_to text d (p m) in
  if forallb CROW_IS_HEADER_CHAR (slice d (p m) e) then
    skip_value d fuel false (len d) m =
      Value tt (at_ m (parser m) (match d !! Z.to_nat e with Some _ => e - 1 | None => e end) (nread_ m))
  else exists m', skip_value d fuel false (len d) m = GotoError m'.
Proof.
  revert m. induction fuel as [|fuel IH]; intros m Hp Hf; [lia|]. cbn zeta.
  cbn [skip_value]. rewrite bind_gets. destruct (p m =? len d) eqn:E; b2p.
  { rewrite E, run_to_end, slice_empty, lookup_none. cbn. rewrite <- E. by destruct m. }
  destruct (lookup_len d (p m)) as [c Hc]; [lia|].
  erewrite bind_value by (apply read_at; [lia|exact Hc]).
  destruct (same cr c || same lf c) eqn:El.
  - rewrite (run_to_out text d (p m) c) by (done || by unfold text, line_end; rewrite El).
    rewrite slice_empty, Hc. cbn. unfold set_p, modify, at_. do 2 f_equal.
  - rewrite (run_to_in text d (p m) c) by (lia || done || by unfold text, line_end; rewrite El).
    assert (He := run_to_bounds text d (p m + 1) ltac:(lia)).
    rewrite (slice_step d (p m) _ c) by (lia || done). cbn [forallb negb andb].
    destruct (CROW_IS_HEADER_CHAR c) eqn:Ec; [|by eexists]. cbn [negb andb].
    unfold set_p. rewrite (bind_value _ _ _ tt (at_ m (parser m) (p m + 1) (nread_ m))) by done.
    specialize (IH (at_ m (parser m) (p m + 1) (nread_ m)) ltac:(cbn; lia) ltac:(cbn; lia)).
    cbn [at_ p parser nread_] in IH. exact IH.
Qed.

(** What the loop does where the line ends, or the buffer. *)
Definition value_tail (d : list ascii) (start : Z) (hs : header_states) : M U value_end := fun m =>
  match d !! Z.to_nat (p m) with
  | None => Value (Broke hs) m
  | Some c =>
      (if same cr c then
         goto_state s_header_almost_done ;;
         on_parser (set_header_state hs) ;;
         CROW_CALLBACK_DATA (plain h) d Header_value ;;
         ret (Broke hs)
       else
         goto_state s_header_almost_done ;;
         COUNT_HEADER_SIZE max (p m - start) ;;
         on_parser (set_header_state hs) ;;
         CROW_CALLBACK_DATA_NOADVANCE (plain h) d Header_value ;;
         ret AtLF) m
  end.

Definition value_result (d : list ascii) (start : Z) (hs : header_states) (m : machine U)
    (r : outcome U value_end) : Prop :=
  let e := run_to text d (p m) in
  match value_run (slice d (p m) e) hs (parser m) with
  | None => exists m', r = GotoError m'
  | Some (hs', q') => r = value_tail d start hs' (at_ m q' e (nread_ m))
  end.

Lemma value_loop_run d start fuel (m : machine U) hs : len d <= max -> 0 <= p m <= len d ->
  len d - p m < Z.of_nat fuel -> value_state hs ->
  value_result d start hs m (header_value_loop (plain h) max d fuel false start hs m).
Proof.
  intros Hmax. revert m hs. induction fuel as [|fuel IH]; intros m hs Hp Hf Hs; [lia|].
  unfold value_result. cbn zeta. cbn [header_value_loop]. unfold at_end. rewrite bind_gets.
  destruct (p m =? len d) eqn:E; b2p.
  { rewrite E, run_to_end, slice_empty. unfold value_tail. cbn. rewrite lookup_none, <- E. by destruct m. }
  destruct (lookup_len d (p m)) as [c Hc]; [lia|].
  rewrite bind_gets. erewrite bind_value by (apply read_at; [lia|exact Hc]).
  destruct (line_end c) eqn:El.
  { assert (text c = false) as Ht by by unfold text; rewrite El.
    rewrite (run_to_out _ _ _ _ Hc Ht), slice_empty. cbn [value_run]. unfold value_tail. cbn [at_ p]. rewrite Hc.
    replace (at_ m (parser m) (p m) (nread_ m)) with m by by destruct m.
    unfold line_end in El. destruct (same cr c); [done|]. cbn in El. by rewrite El. }
  assert (text c = true) as Ht by by unfold text; rewrite El.
  unfold line_end in El. apply orb_false_elim in El as [-> ->].
  rewrite (run_to_in text d (p m) c) by (lia || done).
  assert (He := run_to_bounds text d (p m + 1) ltac:(lia)).
  rewrite (slice_step d (p m) _ c) by (lia || done). cbn [value_run].
  destruct (CROW_IS_HEADER_CHAR c) eqn:Ec; cbn [negb andb].
  2: { unfold value_step. rewrite Ec. by eexists. }
  assert (Hn : negb (CROW_IS_HEADER_CHAR c) = false) by by rewrite Ec.
  destruct (decide (hs = h_general)) as [->|Hg].
  - cbn [header_value_char]. rewrite bind_assoc. unfold run_end. rewrite bind_assoc, bind_gets, bind_ret.
    replace (p m + Z.min (len d - p m) max) with (len d) by lia. rewrite bind_assoc.
    assert (Hk := skip_value_run d (S (length d)) m ltac:(lia) ltac:(unfold len in *; lia)). cbn zeta in Hk.
    rewrite (run_to_in text d (p m) c) in Hk by (lia || done). rewrite (slice_step d (p m) _ c) in Hk by (lia || done).
    cbn [forallb] in Hk. rewrite Ec in Hk. cbn [andb] in Hk.
    unfold value_step. rewrite Hn, value_run_general.
    destruct (forallb CROW_IS_HEADER_CHAR (slice d (p m + 1) (run_to text d (p m + 1)))) eqn:Ef;
      [|destruct Hk as [m' Hk]; exists m'; unfold bind; by rewrite Hk].
    set (e := run_to text d (p m + 1)) in *.
    erewrite bind_value by exact Hk. unfold at_end. rewrite bind_assoc, bind_gets. cbn [at_ p].
    assert (Hself : run_to text d e = e).
    { subst e. destruct (decide (run_to text d (p m + 1) = len d)) as [-> | Hne]; [apply run_to_end|].
      destruct (lookup_len d (run_to text d (p m + 1))) as [c' Hc']; [lia|].
      eapply run_to_out; [exact Hc'|]. eapply run_to_stop; [|exact Hc']. lia. }
    assert (Hb : forall m', header_value_loop (plain h) max d fuel false start h_general (at_ m (parser m) e (nread_ m)) = m' ->
        m' = value_tail d start h_general (at_ m (parser m) e (nread_ m))).
    { intros m' <-. specialize (IH (at_ m (parser m) e (nread_ m)) h_general ltac:(cbn; lia) ltac:(cbn; lia) Hs).
      unfold value_result in IH. cbn [at_ p parser nread_] in IH. by rewrite Hself, slice_empty in IH. }
    apply Hb. clear Hb IH.
    destruct (d !! Z.to_nat e) as [ce|] eqn:Hce.
    + assert (e < len d) by (apply lookup_lt_Some in Hce; unfold len; lia).
      rewrite (proj2 (Z.eqb_neq (e - 1) (len d))) by lia. rewrite bind_assoc, bind_ret.
      rewrite bind_ret. unfold set_p. rewrite (bind_value _ _ _ tt (at_ m (parser m) e (nread_ m))); [done|].
      unfold modify, at_. cbn. do 2 f_equal. lia.
    + assert (e = len d) as Hel by (apply lookup_ge_None in Hce; unfold len in *; lia).
      rewrite (proj2 (Z.eqb_eq e (len d))) by done. rewrite bind_assoc. unfold set_p at 1.
      erewrite bind_value by reflexivity. rewrite bind_ret. unfold set_p.
      rewrite (bind_value _ _ _ tt (at_ m (parser m) e (nread_ m))); [done|].
      unfold modify, at_. cbn. do 2 f_equal. lia.
  - assert (Hv := value_step_run d (S (length d)) hs c m Hs Hg Hn).
    destruct (value_step hs (parser m) c) as [[hs1 q1]|] eqn:E1.
    + erewrite bind_value by exact Hv. unfold set_p.
      rewrite (bind_value _ _ _ tt (at_ m q1 (p m + 1) (nread_ m))) by done.
      exact (IH (at_ m q1 (p m + 1) (nread_ m)) hs1 ltac:(cbn; lia) ltac:(cbn; lia)
        (value_step_state _ _ _ _ _ E1)).
    + destruct Hv as [m' Hv]. exists m'. unfold bind. by rewrite Hv.
Qed.

(** ** One turn of the loop in a header's value *)

Definition value_end_state (c : ascii) : state := if same cr c then s_header_almost_done else s_header_value_lws.

Lemma run_to_found f d o e c : e = run_to f d o -> 0 <= o <= len d -> d !! Z.to_nat e = Some c -> e < len d.
Proof. intros -> Ho Hc. apply lookup_lt_Some in Hc. unfold len. pose proof (run_to_bounds f d o Ho). lia. Qed.

Lemma run_to_none f d o : 0 <= o <= len d -> d !! Z.to_nat (run_to f d o) = None -> run_to f d o = len d.
Proof. intros Ho Hc. pose proof (run_to_bounds f d o Ho). apply lookup_ge_None in Hc. unfold len in *. lia. Qed.

Lemma bind_run {A B} (c c' : M U A) (k : A -> M U B) m m' : c m = c' m' -> bind c k m = bind c' k m'.
Proof. unfold bind. by intros ->. Qed.

Lemma on_parser_then {A} f (k : unit -> M U A) m :
  bind (on_parser f) k m = k tt (at_ m (f (parser m)) (p m) (nread_ m)).
Proof. done. Qed.

Lemma set_p_then {A} f (k : unit -> M U A) m :
  bind (set_p f) k m = k tt (at_ m (parser m) (f (p m)) (nread_ m)).
Proof. done. Qed.

Lemma at_at (m : machine U) q o n q' o' n' : at_ (at_ m q o n) q' o' n' = at_ m q' o' n'.
Proof. done. Qed.

Lemma at_after d k i (m : machine U) q n :
  at_ (after_callback h d k i m) q (p m) n = after_callback h d k i (at_ m q (p m) n).
Proof. done. Qed.

Lemma at_parser (m : machine U) q o n : parser (at_ m q o n) = q.
Proof. done. Qed.

Lemma at_p (m : machine U) q o n : p (at_ m q o n) = o.
Proof. done. Qed.

Lemma at_nread (m : machine U) q o n : nread_ (at_ m q o n) = n.
Proof. done. Qed.

(** [COUNT_HEADER_SIZE] before what cannot fail. *)
Lemma count_then {A} v (m : machine U) (k : unit -> M U A) : 0 <= v < 2 ^ 31 -> 0 <= nread_ m <= max ->
  max < 2 ^ 31 ->
  if max <? nread_ m + v then exists m', bind (COUNT_HEADER_SIZE max v) k m = GotoError m'
  else bind (COUNT_HEADER_SIZE max v) k m = k tt (at_ m (parser m) (p m) (nread_ m + v)).
Proof.
  intros Hv Hn Hmax. destruct (count_run v m Hv Hn Hmax) as [[H [m' Hm]]|[H Hm]].
  - rewrite (proj2 (Z.ltb_lt _ _)) by lia. exists m'. unfold bind. by rewrite Hm.
  - rewrite (proj2 (Z.ltb_ge _ _)) by lia. by erewrite bind_value by exact Hm.
Qed.

Lemma value_case_run d (m : machine U) i hs :
  len d <= max -> max < 2 ^ 31 -> 0 <= nread_ m <= max ->
  http_errno_ (parser m) = CHPE_OK -> state_ (parser m) = s_header_value -> header_state (parser m) = hs ->
  value_state hs ->
  header_value_mark m = Some i -> 0 <= p m < len d -> 0 <= i <= p m ->
  let e := run_to text d (p m) in
  let r := j <- case_header_value (plain h) max d false ;;
    match j with
    | Break => ret tt
    | Reexecute ch => execute_byte (plain h) max d 5 false false ch
    end in
  match value_run (slice d (p m) e) hs (parser m) with
  | None => exists m', r m = GotoError m'
  | Some (hs', q') =>
      let n := nread_ m + (turn_bytes d (p m) e - 1) in
      if max <? n then exists m', r m = GotoError m'
      else match d !! Z.to_nat e with
           | None => r m = Value tt (at_ m (set_header_state hs' q') (e - 1) n)
           | Some c => r m = Value tt (after_callback h d Header_value i
                        (at_ m (set_header_state hs' (set_state (value_end_state c) q')) e n))
           end
  end.
Proof.
  intros Hlen Hmax Hn He Hs Hhs Hv Hi Hp Hip e r.
  assert (Hee : p m <= e <= len d) by (apply run_to_bounds; lia).
  assert (Hl := value_loop_run d (p m) (S (length d)) m hs Hlen ltac:(lia) ltac:(unfold len in *; lia) Hv).
  unfold value_result in Hl. fold e in Hl. subst r. unfold case_header_value.
  destruct (value_run _ _ _) as [[hs' q']|] eqn:Er.
  2: { destruct Hl as [m' Hl]. exists m'. unfold bind, gets. rewrite Hhs, Hl. done. }
  destruct (value_run_shape _ _ _ _ _ Er Hs) as (ix & n' & -> & _).
  rewrite bind_assoc, bind_gets, bind_assoc, bind_gets, Hhs, bind_assoc.
  set (q' := with_value ix n' (parser m)) in *. set (m1 := at_ m q' e (nread_ m)) in *.
  rewrite (bind_run _ (value_tail d (p m) hs') _ _ m1 Hl). clear Hl.
  assert (Ht : value_tail d (p m) hs' m1 = value_tail d (p m) hs' m1) by done.
  unfold value_tail in Ht at 2. cbn [m1 at_ p] in Ht. fold m1 in Ht.
  destruct (d !! Z.to_nat e) as [c|] eqn:Hc.
  - assert (Hel : e < len d) by (eapply run_to_found; [reflexivity|lia|exact Hc]).
    assert (turn_bytes d (p m) e - 1 = e - p m) as -> by (unfold turn_bytes; rewrite Hc; lia).
    rewrite (bind_run _ _ _ _ _ Ht). clear Ht. unfold value_end_state. destruct (same cr c).
    + unfold goto_state. rewrite bind_assoc, on_parser_then, bind_assoc, on_parser_then, bind_assoc.
      unfold CROW_CALLBACK_DATA. rewrite bind_assoc, bind_gets.
      erewrite bind_value by (apply callback_marked; [exact He|exact Hi|discriminate|cbn; lia|cbn; lia]).
      rewrite bind_ret, bind_assoc, on_parser_then.
      unfold at_end. rewrite bind_assoc, bind_gets. change (p (at_ _ _ _ _)) with e.
      rewrite (proj2 (Z.eqb_neq e (len d))) by lia. rewrite bind_assoc, bind_ret, bind_assoc, bind_gets, bind_assoc.
      match goal with |- context [bind (COUNT_HEADER_SIZE max _) ?k ?M] => exact (count_then (e - p m) M k ltac:(lia) Hn Hmax) end.
    + unfold goto_state. rewrite bind_assoc, on_parser_then, bind_assoc.
      destruct (max <? nread_ m + (e - p m)) eqn:El.
      { assert (Hk := fun k => count_then (A := unit) (e - p m) (at_ m (set_state s_header_almost_done q') e (nread_ m)) k
          ltac:(lia) Hn Hmax). cbn [at_ nread_] in Hk. rewrite El in Hk. apply Hk. }
      assert (Hk := fun k => count_then (A := unit) (e - p m) (at_ m (set_state s_header_almost_done q') e (nread_ m)) k
          ltac:(lia) Hn Hmax). cbn [at_ nread_] in Hk. rewrite El in Hk. etransitivity; [apply Hk|]. clear Hk.
      rewrite bind_assoc, on_parser_then, bind_assoc.
      unfold CROW_CALLBACK_DATA_NOADVANCE. rewrite bind_assoc, bind_gets.
      erewrite bind_value by (apply callback_marked; [exact He|exact Hi|discriminate|cbn; lia|cbn; lia]).
      done.
  - assert (Hel : e = len d) by (apply run_to_none; [lia|exact Hc]).
    assert (turn_bytes d (p m) e - 1 = e - 1 - p m) as -> by (unfold turn_bytes; rewrite Hc; lia).
    rewrite (bind_value _ _ _ _ _ Ht), bind_assoc, on_parser_then. unfold at_end. rewrite bind_assoc, bind_gets.
    change (p (at_ _ _ _ _)) with e. rewrite (proj2 (Z.eqb_eq e (len d)) Hel), bind_assoc, set_p_then.
    rewrite bind_assoc, bind_gets, bind_assoc.
    replace (e - 1) with (Z.pred e) by lia.
    match goal with |- context [bind (COUNT_HEADER_SIZE max _) ?k ?M] => exact (count_then (Z.pred e - p m) M k ltac:(lia) Hn Hmax) end.
Qed.

Lemma turn_bytes_pos d o f : 0 <= o < len d -> 1 <= turn_bytes d o (run_to f d o).
Proof.
  intros Ho. pose proof (run_to_bounds f d o ltac:(lia)). unfold turn_bytes. case_match; [lia|].
  assert (run_to f d o = len d) by (apply run_to_none; [lia|done]). lia.
Qed.

Lemma value_turn {A} d (m : machine U) c i (k : unit -> M U A) :
  machine_ok max 0 m -> state_ (parser m) = s_header_value -> header_value_mark m = Some i ->
  0 <= p m < len d -> 0 <= i <= p m -> len d <= max -> max < 2 ^ 31 ->
  let e := run_to text d (p m) in
  let n := nread_ m + turn_bytes d (p m) e in
  classify (bind (loop_body (plain h) max d false false c) k m) =
    match value_run (slice d (p m) e) (header_state (parser m)) (parser m) with
    | None => Rejected
    | Some (hs, q) =>
        if max <? n then Rejected
        else match d !! Z.to_nat e with
             | None => classify (k tt (at_ m (set_header_state hs q) (e - 1) n))
             | Some ch =>
                 classify (k tt (after_callback h d Header_value i
                   (at_ m (set_header_state hs (set_state (value_end_state ch) q)) e n)))
             end
    end.
Proof.
  intros Hok Hs Hi Hp Hip Hlen Hmax e n.
  destruct Hok as [[He Hl Ha Hn Hcl Hst] _ _ _]. unfold state_ok in Hst. rewrite Hs in Hst.
  assert (Hpos : 1 <= turn_bytes d (p m) e) by by apply turn_bytes_pos.
  unfold loop_body. rewrite bind_assoc, bind_gets, Hs, bind_assoc. cbn [CROW_PARSING_HEADER].
  rewrite classify_count by lia. destruct (max <? nread_ m + 1) eqn:E1; b2p.
  { rewrite (proj2 (Z.ltb_lt max n)) by lia. by repeat case_match. }
  unfold reexecutions. rewrite execute_byte_S, bind_assoc, bind_gets. cbn [at_ parser]. rewrite Hs. cbn [switch].
  assert (H := value_case_run d (at_ m (parser m) (p m) (nread_ m + 1)) i _ Hlen Hmax
    ltac:(cbn; lia) He Hs eq_refl Hst Hi Hp Hip).
  cbn [at_ parser p nread_] in H. fold e in H.
  replace (nread_ m + 1 + (turn_bytes d (p m) e - 1)) with n in H by lia.
  unfold bind at 1. destruct (value_run _ _ _) as [[hs q]|]; [|by destruct H as [m' ->]].
  destruct (max <? n); [by destruct H as [m' ->]|].
  by destruct (d !! Z.to_nat e); rewrite H.
Qed.

Lemma value_step_ok hs q n c hs' q' : value_step hs q c = Some (hs', q') -> parser_ok max 0 q n ->
  state_ q = s_header_value -> n + 1 <= max ->
  parser_ok max 0 (set_header_state hs' q') (n + 1) /\ state_ (set_header_state hs' q') = s_header_value.
Proof.
  intros H [He Hl Ha Hn Hc Hs] Hst Hle.
  destruct (value_step_shape _ _ _ _ _ H Hst) as (ix & n' & -> & Hn').
  split; [|exact Hst]. split; cbn; try done; [lia|by apply Hn'|]. unfold state_ok. cbn. rewrite Hst.
  by eapply value_step_state.
Qed.


(** ** The bytes of a body *)

Definition reads_body (s : state) : Prop := s = s_body_identity \/ s = s_chunk_data.

(** The machine after [t] bytes of the body, [p] on the last of them. *)
Definition taken (t : Z) (m : machine U) : machine U :=
  Machine (set_content_length (content_length (parser m) - t) (parser m)) (user m) (p m + t - 1) (nread_ m)
    None None None (url_start_mark m) (Some (default (p m) (body_mark m))).

(** The machine once the whole body, or the chunk, is there. *)
Definition finished (d : list ascii) (m : machine U) : machine U :=
  let q := set_state (match state_ (parser m) with s_chunk_data => s_chunk_data_almost_done | _ => s_message_done end)
    (parser m) in
  match state_ (parser m) with
  | s_chunk_data => at_ m q (p m) (nread_ m)
  | _ => Machine q (completed h q (feed h Body (user m) (slice d (default 0 (body_mark m)) (p m + 1)))) (p m)
           (nread_ m) None None None (url_start_mark m) None
  end.

Record body_ok (d : list ascii) (m : machine U) : Prop := {
  body_machine : machine_ok max 0 m;
  body_state : reads_body (state_ (parser m));
  body_p : p m < len d
}.

Lemma body_marks (m : machine U) : machine_ok max 0 m -> reads_body (state_ (parser m)) ->
  header_field_mark m = None /\ header_value_mark m = None /\ url_mark m = None /\
  (forall i, body_mark m = Some i -> 0 <= i < p m).
Proof.
  intros [_ Hm _ _] Hs.
  pose proof (Hm Header_field ltac:(done)) as M1. pose proof (Hm Header_value ltac:(done)) as M2.
  pose proof (Hm Url ltac:(done)) as M3. pose proof (Hm Body ltac:(done)) as M4. unfold mark_ok in *. cbn in *.
  destruct (header_field_mark m), (header_value_mark m), (url_mark m), (body_mark m);
    destruct Hs as [Hs|Hs]; rewrite Hs in *; cbn in *; naive_solver lia.
Qed.

Lemma body_length (m : machine U) : machine_ok max 0 m -> reads_body (state_ (parser m)) ->
  1 <= content_length (parser m) < CROW_ULLONG_MAX /\
  (state_ (parser m) = s_chunk_data -> has_flag F_CHUNKED (parser m) = true).
Proof.
  intros [[_ _ _ _ Hc Hs] _ _ _] [E|E]; unfold state_ok in Hs; rewrite E in *; (split; [lia|]); [done|].
  by destruct Hs.
Qed.

Lemma take_body_run d (m : machine U) : machine_ok max 0 m -> reads_body (state_ (parser m)) -> p m < len d ->
  len d < 2 ^ 31 ->
  take_body d m = Value tt (taken (Z.min (content_length (parser m)) (len d - p m)) m).
Proof.
  intros Hok Hs Hp Hl. destruct (body_marks m Hok Hs) as (M1 & M2 & M3 & M4).
  destruct (body_length m Hok Hs) as [Hn _]. assert (H0 : 0 <= p m) by apply Hok.
  unfold take_body. rewrite !bind_gets. unfold CROW_MARK. rewrite !bind_assoc, !bind_gets. cbn [mark_of].
  assert (E1 : to_u64 (len d - p m) = len d - p m) by (unfold to_u64, wrap_u; rewrite Z.mod_small; lia).
  rewrite E1. assert (E2 : forall t, 0 <= t <= content_length (parser m) ->
    to_u64 (content_length (parser m) - t) = content_length (parser m) - t).
  { intros t Ht. unfold to_u64, wrap_u. unfold CROW_ULLONG_MAX in Hn. rewrite Z.mod_small; lia. }
  rewrite E2 by lia. unfold taken. destruct (body_mark m) as [i|] eqn:Eb; cbn [default].
  - rewrite bind_ret, on_parser_then. unfold set_p, modify, at_. cbn. by rewrite M1, M2, M3, Eb.
  - rewrite bind_assoc, bind_gets. unfold set_mark. erewrite bind_value by reflexivity.
    rewrite on_parser_then. unfold set_p, modify, at_. cbn. by rewrite M1, M2, M3.
Qed.

Lemma message_done_run d c (m : machine U) fuel : http_errno_ (parser m) = CHPE_OK ->
  state_ (parser m) = s_message_done ->
  execute_byte (plain h) max d (S fuel) false false c m =
    Value tt (Machine (parser m) (completed h (parser m) (user m)) (p m) (nread_ m) (header_field_mark m)
      (header_value_mark m) (url_mark m) (url_start_mark m) (body_mark m)).
Proof.
  intros He Hs. rewrite execute_byte_S, bind_gets, Hs. cbn [switch]. unfold case_message_done, NOTIFY_message_complete,
    CROW_CALLBACK_NOTIFY, CROW_CALLBACK_NOTIFY_, errno. rewrite !bind_assoc, bind_gets, bind_assoc, bind_gets, He.
  rewrite bool_decide_true by done. unfold bind, called, gets, ret, leave_if_errored, errno. cbn.
  unfold bind, gets. cbn. by rewrite He, bool_decide_true.
Qed.

Lemma body_callback d er i (m : machine U) : http_errno_ (parser m) = CHPE_OK -> body_mark m = Some i ->
  0 <= i <= p m -> p m < len d ->
  CROW_CALLBACK_DATA_ (plain h) d Body 1 er m =
    Value tt (Machine (parser m) (feed h Body (user m) (slice d i (p m + 1))) (p m) (nread_ m)
      (header_field_mark m) (header_value_mark m) (url_mark m) (url_start_mark m) None).
Proof.
  intros He Hk Hi Hp. unfold CROW_CALLBACK_DATA_, bind, errno, gets. rewrite He, bool_decide_true by done.
  cbn -[mark_of]. cbn [mark_of]. rewrite Hk. cbn. unfold bytes_at. replace (i + (p m - i + 1)) with (p m + 1) by lia.
  rewrite !(proj2 (Z.leb_le _ _)) by lia. cbn. rewrite He, bool_decide_true by done.
  unfold slice. replace (p m + 1 - i) with (p m - i + 1) by lia. by destruct m.
Qed.

Lemma body_turn d c (m : machine U) : body_ok d m -> len d < 2 ^ 31 ->
  let t := Z.min (content_length (parser m)) (len d - p m) in
  loop_body (plain h) max d false false c m =
    Value tt (if content_length (parser m) - t =? 0 then finished d (taken t m) else taken t m).
Proof.
  intros [Hok Hs Hp] Hl t. destruct (body_marks m Hok Hs) as (M1 & M2 & M3 & M4).
  destruct (body_length m Hok Hs) as [Hn Hch]. assert (H0 : 0 <= p m) by apply Hok.
  assert (He : http_errno_ (parser m) = CHPE_OK) by apply Hok.
  assert (Ht := take_body_run d m Hok Hs Hp Hl). fold t in Ht.
  assert (Ha : negb (content_length (parser m) =? 0) && negb (content_length (parser m) =? CROW_ULLONG_MAX) = true).
  { rewrite !(proj2 (Z.eqb_neq _ _)) by lia. done. }
  unfold loop_body. rewrite bind_gets. unfold reexecutions. rewrite execute_byte_S.
  destruct Hs as [Hs|Hs]; rewrite Hs; cbn [CROW_PARSING_HEADER]; rewrite bind_ret, bind_gets, Hs; cbn [switch].
  - unfold case_body_identity. rewrite bind_assoc. unfold body_asserts. rewrite bind_assoc, bind_gets, Ha.
    unfold assert_. rewrite bind_ret, bind_assoc. erewrite bind_value by exact Ht.
    unfold body_left. rewrite bind_assoc, bind_gets. cbn [taken parser content_length set_content_length].
    destruct (content_length (parser m) - t =? 0) eqn:E; cbn [negb]; [|done].
    unfold goto_state. rewrite bind_assoc, on_parser_then, bind_assoc, bind_gets, bind_assoc.
    erewrite bind_value by (eapply body_callback; [exact He|reflexivity| |cbn; lia];
      cbn; destruct (body_mark m) as [i|]; cbn; [specialize (M4 i eq_refl)|]; lia).
    unfold reexecute. rewrite bind_ret. rewrite message_done_run by done.
    unfold finished. cbn [taken parser set_content_length state_]. by rewrite Hs.
  - unfold case_chunk_data. rewrite bind_assoc. unfold assert_chunked, parser_is.
    rewrite bind_assoc, bind_gets, Hch by done. unfold assert_ at 1. rewrite bind_ret, bind_assoc.
    unfold body_asserts. rewrite bind_assoc, bind_gets, Ha.
    unfold assert_. rewrite bind_ret, bind_assoc. erewrite bind_value by exact Ht.
    unfold body_left. rewrite bind_assoc, bind_gets. cbn [taken parser content_length set_content_length].
    destruct (content_length (parser m) - t =? 0) eqn:E; cbn [negb]; [|done].
    unfold goto_state. rewrite bind_assoc, on_parser_then. unfold finished. cbn [taken parser set_content_length state_].
    by rewrite Hs.
Qed.

End turns.

#[global] Arguments value_turn {U h max A}.
#[global] Arguments body_turn {U h max}.
#[global] Arguments body_marks {U max}.
#[global] Arguments body_length {U max}.

