(* ===== verification/HttpPieces.v ===== *)
(** * A request in pieces

    A buffer given to [http_parser_execute] comes to the same as its bytes given
    one by one ([resume_bytewise]), as long as the start of the URL is
    remembered from one call to the next. *)

From S2P Require Import Prelude CInt CArray HttpData HttpParser HttpSteps HttpBytes HttpFeed HttpTurns.
#[local] Open Scope http_scope.

Section pieces.
Context {U : Type} (h : handlers U) `{!Mergeable h} (max : Z).
#[local] Abbreviation run_buffer := (run_buffer h max).
#[local] Abbreviation resume := (resume h max).
#[local] Abbreviation bytewise := (bytewise h max).
#[local] Abbreviation rest := (rest h max).
#[local] Abbreviation given := (given h).
#[local] Abbreviation verdict := (verdict (U := U)).
#[local] Abbreviation finished := (finished h).

(** ** The two ways of feeding a buffer *)

Definition fresh_from (s : state) (from : option Z) : Prop :=
  match s with s_start_req | s_req_method | s_req_spaces_before_url => from = None | _ => True end.

(** A verdict after which the parser's invariant holds, and that is not a failed
    assertion, a read outside the buffer or the model's fuel. *)
Definition fine (v : verdict) : Prop :=
  match v with
  | Accepted q _ from => parser_ok max 0 q (nread q) /\ fresh_from (state_ q) from
  | Rejected => True
  | Undefined why => why = NullPointerDifference
  end.

Definition ready (d : list ascii) (m : machine U) : Prop :=
  machine_ok max 0 m /\ p m <= len d /\
  forall k i, pending m = Some (k, i) -> i < p m \/ p m = 0.

(** From [m] on, the buffer is treated as its bytes one by one are. *)
Definition lockstep (d : list ascii) (m : machine U) : Prop :=
  forall fuel, len d - p m < Z.of_nat fuel ->
    fine (classify (rest d fuel m)) /\
    bytewise (drop (Z.to_nat (p m)) d) (set_nread (nread_ m) (parser m)) (flushed h d m) (url_from m) =
      classify (rest d fuel m).

Lemma fine_accepted (m : machine U) u : machine_ok max 0 m ->
  fine (Accepted (set_nread (nread_ m) (parser m)) u (url_from m)).
Proof.
  intros [[] _ Hu _]. split; [done|]. unfold fresh_from, url_from. cbn. by destruct (state_ (parser m)); try rewrite Hu.
Qed.

Lemma ready_flushed d m k i : ready d m -> p m <> 0 -> pending m = Some (k, i) ->
  flushed h d m = feed h k (user m) (slice d i (p m)).
Proof.
  intros (Hok & _ & Hs) Hp Hk. unfold flushed. rewrite Hk.
  rewrite (proj2 (Z.ltb_lt _ _)); [done|]. by destruct (Hs k i Hk).
Qed.

Lemma ready_given d m : ready d m -> p m <> 0 -> given d m = flushed h d m.
Proof.
  intros Hr Hp. unfold given. destruct (pending m) as [[k i]|] eqn:E.
  - by rewrite (ready_flushed _ _ _ _ Hr Hp E).
  - unfold flushed. by rewrite E.
Qed.

Lemma lockstep_end d m : ready d m -> p m = len d -> len d <> 0 -> lockstep d m.
Proof.
  intros Hr Hp Hd fuel Hf. destruct Hr as (Hok & Hle & Hs).
  rewrite rest_end; [|lia|done|by apply Hok|by eapply machine_lone|by intros; eapply pending_in].
  split; [by apply fine_accepted|].
  rewrite Hp, drop_ge by (unfold len; lia). cbn [bytewise]. f_equal. symmetry.
  apply ready_given; [done|lia].
Qed.

Lemma rest_S d fuel (m : machine U) c : 0 <= p m < len d -> d !! Z.to_nat (p m) = Some c ->
  rest d (S fuel) m = (loop_body (plain h) max d false false c ;; set_p Z.succ ;; rest d fuel) m.
Proof. intros Hp Hc. unfold rest. by rewrite (loop_turn _ _ _ c). Qed.

Lemma drop_byte (d : list ascii) o c : 0 <= o -> d !! Z.to_nat o = Some c ->
  drop (Z.to_nat o) d = c :: drop (Z.to_nat (o + 1)) d.
Proof. intros Ho Hc. rewrite (drop_S _ _ _ Hc). do 2 f_equal. lia. Qed.

Lemma advance_ready d m : machine_ok max 0 m -> p m < len d -> ready d (advance m).
Proof.
  intros Hok Hp. assert (Hin := fun k i => pending_in (max := max) m 0 k i). destruct Hok as [Hq Hm Hu Hp0].
  split; [|split].
  - split; [done| |done|cbn; lia]. intros k Hk. specialize (Hm k Hk). unfold mark_ok in *.
    change (mark_of k (advance m)) with (mark_of k m). cbn [advance parser p].
    destruct (mark_of k m) as [i|]; [|done]. destruct Hm as [? [?|(?&?&?)]]; (split; [lia|]); [by left|].
    right. split; [done|]. split; [done|lia].
  - cbn. lia.
  - intros k i Hk. left. cbn [advance p]. assert (0 <= i <= p m); [|lia].
    apply (Hin k i); [by split|exact Hk].
Qed.

(** What [sync] says of the ends of two turns. *)
Lemma set_nread_sync (m1 m1' : machine U) : nread_ m1 = nread_ m1' ->
  set_nread 0 (parser m1) = set_nread 0 (parser m1') ->
  set_nread (nread_ m1) (parser m1) = set_nread (nread_ m1') (parser m1').
Proof.
  intros Hn Hq. rewrite Hn. change (set_nread (nread_ m1') (set_nread 0 (parser m1)) =
    set_nread (nread_ m1') (set_nread 0 (parser m1'))). by rewrite Hq.
Qed.

Lemma url_from_sync d o (m1 m1' : machine U) : sync h d o m1 m1' ->
  url_from (advance m1) = url_from (advance m1').
Proof.
  intros (P1 & P2 & _ & _ & _ & _ & Hus & _). unfold url_from. cbn [advance p url_start_mark].
  rewrite P1, P2, Hus. destruct (url_start_mark m1); cbn; [|done]. f_equal. lia.
Qed.

Lemma given_sync d c (m1 m1' : machine U) : sync h d (p m1) m1 m1' -> machine_ok max 0 m1 ->
  d !! Z.to_nat (p m1) = Some c -> given [c] (advance m1') = flushed h d (advance m1).
Proof.
  intros (P1 & P2 & Hn & Hq & Hpe & Hco & Hus & Hu) Hok Hc. assert (H0 : 0 <= p m1) by apply Hok.
  unfold HttpFeed.given, flushed in *.
  change (pending (advance m1')) with (pending m1'). change (pending (advance m1)) with (pending m1).
  rewrite Hpe. destruct (pending m1) as [[k i]|] eqn:Ek; cbn [option_map fst] in *; [|cbn; by rewrite Hu].
  assert (Hi := pending_in m1 0 k i Hok Ek). cbn [advance p user] in *.
  rewrite (proj2 (Z.ltb_lt _ _)) by lia. change (user (advance m1')) with (user m1'). rewrite P1.
  change (slice [c] 0 (Z.succ 0)) with [c]. rewrite Hu.
  rewrite <- (slice_app d i (p m1) (Z.succ (p m1))) by lia.
  rewrite (slice_step d (p m1) (Z.succ (p m1)) c) by (lia || done).
  replace (p m1 + 1) with (Z.succ (p m1)) by lia. rewrite slice_empty.
  destruct (i <? p m1) eqn:El; [by rewrite feed_app|]. b2p. replace i with (p m1) by lia. by rewrite slice_empty.
Qed.

(** A turn that takes one byte in the same way in both buffers. *)
Lemma lockstep_sync d m c : Forall (fun c => c <> NUL) d -> max < 2 ^ 31 ->
  ready d m -> p m < len d -> d !! Z.to_nat (p m) = Some c -> simple (state_ (parser m)) ->
  (forall m1, p m1 = p m -> machine_ok max 0 m1 -> lockstep d (advance m1)) -> lockstep d m.
Proof.
  intros Hnul Hmax Hr Hp Hc Hs IH fuel Hf. assert (Hr' := Hr). destruct Hr' as (Hok & _ & _).
  assert (H0 : 0 <= p m) by apply Hok.
  destruct fuel as [|fuel]; [lia|]. rewrite (rest_S _ _ _ c) by (lia || done).
  rewrite (drop_byte _ _ c) by (lia || done). cbn [bytewise].
  assert (Hcn : c <> NUL) by (eapply Forall_lookup_1 in Hnul; eauto).
  assert (H1 := loop_body_ok h max d m c false Hok Hp Hs Hcn Hmax).
  assert (H2 := loop_body_sync h max d m c false Hok Hp Hs Hcn Hmax).
  destruct (loop_body (plain h) max [c] false false c (twin h d m (nread_ m))) as [[] m1'| | |why'] eqn:E'.
  - destruct (loop_body (plain h) max d false false c m) as [[] m1| | |why] eqn:E; try done.
    destruct H1 as [Hp1 Hok1]. rewrite <- Hp1 in H2. assert (Hsync := H2). destruct H2 as (P1 & P2 & Hn & Hq & Hpe & Hco & Hus & Hu).
    rewrite (run_byte_value _ _ _ m1');
      [|by apply Hok|exact E'|done|..].
    + erewrite bind_value by exact E. unfold set_p. rewrite (bind_value _ _ _ tt (advance m1)) by done.
      destruct (IH m1 Hp1 Hok1 fuel) as [Hfine Hag]; [cbn; lia|]. split; [exact Hfine|].
      change (p (advance m1)) with (Z.succ (p m1)) in Hag.
      replace (Z.to_nat (Z.succ (p m1))) with (Z.to_nat (p m + 1)) in Hag by lia.
      replace (set_nread (nread_ m1') (parser m1')) with (set_nread (nread_ (advance m1)) (parser (advance m1)))
        by by apply set_nread_sync.
      replace (url_from (advance m1')) with (url_from (advance m1)) by (eapply url_from_sync; exact Hsync).
      replace (given [c] (advance m1')) with (flushed h d (advance m1)); [exact Hag|].
      symmetry. eapply given_sync; [exact Hsync|exact Hok1|by rewrite Hp1].
    + change (http_errno_ (set_nread 0 (parser m1')) = CHPE_OK). rewrite <- Hq. apply Hok1.
    + rewrite Hco. by eapply machine_lone.
    + intros k i. rewrite Hpe. destruct (pending m1) as [[]|]; cbn; congruence.
  - rewrite run_byte_stop; [rewrite E'|by apply Hok|by rewrite E'].
    unfold bind. destruct (loop_body (plain h) max d false false c m); try done.
  - rewrite run_byte_stop; [rewrite E'|by apply Hok|by rewrite E'].
    unfold bind. destruct (loop_body (plain h) max d false false c m); try done.
  - rewrite run_byte_stop; [rewrite E'|by apply Hok|by rewrite E']. cbn [classify].
    unfold bind. destruct (loop_body (plain h) max d false false c m) as [| | |why]; try done.
    cbn in H1, H2. by subst.
Qed.


Lemma ready_end d m fuel : ready d m -> p m = len d -> (0 < fuel)%nat ->
  classify (rest d fuel m) = Accepted (set_nread (nread_ m) (parser m)) (given d m) (url_from m).
Proof.
  intros (Hok & _ & _) Hp Hf. apply rest_end; [done|done|apply Hok|by eapply machine_lone|].
  intros. by eapply pending_in.
Qed.

Lemma twin_field d m : state_ (parser m) = s_header_field ->
  twin h d m (nread_ m) =
    Machine (set_nread (nread_ m) (parser m)) (flushed h d m) 0 (nread_ m) (Some 0) None None (url_from m) None.
Proof. intros Hs. unfold twin. by rewrite Hs. Qed.

(** Where the URL starts for the byte after the one at [p]. *)
Definition url_next (m : machine U) : option Z := option_map (fun s => s - (p m + 1)) (url_start_mark m).

Lemma url_next_from (m : machine U) : option_map (fun s => s - 1) (url_from m) = url_next m.
Proof. unfold url_from, url_next. destruct (url_start_mark m); cbn; [|done]. f_equal. lia. Qed.

Lemma twin_ok d m : parser_ok max 0 (parser m) (nread_ m) ->
  match state_ (parser m) with
  | s_start_req | s_req_method | s_req_spaces_before_url => url_start_mark m = None
  | _ => True end ->
  machine_ok max 0 (twin h d m (nread_ m)).
Proof.
  intros Hq Hu. destruct Hq as [He Hl Ha Hn Hc Hs]. split; [by split| | |done].
  - intros k Hk. unfold mark_ok. cbn [twin parser set_nread state_ p mark_of].
    destruct k; cbn; try done; destruct (marked (state_ (parser m))) as [[]|] eqn:E; try done; try (split; [lia|by left]).
    all: exfalso; clear - E; by destruct (state_ (parser m)).
  - cbn. destruct (state_ (parser m)); try done; by rewrite Hu.
Qed.

(** The marks of a machine in the state [s]. *)
Lemma only_mark (m : machine U) k : machine_ok max 0 m -> marked (state_ (parser m)) = Some k -> k <> Url_start ->
  exists i, mark_of k m = Some i /\ pending m = Some (k, i) /\ 0 <= i <= p m /\
    (forall k', k' <> Url_start -> k' <> k -> mark_of k' m = None).
Proof.
  intros Hok Hs Hk. assert (Hl := machine_lone m 0 Hok). 
  destruct Hok as [Hq Hm Hu Hp]. assert (Hmk := Hm k Hk). unfold mark_ok in Hmk.
  destruct (mark_of k m) as [i|] eqn:Ek; [|done]. exists i. split; [done|].
  assert (Hother : forall k', k' <> Url_start -> k' <> k -> mark_of k' m = None).
  { intros k' Hk' Hne. destruct (mark_of k' m) as [j|] eqn:Ej; [|done]. exfalso. clear - Hl Ek Ej Hne Hk Hk'.
    unfold mark_count in Hl. destruct k, k'; cbn in *; try done; rewrite Ek, Ej in Hl;
      cbn in Hl; repeat match type of Hl with context [is_set ?x] => destruct x; cbn in Hl end; lia. }
  split; [|split; [lia|done]].
  assert (A := Hother Header_field ltac:(done)). assert (B := Hother Header_value ltac:(done)).
  assert (C := Hother Url ltac:(done)). unfold pending. cbn in *.
  destruct k; cbn in *; try done; rewrite ?Ek, ?A, ?B, ?C by done; done.
Qed.

Lemma ready_at d m q o n k i : ready d m -> marked (state_ (parser m)) = Some k -> k <> Url_start ->
  pending m = Some (k, i) -> state_ q = state_ (parser m) -> parser_ok max 0 q n -> p m <= o <= len d ->
  i < o -> ready d (at_ m q o n).
Proof.
  intros (Hok & Hp & Hst) Hs Hk Hpe Hq Hqok Ho Hi.
  destruct (only_mark m k Hok Hs Hk) as (i' & Hi' & Hpe' & Hr & Hoth).
  rewrite Hpe in Hpe'. injection Hpe' as <-.
  split; [|split; [cbn; lia|]].
  - destruct Hok as [_ Hm Hu H0]. split; [done| |cbn; by rewrite Hq|cbn; lia].
    intros k' Hk'. specialize (Hm k' Hk'). unfold mark_ok in *.
    change (mark_of k' (at_ m q o n)) with (mark_of k' m). cbn [at_ parser p]. rewrite Hq.
    destruct (mark_of k' m) as [j|]; [|done]. destruct Hm as [? [?|(?&?&?)]]; (split; [lia|]); [by left|].
    right. split; [done|]. split; [done|lia].
  - intros k' j Hj. change (pending (at_ m q o n)) with (pending m) in Hj. rewrite Hpe in Hj.
    injection Hj as <- <-. left. cbn. lia.
Qed.

Lemma flushed_more d m q n k i c : pending m = Some (k, i) -> 0 <= i <= p m -> d !! Z.to_nat (p m) = Some c ->
  flushed h d (at_ m q (p m + 1) n) = feed h k (flushed h d m) [c].
Proof.
  intros Hpe Hi Hc. unfold flushed. change (pending (at_ m q (p m + 1) n)) with (pending m). rewrite Hpe.
  cbn [at_ p user]. rewrite (proj2 (Z.ltb_lt i (p m + 1))) by lia.
  rewrite <- (slice_app d i (p m) (p m + 1)) by lia.
  rewrite (slice_step d (p m) (p m + 1) c) by (lia || done). rewrite slice_empty.
  destruct (i <? p m) eqn:E; [by rewrite feed_app|]. b2p. replace i with (p m) by lia. by rewrite slice_empty.
Qed.

Lemma field_step_ok q n c : parser_ok max 0 q n -> state_ q = s_header_field -> n + 1 <= max ->
  parser_ok max 0 (field_step q c) (n + 1) /\ state_ (field_step q c) = s_header_field.
Proof.
  intros [He Hl Ha Hn Hc Hs] Hst Hle. unfold state_ok in Hs. rewrite Hst in Hs.
  destruct (field_step_shape q c Hs) as (hs & ix & b & Hf & ->).
  split; [|exact Hst]. split; cbn; try done; [lia|]. unfold state_ok. cbn. by rewrite Hst.
Qed.

Lemma small_field d m c : ready d m -> state_ (parser m) = s_header_field -> 1 <= max < 2 ^ 31 ->
  let q := parser m in let n := nread_ m in
  resume [c] (set_nread n q) (flushed h d m) (url_from m) =
    if max <? n + 1 then Rejected
    else if is_token c then
      Accepted (set_nread (n + 1) (field_step q c)) (feed h Header_field (flushed h d m) [c]) (url_next m)
    else if same ":" c then
      Accepted (set_nread (n + 1) (set_state s_header_value_discard_ws q))
        (feed h Header_field (flushed h d m) []) (url_next m)
    else Rejected.
Proof.
  intros Hr Hs Hmax. cbn zeta. rewrite run_byte by apply Hr. assert (Hokt := twin_ok d m (ok_parser _ _ _ (proj1 Hr)) (ok_fresh_url _ _ _ (proj1 Hr))).
  rewrite <- url_next_from.
  rewrite (twin_field d m Hs) in *.
  rewrite (field_turn [c] _ c 0) by (cbn; done || lia || (unfold len; cbn; lia)).
  cbn [nread_ parser p]. change (Z.to_nat 0) with 0%nat.
  assert (He : http_errno_ (parser m) = CHPE_OK) by apply Hr.
  destruct (is_token c) eqn:Et.
  - rewrite (run_to_in _ _ 0 c) by done. change (run_to is_token [c] (0 + 1)) with 1.
    change (turn_bytes [c] 0 1) with 1. destruct (max <? nread_ m + 1) eqn:E; [done|]. b2p.
    change (slice [c] 0 1) with [c]. cbn [fold_left]. rewrite field_step_nread.
    change ([c] !! Z.to_nat 1) with (@None ascii).
    destruct (field_step_ok (parser m) (nread_ m) c) as [Hq _]; [apply Hr|done|lia|].
    unfold set_p. erewrite bind_value by reflexivity. rewrite rest_end; cbn; try done; try lia.
    + apply Hq.
    + intros k j [= <- <-]. lia.
  - rewrite (run_to_out _ _ 0 c) by done. change (turn_bytes [c] 0 0) with 1.
    destruct (max <? nread_ m + 1) eqn:E; [done|]. change ([c] !! Z.to_nat 0) with (Some c).
    change (slice [c] 0 0) with (@nil ascii). cbn [fold_left]. destruct (same ":" c); [|done].
    unfold set_p. erewrite bind_value by reflexivity. rewrite rest_end; cbn; try done; lia.
Qed.

Lemma big_field_token d m c fuel : len d <= max -> max < 2 ^ 31 -> ready d m -> p m < len d ->
  state_ (parser m) = s_header_field -> d !! Z.to_nat (p m) = Some c -> is_token c = true ->
  len d - p m < Z.of_nat (S fuel) ->
  classify (rest d (S fuel) m) =
    if max <? nread_ m + 1 then Rejected
    else classify (rest d (S fuel) (at_ m (field_step (parser m) c) (p m + 1) (nread_ m + 1))).
Proof.
  intros Hlen Hmax Hr Hp Hs Hc Ht Hf. assert (Hr' := Hr). destruct Hr' as (Hok & _ & _).
  assert (H0 : 0 <= p m) by apply Hok.
  destruct (only_mark m Header_field Hok) as (i & Hi & Hpe & Hir & _); [by rewrite Hs|done|].
  rewrite (rest_S _ _ m c), (field_turn d m c i) by (done || lia).
  rewrite (run_to_in _ _ (p m) c) by (lia || done).
  assert (Hb := run_to_bounds is_token d (p m + 1) ltac:(lia)). set (e := run_to is_token d (p m + 1)) in *.
  assert (Hn : turn_bytes d (p m) e = 1 + turn_bytes d (p m + 1) e) by (unfold turn_bytes; case_match; lia).
  assert (Hpos : 0 <= turn_bytes d (p m + 1) e) by (unfold turn_bytes; case_match; lia).
  rewrite Hn, Z.add_assoc. rewrite (slice_step d (p m) e c) by (lia || done). cbn [fold_left].
  destruct (max <? nread_ m + 1) eqn:E; b2p; [by rewrite (proj2 (Z.ltb_lt _ _)) by lia|].
  destruct (field_step_ok (parser m) (nread_ m) c) as [Hq Hst]; [apply Hok|done|lia|].
  set (m1 := at_ m (field_step (parser m) c) (p m + 1) (nread_ m + 1)).
  assert (Hr1 : ready d m1) by (eapply ready_at; rewrite ?Hs, ?Hst; (done || lia)).
  destruct (decide (p m + 1 = len d)) as [Hend|Hne].
  - assert (He : e = len d) by (subst e; by rewrite Hend, run_to_end).
    assert (turn_bytes d (p m + 1) e = 0) as -> by (unfold turn_bytes; rewrite He, lookup_none; lia).
    rewrite Z.add_0_r, (proj2 (Z.ltb_ge _ _)) by lia. rewrite He, lookup_none, Hend, slice_empty. cbn [fold_left].
    unfold set_p. rewrite (bind_value _ _ _ tt m1) by (unfold modify, m1, at_; cbn; do 2 f_equal; lia).
    by rewrite !(ready_end d m1) by (done || lia).
  - destruct (lookup_len d (p m + 1)) as [c1 Hc1]; [lia|].
    rewrite (rest_S _ _ m1 c1), (field_turn d m1 c1 i) by (first [exact Hst | exact Hi | exact Hc1 | apply Hr1 | cbn; lia]).
    done.
Qed.


(** The end of a turn. *)
Lemma continue d fuel (m1 : machine U) o q u from : 0 <= p m1 -> p m1 = o -> o < len d ->
  lockstep d (advance m1) -> len d - o <= Z.of_nat fuel ->
  q = set_nread (nread_ m1) (parser m1) -> u = flushed h d (advance m1) -> from = url_next m1 ->
  fine (classify ((set_p Z.succ ;; rest d fuel) m1)) /\
  bytewise (drop (Z.to_nat (o + 1)) d) q u from = classify ((set_p Z.succ ;; rest d fuel) m1).
Proof.
  intros H0 <- Hp Hl Hf -> -> ->.
  unfold set_p. rewrite (bind_value _ _ _ tt (advance m1)) by done.
  destruct (Hl fuel) as [Hfine Hag]; [cbn; lia|]. split; [exact Hfine|].
  replace (p m1 + 1) with (p (advance m1)) by (cbn; lia). exact Hag.
Qed.

Lemma lockstep_field d m : len d <= max -> max < 2 ^ 31 -> ready d m -> p m < len d ->
  state_ (parser m) = s_header_field ->
  (forall m1, ready d m1 -> p m1 = p m + 1 -> lockstep d m1) -> lockstep d m.
Proof.
  intros Hlen Hmax Hr Hp Hs IH fuel Hf. assert (Hr' := Hr). destruct Hr' as (Hok & _ & Hst).
  assert (H0 : 0 <= p m) by apply Hok. destruct (lookup_len d (p m)) as [c Hc]; [lia|].
  destruct (only_mark m Header_field Hok) as (i & Hi & Hpe & Hir & Hoth); [by rewrite Hs|done|].
  destruct fuel as [|fuel]; [lia|]. rewrite (drop_byte _ _ c) by (lia || done). cbn [bytewise].
  rewrite small_field by (done || lia).
  destruct (is_token c) eqn:Et.
  - rewrite (big_field_token d m c) by (done || lia).
    destruct (max <? nread_ m + 1) eqn:E; [by split|]. b2p.
    destruct (field_step_ok (parser m) (nread_ m) c) as [Hq Hst']; [apply Hok|done|lia|].
    set (m1 := at_ m (field_step (parser m) c) (p m + 1) (nread_ m + 1)).
    assert (Hr1 : ready d m1) by (eapply ready_at; rewrite ?Hs, ?Hst'; (done || lia)).
    destruct (IH m1 Hr1 eq_refl (S fuel)) as [Hfine Hag]; [cbn; lia|]. split; [exact Hfine|].
    by rewrite <- (flushed_more d m (field_step (parser m) c) (nread_ m + 1) Header_field i c Hpe Hir Hc).
  - rewrite (rest_S _ _ _ c) by (lia || done). rewrite (field_turn d m c i) by (done || lia).
    rewrite (run_to_out _ _ _ _ Hc Et). rewrite Hc. assert (turn_bytes d (p m) (p m) = 1) as ->.
    { unfold turn_bytes. rewrite Hc. lia. }
    destruct (max <? nread_ m + 1) eqn:E; [by split|]. b2p.
    destruct (same ":" c); [|by split].
    rewrite slice_empty. cbn [fold_left].
    assert (V1 : header_value_mark m = None) by by apply (Hoth Header_value).
    assert (V2 : url_mark m = None) by by apply (Hoth Url).
    assert (V3 : body_mark m = None) by by apply (Hoth Body).
    assert (Hm1 : machine_ok max 0 (after_callback h d Header_field i
              (at_ m (set_state s_header_value_discard_ws (parser m)) (p m) (nread_ m + 1)))).
    { destruct Hok as [[He Hl Ha Hn Hcl _] _ _ _].
      apply machine_ok_mk; cbn; try done; [split; cbn; try done; try lia; try (unfold state_ok; done)|..].
      all: by rewrite ?V1, ?V2, ?V3. }
    eapply continue; [apply Hm1|done|done| |cbn; lia|..].
    + apply IH; [by apply advance_ready|cbn; lia].
    + done.
    + unfold flushed at 2. unfold pending. cbn.
      rewrite V1, V2, V3. unfold flushed. rewrite Hpe. apply feed_pending; [done|lia].
    + done.
Qed.
Lemma twin_value d m : state_ (parser m) = s_header_value ->
  twin h d m (nread_ m) =
    Machine (set_nread (nread_ m) (parser m)) (flushed h d m) 0 (nread_ m) None (Some 0) None (url_from m) None.
Proof. intros Hs. unfold twin. by rewrite Hs. Qed.

Lemma set_header_state_self q : set_header_state (header_state q) q = q.
Proof. by destruct q. Qed.

Lemma small_value d m c : ready d m -> state_ (parser m) = s_header_value -> 1 <= max < 2 ^ 31 ->
  let q := parser m in let n := nread_ m in
  resume [c] (set_nread n q) (flushed h d m) (url_from m) =
    if line_end c then
      if max <? n + 1 then Rejected
      else Accepted (set_nread (n + 1) (set_state (value_end_state c) q))
             (feed h Header_value (flushed h d m) []) (url_next m)
    else match value_step (header_state q) q c with
    | None => Rejected
    | Some (hs', q') =>
        if max <? n + 1 then Rejected
        else Accepted (set_nread (n + 1) (set_header_state hs' q')) (feed h Header_value (flushed h d m) [c]) (url_next m)
    end.
Proof.
  intros Hr Hs Hmax. cbn zeta. rewrite run_byte by apply Hr. assert (Hokt := twin_ok d m (ok_parser _ _ _ (proj1 Hr)) (ok_fresh_url _ _ _ (proj1 Hr))).
  rewrite <- url_next_from.
  rewrite (twin_value d m Hs) in *.
  rewrite (value_turn [c] _ c 0) by (cbn; done || lia || (unfold len; cbn; lia)).
  cbn [nread_ parser p]. change (Z.to_nat 0) with 0%nat.
  assert (He : http_errno_ (parser m) = CHPE_OK) by apply Hr.
  destruct (line_end c) eqn:El.
  - assert (Ht : text c = false) by by unfold text; rewrite El.
    rewrite (run_to_out _ _ 0 c) by done. change (turn_bytes [c] 0 0) with 1. change ([c] !! Z.to_nat 0) with (Some c).
    change (slice [c] 0 0) with (@nil ascii). cbn [value_run]. destruct (max <? nread_ m + 1) eqn:E; [done|].
    unfold set_p. erewrite bind_value by reflexivity. rewrite rest_end; cbn; try done; lia.
  - assert (Ht : text c = true) by by unfold text; rewrite El.
    rewrite (run_to_in _ _ 0 c) by done. change (run_to text [c] (0 + 1)) with 1.
    change (turn_bytes [c] 0 1) with 1. change (slice [c] 0 1) with [c]. cbn [value_run].
    change ([c] !! Z.to_nat 1) with (@None ascii). cbn [set_nread header_state].
    assert (Hf := value_step_fields (header_state (parser m)) (nread_ m) (header_state (parser m)) (parser m) c).
    assert (Hx : set_header_state (header_state (parser m)) (set_nread (nread_ m) (parser m)) =
      set_nread (nread_ m) (parser m)) by by destruct (parser m).
    rewrite Hx in Hf. rewrite Hf.
    destruct (value_step (header_state (parser m)) (parser m) c) as [[hs' q']|] eqn:Ev; [|done].
    cbn [option_map fst snd].
    destruct (max <? nread_ m + 1) eqn:E; [done|]. b2p.
    destruct (value_step_ok max _ _ (nread_ m) _ _ _ Ev) as [Hq _]; [apply Hr|done|lia|].
    unfold set_p. erewrite bind_value by reflexivity. rewrite rest_end; cbn; try done; try lia.
    + apply Hq.
    + intros k j [= <- <-]. lia.
Qed.

Lemma big_value_char d m c fuel : len d <= max -> max < 2 ^ 31 -> ready d m -> p m < len d ->
  state_ (parser m) = s_header_value -> d !! Z.to_nat (p m) = Some c -> line_end c = false ->
  len d - p m < Z.of_nat (S fuel) ->
  classify (rest d (S fuel) m) =
    match value_step (header_state (parser m)) (parser m) c with
    | None => Rejected
    | Some (hs, q) =>
        if max <? nread_ m + 1 then Rejected
        else classify (rest d (S fuel) (at_ m (set_header_state hs q) (p m + 1) (nread_ m + 1)))
    end.
Proof.
  intros Hlen Hmax Hr Hp Hs Hc El Hf. assert (Hr' := Hr). destruct Hr' as (Hok & _ & _).
  assert (H0 : 0 <= p m) by apply Hok.
  destruct (only_mark m Header_value Hok) as (i & Hi & Hpe & Hir & _); [by rewrite Hs|done|].
  assert (Ht : text c = true) by by unfold text; rewrite El.
  rewrite (rest_S _ _ m c), (value_turn d m c i) by (done || lia).
  rewrite (run_to_in _ _ (p m) c) by (lia || done).
  assert (Hb := run_to_bounds text d (p m + 1) ltac:(lia)). set (e := run_to text d (p m + 1)) in *.
  assert (Hn : turn_bytes d (p m) e = 1 + turn_bytes d (p m + 1) e) by (unfold turn_bytes; case_match; lia).
  assert (Hpos : 0 <= turn_bytes d (p m + 1) e) by (unfold turn_bytes; case_match; lia).
  rewrite Hn, Z.add_assoc. rewrite (slice_step d (p m) e c) by (lia || done). cbn [value_run].
  destruct (value_step _ _ _) as [[hs q]|] eqn:Ev; [|done].
  destruct (max <? nread_ m + 1) eqn:E; b2p.
  { rewrite (proj2 (Z.ltb_lt max _)) by lia. by repeat case_match. }
  destruct (value_step_ok max _ _ (nread_ m) _ _ _ Ev) as [Hq Hst]; [apply Hok|done|lia|].
  set (m1 := at_ m (set_header_state hs q) (p m + 1) (nread_ m + 1)).
  assert (Hr1 : ready d m1) by (eapply ready_at; rewrite ?Hs, ?Hst; (done || lia)).
  destruct (decide (p m + 1 = len d)) as [Hend|Hne].
  - assert (He : e = len d) by (subst e; by rewrite Hend, run_to_end).
    assert (turn_bytes d (p m + 1) e = 0) as -> by (unfold turn_bytes; rewrite He, lookup_none; lia).
    rewrite Z.add_0_r, (proj2 (Z.ltb_ge _ _)) by lia. rewrite He, lookup_none, Hend, slice_empty. cbn [value_run].
    unfold set_p. rewrite (bind_value _ _ _ tt m1) by (unfold modify, m1, at_; cbn; do 2 f_equal; lia).
    by rewrite !(ready_end d m1) by (done || lia).
  - destruct (lookup_len d (p m + 1)) as [c1 Hc1]; [lia|].
    rewrite (rest_S _ _ m1 c1), (value_turn d m1 c1 i) by (first [exact Hst | exact Hi | exact Hc1 | apply Hr1 | cbn; lia]).
    cbn [at_ m1 p parser nread_ header_state set_header_state]. fold e.
    assert (Hf1 := value_run_fields hs (nread q) (slice d (p m + 1) e) hs q).
    assert (Hnr : set_nread (nread q) q = q) by by destruct q. rewrite Hnr in Hf1. rewrite Hf1.
    destruct (value_run _ hs q) as [[hs2 q2]|] eqn:E2; [|done]. cbn [option_map fst snd].
    assert (Hq2 : set_nread (nread q) q2 = q2).
    { destruct (value_run_shape _ _ _ _ _ E2) as (? & ? & -> & _); [|done]. exact Hst. }
    rewrite Hq2. done.
Qed.

Lemma lockstep_value d m : len d <= max -> max < 2 ^ 31 -> ready d m -> p m < len d ->
  state_ (parser m) = s_header_value ->
  (forall m1, ready d m1 -> p m1 = p m + 1 -> lockstep d m1) -> lockstep d m.
Proof.
  intros Hlen Hmax Hr Hp Hs IH fuel Hf. assert (Hr' := Hr). destruct Hr' as (Hok & _ & Hst).
  assert (H0 : 0 <= p m) by apply Hok. destruct (lookup_len d (p m)) as [c Hc]; [lia|].
  destruct (only_mark m Header_value Hok) as (i & Hi & Hpe & Hir & Hoth); [by rewrite Hs|done|].
  destruct fuel as [|fuel]; [lia|]. rewrite (drop_byte _ _ c) by (lia || done). cbn [bytewise].
  rewrite small_value by (done || lia).
  destruct (line_end c) eqn:El.
  - assert (Ht : text c = false) by by unfold text; rewrite El.
    rewrite (rest_S _ _ _ c) by (lia || done). rewrite (value_turn d m c i) by (done || lia).
    rewrite (run_to_out _ _ _ _ Hc Ht). rewrite Hc. assert (turn_bytes d (p m) (p m) = 1) as ->.
    { unfold turn_bytes. rewrite Hc. lia. }
    rewrite slice_empty. cbn [value_run].
    destruct (max <? nread_ m + 1) eqn:E; [by split|]. b2p.
    replace (set_header_state (header_state (parser m)) (set_state (value_end_state c) (parser m)))
      with (set_state (value_end_state c) (parser m)) by by destruct (parser m).
    assert (V1 : header_field_mark m = None) by by apply (Hoth Header_field).
    assert (V2 : url_mark m = None) by by apply (Hoth Url).
    assert (V3 : body_mark m = None) by by apply (Hoth Body).
    assert (Hm1 : machine_ok max 0 (after_callback h d Header_value i
              (at_ m (set_state (value_end_state c) (parser m)) (p m) (nread_ m + 1)))).
    { destruct Hok as [[He Hl Ha Hn Hcl Hso] _ _ _]. unfold state_ok in Hso. rewrite Hs in Hso. unfold value_end_state.
      apply machine_ok_mk; cbn; try done; [split; cbn; try done; try lia; by destruct (same cr c)|..].
      all: rewrite ?V1, ?V2, ?V3; by destruct (same cr c). }
    eapply continue; [apply Hm1|done|done| |cbn; lia|..].
    + apply IH; [by apply advance_ready|cbn; lia].
    + done.
    + unfold flushed at 2. unfold pending. cbn. rewrite V1, V2, V3. unfold flushed. rewrite Hpe.
      apply feed_pending; [done|lia].
    + done.
  - rewrite (big_value_char d m c) by (done || lia).
    destruct (value_step _ _ _) as [[hs q]|] eqn:Ev; [|by split].
    destruct (max <? nread_ m + 1) eqn:E; [by split|]. b2p.
    destruct (value_step_ok max _ _ (nread_ m) _ _ _ Ev) as [Hq Hst']; [apply Hok|done|lia|].
    set (m1 := at_ m (set_header_state hs q) (p m + 1) (nread_ m + 1)).
    assert (Hr1 : ready d m1) by (eapply ready_at; rewrite ?Hs, ?Hst'; (done || lia)).
    destruct (IH m1 Hr1 eq_refl (S fuel)) as [Hfine Hag]; [cbn; lia|]. split; [exact Hfine|].
    by rewrite <- (flushed_more d m (set_header_state hs q) (nread_ m + 1) Header_value i c Hpe Hir Hc).
Qed.

Lemma body_pending (m : machine U) : machine_ok max 0 m -> reads_body (state_ (parser m)) ->
  pending m = option_map (fun i => (Body, i)) (body_mark m).
Proof.
  intros Hok Hs. destruct (body_marks m Hok Hs) as (M1 & M2 & M3 & _). unfold pending. rewrite M1, M2, M3.
  by destruct (body_mark m).
Qed.

(** The byte at [p] is given to the callback after the others. *)
Lemma body_given d (m : machine U) c : machine_ok max 0 m -> reads_body (state_ (parser m)) ->
  d !! Z.to_nat (p m) = Some c ->
  feed h Body (user m) (slice d (default (p m) (body_mark m)) (p m + 1)) = feed h Body (flushed h d m) [c].
Proof.
  intros Hok Hs Hc. destruct (body_marks m Hok Hs) as (_ & _ & _ & M4).
  assert (H0 : 0 <= p m) by apply Hok. unfold flushed. rewrite body_pending by done.
  destruct (body_mark m) as [i|]; cbn [option_map from_option id].
  - specialize (M4 i eq_refl). rewrite (proj2 (Z.ltb_lt _ _)) by lia. rewrite feed_app.
    rewrite <- (slice_app d i (p m) (p m + 1)) by lia. do 2 f_equal.
    rewrite (slice_step d (p m) (p m + 1) c) by (lia || done). by rewrite slice_empty.
  - cbn. rewrite (slice_step d (p m) (p m + 1) c) by (lia || done). by rewrite slice_empty.
Qed.

(** One byte of the body read, more of it to come. *)
Lemma taken_ready d (m : machine U) : ready d m -> reads_body (state_ (parser m)) -> p m < len d ->
  content_length (parser m) <> 1 -> ready d (advance (taken 1 m)).
Proof.
  intros (Hok & _ & _) Hs Hp Hn. destruct (body_marks m Hok Hs) as (_ & _ & _ & M4).
  destruct (body_length m Hok Hs) as [Hl Hch]. assert (H0 : 0 <= p m) by apply Hok.
  destruct Hok as [[He Hle Ha Hnr Hc Hst] _ _ _].
  assert (Hd : 0 <= default (p m) (body_mark m) <= p m).
  { destruct (body_mark m) as [i|]; cbn; [specialize (M4 i eq_refl)|]; lia. }
  split; [|split; [cbn; lia|intros k i; cbn; intros [= <- <-]; lia]].
  apply machine_ok_mk; cbn; try lia.
  - split; cbn; try done; [lia|]. unfold state_ok in *. cbn.
    destruct Hs as [E|E]; rewrite E in *; [lia|]. destruct Hst as [? _]. split; [done|lia].
  - destruct Hs as [-> | ->]; done.
  - destruct Hs as [-> | ->]; done.
  - destruct Hs as [-> | ->]; done.
  - split; [lia|]. right. split; [done|]. split; [by destruct Hs as [-> | ->]|lia].
  - destruct Hs as [-> | ->]; done.
Qed.

Lemma finished_ready d (m : machine U) : ready d m -> reads_body (state_ (parser m)) -> p m < len d ->
  content_length (parser m) = 1 -> ready d (advance (finished d (taken 1 m))).
Proof.
  intros (Hok & _ & _) Hs Hp Hn. destruct (body_marks m Hok Hs) as (_ & _ & _ & M4).
  destruct (body_length m Hok Hs) as [Hl Hch]. assert (H0 : 0 <= p m) by apply Hok.
  destruct Hok as [[He Hle Ha Hnr Hc Hst] _ _ _].
  assert (Hd : 0 <= default (p m) (body_mark m) <= p m).
  { destruct (body_mark m) as [i|]; cbn; [specialize (M4 i eq_refl)|]; lia. }
  unfold HttpTurns.finished. cbn [taken parser set_content_length state_].
  destruct Hs as [Hs|Hs]; rewrite Hs; (split; [|split; [cbn; lia|]]).
  - apply machine_ok_mk; cbn; try done; [|lia]. split; cbn; try done. lia.
  - done.
  - apply machine_ok_mk; cbn; try done; [|lia|].
    + split; cbn; try done; [lia|]. unfold state_ok. cbn. split; [by apply Hch|lia].
    + split; [lia|]. right. split; [done|]. split; [done|lia].
  - intros k i. cbn. intros [= <- <-]. lia.
Qed.

Lemma big_body d (m : machine U) c fuel : len d < 2 ^ 31 -> ready d m -> reads_body (state_ (parser m)) ->
  p m < len d -> d !! Z.to_nat (p m) = Some c -> content_length (parser m) <> 1 ->
  len d - p m < Z.of_nat (S fuel) ->
  classify (rest d (S fuel) m) = classify (rest d (S fuel) (advance (taken 1 m))).
Proof.
  intros Hlen Hr Hs Hp Hc Hn Hf. assert (Hr' := Hr). destruct Hr' as (Hok & _ & _).
  assert (H0 : 0 <= p m) by apply Hok. destruct (body_length m Hok Hs) as [Hl _].
  assert (Hr1 := taken_ready d m Hr Hs Hp Hn). set (m1 := advance (taken 1 m)) in *.
  rewrite (rest_S _ _ m c) by (lia || done). erewrite bind_value by (apply body_turn; [by split|done]).
  destruct (decide (p m + 1 = len d)) as [Hend|Hne].
  - rewrite Z.min_r by lia. replace (len d - p m) with 1 by lia.
    rewrite (proj2 (Z.eqb_neq _ _)) by lia. unfold set_p. rewrite (bind_value _ _ _ tt m1) by done.
    assert (p m1 = len d) by (cbn; lia). by rewrite !(ready_end d m1) by (done || lia).
  - assert (Hp1 : p m1 = p m + 1) by (cbn; lia).
    destruct (lookup_len d (p m1)) as [c1 Hc1]; [lia|].
    rewrite (rest_S _ _ m1 c1) by (lia || done).
    assert (B := body_turn (h := h) (max := max) d c1 m1 ltac:(split; [apply Hr1|exact Hs|lia]) Hlen). cbn zeta in B.
    rewrite (bind_value _ _ _ _ _ B). clear B.
    change (content_length (parser m1)) with (content_length (parser m) - 1). rewrite Hp1.
    set (t := Z.min (content_length (parser m)) (len d - p m)).
    replace (Z.min (content_length (parser m) - 1) (len d - (p m + 1))) with (t - 1) by lia.
    replace (content_length (parser m) - 1 - (t - 1)) with (content_length (parser m) - t) by lia.
    assert (taken (t - 1) m1 = taken t m) as ->; [|done].
    unfold taken, m1, advance. cbn. f_equal; [|lia].
    unfold set_content_length. cbn. f_equal. lia.
Qed.

Lemma small_body d (m : machine U) c : ready d m -> reads_body (state_ (parser m)) -> p m < len d ->
  len d < 2 ^ 31 -> d !! Z.to_nat (p m) = Some c ->
  let m1 := if content_length (parser m) =? 1 then finished d (taken 1 m) else taken 1 m in
  resume [c] (set_nread (nread_ m) (parser m)) (flushed h d m) (url_from m) =
    Accepted (set_nread (nread_ m) (parser m1)) (flushed h d (advance m1)) (url_next m).
Proof.
  intros Hr Hs Hp Hl Hc m1. assert (Hr' := Hr). destruct Hr' as (Hok & _ & _).
  assert (H0 : 0 <= p m) by apply Hok. destruct (body_length m Hok Hs) as [Hn _].
  assert (He : http_errno_ (parser m) = CHPE_OK) by apply Hok.
  assert (Hg := body_given d m c Hok Hs Hc).
  rewrite run_byte by apply Hok. assert (Hokt := twin_ok d m (ok_parser _ _ _ (proj1 Hr)) (ok_fresh_url _ _ _ (proj1 Hr))).
  rewrite <- url_next_from.
  assert (Ht : twin h d m (nread_ m) =
    Machine (set_nread (nread_ m) (parser m)) (flushed h d m) 0 (nread_ m) None None None (url_from m) None).
  { unfold twin. by destruct Hs as [-> | ->]. }
  rewrite Ht in *. erewrite bind_value by (apply body_turn; [split; [exact Hokt|exact Hs|done]|done]).
  cbn [parser p set_nread content_length]. change (len [c] - 0) with 1. rewrite Z.min_r by lia.
  assert (Hd : default (p m) (body_mark m) < p m + 1).
  { destruct (body_marks m Hok Hs) as (_ & _ & _ & M4). destruct (body_mark m) as [i|]; cbn; [specialize (M4 i eq_refl)|]; lia. }
  assert (Hmore : flushed h d (advance (taken 1 m)) = feed h Body (flushed h d m) [c]).
  { unfold flushed at 1. cbn. replace (p m + 1 - 1) with (p m) by lia. rewrite (proj2 (Z.ltb_lt _ _)) by lia. exact Hg. }
  set (F := flushed h d m) in *. clearbody F.
  unfold set_p. subst m1. destruct (content_length (parser m) =? 1) eqn:E; b2p.
  - rewrite (proj2 (Z.eqb_eq _ _)) by lia. erewrite bind_value by reflexivity.
    unfold HttpTurns.finished. cbn [taken parser set_content_length set_nread state_ user p body_mark default].
    destruct Hs as [Hs|Hs]; rewrite Hs.
    + rewrite rest_end; cbn; try done; try lia. f_equal. rewrite Z.add_simpl_r.
      change (slice [c] 0 _) with [c]. unfold flushed. cbn. rewrite Z.add_simpl_r, Hg.
      by apply completed_nread.
    + rewrite rest_end; cbn; try done; try lia; [|intros k i [= <- <-]; lia]. f_equal.
      etransitivity; [|symmetry; exact Hmore]. done.
  - rewrite (proj2 (Z.eqb_neq _ _)) by lia. erewrite bind_value by reflexivity.
    rewrite rest_end; cbn; try done; try lia; [|intros k i [= <- <-]; lia]. f_equal.
    etransitivity; [|symmetry; exact Hmore]. done.
Qed.

Lemma lockstep_body d m : len d < 2 ^ 31 -> ready d m -> p m < len d -> reads_body (state_ (parser m)) ->
  (forall m1, ready d m1 -> p m1 = p m + 1 -> lockstep d m1) -> lockstep d m.
Proof.
  intros Hlen Hr Hp Hs IH fuel Hf. assert (Hr' := Hr). destruct Hr' as (Hok & _ & _).
  assert (H0 : 0 <= p m) by apply Hok. destruct (lookup_len d (p m)) as [c Hc]; [lia|].
  destruct (body_length m Hok Hs) as [Hn _].
  destruct fuel as [|fuel]; [lia|]. rewrite (drop_byte _ _ c) by (lia || done). cbn [bytewise].
  rewrite (small_body d m c) by (done || lia).
  destruct (content_length (parser m) =? 1) eqn:E; b2p.
  - rewrite (rest_S _ _ _ c) by (lia || done). erewrite bind_value by (apply body_turn; [by split|done]).
    rewrite Z.min_l, (proj2 (Z.eqb_eq _ 0)), E by lia.
    assert (Hp1 : p (finished d (taken 1 m)) = p m) by (destruct Hs as [Hs|Hs]; unfold HttpTurns.finished; cbn; rewrite Hs; cbn; lia).
    assert (Hn1 : nread_ (finished d (taken 1 m)) = nread_ m) by (destruct Hs as [Hs|Hs]; unfold HttpTurns.finished; cbn; by rewrite Hs).
    eapply continue; [lia|exact Hp1|done| |lia|by rewrite Hn1|done|unfold url_next; rewrite Hp1; by destruct Hs as [Hs|Hs]; unfold HttpTurns.finished; cbn; rewrite Hs].
    apply IH; [by apply finished_ready|cbn; lia].
  - rewrite (big_body d m c) by (done || lia).
    destruct (IH (advance (taken 1 m)) (taken_ready d m Hr Hs Hp E) ltac:(cbn; lia) (S fuel)) as [Hfine Hag]; [cbn; lia|].
    split; [exact Hfine|]. replace (p m + 1) with (p (advance (taken 1 m))) by (cbn; lia).
    assert (url_from (advance (taken 1 m)) = url_next m) as <-; [|exact Hag].
    unfold url_from, url_next. cbn. destruct (url_start_mark m); cbn; [|done]. f_equal. lia.
Qed.

(** ** The whole buffer *)

Lemma lockstep_ready d : Forall (fun c => c <> NUL) d -> len d <= max -> max < 2 ^ 31 -> d <> [] ->
  forall m, ready d m -> lockstep d m.
Proof.
  intros Hnul Hlen Hmax Hd. assert (Hpos : 0 < len d) by (destruct d; [done|unfold len; cbn; lia]).
  intros m. remember (Z.to_nat (len d - p m)) as k eqn:Hk. revert m Hk.
  induction k as [|k IH]; intros m Hk Hr; assert (Hr' := Hr); destruct Hr' as (Hok & Hle & _).
  { apply lockstep_end; [done|lia|lia]. }
  assert (Hp : p m < len d) by lia. assert (H0 : 0 <= p m) by apply Hok.
  assert (IH' : forall m1, ready d m1 -> p m1 = p m + 1 -> lockstep d m1).
  { intros m1 Hr1 Hp1. apply IH; [lia|done]. }
  destruct (lookup_len d (p m)) as [c Hc]; [lia|].
  assert (Hst : state_ok 0 (parser m) (nread_ m)) by apply Hok. unfold state_ok in Hst.
  destruct (state_ (parser m)) eqn:Hs.
  all: first [ by apply lockstep_field | by apply lockstep_value
             | by (apply lockstep_body; [lia|done|done|rewrite Hs; by (left + right)|done])
             | by destruct Hst
             | eapply (lockstep_sync d m c); rewrite ?Hs; try done; intros m1 Hp1 Hm1;
               apply IH'; [apply advance_ready; [done|lia]|cbn; lia] ].
Qed.

(** ** A call, and calls in a row *)

(** A call on a buffer is the calls on its bytes, one by one, where the start of
    the URL is remembered. *)
Lemma resume_bytewise d q u from : Forall (fun c => c <> NUL) d -> len d <= max -> max < 2 ^ 31 -> d <> [] ->
  parser_ok max 0 q (nread q) -> fresh_from (state_ q) from ->
  fine (resume d q u from) /\ bytewise d q u from = resume d q u from.
Proof.
  intros Hnul Hlen Hmax Hd Hq Hfrom. set (m0 := start_from from q u).
  assert (Hnn : set_nread (nread q) q = q) by by destruct q.
  assert (Hf0 : url_from m0 = from) by (unfold url_from, m0; cbn; destruct from; cbn; [f_equal; lia|done]).
  assert (Hok : machine_ok max 0 (twin h d m0 (nread_ m0))) by by apply twin_ok.
  assert (Hr : ready d (twin h d m0 (nread_ m0))).
  { split; [exact Hok|]. split; [unfold len; cbn; lia|by right]. }
  assert (Hs := start_twin h d m0). rewrite Hf0 in Hs. cbn [m0 start_from parser nread_] in Hs. rewrite Hnn in Hs.
  change (flushed h d (start_from from q u)) with u in Hs.
  assert (Hrun : resume d q u from = classify (rest d (S (length d)) (twin h d m0 (nread_ m0)))).
  { destruct Hq as [He Hl Ha _ _ _]. unfold HttpFeed.resume, execute_buffer, errno. f_equal.
    rewrite bind_gets. cbn [parser start_from http_errno_]. rewrite He, bool_decide_true by done.
    assert ((len d =? 0) = false) as -> by by destruct d.
    cbn [negb]. unfold parser_is. rewrite !bind_gets.
    cbn [parser start_from lenient_http_headers HttpData.allow_chunked_length]. rewrite Hl, Ha.
    by erewrite bind_value by exact Hs. }
  destruct (lockstep_ready d Hnul Hlen Hmax Hd _ Hr (S (length d))) as [Hfine Hb]; [unfold len; cbn; lia|].
  rewrite Hrun. split; [exact Hfine|]. rewrite <- Hb. cbn [twin p Z.to_nat drop]. f_equal.
  - by destruct q.
  - unfold flushed. destruct (pending _) as [[k i]|] eqn:Ek; [|done].
    assert (Hi := pending_in _ 0 k i Hok Ek). by rewrite (proj2 (Z.ltb_ge _ _)) by apply Hi.
  - unfold url_from, m0, twin. cbn. destruct from; cbn; [f_equal; lia|done].
Qed.

Lemma bytewise_app d1 d2 q u from :
  bytewise (d1 ++ d2) q u from =
    match bytewise d1 q u from with Accepted q u from => bytewise d2 q u from | v => v end.
Proof.
  revert q u from. induction d1 as [|c d1 IH]; intros q u from; [done|]. cbn.
  destruct (resume [c] q u from); [apply IH|done|done].
Qed.

End pieces.
