(* ===== verification/HttpCuts.v ===== *)
(** * A request cut into buffers

    However the bytes of a request are cut into buffers, the parser and callbacks
    that do not depend on the cuts ([Mergeable]) end in the same state as on the
    whole ([http_pieces]), unless the
    URL is cut before its question mark: [url_start_mark] is a local of
    [http_parser_execute], and the parser subtracts a null pointer then.
    [http_safe] says that this is the only undefined step it can take. *)

From S2P Require Import Prelude CInt CArray HttpData HttpParser HttpSteps HttpBytes HttpFeed HttpTurns HttpPieces.
#[local] Open Scope http_scope.

(** ** Without the start of the URL *)

Section forget.
Context {U : Type}.

Definition forget (m : machine U) : machine U :=
  Machine (parser m) (user m) (p m) (nread_ m) (header_field_mark m) (header_value_mark m) (url_mark m) None
    (body_mark m).

Definition map_machine {A} (f : machine U -> machine U) (r : outcome U A) : outcome U A :=
  match r with
  | Value a m => Value a (f m)
  | GotoError m => GotoError (f m)
  | Return n m => Return n (f m)
  | Stuck why => Stuck why
  end.

(** A run that does not know where the URL started, next to one that does. *)
Definition dim {A} (r' r : outcome U A) : Prop :=
  r' = r \/ r' = map_machine forget r \/ r' = Stuck NullPointerDifference.

Definition dims {A} (c : M U A) : Prop := forall m, dim (c (forget m)) (c m).

Lemma dims_bind {A B} (c : M U A) (k : A -> M U B) : dims c -> (forall a, dims (k a)) -> dims (bind c k).
Proof.
  intros Hc Hk m. unfold bind. destruct (Hc m) as [-> | [-> | ->]]; [by left| |by right; right].
  destruct (c m); cbn; [apply Hk|by right; left..].
Qed.

Lemma dims_ret {A} (a : A) : dims (ret a).
Proof. by right; left. Qed.

Lemma dims_gets {A} (f : machine U -> A) : (forall m, f (forget m) = f m) -> dims (gets f).
Proof. intros Hf m. right; left. unfold gets. by rewrite Hf. Qed.

Lemma dims_modify f : (forall m, f (forget m) = forget (f m)) -> dims (modify f).
Proof. intros Hf m. right; left. unfold modify. by rewrite Hf. Qed.

Lemma dims_called r : dims (called r).
Proof. intros m. right; left. by destruct r as [[code q] u]. Qed.

Lemma dims_stop {A} why : dims (@stop U A why).
Proof. by right; left. Qed.

Lemma dims_goto_error {A} : dims (@goto_error U A).
Proof. by right; left. Qed.

Lemma dims_return {A} n : dims (@return_ U A n).
Proof. by right; left. Qed.

(** A piece that looks at the machine it starts in, but not at that field. *)
Lemma dims_machine {A} (k : machine U -> M U A) : (forall m, k (forget m) = k m) -> (forall m, dims (k m)) ->
  dims (bind (gets (fun m => m)) k).
Proof. intros Hk Hd m. rewrite !bind_gets, Hk. apply Hd. Qed.

Lemma dims_set_mark k x : k <> Url_start -> dims (set_mark k x).
Proof. intros Hk. apply dims_modify. by destruct k. Qed.

Lemma dims_mark k : k <> Url_start -> dims (CROW_MARK k).
Proof.
  intros Hk. apply dims_bind; [apply dims_gets; by destruct k|]. intros [i|]; [apply dims_ret|].
  apply dims_bind; [by apply dims_gets|]. intros. by apply dims_set_mark.
Qed.

Lemma parse_url_char_forget s ch q start p :
  parse_url_char s ch q None p = None \/ parse_url_char s ch q None p = parse_url_char s ch q start p.
Proof.
  unfold parse_url_char. cbn [url_mark_distance]. generalize (url_mark_distance start p q). intros r.
  repeat match goal with |- context [if ?b then _ else _] => destruct b; [first [by left | by right]|] end; [by left..|].
  destruct s; repeat match goal with |- context [if ?b then _ else _] => destruct b; first [by left | by right | idtac] end;
  first [by left | by right].
Qed.

Lemma dims_step_url ch : dims (step_url ch).
Proof.
  intros m. unfold step_url. rewrite !bind_gets. cbn [forget parser url_start_mark p].
  destruct (parse_url_char_forget (state_ (parser m)) ch (parser m) (url_start_mark m) (p m)) as [-> | ->]; [by right; right|].
  right; left. destruct (parse_url_char _ _ _ _ _) as [[s q]|]; [|done]. unfold bind, on_parser, goto_state, modify, on_parser.
  cbn. by case_bool_decide.
Qed.

End forget.

Create HintDb dims.

#[export] Hint Resolve dims_ret dims_called dims_stop dims_goto_error dims_return dims_step_url : dims.

(** Through the structure of a piece of the function. *)
Ltac dims1 :=
  first
    [ progress intros
    | solve [auto with dims nocore]
    | apply dims_machine; [done|]
    | apply dims_bind
    | apply dims_gets; done
    | apply dims_modify; done
    | apply dims_mark; done
    | apply dims_set_mark; done
    | match goal with
      | |- @dims _ _ (if ?b then _ else _) => destruct b
      | |- @dims _ _ (match ?b with _ => _ end) => destruct b
      | |- @dims _ _ (let _ := _ in _) => cbv zeta
      | |- @dims _ _ ?c => let f := head c in progress unfold f
      end ].
Ltac go_dims := repeat dims1.

Section cases.
Context {U : Type} (st : http_parser_settings U) (max : Z) (d : list ascii).

Lemma dims_callback k more er : k <> Url_start -> dims (CROW_CALLBACK_DATA_ st d k more er).
Proof.
  intros Hk. unfold CROW_CALLBACK_DATA_. apply dims_bind; [go_dims|]. intros now. apply dims_bind; [go_dims|]. intros _.
  apply dims_bind; [apply dims_gets; by destruct k|]. go_dims.
Qed.

Lemma dims_notify (cb : option (http_cb U)) e er : dims (CROW_CALLBACK_NOTIFY_ cb e er).
Proof. go_dims. Qed.

Lemma dims_switch al s ch : simple s -> s <> s_req_spaces_before_url -> dims (switch st max d false al s ch).
Proof.
  intros Hs Hn. destruct s; try done; cbn [switch]; try (by go_dims).
Qed.

End cases.

Section bytewise.
Context {U : Type} (h : handlers U) `{!Mergeable h} (max : Z).
#[local] Abbreviation resume := (resume h max).
#[local] Abbreviation bytewise := (bytewise h max).
#[local] Abbreviation verdict := (verdict (U := U)).

Lemma execute_byte_forget d c al m fuel : machine_ok max 1 m -> p m < len d -> simple (state_ (parser m)) ->
  c <> NUL ->
  dim (execute_byte (plain h) max d fuel false al c (forget m)) (execute_byte (plain h) max d fuel false al c m).
Proof.
  revert m. induction fuel as [|fuel IH]; intros m Hm Hp Hs Hc; [by left|].
  rewrite execute_byte_S, !bind_gets. change (state_ (parser (forget m))) with (state_ (parser m)).
  assert (H : dim (switch (plain h) max d false al (state_ (parser m)) c (forget m))
    (switch (plain h) max d false al (state_ (parser m)) c m)).
  { destruct (decide (state_ (parser m) = s_req_spaces_before_url)) as [E|E]; [left|by apply dims_switch].
    f_equal. pose proof (ok_fresh_url _ _ _ Hm) as Hu. rewrite E in Hu. destruct m; cbn in *. by subst. }
  assert (H1 := switch_ok h max d m c al Hm Hp Hs Hc). unfold bind.
  destruct H as [-> | [-> | ->]]; [by left| |by right; right].
  destruct (switch _ _ _ _ _ _ _ m) as [j m1| | |]; [|by right; left..]. cbn [map_machine].
  destruct j as [|c']; [by right; left|]. cbn [wp] in H1. destruct H1 as (Hp1 & -> & Hm1 & Hs1 & _).
  apply IH; [done|lia|done|done].
Qed.

Lemma loop_body_forget d c al m : machine_ok max 0 m -> p m < len d -> simple (state_ (parser m)) ->
  c <> NUL -> max < 2 ^ 31 ->
  dim (loop_body (plain h) max d false al c (forget m)) (loop_body (plain h) max d false al c m).
Proof.
  intros Hm Hp Hs Hc Hmax. assert (Hn := ok_nread _ _ _ _ (ok_parser _ _ _ Hm)).
  assert (Hcf : counted (forget m) = forget (counted m)) by (unfold counted; cbn; by case_match).
  destruct (loop_body_counted max (plain h) d false al c m Hmax Hn) as [[Hle ->]|[Hlt [m' E]]].
  - destruct (loop_body_counted max (plain h) d false al c (forget m) Hmax Hn) as [[Hle' ->]|[Hlt' _]].
    + rewrite Hcf. apply execute_byte_forget; rewrite ?counted_p, ?counted_state; try done. by apply counted_ok.
    + rewrite Hcf in Hlt'. cbn in Hlt'. lia.
  - right; left. unfold counted in Hlt. unfold loop_body, bind, gets. cbn [forget parser].
    destruct (CROW_PARSING_HEADER (state_ (parser m))); [|lia].
    unfold COUNT_HEADER_SIZE, CROW_COUNT_HEADER_SIZE, bind, gets, set_local_nread, modify. cbn in *.
    rewrite count_one by lia. by rewrite (proj2 (Z.ltb_lt _ _)).
Qed.

(** The same verdict, but for the start of the URL, which is the same or not
    known. *)
Definition dimmer (v' v : verdict) : Prop :=
  v' = Undefined NullPointerDifference \/
  match v with
  | Accepted q u from => exists from', v' = Accepted q u from' /\ (from' = from \/ from' = None)
  | _ => v' = v
  end.

(** The machine a buffer of one byte is looked at with. *)
Definition on_byte (c : ascii) (q : http_parser) (u : U) (from : option Z) : machine U :=
  twin h [c] (start_from from q u) (nread q).

Lemma on_byte_parser c q u from : set_nread (nread_ (on_byte c q u from)) (parser (on_byte c q u from)) = q.
Proof. by destruct q. Qed.

Lemma on_byte_url c q u from : url_from (on_byte c q u from) = from.
Proof. unfold url_from. destruct from; cbn; [f_equal; lia|done]. Qed.

Lemma on_byte_forget c q u from : on_byte c q u None = forget (on_byte c q u from).
Proof. done. Qed.

Lemma on_byte_flushed c q u from : flushed h [c] (on_byte c q u from) = u.
Proof. unfold flushed, pending. cbn. by destruct (marked (state_ q)) as [[]|]. Qed.

Lemma on_byte_twin c q u from :
  twin h [c] (on_byte c q u from) (nread_ (on_byte c q u from)) = on_byte c q u from.
Proof.
  unfold twin at 1. rewrite on_byte_flushed. unfold on_byte, twin. cbn. f_equal.
  destruct from; cbn; [|done]. f_equal. lia.
Qed.

Lemma on_byte_ok c q u from : parser_ok max 0 q (nread q) -> fresh_from (state_ q) from ->
  ready max [c] (on_byte c q u from).
Proof.
  intros Hq Hf. assert (Hok : machine_ok max 0 (on_byte c q u from)) by by apply (twin_ok h max [c] (start_from from q u)).
  split; [exact Hok|]. split; [by cbn|by right].
Qed.

Lemma fresh_none s : fresh_from s None.
Proof. by destruct s. Qed.

Lemma resume_on_byte c q u from :
  resume [c] q u from =
    resume [c] (set_nread (nread_ (on_byte c q u from)) (parser (on_byte c q u from)))
      (flushed h [c] (on_byte c q u from)) (url_from (on_byte c q u from)).
Proof. by rewrite on_byte_parser, on_byte_flushed, on_byte_url. Qed.

Lemma dimmer_refl v : dimmer v v.
Proof. right. destruct v; [|done..]. eexists. split; [done|by left]. Qed.

Lemma dimmer_accepted q u from : dimmer (Accepted q u None) (Accepted q u from).
Proof. right. eexists. split; [done|by right]. Qed.

Lemma forget_ok first (m : machine U) : machine_ok max first m -> machine_ok max first (forget m).
Proof. intros [Hq Hm Hu Hp]. split; [done| |cbn; by case_match|done]. intros k Hk; specialize (Hm k Hk); by destruct k. Qed.

Lemma resume_forget_simple c q u from : parser_ok max 0 q (nread q) -> fresh_from (state_ q) from -> c <> NUL ->
  max < 2 ^ 31 -> simple (state_ q) -> dimmer (resume [c] q u None) (resume [c] q u from).
Proof.
  intros Hq Hf Hc Hmax Hs. rewrite (resume_on_byte c q u from), (resume_on_byte c q u None).
  assert (Hr := on_byte_ok c q u from Hq Hf). assert (Hok := proj1 Hr).
  assert (Hok' := proj1 (on_byte_ok c q u None Hq (fresh_none _))).
  assert (H1 := loop_body_ok h max [c] _ c false Hok ltac:(done) Hs Hc Hmax).
  assert (H := loop_body_forget [c] c false _ Hok ltac:(done) Hs Hc Hmax). rewrite <- on_byte_forget in H.
  assert (Hpar : forall f, parser_ok max 0 (parser (on_byte c q u f)) (nread_ (on_byte c q u f)))
    by (intros f; exact (ok_parser _ _ _ Hok')).

  assert (Hstop : forall f, (forall m1, loop_body (plain h) max [c] false false c (on_byte c q u f) <> Value tt m1) ->
    resume [c] (set_nread (nread_ (on_byte c q u f)) (parser (on_byte c q u f)))
      (flushed h [c] (on_byte c q u f)) (url_from (on_byte c q u f)) =
    classify (loop_body (plain h) max [c] false false c (on_byte c q u f))).
  { intros f Hv. rewrite (run_byte_stop [c] (on_byte c q u f)); rewrite ?on_byte_twin; done. }
  assert (Hgo : forall f m1, loop_body (plain h) max [c] false false c (on_byte c q u f) = Value tt m1 ->
    p m1 = 0 -> machine_ok max 0 m1 ->
    resume [c] (set_nread (nread_ (on_byte c q u f)) (parser (on_byte c q u f)))
      (flushed h [c] (on_byte c q u f)) (url_from (on_byte c q u f)) =
    Accepted (set_nread (nread_ m1) (parser m1)) (given h [c] (advance m1)) (url_from (advance m1))).
  { intros f m1 Hv Hp Hm. eapply run_byte_value; [done|by rewrite on_byte_twin|done|apply Hm|by eapply machine_lone|].
    intros k i Hk. apply (pending_in m1 0 k i Hm) in Hk. lia. }
  destruct (loop_body (plain h) max [c] false false c (on_byte c q u from)) as [[] m1| | |why] eqn:E;
    [|destruct H as [H|[H|H]]; rewrite !Hstop, E, H by (intros ?; by rewrite ?E, ?H);
       first [apply dimmer_refl | by right | by left]..].
  destruct H1 as [Hp1 Hm1]. rewrite (Hgo from m1) by done.
  destruct H as [H|[H|H]].
  - rewrite (Hgo None m1) by done. apply dimmer_refl.
  - rewrite (Hgo None (forget m1)); [apply dimmer_accepted|done|done|by apply forget_ok].
  - rewrite Hstop, H by (intros ?; by rewrite H). by left.
Qed.

Lemma resume_forget c q u from : parser_ok max 0 q (nread q) -> fresh_from (state_ q) from -> c <> NUL ->
  1 <= max < 2 ^ 31 -> dimmer (resume [c] q u None) (resume [c] q u from).
Proof.
  intros Hq Hf Hc Hmax.
  assert (Hr := on_byte_ok c q u from Hq Hf). assert (Hr' := on_byte_ok c q u None Hq (fresh_none _)).
  assert (Hs : state_ok 0 q (nread q)) by apply Hq. unfold state_ok in Hs.
  destruct (state_ q) eqn:E; try (apply resume_forget_simple; rewrite ?E; done || lia).
  all: rewrite (resume_on_byte c q u from), (resume_on_byte c q u None).
  - rewrite !small_field by (done || lia). rewrite !on_byte_flushed. cbn.
    repeat case_match; first [apply dimmer_accepted | apply dimmer_refl].
  - rewrite !small_value by (done || lia). rewrite !on_byte_flushed. cbn.
    repeat case_match; first [apply dimmer_accepted | apply dimmer_refl].
  - rewrite !small_body by (done || lia || (first [left; exact E | right; exact E])).
    cbn [on_byte twin start_from parser set_nread content_length].
    destruct (content_length q =? 1); [unfold finished; cbn; rewrite E; cbn|]; apply dimmer_accepted.
  - rewrite !small_body by (done || lia || (first [left; exact E | right; exact E])).
    cbn [on_byte twin start_from parser set_nread content_length].
    destruct (content_length q =? 1); [unfold finished; cbn; rewrite E; cbn|]; apply dimmer_accepted.
Qed.

Lemma dimmer_bytewise d q u from from' : Forall (fun c => c <> NUL) d -> 1 <= max < 2 ^ 31 ->
  parser_ok max 0 q (nread q) -> fresh_from (state_ q) from -> from' = from \/ from' = None ->
  dimmer (bytewise d q u from') (bytewise d q u from).
Proof.
  intros Hnul Hmax. revert q u from from'.
  induction d as [|c d IH]; intros q u from from' Hq Hf Hfrom; cbn.
  { destruct Hfrom as [-> | ->]; [apply dimmer_refl|apply dimmer_accepted]. }
  apply Forall_cons in Hnul as [Hc Hnul].
  destruct (resume_bytewise h max [c] q u from) as [Hfine _]; try done; [by apply Forall_singleton|unfold len; cbn; lia|lia|].
  assert (Hd : dimmer (resume [c] q u from') (resume [c] q u from)).
  { destruct Hfrom as [-> | ->]; [apply dimmer_refl|by apply resume_forget]. }
  destruct Hd as [-> | Hd]; [by left|].
  destruct (resume [c] q u from) as [q1 u1 f1| |why]; [|by right; rewrite Hd..].
  destruct Hd as (f1' & -> & Hf1). destruct Hfine as [Hq1 Hf1q]. by apply IH.
Qed.

(** ** Any cutting *)

(** The buffers of a list one after the other. *)
Fixpoint in_pieces (ds : list (list ascii)) (q : http_parser) (u : U) : verdict :=
  match ds with
  | [] => Accepted q u None
  | d :: ds =>
      match run_buffer h max d q u with
      | Accepted q u _ => in_pieces ds q u
      | v => v
      end
  end.

Definition piece (d : list ascii) : Prop := d <> [] /\ Forall (fun c => c <> NUL) d /\ len d <= max.

Lemma dimmer_trans v1 v2 v3 : dimmer v1 v2 -> dimmer v2 v3 -> dimmer v1 v3.
Proof.
  intros [-> | H1] H2; [by left|]. destruct H2 as [-> | H2]; [by left|].
  destruct v3 as [q u f| |]; [|right; by subst..].
  destruct H2 as (f' & -> & Hf'). destruct H1 as (f'' & -> & Hf''). right. exists f''. split; [done|naive_solver].
Qed.

Lemma in_pieces_bytewise ds q u from : Forall piece ds -> 1 <= max < 2 ^ 31 -> parser_ok max 0 q (nread q) ->
  fresh_from (state_ q) from -> dimmer (in_pieces ds q u) (bytewise (concat ds) q u from).
Proof.
  intros Hds Hmax. revert q u from. induction Hds as [|d ds (Hd & Hnul & Hlen) Hds IH]; intros q u from Hq Hf.
  { apply dimmer_accepted. }
  cbn [in_pieces concat]. rewrite bytewise_app.
  destruct (resume_bytewise h max d q u None) as [Hfine Hb]; try done; [lia|apply fresh_none|].
  assert (Hdim := dimmer_bytewise d q u from None Hnul Hmax Hq Hf (or_intror eq_refl)).
  rewrite Hb in Hdim. unfold run_buffer.
  destruct Hdim as [-> | Hdim]; [by left|].
  destruct (resume_bytewise h max d q u from) as [Hfine' Hb']; try done; [lia|]. rewrite <- Hb' in Hfine'.
  destruct (bytewise d q u from) as [q1 u1 f1| |why]; [|by right; rewrite Hdim..].
  destruct Hdim as (f1' & -> & Hf1). destruct Hfine' as [Hq1 Hf1q]. by apply IH.
Qed.

Lemma in_pieces_whole ds q u : Forall piece ds -> piece (concat ds) -> 1 <= max < 2 ^ 31 ->
  parser_ok max 0 q (nread q) -> dimmer (in_pieces ds q u) (run_buffer h max (concat ds) q u).
Proof.
  intros Hds (Hd & Hnul & Hlen) Hmax Hq.
  destruct (resume_bytewise h max (concat ds) q u None) as [_ Hb]; try done; [lia|apply fresh_none|].
  unfold run_buffer. rewrite <- Hb. apply in_pieces_bytewise; try done. apply fresh_none.
Qed.

(** The value of [execute_buffer] is the length of the buffer. *)
Lemma execute_run d q u : d <> [] -> http_errno_ q = CHPE_OK ->
  match run_buffer h max d q u with
  | Accepted q' u' _ => http_parser_execute (plain h) max d q u = inr (len d, q', u')
  | Rejected => exists r, http_parser_execute (plain h) max d q u = inr r
  | Undefined why => http_parser_execute (plain h) max d q u = inl why
  end.
Proof.
  intros Hd He. unfold run_buffer, HttpFeed.resume, http_parser_execute.
  change (start_from None q u) with (start q u).
  assert (H : forall n m, execute_buffer (plain h) max d (start q u) = Value n m -> n = len d).
  { unfold execute_buffer, errno. intros n m. rewrite bind_gets. cbn [parser start].
    rewrite He, bool_decide_true by done. assert ((len d =? 0) = false) as -> by by destruct d.
    cbn [negb]. unfold parser_is. rewrite !bind_gets. unfold bind, gets.
    destruct (start_marks _) as [? m1| | |]; [|done..]. destruct (loop _ _ _ _ _ _ m1) as [? m2| | |]; [|done..].
    destruct (flush_marks _ _ m2) as [? m3| | |]; [|done..]. by intros [= <- _]. }
  destruct (execute_buffer _ _ _ _) as [n m| | |]; cbn; eauto. by rewrite (H n m).
Qed.

(** C9: On a non-empty buffer without NUL bytes that is no longer than the header
    limit (below 2^31), from a parser in a well-formed state and with callbacks
    that return 0, leave the parser alone and do not depend on how data is divided
    ([Mergeable]), [http_parser_execute] fails none of its
    assertions, reads nothing outside the buffer and comes to an end; the one
    undefined step it can take is to subtract a null pointer for the offset of
    the query string.  When it takes the buffer in, the parser is in a
    well-formed state again. *)
Theorem http_safe d q u : piece d -> 1 <= max < 2 ^ 31 -> parser_ok max 0 q (nread q) ->
  match http_parser_execute (plain h) max d q u with
  | inl why => why = NullPointerDifference
  | inr r => forall q' u' from, run_buffer h max d q u = Accepted q' u' from ->
      r = (len d, q', u') /\ parser_ok max 0 q' (nread q')
  end.
Proof.
  intros (Hd & Hnul & Hlen) Hmax Hq.
  destruct (resume_bytewise h max d q u None) as [Hfine _]; try done; [lia|apply fresh_none|].
  assert (H := execute_run d q u Hd (ok_errno _ _ _ _ Hq)). unfold run_buffer in *.
  destruct (HttpFeed.resume _ _ _ _ _ _) as [q1 u1 f1| |why].
  - rewrite H. intros ? ? ? [= <- <- <-]. split; [done|by destruct Hfine].
  - destruct H as [r ->]. done.
  - by rewrite H.
Qed.

(** C8: Take a parser in a well-formed state, a buffer without NUL bytes and no
    longer than the header limit (itself below 2^31), and callbacks that return 0,
    leave the parser alone and do not depend on how data is divided (data given in
    two calls is as good as in one, and [nread] is not looked at: [Mergeable]).
    However that buffer is cut into non-empty pieces, calling
    [http_parser_execute] on one piece after the other leaves the parser and the
    program's state as one call on the whole does, and fails when that fails;
    unless a call subtracts a null pointer, which happens when the URL is cut
    before its question mark.  (A program that counts the calls of a data callback
    does tell the pieces apart: the parser does not promise otherwise.) *)
Theorem http_pieces ds q u : Forall piece ds -> piece (concat ds) -> 1 <= max < 2 ^ 31 ->
  parser_ok max 0 q (nread q) ->
  match in_pieces ds q u with
  | Accepted q' u' _ => http_parser_execute (plain h) max (concat ds) q u = inr (len (concat ds), q', u')
  | Rejected => run_buffer h max (concat ds) q u = Rejected
  | Undefined why => why = NullPointerDifference
  end.
Proof.
  intros Hds Hd Hmax Hq. assert (H := in_pieces_whole ds q u Hds Hd Hmax Hq).
  assert (He := execute_run (concat ds) q u (proj1 Hd) (ok_errno _ _ _ _ Hq)).
  destruct (resume_bytewise h max (concat ds) q u None) as [Hfine _];
    [apply Hd|apply Hd|lia|apply Hd|done|apply fresh_none|].
  destruct H as [-> | H]; [done|]. unfold run_buffer in *.
  destruct (HttpFeed.resume _ _ _ _ _ _) as [q1 u1 f1| |why].
  - by destruct H as (f & -> & _).
  - by rewrite H.
  - by rewrite H.
Qed.

End bytewise.

(** ** A transcript of the callbacks *)

Inductive event := Begun | Headers_read | Completed | Given (k : mark) (bytes : list ascii).

#[global] Instance mark_eq_dec : EqDecision mark.
Proof. solve_decision. Defined.

(** The calls, the last one first; the bytes of calls for the same mark in a row
    are put together. *)
Definition give (k : mark) (u : list event) (bytes : list ascii) : list event :=
  match u with
  | Given k' bytes' :: u' => if decide (k' = k) then Given k (bytes' ++ bytes) :: u' else Given k bytes :: u
  | _ => Given k bytes :: u
  end.

Definition transcript : handlers (list event) :=
  Handlers _ (fun _ u => Begun :: u) (fun _ u => Headers_read :: u) (fun _ u => Completed :: u) give.

#[global] Instance transcript_mergeable : Mergeable transcript.
Proof.
  split; try done. intros k u a b. cbn [feed transcript]. unfold give.
  assert (Hn : forall l, (if decide (k = k) then Given k (a ++ b) :: l else Given k b :: Given k a :: l) =
    Given k (a ++ b) :: l) by (intros; by rewrite decide_True).
  destruct u as [|[| | |k' bytes'] u]; cbn; try (by rewrite decide_True). destruct (decide (k' = k)) as [->|].
  - rewrite !decide_True by done. by rewrite app_assoc.
  - by rewrite decide_True.
Qed.

Definition crlf : string := String cr (String lf EmptyString).

Definition request_pieces : list (list ascii) :=
  map String.list_ascii_of_string
    ["GET /a?b=1 HTTP/1.1" +:+ crlf +:+ "Content-Le"; "ngth: 3" +:+ crlf +:+ crlf +:+ "x"; "yz"]%string.

Lemma init_ok max : 0 <= max -> parser_ok max 0 http_parser_init 0.
Proof. intros. by split. Qed.

Definition pieceb (max : Z) (d : list ascii) : bool :=
  negb (len d =? 0) && forallb (fun c => negb (Ascii.eqb c NUL)) d && (len d <=? max).

Lemma pieceb_ok max d : pieceb max d = true -> piece max d.
Proof.
  unfold pieceb, piece. rewrite !andb_true_iff. intros [[H1 H2] H3]. split; [by intros ->|]. split; [|lia].
  apply Forall_forall. intros c Hc%list_elem_of_In. rewrite forallb_forall in H2. specialize (H2 c Hc).
  by destruct (Ascii.eqb_spec c NUL).
Qed.

Lemma pieces_ok max ds : forallb (pieceb max) ds = true -> Forall (piece max) ds.
Proof.
  intros H. apply Forall_forall. intros d Hd%list_elem_of_In. rewrite forallb_forall in H. by apply pieceb_ok, H.
Qed.

Definition request_events : list event :=
  let text := String.list_ascii_of_string in
  [Completed; Given Body (text "xyz"); Headers_read; Given Header_value (text "3");
   Given Header_field (text "Content-Length"); Given Url (text "/a?b=1"); Begun].

Lemma request_accepted : match in_pieces transcript 200 request_pieces http_parser_init [] with
  | Accepted _ u _ => u = request_events
  | _ => False
  end.
Proof. by vm_compute. Qed.

Lemma http_pieces_witness :
  exists q, http_parser_execute (plain transcript) 200 (concat request_pieces) http_parser_init [] =
    inr (len (concat request_pieces), q, request_events).
Proof.
  assert (H := http_pieces transcript 200 request_pieces http_parser_init []
    (pieces_ok 200 request_pieces eq_refl) (pieceb_ok 200 (concat request_pieces) eq_refl) ltac:(lia)
    (init_ok 200 ltac:(lia))).
  assert (Ha := request_accepted).
  generalize dependent (in_pieces transcript 200 request_pieces http_parser_init []).
  intros [q u f| |] H Ha; [|destruct Ha..]. exists q. rewrite H, Ha. reflexivity.
Defined.

Lemma request_whole : match http_parser_execute (plain transcript) 200 (concat request_pieces) http_parser_init [] with
  | inr (n, _, _) => n = len (concat request_pieces)
  | inl _ => False
  end.
Proof. by vm_compute. Qed.

Lemma http_safe_witness : piece 200 (concat request_pieces) /\ parser_ok 200 0 http_parser_init 0 /\
  exists r, http_parser_execute (plain transcript) 200 (concat request_pieces) http_parser_init [] = inr r.
Proof.
  split; [by apply pieceb_ok|]. split; [apply init_ok; lia|].
  assert (H := http_safe transcript 200 (concat request_pieces) http_parser_init []
    (pieceb_ok 200 (concat request_pieces) eq_refl) ltac:(lia) (init_ok 200 ltac:(lia))).
  assert (Hw := request_whole).
  generalize dependent (http_parser_execute (plain transcript) 200 (concat request_pieces) http_parser_init []).
  intros [why|r] H Hw; [destruct Hw|by exists r].
Defined.
