(* ===== verification/HttpRead.v ===== *)
(** * The request the parser reads

    A written request, [request_text], is followed byte by byte through
    [http_parser_execute] ([request_read]): the callbacks are given the URL, the
    name and the value of every header, and the body, in this order and whole.
    What the headers mean to the parser is computed by [head_effect], from the
    closed forms of the automata for names and values of [HttpFeed] and
    [HttpTurns]; [HttpNames] says which headers mean something.

    Chunked bodies, other versions than 1.1, absolute URLs and lines that are
    continued are read by the parser but not by these lemmas. *)

From S2P Require Import Prelude CInt CArray HttpData HttpParser HttpSteps HttpBytes HttpFeed HttpTurns HttpPieces HttpCuts.
#[local] Open Scope http_scope.

Section read.
Context {U : Type} (h : handlers U) `{!Mergeable h} (max : Z).
#[local] Abbreviation resume := (resume h max).
#[local] Abbreviation bytewise := (bytewise h max).

Definition next (from : option Z) : option Z := option_map (fun s => s - 1) from.

Lemma byte_step q u from c m1 q' u' : parser_ok max 0 q (nread q) -> nread q + 1 <= max -> max < 2 ^ 31 ->
  execute_byte (plain h) max [c] reexecutions false false c (counted (on_byte h c q u from)) = Value tt m1 ->
  p m1 = 0 -> http_errno_ (parser m1) = CHPE_OK -> mark_count m1 <= 1 -> (forall k i, pending m1 = Some (k, i) -> i = 0) ->
  set_nread (nread_ m1) (parser m1) = q' -> given h [c] (advance m1) = u' ->
  resume [c] q u from = Accepted q' u' (option_map (fun s => s - 1) (url_start_mark m1)).
Proof.
  intros Hq Hn Hmax He Hp Her Hl Hi <- <-. rewrite (resume_on_byte h max c q u from).
  assert (Hok : parser_ok max 0 (parser (on_byte h c q u from)) (nread_ (on_byte h c q u from))) by by destruct Hq.
  assert (Hu : option_map (fun s => s - 1) (url_start_mark m1) = url_from (advance m1)) by (unfold url_from; cbn; by rewrite Hp).
  rewrite Hu. apply run_byte_value; [done| |done..]. rewrite on_byte_twin.
  assert (Hn0 : 0 <= nread q) by apply Hq. assert (Hr : 0 <= nread_ (on_byte h c q u from) <= max) by (cbn; lia).
  destruct (loop_body_counted max (plain h) [c] false false c (on_byte h c q u from) Hmax Hr) as [[_ H]|[Hlt _]]; [by rewrite H|].
  exfalso. unfold counted in Hlt. destruct (CROW_PARSING_HEADER _); cbn in Hlt; lia.
Qed.

Lemma byte_go q u from c m1 q' u' : parser_ok max 0 q (nread q) -> nread q + 1 <= max -> max < 2 ^ 31 ->
  execute_byte (plain h) max [c] reexecutions false false c (counted (on_byte h c q u from)) = Value tt m1 ->
  p m1 = 0 -> http_errno_ (parser m1) = CHPE_OK -> mark_count m1 <= 1 -> (forall k i, pending m1 = Some (k, i) -> i = 0) ->
  url_start_mark m1 = url_start_mark (counted (on_byte h c q u from)) ->
  set_nread (nread_ m1) (parser m1) = q' -> given h [c] (advance m1) = u' ->
  resume [c] q u from = Accepted q' u' (next from).
Proof.
  intros Hq Hn Hmax He Hp Her Hl Hi Hs Hq' Hu'. rewrite (byte_step q u from c m1 q' u') by done. f_equal. rewrite Hs.
  unfold counted. destruct (CROW_PARSING_HEADER _); destruct from; cbn; try done; f_equal; lia.
Qed.

(** The parser between two bytes of the head of a request. *)
Definition conn (fl : Z) (s : state) (hs : header_states) (ix : Z) (te : bool) (n cl qs mj mn : Z) (m : HTTPMethod) : http_parser :=
  Parser fl s hs ix te false false n cl qs mj mn m CHPE_OK false.

Ltac tidy := cbv [counted on_byte twin start_from conn parser user p nread_ set_flags set_state set_header_state set_index
  set_uses_transfer_encoding set_nread set_content_length set_qs_point set_version set_method set_http_errno set_upgrade flags
  state_ header_state index uses_transfer_encoding HttpData.allow_chunked_length lenient_http_headers nread content_length
  qs_point http_major http_minor method http_errno_ upgrade CROW_PARSING_HEADER].
Ltac byte_by l t := erewrite l; [ | |cbn; lia|done|t; reflexivity|reflexivity|reflexivity|done|by intros ? ? [= <- <-] || done|..];
  [|split; cbn; try done; lia|..].
Ltac byte := byte_by byte_go idtac; [|reflexivity|tidy; reflexivity|cbn; reflexivity].
Ltac byte_vm := byte_by byte_go ltac:(vm_compute); [|reflexivity|tidy; reflexivity|cbn; reflexivity].

(** From one state of the parser and the program to another, wherever the URL
    started. *)
Definition reads (d : list ascii) (q : http_parser) (u : U) (q' : http_parser) (u' : U) : Prop :=
  forall from, exists from', bytewise d q u from = Accepted q' u' from'.

Lemma reads_app d1 d2 q u q1 u1 q2 u2 : reads d1 q u q1 u1 -> reads d2 q1 u1 q2 u2 -> reads (d1 ++ d2) q u q2 u2.
Proof. intros H1 H2 from. rewrite bytewise_app. destruct (H1 from) as [from' ->]. apply H2. Qed.

Lemma reads_one c d q u q1 u1 q2 u2 : (forall from, resume [c] q u from = Accepted q1 u1 (next from)) -> reads d q1 u1 q2 u2 -> reads (c :: d) q u q2 u2.
Proof. intros H1 H2 from. cbn. rewrite H1. apply H2. Qed.

Lemma reads_nil q u : reads [] q u q u.
Proof. intros from. by exists from. Qed.

Lemma reads_as d q u q1 q2 u1 : reads d q u q1 u1 -> q1 = q2 -> reads d q u q2 u1.
Proof. by intros ? <-. Qed.

Ltac counts := unfold conn, len; cbn [length]; f_equal; lia.

Lemma version_read fl hs ix te n cl qs mj mn m u : 0 <= n -> n + 10 <= max -> max < 2 ^ 31 -> 0 <= cl <= CROW_ULLONG_MAX ->
  reads (String.list_ascii_of_string "HTTP/1.1" ++ [cr; lf]) (conn fl s_req_http_start hs ix te n cl qs mj mn m) u
    (conn fl s_header_field_start hs ix te (n + 10) cl qs 1 1 m) u.
Proof.
  intros. change (String.list_ascii_of_string "HTTP/1.1" ++ [cr; lf]) with ["H"; "T"; "T"; "P"; "/"; "1"; "."; "1"; cr; lf]%char.
  eapply reads_as; [repeat (eapply reads_one; [intros from; byte; reflexivity|])|]; [apply reads_nil|]. counts.
Qed.

(** ** The method *)

(** The parser before a request: what is left in the other fields is set anew. *)
Definition idle (q : http_parser) : Prop :=
  exists fl hs ix te cl m, q = conn fl s_start_req hs ix te 0 cl 0 0 0 m /\ 0 <= cl <= CROW_ULLONG_MAX.

Lemma idle_init : idle http_parser_init.
Proof. by exists 0, h_general, 0, false, 0, Delete. Qed.

Lemma method_read m q u : m <> Connect -> idle q -> slen (method_string m) + 1 <= max -> max < 2 ^ 31 -> exists q0 hs ix,
  bytewise (String.list_ascii_of_string (method_string m) ++ [" "%char]) q u None =
  Accepted (conn 0 s_req_spaces_before_url hs ix false (slen (method_string m) + 1) CROW_ULLONG_MAX 0 0 0 m) (begun h q0 u) None.
Proof.
  intros Hm (fl & hs & ix & te & cl & m0 & -> & Hcl) Hn Hmax. destruct m; try done; eexists _, _, _.
  all: match goal with |- context [String.list_ascii_of_string ?s ++ ?x] =>
         let v := eval vm_compute in (String.list_ascii_of_string s ++ x) in change (String.list_ascii_of_string s ++ x) with v end.
  all: match goal with |- context [slen ?s] => let v := eval vm_compute in (slen s) in change (slen s) with v in * end.
  all: cbn [HttpFeed.bytewise]; repeat byte_vm; reflexivity.
Qed.

(** ** The URL *)

(** The machine a byte is looked at with, by the mark that is set. *)
Lemma counted_plain c q u from : CROW_PARSING_HEADER (state_ q) = true -> marked (state_ q) = None ->
  counted (on_byte h c q u from) = Machine q u 0 (nread q + 1) None None None (option_map (fun s => s - 0) from) None.
Proof.
  intros Hh Hm. unfold counted. change (state_ (parser (on_byte h c q u from))) with (state_ q). rewrite Hh.
  unfold on_byte, twin. cbn. rewrite Hm. unfold flushed, pending. cbn. by destruct q, from as [s|].
Qed.

Lemma counted_url c q u from : CROW_PARSING_HEADER (state_ q) = true -> marked (state_ q) = Some Url ->
  counted (on_byte h c q u from) = Machine q u 0 (nread q + 1) None None (Some 0) (option_map (fun s => s - 0) from) None.
Proof.
  intros Hh Hm. unfold counted. change (state_ (parser (on_byte h c q u from))) with (state_ q). rewrite Hh.
  unfold on_byte, twin. cbn. rewrite Hm. unfold flushed, pending. cbn. by destruct q, from as [s|].
Qed.

Lemma byte_case c m m1 : switch (plain h) max [c] false false (state_ (parser m)) c m = Value Break m1 ->
  execute_byte (plain h) max [c] reexecutions false false c m = Value tt m1.
Proof. intros H. unfold reexecutions. rewrite execute_byte_S, bind_gets. unfold bind. by rewrite H. Qed.

Lemma url_start fl hs ix te n cl qs mj mn m u : m <> Connect -> 0 <= n -> n + 1 <= max -> max < 2 ^ 31 -> 0 <= cl <= CROW_ULLONG_MAX ->
  resume ["/"%char] (conn fl s_req_spaces_before_url hs ix te n cl qs mj mn m) u None =
  Accepted (conn fl s_req_path hs ix te (n + 1) cl qs mj mn m) (feed h Url u ["/"%char]) (Some (-1)).
Proof.
  intros Hm Hn0 Hn Hmax Hcl. set (q := conn fl s_req_path hs ix te n cl qs mj mn m).
  rewrite (byte_step _ _ _ _ (Machine q u 0 (n + 1) None None (Some 0) (Some 0) None) (conn fl s_req_path hs ix te (n + 1) cl qs mj mn m) (feed h Url u ["/"%char]));
    [done|split; cbn; try done; lia|exact Hn|exact Hmax| |done..|by intros ? ? [= <- <-]|done|done].
  rewrite counted_plain by done. apply byte_case. cbn [parser conn state_ switch].
  unfold case_req_spaces_before_url. change (same " " "/") with false. unfold parser_is, bind, gets. cbn. by rewrite bool_decide_eq_false_2.
Qed.

Lemma url_step s s' c fl hs ix te n cl qs qs' mj mn m u k : 0 <= n -> n + 1 <= max -> max < 2 ^ 31 -> 0 <= cl <= CROW_ULLONG_MAX ->
  s = s_req_path \/ s = s_req_query_string_start \/ s = s_req_query_string ->
  same " " c = false -> same cr c || same lf c = false -> marked s' = Some Url -> s' <> s_dead ->
  parse_url_char s c (conn fl s hs ix te n cl qs mj mn m) (Some (k - 0)) 0 = Some (s', conn fl s hs ix te n cl qs' mj mn m) ->
  resume [c] (conn fl s hs ix te n cl qs mj mn m) u (Some k) = Accepted (conn fl s' hs ix te (n + 1) cl qs' mj mn m) (feed h Url u [c]) (Some (k - 1)).
Proof.
  intros Hn0 Hn Hmax Hcl Hs Hsp Hle Hm Hd Hp. set (q := conn fl s' hs ix te n cl qs' mj mn m).
  rewrite (byte_step _ _ _ _ (Machine q u 0 (n + 1) None None (Some 0) (Some (k - 0)) None) (conn fl s' hs ix te (n + 1) cl qs' mj mn m) (feed h Url u [c]));
    [by rewrite Z.sub_0_r| |exact Hn|exact Hmax| |done..|by intros ? ? [= <- <-]|done|done].
  { split; cbn; try done; [lia|]. unfold state_ok. by destruct Hs as [-> | [-> | ->]]. }
  rewrite counted_url by (by destruct Hs as [-> | [-> | ->]]). apply byte_case. cbn [parser conn state_].
  assert (Hst : switch (plain h) max [c] false false s c = case_req_url (plain h) [c] c) by by destruct Hs as [-> | [-> | ->]].
  rewrite Hst. unfold case_req_url. rewrite Hsp, Hle. unfold step_url. rewrite !bind_gets. cbn [parser url_start_mark p option_map conn state_].
  change (Parser fl s hs ix te false false n cl qs mj mn m CHPE_OK false) with (conn fl s hs ix te n cl qs mj mn m).
  rewrite Hp. unfold goto_state, on_parser, modify, bind. cbn. by rewrite bool_decide_eq_false_2.
Qed.

Lemma url_char_not c x : CROW_IS_URL_CHAR c = true -> CROW_IS_URL_CHAR x = false -> same x c = false.
Proof. intros H Hx. unfold same. apply Ascii.eqb_neq. intros ->. by rewrite H in Hx. Qed.

Lemma url_char_next s s' c q start o : CROW_IS_URL_CHAR c = true ->
  (s = s_req_path /\ s' = s_req_path) \/ ((s = s_req_query_string_start \/ s = s_req_query_string) /\ s' = s_req_query_string) ->
  parse_url_char s c q start o = Some (s', q).
Proof.
  intros H Hs. unfold parse_url_char.
  assert (Hn : forall x, CROW_IS_URL_CHAR x = false -> Ascii.eqb c x = false) by (intros x Hx; by apply (url_char_not c x)).
  rewrite (Hn " "%char), (Hn cr), (Hn lf), (Hn tab), (Hn (chr 12)) by by vm_compute. cbn [orb].
  destruct Hs as [[-> ->]|[[-> | ->] ->]]; by rewrite H.
Qed.

Lemma path_read path fl hs ix te n cl qs mj mn m u a k : Forall (fun c => CROW_IS_URL_CHAR c = true) path ->
  0 <= n -> n + len path <= max -> max < 2 ^ 31 -> 0 <= cl <= CROW_ULLONG_MAX ->
  bytewise path (conn fl s_req_path hs ix te n cl qs mj mn m) (feed h Url u a) (Some k) =
  Accepted (conn fl s_req_path hs ix te (n + len path) cl qs mj mn m) (feed h Url u (a ++ path)) (Some (k - len path)).
Proof.
  intros Hp. revert n a k. induction Hp as [|c path Hc _ IH]; intros n a k Hn0 Hn Hmax Hcl.
  { cbn. rewrite app_nil_r, Z.add_0_r, Z.sub_0_r. done. }
  unfold len in *. cbn [length HttpFeed.bytewise] in *. rewrite (url_step _ s_req_path c _ _ _ _ _ _ _ qs); try done; try lia; [| |..].
  - rewrite feed_app, IH by lia. rewrite <- app_assoc. unfold conn. f_equal; [|f_equal; lia]. f_equal. lia.
  - by left.
  - by apply url_char_not.
  - by rewrite !url_char_not.
  - apply url_char_next; [done|by left].
Qed.

Definition query_char (c : ascii) : bool := CROW_IS_URL_CHAR c || Ascii.eqb c "?".

Lemma query_read query s fl hs ix te n cl qs mj mn m u a k : Forall (fun c => query_char c = true) query ->
  s = s_req_query_string_start \/ s = s_req_query_string -> 0 <= n -> n + len query <= max -> max < 2 ^ 31 -> 0 <= cl <= CROW_ULLONG_MAX ->
  exists s', (s' = s_req_query_string_start \/ s' = s_req_query_string) /\
  bytewise query (conn fl s hs ix te n cl qs mj mn m) (feed h Url u a) (Some k) =
  Accepted (conn fl s' hs ix te (n + len query) cl qs mj mn m) (feed h Url u (a ++ query)) (Some (k - len query)).
Proof.
  intros Hp. revert s n a k. induction Hp as [|c query Hc _ IH]; intros s n a k Hs Hn0 Hn Hmax Hcl.
  { exists s. split; [done|]. cbn. rewrite app_nil_r, Z.add_0_r, Z.sub_0_r. done. }
  unfold len in *. cbn [length HttpFeed.bytewise] in *.
  assert (Hnot : forall x, query_char x = false -> same x c = false).
  { intros x Hx. unfold same. apply Ascii.eqb_neq. intros ->. by rewrite Hc in Hx. }
  assert (Hpc : forall q start o, parse_url_char s c q start o = Some (s_req_query_string, q)).
  { intros. unfold query_char in Hc. destruct (CROW_IS_URL_CHAR c) eqn:E; [apply url_char_next; [done|by right]|].
    cbn in Hc. apply Ascii.eqb_eq in Hc as ->. by destruct Hs as [-> | ->]. }
  rewrite (url_step _ s_req_query_string c _ _ _ _ _ _ _ qs); try done; try lia; [|by right|by apply Hnot|by rewrite !Hnot].
  destruct (IH s_req_query_string (n + 1) (a ++ [c]) (k - 1)) as (s' & Hs' & H); [by right|lia..|].
  exists s'. split; [done|]. rewrite feed_app, H. rewrite <- app_assoc. unfold conn. f_equal; [|f_equal; lia]. f_equal. lia.
Qed.

Lemma url_end s fl hs ix te n cl qs mj mn m u from : 0 <= n -> n + 1 <= max -> max < 2 ^ 31 -> 0 <= cl <= CROW_ULLONG_MAX ->
  s = s_req_path \/ s = s_req_query_string_start \/ s = s_req_query_string ->
  resume [" "%char] (conn fl s hs ix te n cl qs mj mn m) u from =
  Accepted (conn fl s_req_http_start hs ix te (n + 1) cl qs mj mn m) (feed h Url u []) (next from).
Proof.
  intros Hn0 Hn Hmax Hcl Hs.
  assert (H : forall f, switch (plain h) max [" "%char] false false s " "%char (Machine (conn fl s hs ix te n cl qs mj mn m) u 0 (n + 1) None None (Some 0) f None) =
    Value Break (Machine (conn fl s_req_http_start hs ix te n cl qs mj mn m) (feed h Url u []) 0 (n + 1) None None None f None)).
  { intros f. by destruct Hs as [-> | [-> | ->]]. }
  assert (Hc : counted (on_byte h " "%char (conn fl s hs ix te n cl qs mj mn m) u from) =
    Machine (conn fl s hs ix te n cl qs mj mn m) u 0 (n + 1) None None (Some 0) (option_map (fun s => s - 0) from) None).
  { apply counted_url; by destruct Hs as [-> | [-> | ->]]. }
  rewrite (byte_step _ _ _ _ (Machine (conn fl s_req_http_start hs ix te n cl qs mj mn m) (feed h Url u []) 0 (n + 1) None None None (option_map (fun s => s - 0) from) None)
    (conn fl s_req_http_start hs ix te (n + 1) cl qs mj mn m) (feed h Url u [])); [| |exact Hn|exact Hmax| |done..].
  - f_equal. destruct from; cbn; [f_equal; lia|done].
  - split; cbn; try done; [lia|]. unfold state_ok. by destruct Hs as [-> | [-> | ->]].
  - rewrite Hc. by apply byte_case, H.
Qed.

(** A path, and what follows its question mark. *)
Definition url_text (path : list ascii) (query : option (list ascii)) : list ascii :=
  "/"%char :: path ++ match query with Some query => "?"%char :: query | None => [] end.

Definition wf_url (path : list ascii) (query : option (list ascii)) : Prop :=
  Forall (fun c => CROW_IS_URL_CHAR c = true) path /\ Forall (fun c => query_char c = true) (default [] query).

(** [qs_point]. *)
Definition question_at (path : list ascii) (query : option (list ascii)) : Z :=
  match query with Some _ => len path + 1 | None => 0 end.

Lemma url_read path query fl hs ix te n cl mj mn m u : m <> Connect -> wf_url path query -> 0 <= n -> n + len (url_text path query) + 1 <= max ->
  max < 2 ^ 31 -> 0 <= cl <= CROW_ULLONG_MAX -> exists from,
  bytewise (url_text path query ++ [" "%char]) (conn fl s_req_spaces_before_url hs ix te n cl 0 mj mn m) u None =
  Accepted (conn fl s_req_http_start hs ix te (n + len (url_text path query) + 1) cl (question_at path query) mj mn m)
    (feed h Url u (url_text path query)) from.
Proof.
  intros Hm [Hp Hq] Hn0 Hn Hmax Hcl. unfold url_text, len in *. cbn [app length] in *. rewrite length_app in *. cbn [HttpFeed.bytewise].
  rewrite url_start by (done || lia). rewrite <- app_assoc, bytewise_app, path_read by (done || (unfold len; lia)).
  destruct query as [query|]; cbn [app length default] in *.
  - cbn [HttpFeed.bytewise]. rewrite (url_step _ s_req_query_string_start "?"%char _ _ _ _ _ _ _ (len path + 1));
      [|unfold len in *; lia|unfold len in *; lia|exact Hmax|exact Hcl|by left|done|done|done|done|].
    2: { unfold parse_url_char. cbn. unfold set_qs_point, conn. do 3 f_equal. lia. }
    rewrite feed_app, bytewise_app.
    destruct (query_read query s_req_query_string_start fl hs ix te (n + 1 + len path + 1) cl (len path + 1) mj mn m u (("/"%char :: path) ++ ["?"%char]) (-1 - len path - 1))
      as (s' & Hs' & ->); [done|by left|unfold len in *; lia|unfold len in *; lia|done|done|].
    cbn [HttpFeed.bytewise]. rewrite url_end by (done || (unfold len in *; lia) || (destruct Hs' as [-> | ->]; auto)).
    rewrite feed_app, app_nil_r. eexists. f_equal; [unfold conn, len; f_equal; lia|]. f_equal. cbn. by rewrite <- app_assoc.
  - cbn [HttpFeed.bytewise]. rewrite url_end by (done || (unfold len in *; lia) || auto).
    rewrite feed_app, app_nil_r. eexists. f_equal; [unfold conn, len; f_equal; lia|]. by rewrite app_nil_r.
Qed.

(** ** The name of a header *)

Lemma field_byte q u from c : parser_ok max 0 q (nread q) -> state_ q = s_header_field -> nread q + 1 <= max -> max < 2 ^ 31 ->
  resume [c] q u from =
    if is_token c then Accepted (set_nread (nread q + 1) (field_step q c)) (feed h Header_field u [c]) (next from)
    else if same ":" c then Accepted (set_nread (nread q + 1) (set_state s_header_value_discard_ws q)) (feed h Header_field u []) (next from)
    else Rejected.
Proof.
  intros Hq Hs Hn Hmax. pose proof (on_byte_ok h max c q u from Hq ltac:(by rewrite Hs)) as Hr.
  pose proof (small_field h max [c] (on_byte h c q u from) c Hr Hs ltac:(destruct Hq; lia)) as H. cbn zeta in H.
  rewrite <- resume_on_byte in H. rewrite on_byte_flushed in H. rewrite H. clear H.
  change (nread_ (on_byte h c q u from)) with (nread q). rewrite (proj2 (Z.ltb_ge _ _)) by lia.
  assert (Hu : url_next (on_byte h c q u from) = next from) by (rewrite <- url_next_from, on_byte_url; done). rewrite Hu.
  change (parser (on_byte h c q u from)) with (set_nread (nread q) q). rewrite field_step_nread. done.
Qed.

Lemma value_byte q u from c : parser_ok max 0 q (nread q) -> state_ q = s_header_value -> nread q + 1 <= max -> max < 2 ^ 31 ->
  resume [c] q u from =
    if line_end c then Accepted (set_nread (nread q + 1) (set_state (value_end_state c) q)) (feed h Header_value u []) (next from)
    else match value_step (header_state q) q c with
    | None => Rejected
    | Some (hs', q') => Accepted (set_nread (nread q + 1) (set_header_state hs' q')) (feed h Header_value u [c]) (next from)
    end.
Proof.
  intros Hq Hs Hn Hmax. pose proof (on_byte_ok h max c q u from Hq ltac:(by rewrite Hs)) as Hr.
  pose proof (small_value h max [c] (on_byte h c q u from) c Hr Hs ltac:(destruct Hq; lia)) as H. cbn zeta in H.
  rewrite <- resume_on_byte in H. rewrite on_byte_flushed in H. rewrite H. clear H.
  change (nread_ (on_byte h c q u from)) with (nread q). rewrite (proj2 (Z.ltb_ge _ _)) by lia.
  assert (Hu : url_next (on_byte h c q u from) = next from) by (rewrite <- url_next_from, on_byte_url; done). rewrite Hu.
  assert (Hp : parser (on_byte h c q u from) = q) by by destruct q. rewrite Hp. by destruct (line_end c).
Qed.

(** The character of a name that is read first. *)
Definition first_state (ch : ascii) : header_states :=
  let c := CROW_TOKEN ch in
  if same "c" c then h_C
  else if same "p" c then h_matching_proxy_connection
  else if same "t" c then h_matching_transfer_encoding
  else if same "u" c then h_matching_upgrade
  else h_general.

(** The state of the header after its name, and whether a transfer coding was
    named. *)
Definition name_rest (hs : header_states) (ix : Z) (te : bool) (k : list ascii) : header_states * Z * bool :=
  let q := fold_left field_step k (conn 0 s_header_field hs ix te 0 0 0 0 0 Get) in (header_state q, index q, uses_transfer_encoding q).

Lemma field_step_conn fl s hs ix te n cl qs mj mn m c : field_state hs ->
  let q := field_step (conn 0 s hs ix te 0 0 0 0 0 Get) c in
  field_step (conn fl s hs ix te n cl qs mj mn m) c = conn fl s (header_state q) (index q) (uses_transfer_encoding q) n cl qs mj mn m /\
  q = conn 0 s (header_state q) (index q) (uses_transfer_encoding q) 0 0 0 0 0 Get /\ field_state (header_state q).
Proof.
  intros Hf q. destruct (field_step_shape (conn 0 s hs ix te 0 0 0 0 0 Get) c Hf) as (hs' & ix' & b & Hs' & Hq).
  assert (Hqq : q = with_header hs' ix' b (conn 0 s hs ix te 0 0 0 0 0 Get)) by exact Hq. split; [|split; [by rewrite Hqq|by rewrite Hqq]].
  subst q. clear Hqq Hq Hs'. unfold field_step. cbn [conn header_state index uses_transfer_encoding]. destruct hs; try done.
  all: try (by destruct (match_next _ _ _)). all: by destruct (negb _).
Qed.

Lemma name_read k fl hs ix te n cl qs mj mn m u a hs' ix' te' : Forall (fun c => is_token c = true) k -> field_state hs ->
  name_rest hs ix te k = (hs', ix', te') -> 0 <= n -> n + len k <= max -> max < 2 ^ 31 -> 0 <= cl <= CROW_ULLONG_MAX ->
  reads k (conn fl s_header_field hs ix te n cl qs mj mn m) (feed h Header_field u a)
    (conn fl s_header_field hs' ix' te' (n + len k) cl qs mj mn m) (feed h Header_field u (a ++ k)) /\ field_state hs'.
Proof.
  intros Hk. revert hs ix te n a. induction Hk as [|c k Hc _ IH]; intros hs ix te n a Hf Hr Hn0 Hn Hmax Hcl.
  { injection Hr as <- <- <-. rewrite app_nil_r. split; [|done]. eapply reads_as; [apply reads_nil|]. unfold len. counts. }
  unfold name_rest in Hr. cbn [fold_left] in Hr. destruct (field_step_conn fl s_header_field hs ix te n cl qs mj mn m c Hf) as (Hs & Hq & Hf').
  rewrite Hq in Hr. unfold len in *. cbn [length] in *.
  destruct (IH _ _ _ (n + 1) (a ++ [c]) Hf' Hr) as [H1 H2]; [lia..|]. split; [|done].
  eapply reads_as; [eapply reads_one; [|rewrite <- app_assoc in H1; exact H1]|].
  - intros from. rewrite field_byte; [|split; cbn; try done; lia|done|cbn; lia|done]. rewrite Hc, feed_app, Hs. done.
  - counts.
Qed.

(** ** Between two headers *)

(** What the parser does with the header before once it knows that the line is
    over: the flags and the program's state. *)
Definition line_flags (hs : header_states) (fl : Z) : Z :=
  match hs with
  | h_connection_keep_alive => Z.lor fl F_CONNECTION_KEEP_ALIVE
  | h_connection_close => Z.lor fl F_CONNECTION_CLOSE
  | h_transfer_encoding_chunked => Z.lor fl F_CHUNKED
  | _ => fl
  end.

Definition settled_flags (s : state) (hs : header_states) (fl : Z) : Z :=
  match s with s_header_value_lws => line_flags hs fl | _ => fl end.

Definition settled_user (s : state) (u : U) : U :=
  match s with s_header_value_discard_lws => feed h Header_value u [] | _ => u end.

Definition line_start (s : state) (hs : header_states) : Prop :=
  s = s_header_field_start \/ s = s_header_value_lws /\ value_state hs \/ s = s_header_value_discard_lws.

Lemma byte_again c m m2 m1 : switch (plain h) max [c] false false (state_ (parser m)) c m = Value (Reexecute c) m2 ->
  switch (plain h) max [c] false false (state_ (parser m2)) c m2 = Value Break m1 ->
  execute_byte (plain h) max [c] reexecutions false false c m = Value tt m1.
Proof.
  intros H1 H2. unfold reexecutions. rewrite execute_byte_S, bind_gets. unfold bind at 1. rewrite H1.
  rewrite execute_byte_S, bind_gets. unfold bind. by rewrite H2.
Qed.

(** The byte is looked at in the state at the start of a line. *)
Lemma settle c s fl hs ix te n cl qs mj mn m u f m1 : line_start s hs -> same " " c = false -> same tab c = false ->
  switch (plain h) max [c] false false s_header_field_start c
    (Machine (conn (settled_flags s hs fl) s_header_field_start hs ix te n cl qs mj mn m) (settled_user s u) 0 (n + 1) None None None f None) = Value Break m1 ->
  execute_byte (plain h) max [c] reexecutions false false c
    (Machine (conn fl s hs ix te n cl qs mj mn m) u 0 (n + 1) None None None f None) = Value tt m1.
Proof.
  intros Hs Hsp Htab H. destruct Hs as [-> | [[-> Hv] | ->]].
  - apply byte_case. exact H.
  - eapply byte_again; [|exact H]. cbn [parser conn state_ switch]. unfold case_header_value_lws. rewrite bind_gets, Hsp, Htab. cbn [orb parser conn header_state].
    unfold bind, on_parser, modify, goto_state, ret. by destruct hs.
  - eapply byte_again; [|exact H]. cbn [parser conn state_ switch]. unfold case_header_value_discard_lws. rewrite Hsp, Htab. reflexivity.
Qed.

Lemma token_not c x : is_token c = true -> is_token x = false -> same x c = false.
Proof. intros H Hx. unfold same. apply Ascii.eqb_neq. intros ->. by rewrite H in Hx. Qed.

Lemma first_byte c s fl hs ix te n cl qs mj mn m u from : is_token c = true -> line_start s hs ->
  0 <= n -> n + 1 <= max -> max < 2 ^ 31 -> 0 <= cl <= CROW_ULLONG_MAX ->
  resume [c] (conn fl s hs ix te n cl qs mj mn m) u from =
  Accepted (conn (settled_flags s hs fl) s_header_field (first_state c) 0 te (n + 1) cl qs mj mn m)
    (feed h Header_field (settled_user s u) [c]) (next from).
Proof.
  intros Hc Hs Hn0 Hn Hmax Hcl.
  rewrite (byte_step _ _ _ _ (Machine (conn (settled_flags s hs fl) s_header_field (first_state c) 0 te n cl qs mj mn m) (settled_user s u) 0 (n + 1)
    (Some 0) None None (option_map (fun s => s - 0) from) None)
    (conn (settled_flags s hs fl) s_header_field (first_state c) 0 te (n + 1) cl qs mj mn m) (feed h Header_field (settled_user s u) [c]));
    [| |exact Hn|exact Hmax| |done..|by intros ? ? [= <- <-]|done|done].
  - f_equal. destruct from; cbn; [f_equal; lia|done].
  - split; cbn; try done; [lia|]. unfold state_ok. by destruct Hs as [-> | [[-> Hv] | ->]].
  - rewrite counted_plain by (by destruct Hs as [-> | [[-> Hv] | ->]]). apply settle; [done|by apply token_not..|].
    cbn [switch]. unfold case_header_field_start. rewrite (token_not c cr), (token_not c lf) by done.
    unfold is_token in Hc. unfold same at 1. rewrite (proj1 (negb_true_iff _) Hc). reflexivity.
Qed.

Lemma blank_byte s fl hs ix te n cl qs mj mn m u from : line_start s hs ->
  0 <= n -> n + 1 <= max -> max < 2 ^ 31 -> 0 <= cl <= CROW_ULLONG_MAX ->
  resume [cr] (conn fl s hs ix te n cl qs mj mn m) u from =
  Accepted (conn (settled_flags s hs fl) s_headers_almost_done hs ix te (n + 1) cl qs mj mn m) (settled_user s u) (next from).
Proof.
  intros Hs Hn0 Hn Hmax Hcl.
  rewrite (byte_step _ _ _ _ (Machine (conn (settled_flags s hs fl) s_headers_almost_done hs ix te n cl qs mj mn m) (settled_user s u) 0 (n + 1)
    None None None (option_map (fun s => s - 0) from) None)
    (conn (settled_flags s hs fl) s_headers_almost_done hs ix te (n + 1) cl qs mj mn m) (settled_user s u));
    [| |exact Hn|exact Hmax| |done..].
  - f_equal. destruct from; cbn; [f_equal; lia|done].
  - split; cbn; try done; [lia|]. unfold state_ok. by destruct Hs as [-> | [[-> Hv] | ->]].
  - rewrite counted_plain by (by destruct Hs as [-> | [[-> Hv] | ->]]). by apply settle.
Qed.

(** ** The value of a header *)

Definition value_first (hs : header_states) (fl cl : Z) (ch : ascii) : option (header_states * Z * Z) :=
  let c := CROW_LOWER ch in
  match hs with
  | h_upgrade => Some (h_general, Z.lor fl F_UPGRADE, cl)
  | h_transfer_encoding => Some (if same "c" c then h_matching_transfer_encoding_chunked else h_matching_transfer_encoding_token, fl, cl)
  | h_content_length =>
      if negb (CROW_IS_NUM ch) then None
      else if negb (Z.land fl F_CONTENTLENGTH =? 0) then None
      else Some (h_content_length_num, Z.lor fl F_CONTENTLENGTH, uc ch - 48)
  | h_connection =>
      Some (if same "k" c then h_matching_connection_keep_alive else if same "c" c then h_matching_connection_close else h_general, fl, cl)
  | _ => Some (h_general, fl, cl)
  end.

Lemma lower_not c x : c <> NUL -> same " " c = false -> same tab c = false -> x = " "%char \/ x = tab -> same x (CROW_LOWER c) = false.
Proof.
  intros H0 Hs Ht Hx. destruct c as [[] [] [] [] [] [] [] []]; destruct Hx as [-> | ->]; vm_compute in *; congruence.
Qed.

Lemma value_start c fl hs ix te n cl qs mj mn m u from hs' fl' cl' : field_state hs -> c <> NUL -> same " " c = false -> same tab c = false -> line_end c = false ->
  value_first hs fl cl c = Some (hs', fl', cl') -> 0 <= n -> n + 1 <= max -> max < 2 ^ 31 -> 0 <= cl <= CROW_ULLONG_MAX ->
  resume [c] (conn fl s_header_value_discard_ws hs ix te n cl qs mj mn m) u from =
  Accepted (conn fl' s_header_value hs' 0 te (n + 1) cl' qs mj mn m) (feed h Header_value u [c]) (next from) /\
  value_state hs' /\ 0 <= cl' <= CROW_ULLONG_MAX.
Proof.
  intros Hf H0 Hsp Htab Hle Hv Hn0 Hn Hmax Hcl. split.
  2: { destruct hs; try done; cbn in Hv; repeat case_match; try done; injection Hv as <- <- <-; (split; [done|]); try done.
    all: match goal with H : negb (CROW_IS_NUM ?c) = false |- _ => pose proof (is_num_range c H) end; unfold CROW_ULLONG_MAX; lia. }
  rewrite (byte_step _ _ _ _ (Machine (conn fl' s_header_value hs' 0 te n cl' qs mj mn m) u 0 (n + 1)
    None (Some 0) None (option_map (fun s => s - 0) from) None)
    (conn fl' s_header_value hs' 0 te (n + 1) cl' qs mj mn m) (feed h Header_value u [c]));
    [| |exact Hn|exact Hmax| |done..|by intros ? ? [= <- <-]|done|done].
  - f_equal. destruct from; cbn; [f_equal; lia|done].
  - split; cbn; try done; lia.
  - rewrite counted_plain by done. apply byte_case. cbn [parser conn state_ switch]. unfold case_header_value_discard_ws.
    unfold line_end in Hle. apply orb_false_elim in Hle as [Hcr Hlf]. rewrite Hsp, Htab, Hcr, Hlf. cbn [orb].
    pose proof (lower_not c " "%char H0 Hsp Htab (or_introl eq_refl)) as L1. pose proof (lower_not c tab H0 Hsp Htab (or_intror eq_refl)) as L2.
    unfold case_header_value_start, CROW_MARK, header_value_first, goto_state, on_parser, modify, parser_is, bind, gets.
    cbn [mark_of header_value_mark set_mark modify parser header_state conn set_index set_state].
    destruct (decide (hs = h_connection)) as [->|Hh].
    + cbn -[same CROW_LOWER] in Hv |- *. rewrite L1, L2. cbn [orb]. injection Hv as <- <- <-. by destruct (same "k" _); [|destruct (same "c" _)].
    + revert Hv. destruct hs; try done; cbn -[same CROW_LOWER CROW_IS_NUM Z.land]; try (intros [= <- <- <-]; done).
      destruct (negb (CROW_IS_NUM c)); [done|]. unfold has_flag. cbn -[same CROW_LOWER CROW_IS_NUM Z.land].
      destruct (negb (Z.land fl F_CONTENTLENGTH =? 0)); [done|]. by intros [= <- <- <-].
Qed.

(** The state of the header and the length of the body after more of a value. *)
Definition value_rest (hs : header_states) (ix cl : Z) (v : list ascii) : option (header_states * Z * Z) :=
  '(hs, q) ← value_run v hs (conn 0 s_header_value h_general ix false 0 cl 0 0 0 Get); Some (hs, index q, content_length q).

Lemma value_step_conn hs fl hx ix te n cl qs mj mn m c :
  value_step hs (conn fl s_header_value hx ix te n cl qs mj mn m) c =
  match value_step hs (conn 0 s_header_value h_general ix false 0 cl 0 0 0 Get) c with
  | Some (hs', q) => Some (hs', conn fl s_header_value hx (index q) te n (content_length q) qs mj mn m)
  | None => None
  end.
Proof.
  unfold value_step. destruct (negb (CROW_IS_HEADER_CHAR c)); [done|]. destruct hs; try done; cbn -[CROW_IS_NUM CROW_LOWER same is_token CROW_ULLONG_MAX to_u64 match_next Z.div Z.sub uc wrap_u];
    repeat match goal with |- context [if ?b then _ else _] => destruct b end; done.
Qed.

Lemma value_step_dummy hs ix cl c hs' q : value_step hs (conn 0 s_header_value h_general ix false 0 cl 0 0 0 Get) c = Some (hs', q) ->
  q = conn 0 s_header_value h_general (index q) false 0 (content_length q) 0 0 0 Get.
Proof. intros H. destruct (value_step_shape _ _ _ _ _ H eq_refl) as (ix' & n & -> & _). done. Qed.

Lemma value_read v fl hs ix te n cl qs mj mn m u a hs' ix' cl' : Forall (fun c => line_end c = false) v -> value_state hs ->
  value_rest hs ix cl v = Some (hs', ix', cl') -> 0 <= n -> n + len v <= max -> max < 2 ^ 31 -> 0 <= cl <= CROW_ULLONG_MAX ->
  reads v (conn fl s_header_value hs ix te n cl qs mj mn m) (feed h Header_value u a)
    (conn fl s_header_value hs' ix' te (n + len v) cl' qs mj mn m) (feed h Header_value u (a ++ v)) /\
  value_state hs' /\ 0 <= cl' <= CROW_ULLONG_MAX.
Proof.
  intros Hv. revert hs ix n cl a. induction Hv as [|c v Hc _ IH]; intros hs ix n cl a Hs Hr Hn0 Hn Hmax Hcl.
  { injection Hr as <- <- <-. rewrite app_nil_r. split; [|done]. eapply reads_as; [apply reads_nil|]. counts. }
  unfold value_rest in Hr. cbn [value_run] in Hr.
  destruct (value_step hs (conn 0 s_header_value h_general ix false 0 cl 0 0 0 Get) c) as [[hs1 q1]|] eqn:E; [|done].
  pose proof (value_step_dummy _ _ _ _ _ _ E) as Hq1. rewrite Hq1 in Hr.
  assert (Hcl1 : 0 <= content_length q1 <= CROW_ULLONG_MAX).
  { destruct (value_step_shape _ _ _ _ _ E eq_refl) as (ix2 & n2 & -> & Hb). by apply Hb. }
  unfold len in *. cbn [length] in *.
  destruct (IH hs1 (index q1) (n + 1) (content_length q1) (a ++ [c])) as (H1 & H2); [by eapply value_step_state|exact Hr|lia|lia|done|done|].
  split; [|done]. eapply reads_as; [eapply reads_one; [|rewrite <- app_assoc in H1; exact H1]|].
  - intros from. rewrite value_byte; [|split; cbn; try done; lia|done|cbn; lia|done]. rewrite Hc. cbn [header_state conn].
    change (Parser fl s_header_value hs ix te false false n cl qs mj mn m CHPE_OK false) with (conn fl s_header_value hs ix te n cl qs mj mn m).
    rewrite value_step_conn, E, feed_app. done.
  - counts.
Qed.

(** What a header does to the flags, the length of the body and the mark of a
    transfer coding; [None] for an error. *)
Record effect := Effect { e_flags : Z; e_length : Z; e_coding : bool }.

(** The first part is known behind the name, the second behind the line. *)
Definition name_end (te : bool) (k : list ascii) : header_states * bool :=
  match k with
  | c :: k => let '(hs, _, te) := name_rest (first_state c) 0 te k in (hs, te)
  | [] => (h_general, te)
  end.

Definition header_effect (e : effect) (kv : list ascii * list ascii) : option effect :=
  let '(hs, te) := name_end (e_coding e) (fst kv) in
  match snd kv with
  | [] => Some (Effect (e_flags e) (e_length e) te)
  | c :: v =>
      '(hs, fl, cl) ← value_first hs (e_flags e) (e_length e) c;
      '(hs, _, cl) ← value_rest hs 0 cl v;
      Some (Effect (line_flags hs fl) cl te)
  end.

Definition header_text (kv : list ascii * list ascii) : list ascii := fst kv ++ [":"; " "]%char ++ snd kv ++ [cr; lf].

Definition header_ok (kv : list ascii * list ascii) : Prop :=
  fst kv <> [] /\ Forall (fun c => is_token c = true) (fst kv) /\
  Forall (fun c => line_end c = false) (snd kv) /\
  match snd kv with c :: _ => c <> NUL /\ same " " c = false /\ same tab c = false | [] => True end.

(** What the program is given for a header. *)
Definition header_given (u : U) (kv : list ascii * list ascii) : U := feed h Header_value (feed h Header_field u (fst kv)) (snd kv).

(** The parser at the start of a line, with what it knows of the one before. *)
Definition at_line (e : effect) (n qs mj mn : Z) (m : HTTPMethod) (u : U) (q : http_parser) (u' : U) : Prop :=
  exists fl s hs ix, q = conn fl s hs ix (e_coding e) n (e_length e) qs mj mn m /\ line_start s hs /\ settled_flags s hs fl = e_flags e /\ settled_user s u' = u.

Lemma discard_read fl hs ix te n cl qs mj mn m u : field_state hs -> 0 <= n -> n + 2 <= max -> max < 2 ^ 31 -> 0 <= cl <= CROW_ULLONG_MAX ->
  reads [":"; " "]%char (conn fl s_header_field hs ix te n cl qs mj mn m) u
    (conn fl s_header_value_discard_ws hs ix te (n + 2) cl qs mj mn m) (feed h Header_field u []).
Proof.
  intros Hf Hn0 Hn Hmax Hcl. eapply reads_as; [eapply reads_one; [|eapply reads_one; [|apply reads_nil]]|].
  - intros from. rewrite field_byte; [|split; cbn; try done; lia|done|cbn; lia|done]. reflexivity.
  - intros from. byte. reflexivity.
  - counts.
Qed.

Lemma header_read e e' kv n qs mj mn m u q u' : header_ok kv -> header_effect e kv = Some e' -> at_line e n qs mj mn m u q u' ->
  0 <= n -> n + len (header_text kv) <= max -> max < 2 ^ 31 -> 0 <= e_length e <= CROW_ULLONG_MAX ->
  exists q1 u1, reads (header_text kv) q u' q1 u1 /\ at_line e' (n + len (header_text kv)) qs mj mn m (header_given u kv) q1 u1 /\
    0 <= e_length e' <= CROW_ULLONG_MAX.
Proof.
  destruct kv as [k v], e as [fl0 cl te]. intros (Hk & Htok & Hline & Hv0) He (fl & s & hs & ix & -> & Hs & Hfl & Hu) Hn0 Hn Hmax Hcl.
  cbn [fst snd e_flags e_length e_coding] in *. destruct k as [|c k]; [done|]. apply Forall_cons in Htok as [Hc Htok].
  unfold header_effect, name_end, header_text, header_given in *. cbn [fst snd e_flags e_length e_coding] in *.
  destruct (name_rest (first_state c) 0 te k) as [[hs1 ix1] te1] eqn:E1. unfold len in *. rewrite !length_app in *. cbn [length] in *.
  assert (Hf1 : field_state (first_state c)) by (unfold first_state; repeat case_match; done).
  destruct (name_read k fl0 (first_state c) 0 te (n + 1) cl qs mj mn m u [c] hs1 ix1 te1) as [Hr Hf2]; [done|done|done|lia|unfold len; lia|done|done|].
  assert (Hname : reads ((c :: k) ++ [":"; " "]%char) (conn fl s hs ix te n cl qs mj mn m) u'
    (conn fl0 s_header_value_discard_ws hs1 ix1 te1 (n + 1 + len k + 2) cl qs mj mn m) (feed h Header_field u (c :: k))).
  { cbn [app]. eapply reads_one; [intros from; rewrite first_byte by (done || lia); rewrite Hfl, Hu; done|].
    eapply reads_app; [exact Hr|]. cbn [app]. pose proof (discard_read fl0 hs1 ix1 te1 (n + 1 + len k) cl qs mj mn m (feed h Header_field u (c :: k)) Hf2) as Hd.
    rewrite feed_app, app_nil_r in Hd. apply Hd; unfold len; lia. }

  assert (Htext : forall w, (c :: k) ++ [":"; " "]%char ++ w = ((c :: k) ++ [":"; " "]%char) ++ w) by (intros; by rewrite <- app_assoc).
  rewrite Htext. unfold len in Hname. destruct v as [|c1 v].
  - cbn [length] in *. injection He as <-. eexists _, _. split; [|split; [|done]].
    + eapply reads_app; [exact Hname|]. eapply reads_one; [intros from; byte; reflexivity|]. eapply reads_one; [intros from; byte; reflexivity|]. apply reads_nil.
    + exists fl0, s_header_value_discard_lws, hs1, ix1. split_and!; [unfold conn; f_equal; lia|by right; right|done|done].
  - apply Forall_cons in Hline as [Hc1 Hline]. destruct Hv0 as (H0 & Hsp & Htab).
    destruct (value_first hs1 fl0 cl c1) as [[[hs2 fl2] cl2]|] eqn:E2; [|done].
    cbn [mbind option_bind] in He. destruct (value_rest hs2 0 cl2 v) as [[[hs3 ix3] cl3]|] eqn:E3; [|done]. injection He as <-.
    pose proof (fun from => value_start c1 fl0 hs1 ix1 te1 (n + 1 + len k + 2) cl qs mj mn m (feed h Header_field u (c :: k)) from hs2 fl2 cl2 Hf2 H0 Hsp Htab Hc1 E2) as Hfirst.
    destruct (Hfirst None) as (_ & Hs2 & Hcl2); [unfold len; lia|cbn [length] in *; unfold len; lia|done|done|].
    destruct (value_read v fl2 hs2 0 te1 (n + 1 + len k + 2 + 1) cl2 qs mj mn m (feed h Header_field u (c :: k)) [c1] hs3 ix3 cl3)
      as (Hrest & Hs3 & Hcl3); [done|done|done|unfold len; lia|cbn [length] in *; unfold len; lia|done|done|].
    unfold len in Hrest. cbn [length] in *. eexists _, _. split; [|split; [|done]].
    + eapply reads_app; [exact Hname|]. cbn [app]. eapply reads_one; [intros from; apply Hfirst; cbn [length] in *; unfold len; lia|].
      eapply reads_app; [exact Hrest|]. eapply reads_one.
      { intros from. rewrite value_byte; [|split; cbn; try done; cbn [length] in *; unfold len; lia|done|cbn [nread conn length] in *; unfold len; lia|done].
        change (line_end cr) with true. change (value_end_state cr) with s_header_almost_done. rewrite feed_app, app_nil_r. tidy. reflexivity. }
      eapply reads_one; [intros from; byte; reflexivity|]. apply reads_nil.
    + exists fl2, s_header_value_lws, hs3, ix3. split_and!; [unfold conn; f_equal; lia|by right; left|done|done].
Qed.

Fixpoint head_effect (e : effect) (hs : list (list ascii * list ascii)) : option effect :=
  match hs with [] => Some e | kv :: hs => e ← header_effect e kv; head_effect e hs end.

Definition head_text (hs : list (list ascii * list ascii)) : list ascii := concat (header_text <$> hs).

Lemma headers_read_all hs e e' n qs mj mn m u q u' : Forall header_ok hs -> head_effect e hs = Some e' -> at_line e n qs mj mn m u q u' ->
  0 <= n -> n + len (head_text hs) <= max -> max < 2 ^ 31 -> 0 <= e_length e <= CROW_ULLONG_MAX ->
  exists q1 u1, reads (head_text hs) q u' q1 u1 /\ at_line e' (n + len (head_text hs)) qs mj mn m (fold_left header_given hs u) q1 u1 /\
    0 <= e_length e' <= CROW_ULLONG_MAX.
Proof.
  intros Hok. revert e n u q u'. induction Hok as [|kv hs Hkv _ IH]; intros e n u q u' He Hq Hn0 Hn Hmax Hcl.
  { injection He as <-. exists q, u'. split; [apply reads_nil|]. unfold len. cbn [head_text fmap list_fmap concat length]. by rewrite Z.add_0_r. }
  cbn [head_effect] in He. destruct (header_effect e kv) as [e1|] eqn:E; [|done]. cbn [mbind option_bind] in He.
  assert (Hl : len (head_text (kv :: hs)) = len (header_text kv) + len (head_text hs)) by (unfold len, head_text; cbn [fmap list_fmap concat]; rewrite length_app; lia).
  rewrite Hl in *. assert (H0 : 0 <= len (header_text kv) /\ 0 <= len (head_text hs)) by (unfold len; lia).
  destruct (header_read e e1 kv n qs mj mn m u q u') as (q1 & u1 & Hr1 & Hq1 & Hcl1); [done|done|done|lia|lia|done|done|].
  destruct (IH e1 (n + len (header_text kv)) (header_given u kv) q1 u1) as (q2 & u2 & Hr2 & Hq2 & Hcl2); [done|done|lia|lia|done|done|].
  exists q2, u2. split; [by eapply reads_app|]. by rewrite Z.add_assoc.
Qed.

(** ** The end of the head *)

Definition plain_flags (fl : Z) : Prop := Z.land fl (F_CHUNKED + F_TRAILING + F_UPGRADE + F_SKIPBODY) = 0.

Lemma plain_flag fl f : plain_flags fl -> f = F_CHUNKED \/ f = F_TRAILING \/ f = F_UPGRADE \/ f = F_SKIPBODY -> (Z.land fl f =? 0) = true.
Proof.
  intros H Hf. apply Z.eqb_eq. replace f with (Z.land (F_CHUNKED + F_TRAILING + F_UPGRADE + F_SKIPBODY) f) by (by destruct Hf as [-> | [-> | [-> | ->]]]).
  by rewrite Z.land_assoc, H.
Qed.

(** Whether a body follows. *)
Definition has_body (cl : Z) : bool := negb (cl =? 0) && negb (cl =? CROW_ULLONG_MAX).

Lemma head_end e n qs mj mn m u q u' : at_line e n qs mj mn m u q u' -> plain_flags (e_flags e) -> e_coding e = false -> m <> Connect ->
  0 <= n -> n + 2 <= max -> max < 2 ^ 31 -> 0 <= e_length e <= CROW_ULLONG_MAX -> exists hs ix n0,
  let conn s n := conn (e_flags e) s hs ix false n (e_length e) qs mj mn m in
  let u1 := headers_read h (conn s_headers_done n0) u in
  reads [cr; lf] q u' (conn (if has_body (e_length e) then s_body_identity else s_headers_done) 0)
    (if has_body (e_length e) then u1 else completed h (conn s_headers_done 0) u1).
Proof.
  intros (fl & s & hs & ix & -> & Hs & Hfl & Hu) Hp Hte Hm Hn0 Hn Hmax Hcl. rewrite Hte. exists hs, ix, (n + 1). cbn zeta.
  eapply reads_one; [intros from; rewrite blank_byte by (done || lia); rewrite Hfl, Hu; reflexivity|]. eapply reads_one; [|apply reads_nil]. intros from.
  set (c0 := fun s n => conn (e_flags e) s hs ix false n (e_length e) qs mj mn m).
  assert (Hflag : forall f s n, f = F_CHUNKED \/ f = F_TRAILING \/ f = F_UPGRADE \/ f = F_SKIPBODY -> has_flag f (c0 s n) = false).
  { intros f s1 n1 Hf. unfold has_flag. cbn [flags c0 conn]. by rewrite plain_flag. }
  assert (H1 : forall f, switch (plain h) max [lf] false false s_headers_almost_done lf
    (Machine (c0 s_headers_almost_done (n + 1)) u 0 (n + 1 + 1) None None None f None) =
    Value (Reexecute lf) (Machine (c0 s_headers_done (n + 1)) (headers_read h (c0 s_headers_done (n + 1)) u) 0 (n + 1 + 1) None None None f None)).
  { intros f. cbn [switch]. unfold case_headers_almost_done. change (CROW_STRICT_CHECK _) with (ret (U := U) tt). rewrite bind_ret.
    unfold parser_is. rewrite bind_gets. cbn [parser]. rewrite (Hflag F_TRAILING), bind_gets by auto. cbn [parser].
    change (conflicting_lengths false false (c0 s_headers_almost_done (n + 1))) with false. unfold goto_state. rewrite !on_parser_then.
    cbn [parser at_]. change (set_state s_headers_done (c0 s_headers_almost_done (n + 1))) with (c0 s_headers_done (n + 1)).
    rewrite (Hflag F_UPGRADE) by auto. cbn [method c0 conn set_state]. by rewrite bool_decide_eq_false_2. }
  assert (H2 : forall f, switch (plain h) max [lf] false false s_headers_done lf
    (Machine (c0 s_headers_done (n + 1)) (headers_read h (c0 s_headers_done (n + 1)) u) 0 (n + 1 + 1) None None None f None) =
    Value Break (Machine (c0 (if has_body (e_length e) then s_body_identity else s_headers_done) 0)
      (let u1 := headers_read h (c0 s_headers_done (n + 1)) u in if has_body (e_length e) then u1 else completed h (c0 s_headers_done 0) u1) 0 0 None None None f None)).
  { intros f. cbn [switch]. unfold case_headers_done. change (CROW_STRICT_CHECK _) with (ret (U := U) tt). rewrite bind_ret. unfold reset_nread.
    rewrite bind_assoc, on_parser_then. unfold set_local_nread, modify, bind at 1. rewrite bind_gets.
    cbn [parser user p nread_ header_field_mark header_value_mark url_mark url_start_mark body_mark at_].
    change (set_nread 0 (c0 s_headers_done (n + 1))) with (c0 s_headers_done 0).
    change (upgrade (c0 s_headers_done 0)) with false. rewrite (Hflag F_SKIPBODY), (Hflag F_CHUNKED) by auto.
    change (uses_transfer_encoding (c0 s_headers_done 0)) with false. change (content_length (c0 s_headers_done 0)) with (e_length e).
    unfold has_body. by destruct (e_length e =? 0), (e_length e =? CROW_ULLONG_MAX). }
  assert (Hnext : next from = option_map (fun s => s - 1) (option_map (fun s => s - 0) from)).
  { destruct from; cbn; [f_equal; lia|done]. }
  set (s2 := if has_body (e_length e) then s_body_identity else s_headers_done) in *.
  set (u2 := let u1 := headers_read h (c0 s_headers_done (n + 1)) u in if has_body (e_length e) then u1 else completed h (c0 s_headers_done 0) u1) in *.
  rewrite Hnext. apply (byte_step _ _ _ _ (Machine (c0 s2 0) u2 0 0 None None None (option_map (fun s => s - 0) from) None)); try done; [split; cbn; try done; lia|cbn; lia|].
  rewrite counted_plain by done. eapply byte_again; [apply H1|apply H2].
Qed.

(** ** The body *)

Lemma body_byte hs ix fl n cl qs mj mn m u from c : 0 < cl < CROW_ULLONG_MAX -> 0 <= n <= max -> 1 <= max < 2 ^ 31 ->
  let q := conn fl (if cl =? 1 then s_message_done else s_body_identity) hs ix false n (cl - 1) qs mj mn m in
  resume [c] (conn fl s_body_identity hs ix false n cl qs mj mn m) u from =
  Accepted q (if cl =? 1 then completed h q (feed h Body u [c]) else feed h Body u [c]) (next from).
Proof.
  intros Hcl Hn Hmax q. set (q0 := conn fl s_body_identity hs ix false n cl qs mj mn m).
  assert (Hq : parser_ok max 0 q0 (nread q0)) by (split; cbn; try done; [lia|]; unfold state_ok; cbn; lia).
  pose proof (on_byte_ok h max c q0 u from Hq I) as Hr.
  pose proof (small_body h max [c] (on_byte h c q0 u from) c Hr) as H. cbn zeta in H.
  rewrite (resume_on_byte h max c q0 u from), H; [|by left|by cbn|unfold len; cbn; lia|done].
  assert (Hu : url_next (on_byte h c q0 u from) = next from) by (rewrite <- url_next_from, on_byte_url; done). rewrite Hu.
  change (content_length (parser (on_byte h c q0 u from))) with cl. subst q. destruct (cl =? 1) eqn:E; b2p.
  - subst cl. reflexivity.
  - reflexivity.
Qed.

Lemma body_more body hs ix fl n qs mj mn m u a : body <> [] -> len body < CROW_ULLONG_MAX -> 0 <= n <= max -> 1 <= max < 2 ^ 31 ->
  let q := conn fl s_message_done hs ix false n 0 qs mj mn m in
  reads body (conn fl s_body_identity hs ix false n (len body) qs mj mn m) (feed h Body u a) q (completed h q (feed h Body u (a ++ body))).
Proof.
  revert a. induction body as [|c body IH]; intros a Hne Hl Hn Hmax q; [done|].
  unfold len in *. cbn [length] in *. eapply reads_one; [intros from; apply body_byte; lia|]. rewrite feed_app.
  destruct body as [|c' body].
  - change (Z.of_nat (S (length []))) with 1. apply reads_nil.
  - rewrite (proj2 (Z.eqb_neq _ 1)) by (cbn [length]; lia).
    replace (Z.of_nat (S (length (c' :: body))) - 1) with (Z.of_nat (length (c' :: body))) by lia.
    specialize (IH (a ++ [c]) ltac:(done) ltac:(lia) Hn Hmax). by rewrite <- app_assoc in IH.
Qed.

Lemma body_read body hs ix fl n qs mj mn m u : body <> [] -> len body < CROW_ULLONG_MAX -> 0 <= n <= max -> 1 <= max < 2 ^ 31 ->
  let q := conn fl s_message_done hs ix false n 0 qs mj mn m in
  reads body (conn fl s_body_identity hs ix false n (len body) qs mj mn m) u q (completed h q (feed h Body u body)).
Proof.
  intros Hne Hl Hn Hmax q. destruct body as [|c body]; [done|]. unfold len in *. cbn [length] in *.
  eapply reads_one; [intros from; apply body_byte; lia|]. destruct body as [|c' body].
  - change (Z.of_nat (S (length []))) with 1. apply reads_nil.
  - rewrite (proj2 (Z.eqb_neq _ 1)) by (cbn [length]; lia).
    replace (Z.of_nat (S (length (c' :: body))) - 1) with (len (c' :: body)) by (unfold len; lia). apply (body_more (c' :: body)); [done|unfold len; lia|done|done].
Qed.

(** ** Requests *)

Definition request_text (m : HTTPMethod) (path : list ascii) (query : option (list ascii)) (hs : list (list ascii * list ascii)) (body : list ascii) : list ascii :=
  String.list_ascii_of_string (method_string m) ++ [" "%char] ++ url_text path query ++ [" "%char] ++
  String.list_ascii_of_string "HTTP/1.1" ++ [cr; lf] ++ head_text hs ++ [cr; lf] ++ body.

(** A request whose body is as long as its headers say. *)
Record request_ok (m : HTTPMethod) (path : list ascii) (query : option (list ascii)) (hs : list (list ascii * list ascii)) (body : list ascii) (e : effect) : Prop := {
  ok_method : m <> Connect;
  ok_url : wf_url path query;
  ok_headers : Forall header_ok hs;
  ok_effect : head_effect (Effect 0 CROW_ULLONG_MAX false) hs = Some e;
  ok_flags : plain_flags (e_flags e);
  ok_coding : e_coding e = false;
  ok_body : len body = if has_body (e_length e) then e_length e else 0
}.

Lemma request_read m path query hs body e q u : request_ok m path query hs body e -> idle q -> piece max (request_text m path query hs body) -> 1 <= max < 2 ^ 31 ->
  exists hs' ix qb n0 s cl, 0 <= cl <= CROW_ULLONG_MAX /\
  let conn s n cl := conn (e_flags e) s hs' ix false n cl (question_at path query) 1 1 m in
  let u1 := fold_left header_given hs (feed h Url (begun h qb u) (url_text path query)) in
  let u2 := headers_read h (conn s_headers_done n0 (e_length e)) u1 in
  exists from, run_buffer h max (request_text m path query hs body) q u =
    Accepted (conn s 0 cl) (completed h (conn s 0 cl) (if body is [] then u2 else feed h Body u2 body)) from.
Proof.
  intros [Hm Hurl Hhs He Hfl Hte Hb] Hidle (Hne & Hnul & Hlen) Hmax.
  assert (Hq : parser_ok max 0 q (nread q) /\ fresh_from (state_ q) None) by (destruct Hidle as (? & ? & ? & ? & ? & ? & -> & ?); split; [split; cbn; try done; lia|done]).
  destruct (resume_bytewise h max (request_text m path query hs body) q u None) as [_ Hrun];
    [done|done|apply Hmax|done|apply Hq|apply Hq|].
  unfold run_buffer. rewrite <- Hrun. clear Hrun Hnul Hne. unfold request_text in *.
  assert (Hl : slen (method_string m) + 1 + len (url_text path query) + 1 + 10 + len (head_text hs) + 2 + len body <= max /\
    0 <= slen (method_string m) /\ 0 <= len (url_text path query) /\ 0 <= len (head_text hs) /\ 0 <= len body).
  { assert (Hms : Z.of_nat (length (String.list_ascii_of_string (method_string m))) = slen (method_string m)) by (by destruct m).
    unfold len in *. rewrite !length_app in Hlen. cbn [length] in Hlen. change (length (String.list_ascii_of_string "HTTP/1.1")) with 8%nat in Hlen. lia. }
  destruct Hl as (Hl & Hl1 & Hl2 & Hl3 & Hl4). clear Hlen.
  destruct (method_read m q u) as (qb & h0 & i0 & Hmeth); [done|done|lia|apply Hmax|].
  destruct (url_read path query 0 h0 i0 false (slen (method_string m) + 1) CROW_ULLONG_MAX 0 0 m (begun h qb u)) as (from1 & Hurl1);
    [done|done|lia|lia|apply Hmax|done|].
  set (u0 := feed h Url (begun h qb u) (url_text path query)) in *. set (n1 := slen (method_string m) + 1 + len (url_text path query) + 1) in *.
  set (qs := question_at path query) in *.
  pose proof (version_read 0 h0 i0 false n1 CROW_ULLONG_MAX qs 0 0 m u0) as Hv.
  destruct (headers_read_all hs (Effect 0 CROW_ULLONG_MAX false) e (n1 + 10) qs 1 1 m u0
    (conn 0 s_header_field_start h0 i0 false (n1 + 10) CROW_ULLONG_MAX qs 1 1 m) u0) as (q1 & u1 & Hr1 & Hq1 & Hcl);
    [done|done|exists 0, s_header_field_start, h0, i0; split_and!; [done|by left|done|done]|lia|lia|lia|done|].
  destruct (head_end e (n1 + 10 + len (head_text hs)) qs 1 1 m (fold_left header_given hs u0) q1 u1) as (hs' & ix & n0 & Hend); [done..|lia|lia|lia|done|].
  cbn zeta in Hend.
  assert (Hreq : exists s cl, 0 <= cl <= CROW_ULLONG_MAX /\ reads ((String.list_ascii_of_string "HTTP/1.1" ++ [cr; lf]) ++ head_text hs ++ [cr; lf] ++ body)
    (conn 0 s_req_http_start h0 i0 false n1 CROW_ULLONG_MAX qs 0 0 m) u0 (conn (e_flags e) s hs' ix false 0 cl qs 1 1 m)
    (completed h (conn (e_flags e) s hs' ix false 0 cl qs 1 1 m)
      (let u2 := headers_read h (conn (e_flags e) s_headers_done hs' ix false n0 (e_length e) qs 1 1 m) (fold_left header_given hs u0) in
       if body is [] then u2 else feed h Body u2 body))).
  { destruct (has_body (e_length e)) eqn:E.
    - assert (Hc : 0 < e_length e < CROW_ULLONG_MAX) by (unfold has_body in E; apply andb_true_iff in E as [E1 E2]; b2p; lia).
      destruct body as [|c body]; [exfalso; unfold len in Hb; cbn in Hb; lia|]. exists s_message_done, 0. split; [done|].
      eapply reads_app; [apply Hv; lia|]. eapply reads_app; [exact Hr1|]. eapply reads_app; [exact Hend|]. rewrite <- Hb.
      apply body_read; [done|lia|lia|lia].
    - destruct body as [|c body]; [|exfalso; unfold len in Hb; cbn [length] in Hb; lia]. exists s_headers_done, (e_length e). split; [done|].
      eapply reads_app; [apply Hv; lia|]. eapply reads_app; [exact Hr1|]. rewrite app_nil_r. exact Hend. }
  destruct Hreq as (s & cl & Hcl' & Hreq). destruct (Hreq from1) as [from Hf].
  exists hs', ix, qb, n0, s, cl. split; [done|]. exists from. etransitivity; [|exact Hf].
  assert (Htext : forall a b c d : list ascii, a ++ [" "%char] ++ b ++ [" "%char] ++ c ++ d = (a ++ [" "%char]) ++ (b ++ [" "%char]) ++ c ++ d)
    by (intros; by rewrite <- !app_assoc).
  rewrite Htext, bytewise_app, Hmeth, bytewise_app, Hurl1. by rewrite <- !app_assoc.
Qed.

End read.
