(* ===== verification/HttpNames.v ===== *)
(** * Headers that mean something to the parser

    The automaton for the names of headers recognises five words, whatever the
    case of their letters ([plain_name_end], [length_name_end]); every other header
    is passed on and forgotten ([plain_effect]), but for longer names that begin
    with [Transfer-Encoding].  [well_headed_ok]: a request whose length is given
    once, or that has no body, is one [HttpRead.request_read] is about. *)

From S2P Require Import Prelude CInt CArray HttpData HttpParser HttpSteps HttpBytes HttpFeed HttpTurns HttpPieces HttpCuts HttpRead.
#[local] Open Scope http_scope.

(** ** The names that mean something to the parser *)

Definition special_names : list (list ascii) :=
  String.list_ascii_of_string <$> [CROW_CONNECTION; CROW_PROXY_CONNECTION; CROW_CONTENT_LENGTH; CROW_TRANSFER_ENCODING; CROW_UPGRADE].

(** A name in lower case. *)
Definition lower_name (k : list ascii) : list ascii := CROW_TOKEN <$> k.

(** The words the automaton knows: what the names begin with. *)
Definition prefixes : list (list ascii) :=
  concat ((fun w => (fun n => take n w) <$> seq 1 (length w)) <$> special_names).

Definition special_states : list header_states := [h_connection; h_content_length; h_transfer_encoding; h_upgrade].

Definition chars : list ascii := (fun n => Ascii.ascii_of_nat n) <$> seq 0 256.

Lemma chars_all c : c ∈ chars.
Proof.
  unfold chars. apply list_elem_of_fmap. exists (Ascii.nat_of_ascii c). rewrite Ascii.ascii_nat_embedding. split; [done|].
  apply elem_of_seq. pose proof (Ascii.nat_ascii_bounded c). lia.
Qed.

Definition name_whole (k : list ascii) : header_states * Z * bool :=
  match k with c :: k => name_rest (first_state c) 0 false k | [] => (h_general, 0, false) end.

(** A character more leaves the words for good. *)
Definition leaves (w : list ascii) (c : ascii) : bool :=
  let t := CROW_TOKEN c in
  bool_decide (w ++ [t] ∈ prefixes) || negb (is_token c) ||
  match name_whole (w ++ [t]) with (h_general, _, te) => bool_decide (w = String.list_ascii_of_string CROW_TRANSFER_ENCODING) || negb te | _ => false end.

Lemma leaves_all w c : w = [] \/ w ∈ prefixes -> leaves w c = true.
Proof.
  assert (H : forallb (fun w => forallb (leaves w) chars) ([] :: prefixes) = true) by by vm_compute.
  intros Hw. rewrite forallb_forall in H. assert (Hin : In w ([] :: prefixes)) by (destruct Hw as [->|Hw]; [by left|right; by apply list_elem_of_In]).
  specialize (H w Hin). rewrite forallb_forall in H. apply H. apply list_elem_of_In, chars_all.
Qed.

Definition TRANSFER : list ascii := String.list_ascii_of_string CROW_TRANSFER_ENCODING.

Lemma token_facts c : CROW_TOKEN (CROW_TOKEN c) = CROW_TOKEN c /\ (is_token c = true -> same " " c = false /\ same " " (CROW_TOKEN c) = false /\ is_token (CROW_TOKEN c) = true).
Proof.
  assert (H : forallb (fun c => bool_decide (CROW_TOKEN (CROW_TOKEN c) = CROW_TOKEN c) &&
    (negb (is_token c) || (negb (same " " c) && negb (same " " (CROW_TOKEN c)) && is_token (CROW_TOKEN c)))) chars = true) by by vm_compute.
  rewrite forallb_forall in H. specialize (H c). rewrite andb_true_iff in H. destruct H as [H1 H2]; [apply list_elem_of_In, chars_all|].
  apply bool_decide_eq_true in H1. split; [done|]. intros Hc. rewrite Hc in H2. cbn [negb orb] in H2.
  rewrite !andb_true_iff, !negb_true_iff in H2. by destruct H2 as [[? ?] ?].
Qed.

Lemma field_step_token q c : is_token c = true -> field_step q c = field_step q (CROW_TOKEN c).
Proof.
  intros Hc. destruct (token_facts c) as [Ht Hs]. destruct (Hs Hc) as (H1 & H2 & _). unfold field_step. by rewrite Ht, H1, H2.
Qed.

Lemma name_lower k : Forall (fun c => is_token c = true) k -> name_whole (lower_name k) = name_whole k.
Proof.
  intros Hk. destruct Hk as [|c k Hc Hk]; [done|]. cbn [lower_name fmap list_fmap name_whole].
  assert (Hf : first_state (CROW_TOKEN c) = first_state c) by (unfold first_state; by rewrite (proj1 (token_facts c))). rewrite Hf. unfold name_rest.
  assert (H : forall q, fold_left field_step (CROW_TOKEN <$> k) q = fold_left field_step k q); [|by rewrite H].
  induction Hk as [|c' k Hc' _ IH]; intros q; [done|]. cbn [fmap list_fmap fold_left]. by rewrite IH, <- field_step_token.
Qed.

Lemma name_more w c : fst (fst (name_whole w)) = h_general -> w <> [] -> name_whole (w ++ [c]) = name_whole w.
Proof.
  destruct w as [|c0 w]; [done|]. intros Hg _. cbn [app name_whole] in *. unfold name_rest in *. rewrite fold_left_app. cbn [fst fold_left] in *.
  set (q := fold_left field_step w _) in *.
  assert (H : field_step q c = q) by (unfold field_step; by rewrite Hg). by rewrite H.
Qed.

Lemma name_cases t : Forall (fun c => is_token c = true) t -> lower_name t = t -> t <> [] ->
  t ∈ prefixes \/ fst (fst (name_whole t)) = h_general /\ (snd (name_whole t) = true -> TRANSFER `prefix_of` t).
Proof.
  induction t as [|c w IH] using rev_ind; intros Ht Hl Hne; [done|]. clear Hne. apply Forall_app in Ht as [Hw Hc]. apply Forall_cons in Hc as [Hc _].
  unfold lower_name in *. rewrite fmap_app in Hl. apply app_inj_tail in Hl as [Hlw Hlc].
  assert (Hgo : w = [] \/ w ∈ prefixes -> w ++ [c] ∈ prefixes \/ fst (fst (name_whole (w ++ [c]))) = h_general /\ (snd (name_whole (w ++ [c])) = true -> TRANSFER `prefix_of` w ++ [c])).
  { intros Hp. pose proof (leaves_all w c Hp) as H. unfold leaves in H. rewrite Hlc, Hc in H. case_bool_decide as H1; [by left|]. right.
    destruct (name_whole (w ++ [c])) as [[hs ix] te]. destruct hs; try done. split; [done|]. cbn in *. case_bool_decide as H2.
    - intros _. rewrite H2. by exists [c].
    - by destruct te. }
  destruct (decide (w = [])) as [Hw0|Hw0]; [by apply Hgo; left|]. destruct (IH Hw Hlw Hw0) as [Hp|[Hg Hte]]; [by apply Hgo; right|].
  right. rewrite name_more by done. split; [done|]. intros H. specialize (Hte H). destruct Hte as [x ->]. exists (x ++ [c]). by rewrite <- app_assoc.
Qed.

(** A name without a meaning.  A longer name that begins with the name of the
    transfer coding has one: the parser marks it before it sees the end. *)
Definition plain_name (k : list ascii) : Prop := (lower_name k ∉ special_names) /\ ~ (TRANSFER `prefix_of` lower_name k).

Lemma name_whole_end k : name_end false k = (fst (fst (name_whole k)), snd (name_whole k)).
Proof. destruct k as [|c k]; [done|]. cbn. by destruct (name_rest (first_state c) 0 false k) as [[? ?] ?]. Qed.

Lemma plain_name_end k : Forall (fun c => is_token c = true) k -> k <> [] -> plain_name k ->
  exists hs, name_end false k = (hs, false) /\ hs ∉ special_states.
Proof.
  intros Hk Hne [Hs Ht]. rewrite name_whole_end, <- name_lower by done.
  assert (Hl : Forall (fun c => is_token c = true) (lower_name k)).
  { unfold lower_name. apply Forall_fmap. eapply Forall_impl; [exact Hk|]. intros c Hc. by apply token_facts. }
  assert (Hi : lower_name (lower_name k) = lower_name k).
  { unfold lower_name. rewrite <- list_fmap_compose. apply list_fmap_ext. intros ? c _. apply token_facts. }
  destruct (name_cases (lower_name k) Hl Hi) as [Hp|[Hg Hte]]; [by destruct k| |].
  - assert (H : forallb (fun w => bool_decide (w ∈ special_names) || (negb (snd (name_whole w)) && bool_decide (fst (fst (name_whole w)) ∉ special_states))) prefixes = true) by by vm_compute.
    rewrite forallb_forall in H. specialize (H (lower_name k) (proj1 (list_elem_of_In _ _) Hp)). rewrite bool_decide_eq_false_2 in H by done.
    apply andb_true_iff in H as [H1 H2]. apply bool_decide_eq_true in H2. eexists. split; [|exact H2]. by destruct (snd _).
  - exists h_general. split; [|by apply (bool_decide_unpack _); vm_compute]. rewrite Hg. destruct (snd _); [by destruct Ht; apply Hte|done].
Qed.

Lemma length_name_end k : Forall (fun c => is_token c = true) k -> lower_name k = String.list_ascii_of_string CROW_CONTENT_LENGTH ->
  name_end false k = (h_content_length, false).
Proof. intros Hk Hl. rewrite name_whole_end, <- name_lower, Hl by done. by vm_compute. Qed.

(** A header without a meaning changes nothing. *)
Lemma plain_effect e kv : header_ok kv -> plain_name (fst kv) -> forallb CROW_IS_HEADER_CHAR (snd kv) = true -> e_coding e = false -> header_effect e kv = Some e.
Proof.
  destruct kv as [k v], e as [fl cl te]. intros (Hk & Ht & _) Hp Hv Hte. cbn [fst snd e_coding e_flags e_length] in *. subst te. unfold header_effect. cbn [fst snd e_coding e_flags e_length].
  destruct (plain_name_end k Ht Hk Hp) as (hs & -> & Hs). destruct v as [|c v]; [done|]. cbn [forallb] in Hv. apply andb_true_iff in Hv as [_ Hv].
  assert (Hf : value_first hs fl cl c = Some (h_general, fl, cl)).
  { destruct hs; try done; by destruct Hs; apply (bool_decide_unpack _); vm_compute. }
  rewrite Hf. cbn [mbind option_bind]. unfold value_rest. by rewrite value_run_general, Hv.
Qed.

(** ** The length of a body *)

Definition number (ds : list ascii) : Z := fold_left (fun n c => n * 10 + (uc c - 48)) ds 0.

Lemma number_grows ds n : Forall (fun c => CROW_IS_NUM c = true) ds -> 0 <= n -> n <= fold_left (fun n c => n * 10 + (uc c - 48)) ds n.
Proof.
  intros Hd. revert n. induction Hd as [|c ds Hc _ IH]; intros n Hn; [done|]. cbn [fold_left].
  pose proof (is_num_range c ltac:(by rewrite Hc)) as Hr. specialize (IH (n * 10 + (uc c - 48)) ltac:(lia)). lia.
Qed.

Lemma digit_facts c : CROW_IS_NUM c = true -> CROW_IS_HEADER_CHAR c = true /\ same " " c = false.
Proof.
  assert (H : forallb (fun c => negb (CROW_IS_NUM c) || (CROW_IS_HEADER_CHAR c && negb (same " " c))) chars = true) by by vm_compute.
  rewrite forallb_forall in H. intros Hc. specialize (H c (proj1 (list_elem_of_In _ _) (chars_all c))). rewrite Hc in H. cbn [negb orb] in H.
  rewrite andb_true_iff, negb_true_iff in H. done.
Qed.

Lemma digits_run ds n : Forall (fun c => CROW_IS_NUM c = true) ds -> 0 <= n -> fold_left (fun n c => n * 10 + (uc c - 48)) ds n < 2 ^ 31 ->
  value_rest h_content_length_num 0 n ds = Some (h_content_length_num, 0, fold_left (fun n c => n * 10 + (uc c - 48)) ds n).
Proof.
  unfold value_rest. intros Hd. revert n. induction Hd as [|c ds Hc Hd IH]; intros n Hn Hlt; [done|]. cbn [fold_left] in Hlt.
  pose proof (is_num_range c ltac:(by rewrite Hc)) as Hr. pose proof (number_grows ds (n * 10 + (uc c - 48)) Hd ltac:(lia)) as Hg.
  cbn [value_run]. assert (Hst : value_step h_content_length_num (conn 0 s_header_value h_general 0 false 0 n 0 0 0 Get) c =
    Some (h_content_length_num, conn 0 s_header_value h_general 0 false 0 (n * 10 + (uc c - 48)) 0 0 0 Get)); [|rewrite Hst; by apply IH; [lia|]].
  unfold value_step. cbn [conn content_length index]. destruct (digit_facts c Hc) as [-> ->]. rewrite Hc. cbn [negb].
  change ((CROW_ULLONG_MAX - 10) / 10) with 1844674407370955160. rewrite (proj2 (Z.ltb_ge _ _)) by lia.
  unfold to_u64, wrap_u. rewrite (Z.mod_small (n * 10)), Z.mod_small by lia. done.
Qed.

Definition is_length (kv : list ascii * list ascii) (n : Z) : Prop :=
  lower_name (fst kv) = String.list_ascii_of_string CROW_CONTENT_LENGTH /\ snd kv <> [] /\
  Forall (fun c => CROW_IS_NUM c = true) (snd kv) /\ number (snd kv) = n.

Lemma length_effect kv n fl cl : header_ok kv -> is_length kv n -> n < 2 ^ 31 -> Z.land fl F_CONTENTLENGTH = 0 ->
  header_effect (Effect fl cl false) kv = Some (Effect (Z.lor fl F_CONTENTLENGTH) n false).
Proof.
  destruct kv as [k v]. intros (Hk & Ht & _) (Hl & Hne & Hd & Hn) Hlt Hfl. cbn [fst snd] in *. unfold header_effect. cbn [fst snd e_coding e_flags e_length].
  rewrite (length_name_end k Ht Hl). destruct v as [|c ds]; [done|]. apply Forall_cons in Hd as [Hc Hd]. unfold number in Hn. cbn [fold_left] in Hn.
  rewrite Z.add_0_l in Hn.
  unfold value_first. rewrite Hc, Hfl. cbn [negb]. change (negb (0 =? 0)) with false. cbn [mbind option_bind].
  pose proof (is_num_range c ltac:(by rewrite Hc)) as Hr. rewrite digits_run by (done || lia). cbn [mbind option_bind line_flags]. by rewrite <- Hn.
Qed.

(** The headers of a request: no one means something, or one does and gives the
    length of the body. *)
Definition plain_headers (hs : list (list ascii * list ascii)) : Prop :=
  Forall (fun kv => header_ok kv /\ plain_name (fst kv) /\ forallb CROW_IS_HEADER_CHAR (snd kv) = true) hs.

Lemma plain_head hs e : plain_headers hs -> e_coding e = false -> head_effect e hs = Some e.
Proof. intros Hh He. induction Hh as [|kv hs (Hk & Hp & Hv) _ IH]; [done|]. cbn [head_effect]. by rewrite plain_effect. Qed.

Lemma head_effect_app hs1 hs2 e : head_effect e (hs1 ++ hs2) = (e ← head_effect e hs1; head_effect e hs2).
Proof. revert e. induction hs1 as [|kv hs1 IH]; intros e; [done|]. cbn. destruct (header_effect e kv); [apply IH|done]. Qed.

(** No header gives a length, or one does. *)
Inductive well_headed : list (list ascii * list ascii) -> list ascii -> Prop :=
  | no_length hs : plain_headers hs -> well_headed hs []
  | one_length before kv after body : plain_headers before -> plain_headers after -> header_ok kv -> is_length kv (len body) ->
      well_headed (before ++ kv :: after) body.

Lemma well_headed_ok m path query hs body : m <> Connect -> wf_url path query -> well_headed hs body -> len body < 2 ^ 31 -> exists fl cl,
  request_ok m path query hs body (Effect fl cl false) /\ (fl = 0 \/ fl = F_CONTENTLENGTH).
Proof.
  intros Hm Hu Hw Hlt. assert (Hok : forall hs, plain_headers hs -> Forall header_ok hs) by (intros l Hl; eapply Forall_impl; [exact Hl|]; by intros ? []).
  destruct Hw as [hs Hh|before kv after body Hb Ha Hk Hl].
  - exists 0, CROW_ULLONG_MAX. split; [|by left]. split; try done; [by apply Hok|by apply plain_head].
  - exists F_CONTENTLENGTH, (len body). split; [|by right]. split; try done.
    + apply Forall_app. split; [by apply Hok|]. apply Forall_cons. split; [done|by apply Hok].
    + rewrite head_effect_app, plain_head by done. cbn [mbind option_bind head_effect].
      rewrite (length_effect kv (len body)) by done. cbn [mbind option_bind]. by apply plain_head.
    + cbn [e_length]. unfold has_body. destruct (Z.eqb_spec (len body) 0) as [->|]; [done|].
      rewrite (proj2 (Z.eqb_neq _ _)) by (unfold CROW_ULLONG_MAX; lia). done.
Qed.
