(* ===== verification/RequestParser.v ===== *)
(** * Requests: include/crow_all.h, crow::HTTPParser

    The parser's callbacks put the URL, the headers and the body together, [feed]
    hands a buffer to [http_parser_execute].  A string that was moved from is empty.

    The callbacks are an instance of [Mergeable], so that a request may come in
    pieces ([feed_pieces]); [request_roundtrip] is the whole way from the bytes of a
    request to the request of the router. *)

From S2P Require Import Prelude CInt CFloat CArray CNum HttpData Trie TrieSpec RuleTags Router HttpParser HttpSteps HttpBytes HttpFeed HttpTurns HttpPieces HttpCuts HttpRead HttpNames Query.

(** The calls of the [Handler]. *)
Inductive handler_call := Handle_header | Handle.

(** The members beside those of [http_parser]; [url_params] would be [None] if
    [query_string] read outside its array (it does not, [params_defined]). *)
Record HTTPParser := mkHTTPParser {
  raw_url : bytes;
  url : bytes;
  header_building_state : Z;
  message_complete : bool;
  header_field : bytes;
  header_value : bytes;
  fields : headers;
  url_params : option query_string;
  request_body : bytes;
  keep_alive : bool;
  close_connection : bool;
  handled : list handler_call
}.

Definition on_url_ (u : HTTPParser) (at_ : bytes) : HTTPParser :=
  mkHTTPParser (raw_url u ++ at_) (url u) (header_building_state u) (message_complete u) (header_field u) (header_value u)
    (fields u) (url_params u) (request_body u) (keep_alive u) (close_connection u) (handled u).

Definition with_header (state : Z) (field value : bytes) (hs : headers) (u : HTTPParser) : HTTPParser :=
  mkHTTPParser (raw_url u) (url u) state (message_complete u) field value hs (url_params u) (request_body u)
    (keep_alive u) (close_connection u) (handled u).

Definition on_header_field_ (u : HTTPParser) (at_ : bytes) : HTTPParser :=
  if header_building_state u =? 0 then
    if bool_decide (header_value u = []) then with_header 1 at_ [] (fields u) u
    else with_header 1 at_ [] (fields u ++ [(header_field u, header_value u)]) u
  else if header_building_state u =? 1 then with_header 1 (header_field u ++ at_) (header_value u) (fields u) u
  else u.

Definition on_header_value_ (u : HTTPParser) (at_ : bytes) : HTTPParser :=
  if header_building_state u =? 0 then with_header 0 (header_field u) (header_value u ++ at_) (fields u) u
  else if header_building_state u =? 1 then with_header 0 (header_field u) at_ (fields u) u
  else u.

Definition on_body_ (u : HTTPParser) (at_ : bytes) : HTTPParser :=
  mkHTTPParser (raw_url u) (url u) (header_building_state u) (message_complete u) (header_field u) (header_value u)
    (fields u) (url_params u) (request_body u ++ at_) (keep_alive u) (close_connection u) (handled u).

(** Whether to offer, and whether to force, the end of the connection. *)
Definition flag (bit : Z) (q : http_parser) : bool := negb (Z.land (HttpData.flags q) bit =? 0).

Definition keep_alive_of (q : http_parser) : bool :=
  if (http_major q =? 1) && (http_minor q =? 0) then flag F_CONNECTION_KEEP_ALIVE q
  else (http_major q =? 1) && (http_minor q =? 1).

Definition close_connection_of (q : http_parser) : bool :=
  if (http_major q =? 1) && (http_minor q =? 0) then negb (flag F_CONNECTION_KEEP_ALIVE q)
  else (http_major q =? 1) && (http_minor q =? 1) && flag F_CONNECTION_CLOSE q.

Definition set_connection_parameters (q : http_parser) (u : HTTPParser) : HTTPParser :=
  mkHTTPParser (raw_url u) (url u) (header_building_state u) (message_complete u) (header_field u) (header_value u)
    (fields u) (url_params u) (request_body u) (keep_alive_of q) (close_connection_of q) (handled u).

Definition call_handler (k : handler_call) (u : HTTPParser) : HTTPParser :=
  mkHTTPParser (raw_url u) (url u) (header_building_state u) (message_complete u) (header_field u) (header_value u)
    (fields u) (url_params u) (request_body u) (keep_alive u) (close_connection u) (handled u ++ [k]).

Definition on_headers_complete_ (q : http_parser) (u : HTTPParser) : HTTPParser :=
  let u := if bool_decide (header_field u = []) then u
           else with_header (header_building_state u) [] [] (fields u ++ [(header_field u, header_value u)]) u in
  call_handler Handle_header (set_connection_parameters q u).

Definition on_message_complete_ (q : http_parser) (u : HTTPParser) : HTTPParser :=
  call_handler Handle
    (mkHTTPParser (raw_url u) (if qs_point q =? 0 then raw_url u else take (Z.to_nat (qs_point q)) (raw_url u))
       (header_building_state u) true (header_field u) (header_value u) (fields u) (query_string_of (raw_url u))
       (request_body u) (keep_alive u) (close_connection u) (handled u)).

Definition on_data (k : mark) (u : HTTPParser) (at_ : bytes) : HTTPParser :=
  match k with
  | Url => on_url_ u at_
  | Header_field => on_header_field_ u at_
  | Header_value => on_header_value_ u at_
  | Body => on_body_ u at_
  | Url_start => u
  end.

(** [settings_]. *)
Definition callbacks : handlers HTTPParser := Handlers _ (fun _ u => u) on_headers_complete_ on_message_complete_ on_data.

(** The members before a request, the handler having been called for [calls]; the
    constructor.  [keep_alive] and [close_connection] are set with the headers. *)
Definition fresh_members (qs : query_string) (calls : list handler_call) : HTTPParser :=
  mkHTTPParser [] [] 0 false [] [] [] (Some qs) [] false false calls.

Definition new_parser : HTTPParser := fresh_members (QueryString [NUL] []) [].

(** [feed], and the parser after it; [None] where [http_parser_execute] is stuck. *)
Definition feed_ (buffer : bytes) (q : http_parser) (u : HTTPParser) : option (bool * http_parser * HTTPParser) :=
  if message_complete u then Some (true, q, u)
  else
    match http_parser_execute (plain callbacks) CROW_HTTP_MAX_HEADER_SIZE buffer q u with
    | inl _ => None
    | inr (nparsed, q, u) =>
        Some (if bool_decide (http_errno_ q = CHPE_OK) then nparsed =? len buffer else false, q, u)
    end.

(** [done()]. *)
Definition done_ : http_parser -> HTTPParser -> option (bool * http_parser * HTTPParser) := feed_ [].

(** [clear()]. *)
Definition clear_ (q : http_parser) (u : HTTPParser) : http_parser * HTTPParser :=
  (set_state s_start_req (set_qs_point 0 (set_version 0 0 q)),
   mkHTTPParser [] [] 0 false [] [] [] (clear <$> url_params u) [] false false (handled u)).

(** [to_request() const]: the moves of const members are copies. *)
Definition number_of (m : HTTPMethod) : Z := Z.of_nat (method_number m).

Definition to_request (q : http_parser) (u : HTTPParser) : option request :=
  params ← url_params u;
  Some (mkRequest (number_of (method q)) (raw_url u) (url u) params (fields u) (request_body u) (http_major q) (http_minor q)
    (keep_alive u) (close_connection u) (upgrade q)).

(** The buffers of a connection one after the other, up to an error. *)
Fixpoint feed_all (ds : list bytes) (q : http_parser) (u : HTTPParser) : option (bool * http_parser * HTTPParser) :=
  match ds with
  | [] => Some (true, q, u)
  | d :: ds => '(ok, q, u) ← feed_ d q u; if ok : bool then feed_all ds q u else Some (false, q, u)
  end.

(** ** Examples *)

Definition http_lines (ls : list string) : bytes := List.concat ((fun l => of_text l ++ [cr; lf]) <$> ls).

Definition parsed (ds : list bytes) : option (bool * request * list handler_call) :=
  '(ok, q, u) ← feed_all ds http_parser_init new_parser; r ← to_request q u; Some (ok, r, handled u).

Definition text_header (k v : string) : bytes * bytes := (of_text k, of_text v).

(** A header with an empty value is lost unless it is the last. *)
Example empty_values :
  parsed [http_lines ["GET /a?x=1 HTTP/1.1"; "Host: h"; "X-A: "; "X-B: 2"; "X-C:"; ""]] =
  Some (true, mkRequest (number_of Get) (of_text "/a?x=1") (of_text "/a") (QueryString (of_text "/a?x=1" ++ [NUL]) [3]%nat)
    [text_header "Host" "h"; text_header "X-B" "2"; text_header "X-C" ""] [] 1 1 true false false, [Handle_header; Handle]).
Proof. by vm_compute. Qed.

(** A second request in the same buffer is an error, whatever was handled; a line
    feed behind a request completes it again. *)
Example pipelined :
  ('(ok, _, hs) ← parsed [http_lines ["GET /a HTTP/1.1"; "A: 1"; ""; "GET /b HTTP/1.1"; "B: 2"; ""]]; Some (ok, hs)) =
    Some (false, [Handle_header; Handle]) /\
  ('(ok, _, hs) ← parsed [http_lines ["GET /a HTTP/1.1"; "A: 1"; ""] ++ [lf; lf]]; Some (ok, hs)) =
    Some (true, [Handle_header; Handle; Handle; Handle]).
Proof. by vm_compute. Qed.

(** A name that only begins like [Transfer-Encoding] is taken for it: the request is
    refused. *)
Example longer_name : ('(ok, _, hs) ← parsed [http_lines ["GET /a HTTP/1.1"; "Transfer-Encoding-Hint: x"; ""]]; Some (ok, hs)) = Some (false, [Handle_header]).
Proof. by vm_compute. Qed.

(** ** Callbacks in pieces *)

#[export] Instance callbacks_mergeable : Mergeable callbacks.
Proof.
  split.
  - intros [] u a b; cbn [feed callbacks on_data]; [| | |done|];
      unfold on_header_field_, on_header_value_, on_url_, on_body_; cbn; rewrite <- ?app_assoc; [..|done|done].
    + destruct (header_building_state u =? 0) eqn:E0; [by case_bool_decide|].
      destruct (header_building_state u =? 1) eqn:E1; [cbn; by rewrite app_assoc|by rewrite E0, E1].
    + destruct (header_building_state u =? 0) eqn:E0; [cbn; by rewrite app_assoc|].
      destruct (header_building_state u =? 1) eqn:E1; [done|by rewrite E0, E1].
  - done.
  - intros q q' u H. destruct q, q'. cbn in *. injection H as ?????????????? . subst. done.
  - intros q q' u H. destruct q, q'. cbn in *. injection H as ?????????????? . subst. done.
Qed.

(** The query string is never read outside its array. *)
Lemma params_defined s : exists qs, query_string_of s = Some qs.
Proof.
  unfold query_string_of. destruct (decide (s = [])); [by eexists|].
  destruct (qs_parse_run MAX_KEY_VALUE_PAIRS_COUNT s) as (t & kvs & -> & _); [by apply Nat.ltb_lt|]. by eexists.
Qed.

(** ** Buffers in pieces *)

#[local] Abbreviation limit := CROW_HTTP_MAX_HEADER_SIZE.

Lemma limit_range : 1 <= limit < 2 ^ 31.
Proof. by vm_compute. Qed.

(** No buffer but the last completes the message. *)
Definition completes_last (ds : list bytes) (q : http_parser) (u : HTTPParser) : Prop :=
  forall n q' u' f, (n < length ds)%nat -> in_pieces callbacks limit (take n ds) q u = Accepted q' u' f -> message_complete u' = false.

Lemma feed_accepted d q u q' u' f : piece limit d -> parser_ok limit 0 q (nread q) -> message_complete u = false ->
  run_buffer callbacks limit d q u = Accepted q' u' f ->
  feed_ d q u = Some (true, q', u') /\ parser_ok limit 0 q' (nread q').
Proof.
  intros (Hd & Hnul & Hlen) Hq Hu Hr. unfold feed_. rewrite Hu.
  pose proof (execute_run callbacks limit d q u Hd (ok_errno _ _ _ _ Hq)) as He.
  destruct (resume_bytewise callbacks limit d q u None) as [Hfine _]; [done|done|apply limit_range|done|done|apply fresh_none|].
  unfold run_buffer in *. rewrite Hr in He, Hfine. destruct Hfine as [Hq' _]. rewrite He, bool_decide_eq_true_2 by apply Hq'.
  by rewrite Z.eqb_refl.
Qed.

(** Buffers that are taken in one after the other, none but the last completing
    the message, leave the request, the calls to the handler and the parser as one
    call of [feed] on their concatenation does. *)
Theorem feed_pieces ds q u q' u' f : Forall (piece limit) ds -> piece limit (concat ds) -> parser_ok limit 0 q (nread q) ->
  in_pieces callbacks limit ds q u = Accepted q' u' f -> completes_last ds q u ->
  feed_all ds q u = Some (true, q', u') /\ feed_ (concat ds) q u = Some (true, q', u').
Proof.
  intros Hds Hd Hq Hr Hc. split.
  - clear Hd. revert q u Hq Hr Hc. induction Hds as [|d ds Hd _ IH]; intros q u Hq Hr Hc; [by injection Hr as <- <-|].
    cbn [feed_all in_pieces] in *. destruct (run_buffer callbacks limit d q u) as [q1 u1 f1| |] eqn:E; [|done..].
    destruct (feed_accepted d q u q1 u1 f1) as [-> Hq1]; [done|done|by apply (Hc 0%nat q u None); [cbn; lia|]|done|].
    cbn. apply IH; [done..|]. intros n q2 u2 f2 Hn H2. apply (Hc (S n) q2 u2 f2); [cbn; lia|]. cbn [take in_pieces]. by rewrite E.
  - assert (Hu : message_complete u = false).
    { destruct ds as [|d ds]; [by destruct Hd|]. by apply (Hc 0%nat q u None); [cbn; lia|]. }
    pose proof (in_pieces_whole callbacks limit ds q u Hds Hd limit_range Hq) as [H|H]; [by rewrite H in Hr|].
    destruct (run_buffer callbacks limit (concat ds) q u) as [q1 u1 f1| |] eqn:E; [|by rewrite H in Hr..].
    destruct H as (f' & H & _). rewrite H in Hr. injection Hr as -> -> ->. by eapply feed_accepted.
Qed.

(** ** A request is read *)

(** The headers that are kept. *)
Fixpoint kept (hs : headers) : headers :=
  match hs with
  | [] => []
  | [kv] => [kv]
  | kv :: hs => if bool_decide (snd kv = []) then kept hs else kv :: kept hs
  end.

(** The headers stored, and the name and the value of the last one. *)
Fixpoint stored (fs : headers) (field value : bytes) (hs : headers) : headers * bytes * bytes :=
  match hs with
  | [] => (fs, field, value)
  | (k, v) :: hs => stored (if bool_decide (value = []) then fs else fs ++ [(field, value)]) k v hs
  end.

Lemma fields_given hs u : header_building_state u = 0 ->
  fold_left (header_given callbacks) hs u =
  let '(fs, field, value) := stored (fields u) (header_field u) (header_value u) hs in with_header 0 field value fs u.
Proof.
  revert u. induction hs as [|[k v] hs IH]; intros u Hu; [destruct u; cbn in *; by subst|]. cbn [fold_left stored].
  assert (H : header_given callbacks u (k, v) =
    with_header 0 k v (if bool_decide (header_value u = []) then fields u else fields u ++ [(header_field u, header_value u)]) u).
  { unfold header_given. cbn [feed callbacks on_data fst snd]. unfold on_header_field_. rewrite Hu. cbn [Z.eqb].
    unfold on_header_value_. by case_bool_decide. }
  rewrite H, IH by done. cbn [with_header fields header_field header_value]. by destruct (stored _ _ _ _) as [[? ?] ?].
Qed.

Lemma stored_kept hs fs field value : let '(fs', field', value') := stored fs field value hs in
  hs <> [] -> fs' ++ [(field', value')] = (if bool_decide (value = []) then fs else fs ++ [(field, value)]) ++ kept hs /\
  exists kv, kv ∈ hs /\ field' = fst kv.
Proof.
  revert fs field value. induction hs as [|[k v] hs IH]; intros fs field value; [done|]. cbn [stored].
  specialize (IH (if bool_decide (value = []) then fs else fs ++ [(field, value)]) k v).
  destruct (stored _ _ _ _) as [[fs' field'] value'] eqn:E. intros _. destruct hs as [|kv hs].
  - injection E as <- <- <-. split; [done|]. exists (k, v). split; [by left|done].
  - destruct IH as [H (kv' & Hkv & Hf)]; [done|]. split; [|exists kv'; split; [by right|done]]. rewrite H. cbn [kept snd].
    case_bool_decide; [done|]. by rewrite <- app_assoc.
Qed.

(** The headers are complete: all those that are kept are there. *)
Lemma headers_complete_given hs q u : header_building_state u = 0 -> header_field u = [] -> header_value u = [] -> Forall header_ok hs ->
  exists st, fold_left (header_given callbacks) hs u = with_header 0 (snd (fst st)) (snd st) (fst (fst st)) u /\
  on_headers_complete_ q (fold_left (header_given callbacks) hs u) =
    call_handler Handle_header (set_connection_parameters q (with_header 0 [] [] (fields u ++ kept hs) u)).
Proof.
  intros Hu Hf Hv Hok. rewrite fields_given, Hf, Hv by done. pose proof (stored_kept hs (fields u) [] []) as H.
  destruct (stored (fields u) [] [] hs) as [[fs field] value] eqn:E. exists (fs, field, value). split; [done|].
  unfold on_headers_complete_. cbn [with_header header_field header_value fields header_building_state fst snd].
  destruct hs as [|kv0 hs].
  - injection E as <- <- <-. rewrite bool_decide_eq_true_2 by done. cbn [kept]. by rewrite app_nil_r.
  - destruct H as [H (kv & Hkv & Hfst)]; [done|]. rewrite bool_decide_eq_false_2.
    + rewrite H. by rewrite bool_decide_eq_true_2.
    + rewrite Hfst. apply (proj1 (Forall_forall _ _) Hok kv Hkv).
Qed.

(** The members when the message is complete, from those before the request. *)
Lemma members_read qh qb qs calls target hs body : Forall header_ok hs ->
  keep_alive_of qh = true -> close_connection_of qh = false ->
  let u2 := headers_read callbacks qh (fold_left (header_given callbacks) hs (feed callbacks Url (begun callbacks qb (fresh_members qs calls)) target)) in
  (if body is [] then u2 else feed callbacks Body u2 body) =
  mkHTTPParser target [] 0 false [] [] (kept hs) (Some qs) body true false (calls ++ [Handle_header]).
Proof.
  intros Hhs Hk Hc. cbn [headers_read callbacks feed begun on_data].
  destruct (headers_complete_given hs qh (on_url_ (fresh_members qs calls) target) eq_refl eq_refl eq_refl Hhs) as (st & _ & ->).
  unfold set_connection_parameters. rewrite Hc, Hk. by destruct body.
Qed.

Lemma url_cut path query :
  (if question_at path query =? 0 then url_text path query else take (Z.to_nat (question_at path query)) (url_text path query)) = "/"%char :: path.
Proof.
  unfold question_at, url_text. destruct query as [query|]; [|by rewrite app_nil_r].
  rewrite (proj2 (Z.eqb_neq _ _)) by (unfold len; lia). replace (Z.to_nat (len path + 1)) with (S (length path)) by (unfold len; lia).
  cbn [take]. by rewrite take_app_length.
Qed.

(** The request that is written by [request_text]. *)
Definition request_of (m : HTTPMethod) (path : bytes) (query : option bytes) (params : query_string) (hs : headers) (body : bytes) : request :=
  mkRequest (number_of m) (url_text path query) ("/"%char :: path) params (kept hs) body 1 1 true false false.

Lemma body_short m path query hs body : piece limit (request_text m path query hs body) -> len body < 2 ^ 31.
Proof. intros (_ & _ & Hp). pose proof limit_range. unfold request_text, len in *. rewrite !length_app in Hp. lia. Qed.

(** The request that [handle] finds. *)
Lemma completed_request m path query params hs body q qs calls : query_string_of (url_text path query) = Some params ->
  method q = m -> qs_point q = question_at path query -> http_major q = 1 -> http_minor q = 1 -> upgrade q = false ->
  to_request q (on_message_complete_ q (mkHTTPParser (url_text path query) [] 0 false [] [] (kept hs) (Some qs) body true false calls)) =
  Some (request_of m path query params hs body).
Proof.
  intros Hp <- Hq Hmaj Hmin Hup. unfold to_request.
  cbn [on_message_complete_ call_handler raw_url url url_params fields request_body keep_alive close_connection].
  rewrite Hp, Hq, Hmaj, Hmin, Hup. cbn [mbind option_bind]. by rewrite url_cut.
Qed.

(** A written request is read from any idle parser: the members and the state of
    [http_parser] that [handle] finds, and after it those that the end of the
    message leaves. *)
Lemma to_request_read m path query hs body q0 qs calls : m <> Connect -> wf_url path query -> well_headed hs body ->
  piece limit (request_text m path query hs body) -> idle q0 ->
  exists q params u, feed_ (request_text m path query hs body) q0 (fresh_members qs calls) = Some (true, q, u) /\
  query_string_of (url_text path query) = Some params /\ handled u = calls ++ [Handle_header; Handle] /\
  message_complete u = true /\ idle (set_state s_start_req (set_qs_point 0 (set_version 0 0 q))) /\
  to_request q u = Some (request_of m path query params hs body).
Proof.
  intros Hm Hurl Hw Hp Hidle. destruct (params_defined (url_text path query)) as [params Hparams].
  assert (Hlen : len body < 2 ^ 31) by by eapply body_short.
  destruct (well_headed_ok m path query hs body Hm Hurl Hw Hlen) as (fl & cl & Hok & Hfl).
  pose proof (ok_headers _ _ _ _ _ _ Hok) as Hhs.
  destruct (request_read callbacks limit m path query hs body _ q0 (fresh_members qs calls) Hok Hidle Hp limit_range)
    as (hs' & ix & qb & n0 & s & cl' & Hcl & from & Hrun).
  cbn [e_flags e_length] in Hrun.
  rewrite (members_read (conn fl s_headers_done hs' ix false n0 cl (question_at path query) 1 1 m)) in Hrun;
    [|done|by destruct Hfl as [-> | ->]|by destruct Hfl as [-> | ->]].
  set (q := conn fl s hs' ix false 0 cl' (question_at path query) 1 1 m) in *.
  pose proof (execute_run callbacks limit _ q0 (fresh_members qs calls) (proj1 Hp) ltac:(by destruct Hidle as (? & ? & ? & ? & ? & ? & -> & _))) as He. rewrite Hrun in He.
  exists q, params. eexists. split_and!.
  - unfold feed_. cbn [message_complete fresh_members]. rewrite He, bool_decide_eq_true_2 by done. by rewrite Z.eqb_refl.
  - done.
  - cbn. by rewrite <- app_assoc.
  - done.
  - by exists fl, hs', ix, false, cl', m.
  - by apply completed_request.
Qed.

(** C10: A written request (any method but CONNECT, a path and a query of URL
    characters, headers of which at most one means something to the parser and then
    gives the length of the body; in all without NUL bytes and no longer than the
    header limit, which is below 2^31) is read in one call of [feed]: the handler is called
    for the headers and for the request, and [to_request] gives the method, the URL
    with and without its query, the parameters, the headers with a value and the last,
    the body, the version and what to do with the connection. *)
Theorem request_roundtrip m path query hs body : m <> Connect -> wf_url path query -> well_headed hs body ->
  piece limit (request_text m path query hs body) -> exists q u params,
  feed_ (request_text m path query hs body) http_parser_init new_parser = Some (true, q, u) /\
  query_string_of (url_text path query) = Some params /\ handled u = [Handle_header; Handle] /\
  to_request q u = Some (request_of m path query params hs body).
Proof.
  intros Hm Hurl Hw Hp. destruct (to_request_read m path query hs body http_parser_init (QueryString [NUL] []) [] Hm Hurl Hw Hp idle_init)
    as (q & params & u & Hf & Hparams & Hh & _ & _ & Hr). by exists q, u, params.
Qed.

Lemma two_pieces_taken : match in_pieces callbacks limit [of_text "GET /a HT"; of_text "TP/1.1" ++ [cr; lf; cr; lf]] http_parser_init new_parser with
  | Accepted _ _ _ => True
  | _ => False
  end.
Proof. by vm_compute. Qed.

Lemma feed_pieces_witness : let ds := [of_text "GET /a HT"; of_text "TP/1.1" ++ [cr; lf; cr; lf]] in exists q u,
  feed_all ds http_parser_init new_parser = Some (true, q, u) /\ feed_ (concat ds) http_parser_init new_parser = Some (true, q, u).
Proof.
  intros ds. pose proof two_pieces_taken as Hw. fold ds in Hw.
  destruct (in_pieces callbacks limit ds http_parser_init new_parser) as [q u f| |] eqn:E; [|destruct Hw..].
  exists q, u. apply (feed_pieces ds http_parser_init new_parser q u f).
  - exact (pieces_ok limit ds eq_refl).
  - exact (pieceb_ok limit (concat ds) eq_refl).
  - exact (init_ok limit ltac:(pose proof limit_range; lia)).
  - exact E.
  - intros n q' u' f' Hn. destruct n as [|[|n]]; [by intros [= <- <- <-]| |cbn in Hn; lia].
    vm_compute. by intros [= <- <- <-].
Defined.

Definition posted : headers := [text_header "Host" "h"; text_header "X-Empty" ""; text_header "content-LENGTH" "3"].

Lemma request_roundtrip_witness : exists q u params,
  feed_ (request_text Post (of_text "a") (Some (of_text "x=1")) posted (of_text "xyz")) http_parser_init new_parser = Some (true, q, u) /\
  query_string_of (of_text "/a?x=1") = Some params /\ handled u = [Handle_header; Handle] /\
  to_request q u = Some (mkRequest (number_of Post) (of_text "/a?x=1") (of_text "/a") params
    [text_header "Host" "h"; text_header "content-LENGTH" "3"] (of_text "xyz") 1 1 true false false).
Proof.
  apply (request_roundtrip Post (of_text "a") (Some (of_text "x=1")) posted (of_text "xyz")); [done| | |].
  - split; apply (bool_decide_unpack _); by vm_compute.
  - apply (one_length [text_header "Host" "h"; text_header "X-Empty" ""] (text_header "content-LENGTH" "3") [] (of_text "xyz")).
    + repeat constructor; try done; apply (bool_decide_unpack _); by vm_compute.
    + constructor.
    + repeat constructor; try done; apply (bool_decide_unpack _); by vm_compute.
    + repeat constructor; try done; apply (bool_decide_unpack _); by vm_compute.
  - exact (pieceb_ok limit (request_text Post (of_text "a") (Some (of_text "x=1")) posted (of_text "xyz")) eq_refl).
Defined.
