(* ===== verification/HttpConnection.v ===== *)
(** * Connections: include/crow_all.h, crow::Connection, without middlewares

    A connection reads with [async_read_some], feeds the parser, whose callbacks
    call [handle_header] and [handle], and sends responses with [async_write].  The
    completion of a read, of a write, and the deadline are the events; those that are
    outstanding are counted ([reads], [writes]).

    The socket is what it is asked to do ([log]) and whether it is open.  What the
    rest of the world says while an event is handled is its [moment].  The
    application is a function on the response, which may end it at once or later
    ([Later]); what it does to a response that it has ended is not seen by the client.
    The strings in [buffers_] are taken when the write starts.

    Two writes may be under way at once: [writes] counts them, and each comes to its
    end.  What the second does to the bytes of the first is not modelled ([log] is
    what was asked for).

    Not here: static files, compression, TLS; a body as long as the stream threshold
    is sent synchronously from within the parser ([Streams]), which is where the model
    stops. *)

From S2P Require Import Prelude CInt CFloat CArray Multipart Query CNum HttpData Trie TrieSpec RuleTags Router HttpParser HttpSteps HttpBytes HttpFeed HttpTurns HttpPieces HttpCuts HttpRead HttpNames RequestParser.

#[local] Abbreviation crlf := Multipart.crlf.

(** ** Outcomes *)

(** [Freed]: the object is used after [delete this];
    [Throws]: an exception leaves the event loop. *)
Inductive served (A : Type) :=
  Serves (a : A) | Streams (head body : bytes) | Freed | Throws (what : string) | Stops.
Arguments Serves {_} _.
Arguments Streams {_} _ _.
Arguments Freed {_}.
Arguments Throws {_} _.
Arguments Stops {_}.

#[global] Instance served_ret : MRet served := @Serves.
#[global] Instance served_bind : MBind served := fun A B k m =>
  match m with
  | Serves a => k a
  | Streams head body => Streams head body
  | Freed => Freed
  | Throws what => Throws what
  | Stops => Stops
  end.

(** What the application does. *)
Definition call {A} (b : built A) : served A :=
  match b with Built a => Serves a | Raises what => Throws what | Hangs | Router.Undefined => Stops end.

(** ** State *)

(** [handler_->handle_upgrade] also tells whether the socket was moved away;
    [iterate] is the order in which the map of the headers is walked through. *)
Record environment := mkEnvironment {
  server_name_ : bytes;
  res_stream_threshold_ : Z;
  iterate : headers -> headers;
  application : request -> response -> built response;
  application_upgrade : request -> response -> built (response * bool)
}.

(** The date string, and whether [remote_endpoint()] finds a peer. *)
Record moment := mkMoment { get_cached_date_str : bytes; peer : bool }.

Inductive action :=
  AsyncReadSome | AsyncWrite (buffers : bytes) | WriteToClosed | ShutdownRead | ShutdownWrite | ShutdownBoth | CloseSocket | DeleteThis.

(** [complete_request_handler_]: whether it is [complete_request]. *)
Record progress := mkProgress {
  close_connection_ : bool;
  need_to_call_after_handlers_ : bool;
  need_to_start_read_after_complete_ : bool;
  add_keep_alive_ : bool;
  complete_request_handler_ : bool
}.

(** [deadline]: whether a task is scheduled under [task_id_]. *)
Record link := mkLink {
  is_reading : bool;
  is_writing : bool;
  is_open : bool;
  deadline : bool;
  freed : bool;
  reads : nat;
  writes : nat;
  log : list action
}.

Record Connection := mkConnection { members : HTTPParser; req_ : request; res : response; steps : progress; socket : link }.

Definition with_members (u : HTTPParser) (c : Connection) : Connection := mkConnection u (req_ c) (res c) (steps c) (socket c).
Definition with_req (r : request) (c : Connection) : Connection := mkConnection (members c) r (res c) (steps c) (socket c).
Definition with_res (r : response) (c : Connection) : Connection := mkConnection (members c) (req_ c) r (steps c) (socket c).
Definition on_steps (f : progress -> progress) (c : Connection) : Connection := mkConnection (members c) (req_ c) (res c) (f (steps c)) (socket c).
Definition on_socket (f : link -> link) (c : Connection) : Connection := mkConnection (members c) (req_ c) (res c) (steps c) (f (socket c)).

Definition set_close (b : bool) (s : progress) : progress :=
  mkProgress b (need_to_call_after_handlers_ s) (need_to_start_read_after_complete_ s) (add_keep_alive_ s) (complete_request_handler_ s).
Definition set_after (b : bool) (s : progress) : progress :=
  mkProgress (close_connection_ s) b (need_to_start_read_after_complete_ s) (add_keep_alive_ s) (complete_request_handler_ s).
Definition set_start_read (b : bool) (s : progress) : progress :=
  mkProgress (close_connection_ s) (need_to_call_after_handlers_ s) b (add_keep_alive_ s) (complete_request_handler_ s).
Definition set_keep_alive (b : bool) (s : progress) : progress :=
  mkProgress (close_connection_ s) (need_to_call_after_handlers_ s) (need_to_start_read_after_complete_ s) b (complete_request_handler_ s).
Definition set_handler (b : bool) (s : progress) : progress :=
  mkProgress (close_connection_ s) (need_to_call_after_handlers_ s) (need_to_start_read_after_complete_ s) (add_keep_alive_ s) b.

Definition set_reading (b : bool) (l : link) : link :=
  mkLink b (is_writing l) (is_open l) (deadline l) (freed l) (reads l) (writes l) (log l).
Definition set_writing (b : bool) (l : link) : link :=
  mkLink (is_reading l) b (is_open l) (deadline l) (freed l) (reads l) (writes l) (log l).
Definition set_open (b : bool) (l : link) : link :=
  mkLink (is_reading l) (is_writing l) b (deadline l) (freed l) (reads l) (writes l) (log l).
Definition set_deadline (b : bool) (l : link) : link :=
  mkLink (is_reading l) (is_writing l) (is_open l) b (freed l) (reads l) (writes l) (log l).
Definition set_reads (n : nat) (l : link) : link :=
  mkLink (is_reading l) (is_writing l) (is_open l) (deadline l) (freed l) n (writes l) (log l).
Definition set_writes (n : nat) (l : link) : link :=
  mkLink (is_reading l) (is_writing l) (is_open l) (deadline l) (freed l) (reads l) n (log l).
Definition does (a : action) (l : link) : link :=
  mkLink (is_reading l) (is_writing l) (is_open l) (deadline l) (freed l) (reads l) (writes l) (log l ++ [a]).

(** ** Timers, reads and writes *)

Definition cancel_deadline_timer : Connection -> Connection := on_socket (set_deadline false).

Definition start_deadline (c : Connection) : Connection := on_socket (set_deadline true) (cancel_deadline_timer c).

(** [adaptor_.close()]. *)
Definition close (l : link) : link := set_open false (does CloseSocket l).

(** The deadline's task. *)
Definition on_deadline (c : Connection) : Connection :=
  on_socket (fun l => if is_open l then close (does ShutdownBoth l) else l) (on_socket (set_deadline false) c).

(** [delete this]: the destructor cancels the timer and closes the socket. *)
Definition delete_this (l : link) : link :=
  mkLink (is_reading l) (is_writing l) false false true (reads l) (writes l) (log l ++ [DeleteThis]).

Definition check_destroy : Connection -> Connection :=
  on_socket (fun l => if negb (is_reading l) && negb (is_writing l) then delete_this l else l).

Definition do_read : Connection -> Connection :=
  on_socket (fun l => does AsyncReadSome (set_reads (S (reads l)) (set_reading true l))).

(** Nothing asks whether a write is already under way. *)
Definition do_write (buffers : bytes) : Connection -> Connection :=
  on_socket (fun l => does (if is_open l then AsyncWrite buffers else WriteToClosed) (set_writes (S (writes l)) (set_writing true l))).

(** ** Responses *)

Definition status_codes : list (Z * string) := [
  (100, "HTTP/1.1 100 Continue"); (101, "HTTP/1.1 101 Switching Protocols");
  (200, "HTTP/1.1 200 OK"); (201, "HTTP/1.1 201 Created"); (202, "HTTP/1.1 202 Accepted");
  (203, "HTTP/1.1 203 Non-Authoritative Information"); (204, "HTTP/1.1 204 No Content");
  (205, "HTTP/1.1 205 Reset Content"); (206, "HTTP/1.1 206 Partial Content");
  (300, "HTTP/1.1 300 Multiple Choices"); (301, "HTTP/1.1 301 Moved Permanently"); (302, "HTTP/1.1 302 Found");
  (303, "HTTP/1.1 303 See Other"); (304, "HTTP/1.1 304 Not Modified"); (307, "HTTP/1.1 307 Temporary Redirect");
  (308, "HTTP/1.1 308 Permanent Redirect");
  (400, "HTTP/1.1 400 Bad Request"); (401, "HTTP/1.1 401 Unauthorized"); (403, "HTTP/1.1 403 Forbidden");
  (404, "HTTP/1.1 404 Not Found"); (405, "HTTP/1.1 405 Method Not Allowed");
  (407, "HTTP/1.1 407 Proxy Authentication Required"); (409, "HTTP/1.1 409 Conflict"); (410, "HTTP/1.1 410 Gone");
  (413, "HTTP/1.1 413 Payload Too Large"); (415, "HTTP/1.1 415 Unsupported Media Type");
  (416, "HTTP/1.1 416 Range Not Satisfiable"); (417, "HTTP/1.1 417 Expectation Failed");
  (428, "HTTP/1.1 428 Precondition Required"); (429, "HTTP/1.1 429 Too Many Requests");
  (451, "HTTP/1.1 451 Unavailable For Legal Reasons");
  (500, "HTTP/1.1 500 Internal Server Error"); (501, "HTTP/1.1 501 Not Implemented"); (502, "HTTP/1.1 502 Bad Gateway");
  (503, "HTTP/1.1 503 Service Unavailable"); (504, "HTTP/1.1 504 Gateway Timeout"); (506, "HTTP/1.1 506 Variant Also Negotiates")].

Definition status_of (c : Z) : option bytes :=
  (fun x => of_text (snd x) ++ crlf) <$> List.find (fun x => fst x =? c) status_codes.

(** [headers.count(k)]. *)
Definition has_header (k : string) (hs : headers) : bool := existsb (fun x => iequals (fst x) (of_text k)) hs.

Definition header_line (x : bytes * bytes) : bytes := fst x ++ of_text ": " ++ snd x ++ crlf.

Section serve.
Context (e : environment).

(** [prepare_buffers], for an open socket: the buffers and the body. *)
Definition prepare_buffers (now : moment) (keep_alive : bool) (s : sent) : bytes * bytes :=
  let status := default (of_text "HTTP/1.1 500 Internal Server Error" ++ crlf) (status_of (sent_code s)) in
  let code := if bool_decide (is_Some (status_of (sent_code s))) then sent_code s else 500 in
  let body := if (400 <=? code) && bool_decide (sent_body s = []) then drop 9 status else sent_body s in
  let hs := sent_headers s in
  let unless (b : bool) (l : bytes) := if b then [] else l in
  (status ++ List.concat (header_line <$> iterate e hs) ++
   unless (sent_manual s || has_header "content-length" hs) (header_line (of_text "Content-Length", of_text (to_string (len body)))) ++
   unless (has_header "server" hs) (header_line (of_text "Server", server_name_ e)) ++
   unless (has_header "date" hs) (header_line (of_text "Date", get_cached_date_str now)) ++
   unless (negb keep_alive) (header_line (of_text "Connection", of_text "Keep-Alive")) ++ crlf, body).

Definition do_write_general (buffers body : bytes) (c : Connection) : served Connection :=
  if len body <? res_stream_threshold_ e then
    let c := do_write (buffers ++ body) c in
    Serves (if need_to_start_read_after_complete_ (steps c) then do_read (start_deadline (on_steps (set_start_read false) c)) else c)
  else Streams buffers body.

(** A redirection to a path becomes one to a URL. *)
Definition absolute_location (req : request) (s : sent) : sent :=
  let location := get_header_value (sent_headers s) (of_text "Location") in
  if bool_decide (location = []) || bool_decide (is_Some (find_at (of_text "://") location)) then s
  else
    let hs := List.filter (fun x => negb (iequals (fst x) (of_text "location"))) (sent_headers s) in
    let location := of_text "http://" ++ get_header_value (req_headers req) (of_text "Host") ++ location in
    mkSent (sent_code s) (sent_body s) (hs ++ [(of_text "location", location)]) (sent_manual s).

(** [complete_request], with the response as it is now; where the socket is closed
    the buffers stay as they are and the write fails. *)
Definition complete_request (now : moment) (s : sent) (c : Connection) : served Connection :=
  let s := absolute_location (req_ c) s in
  let c := on_steps (set_handler false) (on_steps (set_after false) c) in
  let '(buffers, body) := if is_open (socket c) then prepare_buffers now (add_keep_alive_ (steps c)) s else ([], sent_body s) in
  do_write_general buffers body c.

Definition as_sent (r : response) : sent := mkSent (code r) (body r) (res_headers r) (manual_length_header r).

(** No call of [complete_request_handler_] yet. *)
Definition unended (r : response) : response :=
  mkResponse (code r) (body r) (res_headers r) (skip_body r) (manual_length_header r) (completed_ r) [].

(** ** Requests *)

Definition handle_header (q : http_parser) (c : Connection) : served Connection :=
  if (http_major q =? 1) && (http_minor q =? 1) && bool_decide (get_header_value (fields (members c)) (of_text "expect") = of_text "100-continue")
  then Serves (do_write (of_text "HTTP/1.1 100 Continue" ++ crlf ++ crlf) c) else Serves c.

(** The application is asked, unless the last response is still there. *)
Definition ask_app (now : moment) (req : request) (c : Connection) : served Connection :=
  let c := on_steps (set_handler false) (on_steps (set_after false) c) in
  if completed_ (res c) then complete_request now (as_sent (res c)) c
  else
    let c := on_steps (set_after true) (on_steps (set_handler true) c) in
    r ← call (application e req (unended (res c)));
    let c := with_res r c in
    c ← match ended r with s :: _ => complete_request now s c | [] => Serves c end;
    Serves (if add_keep_alive_ (steps c) then with_res (set_header (of_text "connection") (of_text "Keep-Alive") (res c)) c else c).

Definition handle (now : moment) (q : http_parser) (c : Connection) : served Connection :=
  let c := on_steps (set_keep_alive false) (cancel_deadline_timer c) in
  match to_request q (members c) with
  | None => Stops
  | Some req =>
      let c := with_req req c in
      if negb (is_open (socket c) && peer now) then Throws "remote_endpoint"
      else
        let c := on_steps (set_close (req_close_connection req)) (on_steps (set_keep_alive (req_keep_alive req)) c) in
        if (req_major req =? 1) && (req_minor req =? 1) then
          if negb (has_header "host" (req_headers req)) then
            let c := on_steps (set_after false) (with_res (reset_to 400 (res c)) c) in
            complete_request now (as_sent (res c)) c
          else if req_upgrade req && negb (bool_decide (take 2 (get_header_value (req_headers req) (of_text "upgrade")) = of_text "h2")) then
            '(r, moved) ← call (application_upgrade e req (res c));
            Serves (on_socket (fun l => if (moved : bool) then set_open false l else l) (with_res r (on_steps (set_close true) c)))
          else ask_app now req c
        else ask_app now req c
  end.

(** The parser's callbacks, with this connection as their handler. *)
Definition on_message (now : moment) : handlers (served Connection) :=
  Handlers _ (fun _ o => o)
    (fun q o => c ← o; handle_header q (with_members (on_headers_complete_ q (members c)) c))
    (fun q o => c ← o; handle now q (with_members (on_message_complete_ q (members c)) c))
    (fun k o at_ => c ← o; Serves (with_members (on_data k (members c) at_) c)).

(** [parser_.feed] and [parser_.done()]. *)
Definition feed_parser (now : moment) (buffer : bytes) (q : http_parser) (c : Connection) : served (bool * http_parser * Connection) :=
  if message_complete (members c) then Serves (true, q, c)
  else
    match http_parser_execute (plain (on_message now)) CROW_HTTP_MAX_HEADER_SIZE buffer q (Serves c) with
    | inl _ => Stops
    | inr (nparsed, q, o) =>
        c ← o; Serves (if bool_decide (http_errno_ q = CHPE_OK) then nparsed =? len buffer else false, q, c)
    end.

Definition parser_done (now : moment) : http_parser -> Connection -> served (bool * http_parser * Connection) := feed_parser now [].

Definition parser_clear (q : http_parser) (c : Connection) : http_parser * Connection :=
  let '(q, u) := clear_ q (members c) in (q, with_members u c).

(** ** Events *)

(** The completion of a read, with what it read if there was no error. *)
Definition on_read (now : moment) (data : option bytes) (q : http_parser) (c : Connection) : served (http_parser * Connection) :=
  '(fine, q, c) ←
    match data with
    | Some buffer => '(ret, q, c) ← feed_parser now buffer q c; Serves (ret && is_open (socket c), q, c)
    | None => Serves (false, q, c)
    end;
  if negb (fine : bool) then
    '(_, q, c) ← parser_done now q (cancel_deadline_timer c);
    Serves (q, check_destroy (on_socket (fun l => set_reading false (close (does ShutdownRead l))) c))
  else if close_connection_ (steps c) then
    '(_, q, c) ← parser_done now q (cancel_deadline_timer c);
    Serves (q, check_destroy (on_socket (set_reading false) c))
  else if negb (need_to_call_after_handlers_ (steps c)) then Serves (q, do_read (start_deadline c))
  else Serves (q, on_steps (set_start_read true) c).

Definition on_written (ok : bool) (q : http_parser) (c : Connection) : http_parser * Connection :=
  let c := on_socket (set_writing false) c in
  let '(q, c) := parser_clear q (with_res (Router.clear (res c)) c) in
  if ok then
    if close_connection_ (steps c) then (q, check_destroy (on_socket (fun l => close (does ShutdownWrite l)) c)) else (q, c)
  else (q, check_destroy c).

(** The application changes a response that it has not ended, and may end it. *)
Definition later (now : moment) (f : response -> response) (c : Connection) : served Connection :=
  let c := with_res (f (unended (res c))) c in
  match ended (res c) with
  | s :: _ => if complete_request_handler_ (steps c) then complete_request now s c else Serves c
  | [] => Serves c
  end.

(** [async_read_some] gives at most the 4096 bytes of [buffer_]. *)
Inductive event :=
  Received (now : moment) (data : bytes) | ReadFailed (now : moment) | Written (ok : bool) | Deadline | Later (now : moment) (f : response -> response).

(** The events that may come next. *)
Definition enabled (c : Connection) (v : event) : Prop :=
  match v with
  | Received _ data => reads (socket c) <> 0%nat /\ data <> [] /\ len data <= 4096
  | ReadFailed _ => reads (socket c) <> 0%nat
  | Written _ => writes (socket c) <> 0%nat
  | Deadline => deadline (socket c) = true
  | Later _ _ => complete_request_handler_ (steps c) = true
  end.

Definition read_done : Connection -> Connection := on_socket (fun l => set_reads (pred (reads l)) l).
Definition write_done : Connection -> Connection := on_socket (fun l => set_writes (pred (writes l)) l).

Definition step (v : event) (q : http_parser) (c : Connection) : served (http_parser * Connection) :=
  if freed (socket c) then Freed
  else
    match v with
    | Received now data => on_read now (Some data) q (read_done c)
    | ReadFailed now => on_read now None q (read_done c)
    | Written ok => Serves (on_written ok q (write_done c))
    | Deadline => Serves (q, on_deadline c)
    | Later now f => c ← later now f c; Serves (q, c)
    end.

Fixpoint run (vs : list event) (q : http_parser) (c : Connection) : served (http_parser * Connection) :=
  match vs with
  | [] => Serves (q, c)
  | v :: vs => '(q, c) ← step v q c; run vs q c
  end.

(** The constructor, and [start()]. *)
Definition blank_request : request := mkRequest (number_of Get) [] [] (QueryString [NUL] []) [] [] 0 0 false false false.

Definition new_connection : Connection :=
  mkConnection new_parser blank_request (mkResponse 200 [] [] false false false []) (mkProgress false false false false false)
    (mkLink false false true false false 0 0 []).

Definition start (q : http_parser) (c : Connection) : http_parser * Connection :=
  let '(q, c) := parser_clear q (start_deadline c) in (q, do_read c).

(** What a connection does with a sequence of events. *)
Definition serve (vs : list event) : served (http_parser * Connection) :=
  let '(q, c) := start http_parser_init new_connection in run vs q c.

Definition served_log (o : served (http_parser * Connection)) : option (list action) :=
  match o with Serves (_, c) => Some (log (socket c)) | _ => None end.
End serve.

(** ** For the examples *)

Definition noon : moment := mkMoment (of_text "noon") true.

Definition router_app (ro : built Router) : environment :=
  mkEnvironment (of_text "Crow") 1048576 (fun hs => hs) (fun req res => ro ← ro; Router.handle ro req res)
    (fun req res => ro ← ro; r ← handle_upgrade ro req res; Built (r, false)).

Definition sample : environment := router_app sample_router.

Definition http (ls : list string) : event := Received noon (http_lines ls).

Definition wrote (ls : list string) (body : string) : action := AsyncWrite (http_lines ls ++ of_text body).

Definition actions (e : environment) (vs : list event) : option (list action) := served_log (serve e vs).
