(* ===== verification/HttpReply.v ===== *)
(** * What a client reads of a response *)

From S2P Require Import Prelude CInt CFloat CArray Multipart Query CNum HttpData Trie TrieSpec RuleTags Router HttpParser HttpRead RequestParser HttpConnection.

#[local] Abbreviation crlf := Multipart.crlf.

(** A reader of responses: the status line, the headers up to an empty line, and
    what is left. *)
Fixpoint read_head (fuel : nat) (s : bytes) : option (headers * bytes) :=
  match fuel with
  | O => None
  | S fuel =>
      n ← find_at crlf s;
      let line := take n s in
      let s := drop (n + 2) s in
      if bool_decide (line = []) then Some ([], s)
      else
        k ← find_at (of_text ": ") line;
        '(hs, rest) ← read_head fuel s;
        Some ((take k line, drop (k + 2) line) :: hs, rest)
  end.

Definition read_reply (s : bytes) : option (bytes * headers * bytes) :=
  n ← find_at crlf s; '(hs, body) ← read_head (length s) (drop (n + 2) s); Some (take n s, hs, body).

(** Headers without line ends, their names without colons. *)
Definition plain_line (x : bytes * bytes) : Prop := (cr ∉ fst x) /\ (":"%char ∉ fst x) /\ (cr ∉ snd x).

Lemma line_cut l s : cr ∉ l -> find_at crlf (l ++ crlf ++ s) = Some (length l) /\
  take (length l) (l ++ crlf ++ s) = l /\ drop (length l + 2) (l ++ crlf ++ s) = s.
Proof.
  intros Hl. split; [by apply find_clean|]. rewrite take_app_length. split; [done|]. rewrite app_assoc.
  by rewrite (drop_app_length' (l ++ crlf)) by (rewrite length_app; cbn; lia).
Qed.

Lemma header_line_shape x : header_line x = (fst x ++ of_text ": " ++ snd x) ++ crlf.
Proof. unfold header_line. by rewrite <- !app_assoc. Qed.

Lemma header_cut x : plain_line x -> let line := fst x ++ of_text ": " ++ snd x in
  (cr ∉ line) /\ line <> [] /\ find_at (of_text ": ") line = Some (length (fst x)) /\
  take (length (fst x)) line = fst x /\ drop (length (fst x) + 2) line = snd x.
Proof.
  intros (Hk & Hc & Hv) line. split; [|split; [|split; [|split]]]; unfold line.
  - rewrite !not_elem_of_app. split; [done|]. split; [|done]. apply (bool_decide_unpack _). by vm_compute.
  - by destruct (fst x).
  - by apply find_clean.
  - apply take_app_length.
  - rewrite app_assoc. apply drop_app_length'. rewrite length_app. cbn. lia.
Qed.

Lemma read_lines hs rest fuel : Forall plain_line hs -> (length hs < fuel)%nat ->
  read_head fuel (List.concat (header_line <$> hs) ++ crlf ++ rest) = Some (hs, rest).
Proof.
  intros Hhs. revert fuel. induction Hhs as [|x hs Hx _ IH]; intros [|fuel] Hf; cbn in Hf; [lia|done|lia|].
  cbn [read_head]. rewrite fmap_cons. cbn [List.concat]. rewrite header_line_shape.
  pose proof (header_cut x Hx) as Hcut. cbv zeta in Hcut. revert Hcut. generalize (fst x ++ of_text ": " ++ snd x) as line.
  intros line (Hl & Hne & Hk & Ht & Hd). rewrite <- !app_assoc.
  destruct (line_cut line (List.concat (header_line <$> hs) ++ crlf ++ rest) Hl) as (-> & Ht2 & Hd2).
  cbn [mbind option_bind]. rewrite Ht2, Hd2, (bool_decide_eq_false_2 _ Hne), Hk. cbn [mbind option_bind]. rewrite IH by lia.
  cbn [mbind option_bind]. rewrite Ht, Hd. by destruct x.
Qed.

(** ** The responses *)

Lemma status_clean c : match status_of c with Some t => exists l, t = l ++ crlf /\ cr ∉ l | None => True end.
Proof.
  unfold status_of. destruct (List.find _ _) as [[c' t]|] eqn:E; [|done]. cbn. exists (of_text t). split; [done|].
  apply List.find_some in E as [Hin _].
  assert (H : forallb (fun x => bool_decide (cr ∉ of_text (snd x))) status_codes = true) by (by vm_compute).
  rewrite forallb_forall in H. specialize (H _ Hin). by apply bool_decide_eq_true in H.
Qed.

Lemma digits_clean n s : cr ∉ of_text s -> cr ∉ of_text (pretty_N_go n s).
Proof.
  revert s. induction (N.lt_wf_0 n) as [n _ IH]. intros s Hs. destruct (decide (n = 0)%N) as [->|Hn]; [by rewrite pretty_N_go_0|].
  rewrite pretty_N_go_step by lia. apply IH; [apply N.div_lt; lia|]. apply not_elem_of_cons. split; [|done].
  pose proof (N.mod_lt n 10 ltac:(done)) as Hm. destruct (pretty_char_digit _ Hm) as [Hd _]. intros E. by rewrite <- E in Hd.
Qed.

Lemma to_string_clean n : cr ∉ of_text (to_string (Z.of_nat n)).
Proof.
  unfold to_string. destruct n as [|n]; [apply (bool_decide_unpack _); by vm_compute|].
  change (pretty (Z.of_nat (S n))) with (pretty (Npos (Pos.of_succ_nat n))). unfold pretty, pretty_N.
  rewrite decide_False by done. apply digits_clean. by apply not_elem_of_nil.
Qed.

(** The headers that are added to a response. *)
Definition added_headers (e : environment) (now : moment) (keep_alive : bool) (s : sent) (length : nat) : headers :=
  (if sent_manual s || has_header "content-length" (sent_headers s) then [] else [(of_text "Content-Length", of_text (to_string (Z.of_nat length)))]) ++
  (if has_header "server" (sent_headers s) then [] else [(of_text "Server", server_name_ e)]) ++
  (if has_header "date" (sent_headers s) then [] else [(of_text "Date", get_cached_date_str now)]) ++
  (if keep_alive then [(of_text "Connection", of_text "Keep-Alive")] else []).

(** The code that is sent, its status line, and the body. *)
Definition status_text (c : Z) : string :=
  match List.find (fun x => fst x =? c) status_codes with Some x => snd x | None => "HTTP/1.1 500 Internal Server Error" end.

Definition body_of (s : sent) : bytes :=
  let code := if bool_decide (is_Some (status_of (sent_code s))) then sent_code s else 500 in
  if (400 <=? code) && bool_decide (sent_body s = []) then drop 9 (of_text (status_text (sent_code s))) ++ crlf else sent_body s.

Lemma status_text_of c : default (of_text "HTTP/1.1 500 Internal Server Error" ++ crlf) (status_of c) = of_text (status_text c) ++ crlf.
Proof. unfold status_of, status_text. by destruct (List.find _ _). Qed.

Lemma status_text_clean c : (cr ∉ of_text (status_text c)) /\ (9 <= length (of_text (status_text c)))%nat.
Proof.
  unfold status_text. destruct (List.find _ _) as [[c' t]|] eqn:E; [|split; [apply (bool_decide_unpack _); by vm_compute|cbn; lia]].
  apply List.find_some in E as [Hin _].
  assert (H : forallb (fun x => bool_decide (cr ∉ of_text (snd x)) && (9 <=? length (of_text (snd x)))%nat) status_codes = true) by (by vm_compute).
  rewrite forallb_forall in H. specialize (H _ Hin). apply andb_true_iff in H as [H1 H2].
  split; [by apply bool_decide_eq_true in H1|by apply Nat.leb_le in H2].
Qed.

Lemma added_plain e now k s n : cr ∉ server_name_ e -> cr ∉ get_cached_date_str now -> Forall plain_line (added_headers e now k s n).
Proof.
  intros Hs Hd. unfold added_headers. rewrite !Forall_app.
  split_and!; repeat case_match; repeat constructor; try done; try apply to_string_clean; apply (bool_decide_unpack _); by vm_compute.
Qed.

Lemma unless_line (b : bool) x : List.concat (header_line <$> (if b then [] else [x])) = if b then [] else header_line x.
Proof. destruct b; [done|]. cbn. by rewrite app_nil_r. Qed.

(** The buffers, in other words. *)
Lemma buffers_lines e now k s : prepare_buffers e now k s =
  (of_text (status_text (sent_code s)) ++ crlf ++ List.concat (header_line <$> iterate e (sent_headers s) ++ added_headers e now k s (length (body_of s))) ++ crlf,
   body_of s).
Proof.
  unfold prepare_buffers. rewrite !status_text_of.
  assert (Hb : (if (400 <=? (if bool_decide (is_Some (status_of (sent_code s))) then sent_code s else 500)) && bool_decide (sent_body s = [])
     then drop 9 (of_text (status_text (sent_code s)) ++ crlf) else sent_body s) = body_of s).
  { unfold body_of. destruct (_ && _); [|done]. rewrite drop_app_le; [done|apply status_text_clean]. }
  rewrite Hb. f_equal. rewrite <- !app_assoc. do 2 f_equal. unfold added_headers.
  rewrite !fmap_app, !concat_app, <- !app_assoc. f_equal.
  rewrite !unless_line. do 3 f_equal. destruct k; [|done]. by rewrite (unless_line false).
Qed.

Lemma lines_length hs : (length hs <= length (List.concat (header_line <$> hs)))%nat.
Proof.
  induction hs as [|x hs IH]; [done|]. rewrite fmap_cons. cbn [List.concat length]. rewrite length_app.
  rewrite header_line_shape, !length_app. change (length crlf) with 2%nat. lia.
Qed.

(** C12: What a client reads of a response is what was meant: the status line of the
    code (of 500 for a code that has none), the headers of the response in some order
    and then those that the connection adds, among them the length of the body unless
    the response has its own, and, behind the empty line, the body, which for an
    error without one is the status in words.  (Names and values have no line
    ends.) *)
Theorem reply_read e now k s : Forall plain_line (sent_headers s) -> (forall hs, iterate e hs ≡ₚ hs) ->
  cr ∉ server_name_ e -> cr ∉ get_cached_date_str now ->
  let '(buffers, body) := prepare_buffers e now k s in
  read_reply (buffers ++ body) =
    Some (of_text (status_text (sent_code s)), iterate e (sent_headers s) ++ added_headers e now k s (length (body_of s)), body_of s).
Proof.
  intros Hs Hi Hn Hd. rewrite buffers_lines. set (hs := iterate e (sent_headers s) ++ added_headers e now k s (length (body_of s))).
  assert (Hhs : Forall plain_line hs) by (apply Forall_app; split; [by rewrite Hi|by apply added_plain]).
  destruct (status_text_clean (sent_code s)) as [Hc _]. rewrite <- !app_assoc.
  destruct (line_cut _ (List.concat (header_line <$> hs) ++ crlf ++ body_of s) Hc) as (Hf & Ht & Hr).
  unfold read_reply. rewrite Hf. cbn [mbind option_bind]. rewrite Ht, Hr, read_lines; [done|done|].
  rewrite !length_app. pose proof (lines_length hs). unfold Multipart.crlf. cbn [length]. lia.
Qed.

Lemma reply_read_witness : let '(buffers, body) := prepare_buffers sample noon true (mkSent 404 [] [text_header "Allow" "GET"] false) in
  read_reply (buffers ++ body) =
    Some (of_text "HTTP/1.1 404 Not Found",
      [text_header "Allow" "GET"; text_header "Content-Length" "15"; text_header "Server" "Crow"; text_header "Date" "noon";
       text_header "Connection" "Keep-Alive"], of_text "404 Not Found" ++ crlf).
Proof.
  apply (reply_read sample noon true (mkSent 404 [] [text_header "Allow" "GET"] false)).
  - repeat constructor; apply (bool_decide_unpack _); by vm_compute.
  - done.
  - apply (bool_decide_unpack _); by vm_compute.
  - apply (bool_decide_unpack _); by vm_compute.
Defined.
