(* ===== verification/HttpKeeps.v ===== *)
(** * What the callbacks keep, the parser keeps

    A property of the callbacks' state that every callback preserves holds after
    [http_parser_execute] if it held before, whatever the buffer. *)

From S2P Require Import Prelude CInt CArray HttpData HttpParser HttpSteps.
#[local] Open Scope http_scope.

Create HintDb keeps.

Section keeps.
Context {U : Type} (h : handlers U) (max : Z) (d : list ascii) (P : U -> Prop).

Class Respects : Prop := {
  begun_keeps q u : P u -> P (begun h q u);
  headers_read_keeps q u : P u -> P (headers_read h q u);
  completed_keeps q u : P u -> P (completed h q u);
  feed_keeps k u at_ : P u -> P (feed h k u at_)
}.

Context `{!Respects}.

Definition leaves {A} (r : outcome U A) : Prop :=
  match r with Value _ m | GotoError m | Return _ m => P (user m) | Stuck _ => True end.

Definition keeps {A} (c : M U A) : Prop := forall m, P (user m) -> leaves (c m).

Lemma keeps_bind {A B} (c : M U A) (k : A -> M U B) : keeps c -> (forall a, keeps (k a)) -> keeps (bind c k).
Proof. intros Hc Hk m Hm. specialize (Hc m Hm). unfold bind. destruct (c m); [by apply Hk|done..]. Qed.

Lemma keeps_gets {A} (f : machine U -> A) : keeps (gets f).
Proof. intros m Hm. exact Hm. Qed.
Lemma keeps_ret {A} (a : A) : keeps (ret (U := U) a).
Proof. intros m Hm. exact Hm. Qed.
Lemma keeps_stop {A} why : keeps (stop (U := U) (A := A) why).
Proof. intros m _. exact I. Qed.
Lemma keeps_error {A} : keeps (goto_error (U := U) (A := A)).
Proof. intros m Hm. exact Hm. Qed.
Lemma keeps_return {A} n : keeps (return_ (U := U) (A := A) n).
Proof. intros m Hm. exact Hm. Qed.
Lemma keeps_parser f : keeps (on_parser (U := U) f).
Proof. intros m Hm. exact Hm. Qed.
Lemma keeps_p f : keeps (set_p (U := U) f).
Proof. intros m Hm. exact Hm. Qed.
Lemma keeps_nread n : keeps (set_local_nread (U := U) n).
Proof. intros m Hm. exact Hm. Qed.
Lemma keeps_mark k x : keeps (set_mark (U := U) k x).
Proof. intros m Hm. destruct k; exact Hm. Qed.

Lemma keeps_called code q u : P u -> keeps (called (code, q, u)).
Proof. intros Hu m _. exact Hu. Qed.
Lemma keeps_seen {B} (k : machine U -> M U B) : (forall m, P (user m) -> keeps (k m)) -> keeps (bind (gets (fun m => m)) k).
Proof. intros Hk m Hm. by apply Hk. Qed.

Ltac keep :=
  repeat first
    [ eassumption | solve [auto with keeps nocore]
    | apply keeps_gets | apply keeps_ret | apply keeps_stop | apply keeps_error | apply keeps_return | apply keeps_parser
    | apply keeps_p | apply keeps_nread | apply keeps_mark
    | apply keeps_seen; intros ? ? | apply keeps_bind; [|intros ?]
    | apply keeps_called
    | match goal with |- keeps (match ?x with _ => _ end) => destruct x end ].

Lemma keeps_errno e : keeps (CROW_SET_ERRNO (U := U) e).
Proof. unfold CROW_SET_ERRNO. keep. Qed.

Lemma keeps_fail {A} e : keeps (fail_with (U := U) (A := A) e).
Proof. unfold fail_with. apply keeps_bind; [apply keeps_errno|intros _; keep]. Qed.

Lemma keeps_assert b : keeps (assert_ (U := U) b).
Proof. unfold assert_. keep. Qed.

Lemma keeps_leave er : keeps (leave_if_errored (U := U) er).
Proof. unfold leave_if_errored, errno. keep. Qed.
#[local] Hint Resolve keeps_errno keeps_fail keeps_assert keeps_leave : keeps.

#[local] Hint Resolve begun_keeps headers_read_keeps completed_keeps feed_keeps : keeps.

Lemma keeps_begin : keeps (NOTIFY_message_begin (plain h)).
Proof. unfold NOTIFY_message_begin, CROW_CALLBACK_NOTIFY, CROW_CALLBACK_NOTIFY_, errno. cbn. keep. Qed.

Lemma keeps_complete : keeps (NOTIFY_message_complete (plain h)).
Proof. unfold NOTIFY_message_complete, CROW_CALLBACK_NOTIFY, CROW_CALLBACK_NOTIFY_, errno. cbn. keep. Qed.

Lemma keeps_headers : keeps (headers_complete_callback (plain h)).
Proof. unfold headers_complete_callback. cbn. keep. Qed.

Lemma keeps_bytes i n : keeps (bytes_at d i n).
Proof. unfold bytes_at. keep. Qed.

Lemma keeps_read i : keeps (read d i).
Proof. unfold read. keep. Qed.
#[local] Hint Resolve keeps_begin keeps_complete keeps_headers keeps_bytes keeps_read : keeps.

Lemma keeps_data k more er : keeps (CROW_CALLBACK_DATA_ (plain h) d k more er).
Proof. unfold CROW_CALLBACK_DATA_, errno. destruct k; cbn; keep. Qed.

Lemma keeps_advance k : keeps (CROW_CALLBACK_DATA (plain h) d k).
Proof. unfold CROW_CALLBACK_DATA. apply keeps_bind; [apply keeps_gets|intros; apply keeps_data]. Qed.

Lemma keeps_noadvance k : keeps (CROW_CALLBACK_DATA_NOADVANCE (plain h) d k).
Proof. unfold CROW_CALLBACK_DATA_NOADVANCE. apply keeps_bind; [apply keeps_gets|intros; apply keeps_data]. Qed.

Lemma keeps_count n : keeps (COUNT_HEADER_SIZE max (U := U) n).
Proof. unfold COUNT_HEADER_SIZE, CROW_COUNT_HEADER_SIZE. keep. Qed.
#[local] Hint Resolve keeps_data keeps_advance keeps_noadvance keeps_count : keeps.

Lemma keeps_skip_tokens fuel pe : keeps (skip_tokens d fuel pe).
Proof. induction fuel as [|fuel IH]; cbn [skip_tokens]; keep. Qed.

Lemma keeps_skip_value fuel le pe : keeps (skip_value d fuel le pe).
Proof. induction fuel as [|fuel IH]; cbn [skip_value]; keep. Qed.
#[local] Hint Resolve keeps_skip_tokens keeps_skip_value : keeps.

Lemma keeps_field_char fuel ch c : keeps (header_field_char max d fuel ch c).
Proof. unfold header_field_char, match_field, match_word, run_end, read_literal. keep. Qed.
#[local] Hint Resolve keeps_field_char : keeps.

Lemma keeps_field_loop fuel : keeps (header_field_loop max d fuel).
Proof. induction fuel as [|fuel IH]; cbn [header_field_loop]; keep. Qed.

Lemma keeps_value_char fuel le hs ch : keeps (header_value_char max d fuel le hs ch).
Proof. unfold header_value_char, content_length_digit, match_value, match_word, run_end, read_literal. keep. Qed.
#[local] Hint Resolve keeps_field_loop keeps_value_char : keeps.

Lemma keeps_value_loop fuel le start hs : keeps (header_value_loop (plain h) max d fuel le start hs).
Proof. revert hs. induction fuel as [|fuel IH]; intros hs; cbn [header_value_loop]; keep. Qed.
#[local] Hint Resolve keeps_value_loop : keeps.

Lemma keeps_strict b : keeps (CROW_STRICT_CHECK (U := U) b).
Proof. unfold CROW_STRICT_CHECK. keep. Qed.

Lemma keeps_url ch : keeps (step_url (U := U) ch).
Proof. unfold step_url. keep. Qed.

Lemma keeps_literal s i : keeps (read_literal (U := U) s i).
Proof. unfold read_literal. keep. Qed.

Lemma keeps_first ch : keeps (header_value_first (U := U) ch).
Proof. unfold header_value_first. keep. Qed.

Lemma keeps_body : keeps (take_body (U := U) d).
Proof. unfold take_body, body_asserts. keep. Qed.
#[local] Hint Resolve keeps_strict keeps_url keeps_literal keeps_first keeps_body : keeps.

Lemma keeps_switch le al s ch : keeps (switch (plain h) max d le al s ch).
Proof.
  destruct s; cbn [switch]; unfold case_dead, case_start_req, case_req_method, case_req_spaces_before_url, case_req_schema, case_req_url,
    case_req_http_letter, case_req_http_major, case_req_http_dot, case_req_http_minor, case_req_http_end, case_req_line_almost_done,
    case_header_field_start, case_header_value_discard_ws, case_header_value_discard_ws_almost_done, case_header_value_discard_lws,
    case_header_almost_done, case_chunk_size_start, case_chunk_size, case_chunk_parameters, case_chunk_size_almost_done,
    case_chunk_data_almost_done, case_chunk_data_done, case_headers_almost_done; cbv zeta; keep.
Qed.
#[local] Hint Resolve keeps_switch : keeps.

Lemma keeps_byte fuel le al ch : keeps (execute_byte (plain h) max d fuel le al ch).
Proof. revert ch. induction fuel as [|fuel IH]; intros ch; cbn [execute_byte]; keep. Qed.

Lemma keeps_loop_body le al ch : keeps (loop_body (plain h) max d le al ch).
Proof. unfold loop_body. pose proof keeps_byte. keep. Qed.
#[local] Hint Resolve keeps_loop_body : keeps.

Lemma keeps_loop fuel le al : keeps (loop (plain h) max d fuel le al).
Proof. induction fuel as [|fuel IH]; cbn [loop]; keep. Qed.

Lemma keeps_buffer : keeps (execute_buffer (plain h) max d).
Proof. unfold execute_buffer, execute_eof, start_marks, flush_marks. pose proof keeps_loop. cbn [on_message_complete plain]. keep. Qed.

(** What holds of the callbacks' state before a buffer holds after it. *)
Lemma execute_keeps q u n q' u' : P u -> http_parser_execute (plain h) max d q u = inr (n, q', u') -> P u'.
Proof.
  intros Hu. unfold http_parser_execute. pose proof (keeps_buffer (start q u) Hu) as Hb.
  destruct (execute_buffer _ _ _ _) as [a m|m|a m|why]; [by intros [= <- <- <-]..|done].
Qed.
End keeps.
