(* ===== verification/HttpLife.v ===== *)
(** * The life of a connection

    [settled] holds between two events, as long as no write is started while another
    is under way ([one_write]), [reading] while a read is handled, from within the
    parser's callbacks ([HttpKeeps]). *)

From S2P Require Import Prelude CInt CFloat CArray Multipart Query CNum HttpData Trie TrieSpec RuleTags Router HttpParser HttpSteps HttpBytes HttpFeed HttpTurns HttpPieces HttpCuts HttpRead HttpNames RequestParser HttpKeeps HttpConnection.

Section life.
Context (e : environment).

(** The application ends every response before it returns. *)
Definition prompt : Prop := forall req res r,
  application e req res = Built r -> completed_ res = false -> ended res = [] -> ended r <> [].

Context (Hprompt : prompt).

(** The flags say what is outstanding; nothing is after the end, and no response is
    left to be completed. *)
Record settled (c : Connection) : Prop := {
  settled_reading : is_reading (socket c) = bool_decide (reads (socket c) <> 0%nat);
  settled_writing : is_writing (socket c) = bool_decide (writes (socket c) <> 0%nat);
  settled_reads : (reads (socket c) <= 1)%nat;
  settled_writes : (writes (socket c) <= 1)%nat;
  settled_freed : freed (socket c) = true -> reads (socket c) = 0%nat /\ writes (socket c) = 0%nat /\ deadline (socket c) = false;
  settled_steps : complete_request_handler_ (steps c) = false /\ need_to_call_after_handlers_ (steps c) = false /\
    need_to_start_read_after_complete_ (steps c) = false
}.

(** A read is being handled; [timer]: whether the deadline may still be there. *)
Definition reading (timer : bool) (c : Connection) : Prop :=
  is_reading (socket c) = true /\ reads (socket c) = 0%nat /\ freed (socket c) = false /\
  is_writing (socket c) = bool_decide (writes (socket c) <> 0%nat) /\
  complete_request_handler_ (steps c) = false /\ need_to_call_after_handlers_ (steps c) = false /\
  need_to_start_read_after_complete_ (steps c) = false /\ timer || negb (deadline (socket c)) = true.

Definition outlives (P : Connection -> Prop) (o : served Connection) : Prop :=
  match o with Serves c => P c | Freed => False | _ => True end.

#[local] Hint Extern 0 (outlives _ _) => exact I : core.

Lemma outlives_bind P o (k : Connection -> served Connection) : outlives P o -> (forall c, P c -> outlives P (k c)) -> outlives P (o ≫= k).
Proof. intros Ho Hk. destruct o as [c| | | |]; [by apply Hk|done..]. Qed.

Lemma do_write_reading t b c : reading t c -> reading t (do_write b c).
Proof. intros (? & ? & ? & ? & ? & ? & ? & ?). by destruct c as [? ? ? ? []]. Qed.

Lemma complete_reading t now s c : is_reading (socket c) = true -> reads (socket c) = 0%nat -> freed (socket c) = false ->
  is_writing (socket c) = bool_decide (writes (socket c) <> 0%nat) ->
  need_to_start_read_after_complete_ (steps c) = false -> t || negb (deadline (socket c)) = true -> outlives (reading t) (complete_request e now s c).
Proof.
  intros. unfold complete_request. set (c' := on_steps _ _). assert (Hc : reading t c') by by destruct c as [? ? ? [] []].
  destruct (if is_open _ then _ else _) as [buffers b]. unfold do_write_general. destruct (_ <? _); [|done].
  pose proof (do_write_reading t (buffers ++ b) c' Hc) as H'. pose proof H' as (_ & _ & _ & _ & _ & _ & Hr & _).
  rewrite Hr. exact H'.
Qed.

Lemma ask_reading t now req c : reading t c -> outlives (reading t) (ask_app e now req c).
Proof.
  intros (? & ? & ? & ? & ? & ? & ? & ?). unfold ask_app. cbn [res on_steps]. destruct (completed_ (res c)) eqn:Hc; [by apply complete_reading|].
  destruct (application e req (unended (res c))) as [r| | |] eqn:Ha; [|done..]. cbn [call mbind served_bind].
  specialize (Hprompt _ _ _ Ha Hc eq_refl). destruct (ended r) as [|s more]; [done|].
  apply outlives_bind; [by apply complete_reading|]. intros c1 H'. by destruct (add_keep_alive_ (steps c1)).
Qed.

Lemma handle_reading t now q c : reading t c -> outlives (reading t) (handle e now q c).
Proof.
  intros (? & ? & ? & ? & ? & ? & ? & ?). assert (t || true = true) by apply orb_true_r. unfold handle. cbn [members on_steps on_socket cancel_deadline_timer].
  destruct (to_request q (members c)) as [req|]; [|done]. destruct (negb (_ && _)); [done|].
  destruct (_ && _); [|by apply ask_reading]. destruct (negb (has_header _ _)); [by apply complete_reading|].
  destruct (_ && _); [|by apply ask_reading]. destruct (application_upgrade _ _ _) as [[r moved]| | |]; [|done..].
  cbn. by destruct moved.
Qed.

Lemma header_reading t q c : reading t c -> outlives (reading t) (handle_header q c).
Proof. intros H. unfold handle_header. destruct (_ && _); [exact (do_write_reading t _ c H)|done]. Qed.

#[local] Instance parser_reading t now : Respects (on_message e now) (outlives (reading t)).
Proof.
  split.
  - done.
  - intros q [c| | | |] H; [by apply header_reading|done..].
  - intros q [c| | | |] H; [by apply handle_reading|done..].
  - by intros k [c| | | |] at_ H.
Qed.

Lemma feed_reading t now d q c : reading t c -> match feed_parser e now d q c with Serves (_, _, c) => reading t c | Freed => False | _ => True end.
Proof.
  intros Hc. unfold feed_parser. destruct (message_complete _); [done|].
  destruct (http_parser_execute _ _ _ _ _) as [|[[n q'] o]] eqn:E; [done|].
  pose proof (execute_keeps (on_message e now) _ _ (outlives (reading t)) q (Serves c) n q' o Hc E) as H. by destruct o.
Qed.

Definition settles (o : served (http_parser * Connection)) : Prop :=
  match o with Serves (_, c) => settled c | Freed => False | _ => True end.

(** The same, where no more than one write is under way. *)
Definition settles_alone (o : served (http_parser * Connection)) : Prop :=
  match o with Serves (_, c) => (writes (socket c) <= 1)%nat -> settled c | Freed => False | _ => True end.

(** At the end of the handling of a read: nothing more to read, or one more read. *)
Lemma ended_settled c : reading false c -> (writes (socket c) <= 1)%nat -> settled (check_destroy (on_socket (set_reading false) c)).
Proof.
  intros (? & ? & Hf & Hw & ? & ? & ? & Hd) Hm. destruct c as [? ? ? [] [? w ? [] ? ? n ?]]; [done|]. cbn in *. subst.
  destruct n as [|[|n]]; [..|lia]; (split; [done|done|by apply Nat.leb_le|by apply Nat.leb_le|by intros|done]).
Qed.

Lemma again_settled t c : reading t c -> (writes (socket c) <= 1)%nat -> settled (do_read (start_deadline c)).
Proof.
  intros (? & ? & Hf & Hw & ? & ? & ? & _) Hm. destruct c as [? ? ? [] [? w ? ? ? ? n ?]]. cbn in *. subst.
  split; [done|done|by apply Nat.leb_le|done|done|done].
Qed.

Lemma destroy_writes c : writes (socket (check_destroy c)) = writes (socket c).
Proof. unfold check_destroy. destruct c as [? ? ? ? [[] []]]; done. Qed.

Lemma on_read_settled now data q c : reading true c -> settles_alone (on_read e now data q c).
Proof.
  intros Hc. unfold on_read.
  assert (H : match (match data with Some buffer => '(ret, q, c) ← feed_parser e now buffer q c; Serves (ret && is_open (socket c), q, c)
      | None => Serves (false, q, c) end) with Serves (_, _, c) => reading true c | Freed => False | _ => True end).
  { destruct data as [d|]; [|done]. pose proof (feed_reading true now d q c Hc) as H. by destruct (feed_parser _ _ _ _ _) as [[[? ?] ?]| | | |]. }
  destruct (match data with Some _ => _ | None => _ end) as [[[fine q1] c1]| | | |]; [|done..]. cbn [mbind served_bind].
  assert (Hd : match parser_done e now q1 (cancel_deadline_timer c1) with Serves (_, _, c) => reading false c | Freed => False | _ => True end).
  { apply feed_reading. destruct c1 as [? ? ? ? []], H as (? & ? & ? & ? & ? & ? & ? & ?). by split_and!. }
  pose proof H as (_ & _ & _ & _ & _ & Hafter & _).
  destruct fine; cbn [negb]; [destruct (close_connection_ _); [|rewrite Hafter; intros Hm; by eapply again_settled]|];
    (destruct (parser_done _ _ _ _) as [[[? ?] c2]| | | |]; [|done..]); intros Hm; rewrite destroy_writes in Hm.
  - by apply ended_settled.
  - apply (ended_settled (on_socket (fun l => close (does ShutdownRead l)) c2)); [|done]. by destruct c2 as [? ? ? ? []].
Qed.

Lemma on_written_settled ok q c : settled c -> writes (socket c) <> 0%nat -> settles (Serves (on_written ok q (write_done c))).
Proof.
  intros [Hr Hw Hr1 Hw1 Hf Hs] Hn. destruct c as [u ? r [] [rd w op dl fr n m ?]]. cbn in *. subst.
  destruct m as [|[|m]]; [done| |lia]. destruct fr; [by destruct (Hf eq_refl) as (_ & ? & _)|].
  unfold on_written, parser_clear. cbn [write_done with_res with_members on_socket members socket steps].
  destruct (clear_ q u) as [q' u']. destruct n as [|[|n]], ok, close_connection_; try lia; (split; [done|done|by apply Nat.leb_le|by apply Nat.leb_le|by intros|done]).
Qed.

Lemma settles_settles_alone o : settles o -> settles_alone o.
Proof. destruct o as [[? ?]| | | |]; try done. by intros H _. Qed.

Lemma step_settled v q c : settled c -> enabled c v -> settles_alone (step e v q c).
Proof.
  intros Hc Hv. unfold step. destruct (freed (socket c)) eqn:Ef.
  - destruct (settled_freed c Hc Ef) as (Hr & Hw & Hd). destruct v; cbn in Hv; rewrite ?Hr, ?Hw, ?Hd in Hv; try done; [by destruct Hv|].
    destruct (settled_steps c Hc) as [Hs _]. by rewrite Hs in Hv.
  - destruct v as [now data|now|ok| |now f]; cbn in Hv.
    + apply on_read_settled. destruct Hc as [Hr Hw Hr1 Hw1 Hf (? & ? & ?)]. destruct c as [? ? ? [] [? ? ? ? ? n ? ?]]. cbn in *.
      destruct n as [|[|n]]; [by destruct Hv| |lia]. by split_and!.
    + apply on_read_settled. destruct Hc as [Hr Hw Hr1 Hw1 Hf (? & ? & ?)]. destruct c as [? ? ? [] [? ? ? ? ? n ? ?]]. cbn in *.
      destruct n as [|[|n]]; [done| |lia]. by split_and!.
    + by apply settles_settles_alone, on_written_settled.
    + intros _. cbn. destruct c as [? ? ? [] [? ? [] ? [] ? ? ?]]; [done| |done|]; by destruct Hc.
    + destruct (settled_steps c Hc) as [Hs _]. by rewrite Hs in Hv.
Qed.

(** Events that may follow one another. *)
Fixpoint possible (vs : list event) (q : http_parser) (c : Connection) : Prop :=
  match vs with
  | [] => True
  | v :: vs => enabled c v /\ match step e v q c with Serves (q, c) => possible vs q c | _ => True end
  end.

(** No write is started while another is under way. *)
Fixpoint one_write (vs : list event) (q : http_parser) (c : Connection) : Prop :=
  match vs with
  | [] => True
  | v :: vs => match step e v q c with Serves (q, c) => (writes (socket c) <= 1)%nat /\ one_write vs q c | _ => True end
  end.

(** Of a connection from its start on. *)
Definition happens (vs : list event) : Prop := let '(q, c) := start http_parser_init new_connection in possible vs q c.
Definition writes_alone (vs : list event) : Prop := let '(q, c) := start http_parser_init new_connection in one_write vs q c.

Lemma possible_app vs ws q c : possible vs q c -> (forall q' c', run e vs q c = Serves (q', c') -> possible ws q' c') -> possible (vs ++ ws) q c.
Proof.
  revert q c. induction vs as [|v vs IH]; intros q c Hv Hw; [by apply Hw|]. cbn [app possible run] in *. destruct Hv as [Hv Hvs].
  split; [done|]. destruct (step e v q c) as [[q' c']| | | |]; [|done..]. by apply IH.
Qed.

Lemma one_write_app vs ws q c : one_write vs q c -> (forall q' c', run e vs q c = Serves (q', c') -> one_write ws q' c') -> one_write (vs ++ ws) q c.
Proof.
  revert q c. induction vs as [|v vs IH]; intros q c Hv Hw; [by apply Hw|]. cbn [app one_write run] in *.
  destruct (step e v q c) as [[q' c']| | | |]; [|done..]. destruct Hv as [Hv Hvs]. split; [done|]. by apply IH.
Qed.

Lemma run_settled vs q c : settled c -> possible vs q c -> one_write vs q c -> settles (run e vs q c).
Proof.
  revert q c. induction vs as [|v vs IH]; intros q c Hc Hp Hw; [done|]. destruct Hp as [Hv Hp]. cbn [run one_write] in *.
  pose proof (step_settled v q c Hc Hv) as Hs. destruct (step e v q c) as [[q' c']| | | |]; [|done..].
  destruct Hw as [Hw1 Hw]. apply IH; [by apply Hs|done..].
Qed.

End life.

(** ** Examples *)

Definition greeter : environment :=
  mkEnvironment (of_text "Crow") 1048576 (fun hs => hs) (fun _ res => Built (end_ (write (of_text "hello") res))) (fun _ res => Built (res, false)).

Lemma greeter_prompt : prompt greeter.
Proof. intros req res r [= <-] Hc He. unfold end_. cbn [write completed_]. rewrite Hc. cbn. by rewrite He; destruct (skip_body res). Qed.

Definition visit : list event := [http ["GET / HTTP/1.1"; "Host: h"; ""]; Written true; Deadline; ReadFailed noon].

