(* ===== verification/HttpServe.v ===== *)
(** * Requests are answered

    A written request is followed through a connection ([serve_exchange]): the parser's
    callbacks, [handle], the application and the two completions.  [requests_answered]
    is for any application, [routes_answered] for a router, against the list of its
    rules. *)

From S2P Require Import Prelude CInt CFloat CArray Query CNum HttpData Trie TrieSpec RuleTags Router RouterSpec HttpParser HttpSteps HttpBytes HttpFeed HttpTurns HttpPieces HttpCuts HttpRead HttpNames RequestParser HttpKeeps HttpConnection HttpLife.

(** ** A request is served *)

Section served.
Context (e : environment).

#[export] Instance on_message_mergeable now : Mergeable (on_message e now).
Proof.
  split.
  - intros k [c| | | |] a b; [|done..]. cbn [feed on_message mbind served_bind]. destruct c as [u r rs st so]. cbn [members with_members req_ res steps socket].
    by rewrite (feed_app (h := callbacks) k u a b : on_data k (on_data k u a) b = _).
  - done.
  - intros q q' o H. destruct q, q'. cbn in H. injection H as ?????????????? . by subst.
  - intros q q' o H. destruct q, q'. cbn in H. injection H as ?????????????? . by subst.
Qed.

Lemma given_members now k c at_ :
  feed (on_message e now) k (Serves c) at_ = Serves (with_members (feed callbacks k (members c) at_) c).
Proof. done. Qed.

Lemma headers_members now hs c :
  fold_left (header_given (on_message e now)) hs (Serves c) = Serves (with_members (fold_left (header_given callbacks) hs (members c)) c).
Proof.
  revert c. induction hs as [|kv hs IH]; intros c; [by destruct c|]. cbn [fold_left]. unfold header_given at 2. rewrite !given_members, IH.
  by destruct c.
Qed.

(** A request and what the rest of the world says while it is handled. *)
Record exchange := mkExchange { x_now : moment; x_method : HTTPMethod; x_path : bytes; x_query : option bytes; x_headers : headers; x_body : bytes }.

Definition x_text (x : exchange) : bytes := request_text (x_method x) (x_path x) (x_query x) (x_headers x) (x_body x).

Definition x_request (x : exchange) : request :=
  request_of (x_method x) (x_path x) (x_query x) (default (QueryString [NUL] []) (query_string_of (url_text (x_path x) (x_query x))))
    (x_headers x) (x_body x).

(** The bytes of a response. *)
Definition reply (now : moment) (req : request) (s : sent) : bytes :=
  let '(buffers, body) := prepare_buffers e now (req_keep_alive req) (absolute_location req s) in buffers ++ body.

(** A request that the application answers at once with [s]: written for HTTP/1.1,
    with a [Host] and without [Expect: 100-continue], in one read (of at most the 4096
    bytes of [buffer_]); the response keeps its body ([skip_body] unset, as after a
    request that is not [HEAD]) and its length header, and its body is shorter than
    the stream threshold. *)
Record answered_by (x : exchange) (s : sent) : Prop := {
  x_peer : peer (x_now x) = true;
  x_connect : x_method x <> Connect;
  x_url : wf_url (x_path x) (x_query x);
  x_headed : well_headed (x_headers x) (x_body x);
  x_piece : piece CROW_HTTP_MAX_HEADER_SIZE (x_text x);
  x_read : len (x_text x) <= 4096;
  x_host : has_header "host" (kept (x_headers x)) = true;
  x_expect : get_header_value (kept (x_headers x)) (of_text "expect") <> of_text "100-continue";
  x_app : match application e (x_request x) (mkResponse 200 [] [] false false false []) with
    | Built r => head (ended r) = Some s /\ skip_body r = false /\ manual_length_header r = false
    | _ => False
    end;
  x_small : len (prepare_buffers e (x_now x) true (absolute_location (x_request x) s)).2 < res_stream_threshold_ e
}.

(** A connection that waits for a request. *)
Definition waiting (q : http_parser) (c : Connection) : Prop :=
  idle q /\ exists qs calls req l kept_alive handler timer acts,
  c = mkConnection (fresh_members qs calls) req (mkResponse 200 [] [] false false false l) (mkProgress false false false kept_alive handler)
        (mkLink true false true timer false 1 0 acts).


(** The connection while the parser is in the middle of a request. *)
Lemma message_given now qh qb target hs body c qs calls : members c = fresh_members qs calls -> Forall header_ok hs ->
  keep_alive_of qh = true -> close_connection_of qh = false -> get_header_value (kept hs) (of_text "expect") <> of_text "100-continue" ->
  let u2 := headers_read (on_message e now) qh
    (fold_left (header_given (on_message e now)) hs (feed (on_message e now) Url (begun (on_message e now) qb (Serves c)) target)) in
  (if body is [] then u2 else feed (on_message e now) Body u2 body) =
  Serves (with_members (mkHTTPParser target [] 0 false [] [] (kept hs) (Some qs) body true false (calls ++ [Handle_header])) c).
Proof.
  intros Hc Hhs Hk Hcl Hex. change (begun (on_message e now) qb (Serves c)) with (Serves c). rewrite given_members, headers_members, Hc.
  destruct (headers_complete_given hs qh (feed callbacks Url (fresh_members qs calls) target) eq_refl eq_refl eq_refl Hhs) as (st & _ & Hh).
  cbn [headers_read on_message mbind served_bind members with_members]. rewrite Hh. unfold set_connection_parameters. rewrite Hk, Hcl.
  unfold handle_header. cbn [members with_members call_handler fields with_header feed callbacks on_data on_url_ fresh_members].
  rewrite (bool_decide_eq_false_2 _ Hex), andb_false_r. by destruct body.
Qed.

Lemma exchange_read x s q0 c qs calls : answered_by x s -> idle q0 -> members c = fresh_members qs calls -> exists q u,
  feed_parser e (x_now x) (x_text x) q0 c = (c ← handle e (x_now x) q (with_members u c); Serves (true, q, c)) /\
  idle (set_state s_start_req (set_qs_point 0 (set_version 0 0 q))) /\ to_request q u = Some (x_request x) /\ exists qs' calls', clear_ q u = (set_state s_start_req (set_qs_point 0 (set_version 0 0 q)), fresh_members qs' calls').
Proof.
  intros [] Hidle Hc. destruct x as [now m path query hs body]. cbn [x_now x_method x_path x_query x_headers x_body x_text x_request] in *.
  unfold x_text, x_request in *. cbn [x_now x_method x_path x_query x_headers x_body] in *.
  destruct (params_defined (url_text path query)) as [params Hparams].
  assert (Hlen : len body < 2 ^ 31) by by eapply body_short.
  destruct (well_headed_ok m path query hs body x_connect0 x_url0 x_headed0 Hlen) as (fl & cl & Hok & Hfl).
  pose proof (ok_headers _ _ _ _ _ _ Hok) as Hhs.
  destruct (request_read (on_message e now) CROW_HTTP_MAX_HEADER_SIZE m path query hs body _ q0 (Serves c) Hok Hidle x_piece0 limit_range)
    as (hs' & ix & qb & n0 & st & cl' & Hcl & from & Hrun).
  cbn [e_flags e_length] in Hrun.
  rewrite (message_given now (conn fl s_headers_done hs' ix false n0 cl (question_at path query) 1 1 m) qb _ hs body c qs calls) in Hrun;
    [|done|done|by destruct Hfl as [-> | ->]|by destruct Hfl as [-> | ->]|done].
  set (q := conn fl st hs' ix false 0 cl' (question_at path query) 1 1 m) in *.
  pose proof (execute_run (on_message e now) CROW_HTTP_MAX_HEADER_SIZE _ q0 (Serves c) (proj1 x_piece0)
    ltac:(by destruct Hidle as (? & ? & ? & ? & ? & ? & -> & _))) as He. rewrite Hrun in He.
  exists q. eexists. split_and!.
  - unfold feed_parser. rewrite Hc. cbn [message_complete fresh_members]. rewrite He.
    cbn [completed on_message mbind served_bind]. cbn [members with_members].
    rewrite bool_decide_eq_true_2 by done. by rewrite Z.eqb_refl.
  - by exists fl, hs', ix, false, cl', m.
  - rewrite Hparams. cbn [default]. by apply completed_request.
  - unfold clear_, on_message_complete_, call_handler. cbn [url_params handled raw_url]. rewrite Hparams. by eexists _, _.
Qed.

(** The response is being written. *)
Lemma handle_answers x s q u req l ka hd tm acts : answered_by x s -> to_request q u = Some (x_request x) -> exists r,
  handle e (x_now x) q (mkConnection u req (mkResponse 200 [] [] false false false l) (mkProgress false false false ka hd)
    (mkLink true false true tm false 0 0 acts)) =
  Serves (mkConnection u (x_request x) r (mkProgress false false false true false)
    (mkLink true true true false false 0 1 (acts ++ [AsyncWrite (reply (x_now x) (x_request x) s)]))) /\
  skip_body r = false /\ manual_length_header r = false.
Proof.
  intros [Hpeer _ _ _ _ _ Hhost _ Hdone Hsmall] Hr.
  destruct (application e (x_request x) _) as [r| | |] eqn:Happ in Hdone; [|done..]. destruct Hdone as (Hended & Hskip & Hman).
  destruct (ended r) as [|s' more] eqn:Hmore in Hended; [done|]. injection Hended as ->.
  exists (set_header (of_text "connection") (of_text "Keep-Alive") r). split; [|by destruct r].
  unfold handle.
  cbv [on_steps on_socket with_req with_res cancel_deadline_timer set_keep_alive set_deadline set_close members req_ res steps socket
    close_connection_ need_to_call_after_handlers_ need_to_start_read_after_complete_ add_keep_alive_ complete_request_handler_
    is_reading is_writing is_open deadline freed reads writes log].
  rewrite Hr, Hpeer. cbn [andb negb].
  change (req_major (x_request x)) with 1. change (req_minor (x_request x)) with 1. change (req_upgrade (x_request x)) with false.
  change (req_headers (x_request x)) with (kept (x_headers x)). rewrite Hhost. cbn [Z.eqb Pos.eqb andb negb].
  change (req_keep_alive (x_request x)) with true. change (req_close_connection (x_request x)) with false.
  unfold ask_app. cbn [res on_steps completed_]. change (unended _) with (mkResponse 200 [] [] false false false []). rewrite Happ.
  cbn [call mbind served_bind]. rewrite Hmore. unfold complete_request. cbn [socket on_steps is_open steps add_keep_alive_ set_handler set_after with_res req_].
  unfold reply. change (req_keep_alive (x_request x)) with true.
  destruct (prepare_buffers e (x_now x) true (absolute_location (x_request x) s)) as [buffers body] eqn:Hb. cbn [snd] in Hsmall.
  unfold do_write_general. rewrite (proj2 (Z.ltb_lt _ _) Hsmall). done.
Qed.

Lemma exchange_received x s q qs calls req l ka hd tm acts : answered_by x s -> idle q -> exists q' u r,
  on_read e (x_now x) (Some (x_text x)) q (mkConnection (fresh_members qs calls) req (mkResponse 200 [] [] false false false l)
    (mkProgress false false false ka hd) (mkLink true false true tm false 0 0 acts)) =
  Serves (q', mkConnection u (x_request x) r (mkProgress false false false true false)
    (mkLink true true true true false 1 1 ((acts ++ [AsyncWrite (reply (x_now x) (x_request x) s)]) ++ [AsyncReadSome]))) /\
  idle (set_state s_start_req (set_qs_point 0 (set_version 0 0 q'))) /\ skip_body r = false /\ manual_length_header r = false /\
  exists qs' calls', clear_ q' u = (set_state s_start_req (set_qs_point 0 (set_version 0 0 q')), fresh_members qs' calls').
Proof.
  intros Hx Hq. set (c := mkConnection _ _ _ _ _).
  destruct (exchange_read x s q c qs calls Hx Hq eq_refl) as (q1 & u & Hf & Hq1 & Hr & Hcl).
  destruct (handle_answers x s q1 u req l ka hd tm acts Hx Hr) as (r & Hh & Hskip & Hman).
  exists q1, u, r. split; [|by split_and!]. unfold on_read. rewrite Hf. unfold with_members, c. cbn [req_ res steps socket]. by rewrite Hh.
Qed.

Lemma exchange_written q u req r ka tm acts qs calls :
  skip_body r = false -> manual_length_header r = false -> idle (set_state s_start_req (set_qs_point 0 (set_version 0 0 q))) ->
  clear_ q u = (set_state s_start_req (set_qs_point 0 (set_version 0 0 q)), fresh_members qs calls) ->
  exists q' c', on_written true q (mkConnection u req r (mkProgress false false false ka false) (mkLink true true true tm false 1 0 acts)) = (q', c') /\
  waiting q' c' /\ log (socket c') = acts.
Proof.
  intros Hskip Hman Hq Hcl. unfold on_written, parser_clear, with_res, on_socket. cbn [members]. rewrite Hcl. eexists _, _. split; [reflexivity|]. split; [|done].
  split; [done|]. destruct r as [? ? ? sk man ? en]. cbn in Hskip, Hman. subst sk man. exists qs, calls, req, en, ka, false, tm, acts. reflexivity.
Qed.

Lemma serve_exchange x s q c : answered_by x s -> waiting q c -> exists q' c',
  run e [Received (x_now x) (x_text x); Written true] q c = Serves (q', c') /\ waiting q' c' /\
  log (socket c') = log (socket c) ++ [AsyncWrite (reply (x_now x) (x_request x) s); AsyncReadSome] /\
  possible e [Received (x_now x) (x_text x); Written true] q c /\ one_write e [Received (x_now x) (x_text x); Written true] q c.
Proof.
  intros Hx (Hq & qs & calls & req & l & ka & hd & tm & acts & ->).
  destruct (exchange_received x s q qs calls req l ka hd tm acts Hx Hq) as (q1 & u & r & Hread & Hq1 & Hskip & Hman & qs' & calls' & Hcl).
  destruct (exchange_written q1 u (x_request x) r true true ((acts ++ [AsyncWrite (reply (x_now x) (x_request x) s)]) ++ [AsyncReadSome]) qs' calls')
    as (q2 & c2 & Hw & Hwait & Hlog); [done..|].
  set (vs := [Received (x_now x) (x_text x); Written true]).
  set (c := mkConnection (fresh_members qs calls) req _ _ (mkLink _ _ _ _ _ 1 0 _)).
  set (c1 := mkConnection u (x_request x) r _ _) in Hread.
  assert (H1 : step e (Received (x_now x) (x_text x)) q c = Serves (q1, c1)).
  { unfold step. cbn [c socket freed].
    change (read_done _) with (mkConnection (fresh_members qs calls) req (mkResponse 200 [] [] false false false l)
      (mkProgress false false false ka hd) (mkLink true false true tm false 0 0 acts)). exact Hread. }
  assert (H2 : step e (Written true) q1 c1 = Serves (q2, c2)) by (unfold step; cbn [c1 socket freed]; by rewrite <- Hw).
  exists q2, c2. subst vs. cbn [run possible one_write]. rewrite H1. cbn [mbind served_bind]. rewrite H2.
  assert (Hw1 : (writes (socket c2) <= 1)%nat) by (destruct Hwait as (_ & ? & ? & ? & ? & ? & ? & ? & ? & ->); by apply Nat.leb_le).
  split; [done|]. split; [done|]. split; [by rewrite Hlog, <- app_assoc|]. split.
  - split; [|by split]. split; [done|]. split; [apply (x_piece x s Hx)|apply (x_read x s Hx)].
  - split; [by apply Nat.leb_le|by split].
Qed.
Definition exchange_events (x : exchange) : list event := [Received (x_now x) (x_text x); Written true].

Lemma run_app vs ws q c : run e (vs ++ ws) q c = ('(q, c) ← run e vs q c; run e ws q c).
Proof. revert q c. induction vs as [|v vs IH]; intros q c; [done|]. cbn [run app]. destruct (step e v q c) as [[q' c']| | | |]; [apply IH|done..]. Qed.

Definition exchanges_events (xs : list (exchange * sent)) : list event := List.concat ((fun x => exchange_events x.1) <$> xs).

(** What a connection is asked to do while these requests are answered. *)
Definition exchanges_log (xs : list (exchange * sent)) : list action :=
  List.concat ((fun x => [AsyncWrite (reply (x_now x.1) (x_request x.1) x.2); AsyncReadSome]) <$> xs).

Lemma serve_exchanges xs q c : Forall (fun xs => answered_by xs.1 xs.2) xs -> waiting q c ->
  possible e (exchanges_events xs) q c /\ one_write e (exchanges_events xs) q c /\ exists q' c',
  run e (exchanges_events xs) q c = Serves (q', c') /\ waiting q' c' /\ log (socket c') = log (socket c) ++ exchanges_log xs.
Proof.
  intros Hxs. revert q c. induction Hxs as [|[x s] xs Hx _ IH]; intros q c Hc; [split; [done|]; split; [done|]; exists q, c; by rewrite app_nil_r|].
  destruct (serve_exchange x s q c Hx Hc) as (q1 & c1 & H1 & Hc1 & Hl1 & Hp1 & Hw1). destruct (IH q1 c1 Hc1) as (Hp2 & Hw2 & q2 & c2 & H2 & Hc2 & Hl2).
  change (exchanges_events ((x, s) :: xs)) with ([Received (x_now x) (x_text x); Written true] ++ exchanges_events xs).
  split; [apply possible_app; [done|by rewrite H1; intros ? ? [= <- <-]]|].
  split; [apply one_write_app; [done|by rewrite H1; intros ? ? [= <- <-]]|].
  exists q2, c2. rewrite run_app, H1. split_and!; [exact H2|done|]. rewrite Hl2, Hl1. by rewrite <- app_assoc.
Qed.

Lemma start_waiting : let '(q, c) := start http_parser_init new_connection in waiting q c /\ log (socket c) = [AsyncReadSome].
Proof. split; [|done]. split; [exists 0, h_general, 0, false, 0, Delete; by split|]. by repeat eexists. Qed.

(** A connection that is accepted and fed written requests, each whole in one read of
    at most 4096 bytes and only after the response to the last was written, for
    HTTP/1.1, with a [Host] and without [Expect], writes for each exactly the
    response of the application to the request that was written (its status line, its
    headers, those that the connection adds, and its body), reads on, and is ready
    for the next request when the response is written, as long as the application
    answers at once and marks no response as one without its body.  These events can
    come in this order, and never are two writes under way. *)
Theorem requests_answered xs : Forall (fun xs => answered_by xs.1 xs.2) xs ->
  happens e (exchanges_events xs) /\ writes_alone e (exchanges_events xs) /\ exists q c,
  serve e (exchanges_events xs) = Serves (q, c) /\ waiting q c /\ log (socket c) = AsyncReadSome :: exchanges_log xs.
Proof.
  intros Hxs. pose proof start_waiting as Hs. unfold happens, writes_alone, serve. destruct (start _ _) as [q0 c0]. destruct Hs as [Hw Hl].
  destruct (serve_exchanges xs q0 c0 Hxs Hw) as (Hp & H1 & q & c & Hr & Hc & Hlog). split_and!; [done..|]. exists q, c. by rewrite Hlog, Hl.
Qed.
End served.

Definition sample_exchanges : list (exchange * sent) := [
  (mkExchange noon Get (of_text "7/") (Some (of_text "x=1")) [text_header "Host" "h"] [], mkSent 200 (of_text "int") [] false);
  (mkExchange noon Post (of_text "8/") None [text_header "A" "b"; text_header "Host" "h"; text_header "Content-Length" "3"] (of_text "xyz"),
    mkSent 200 (of_text "int") [] false)].


Ltac sample_answered :=
  apply Forall_cons; split; [|apply Forall_cons; split; [|apply Forall_nil; done]]; split; try (by vm_compute);
  [split; apply (bool_decide_unpack _); by vm_compute
  |apply no_length; repeat constructor; try done; apply (bool_decide_unpack _); by vm_compute
  |by apply pieceb_ok
  |split; apply (bool_decide_unpack _); by vm_compute
  |apply (one_length [text_header "A" "b"; text_header "Host" "h"] (text_header "Content-Length" "3") [] (of_text "xyz"));
     repeat constructor; try done; apply (bool_decide_unpack _); by vm_compute
  |by apply pieceb_ok].

Lemma sample_answers : Forall (fun xs => answered_by sample xs.1 xs.2) sample_exchanges.
Proof. sample_answered. Qed.

Lemma requests_answered_witness :
  happens sample (exchanges_events sample_exchanges) /\ writes_alone sample (exchanges_events sample_exchanges) /\ exists q c,
  serve sample (exchanges_events sample_exchanges) = Serves (q, c) /\ waiting q c /\ log (socket c) = AsyncReadSome :: exchanges_log sample sample_exchanges.
Proof. exact (requests_answered sample sample_exchanges sample_answers). Defined.

(** ** The routes *)

(** The application is a router; its specification, the list of its rules. *)
Definition of_router (e : environment) (ro : Router) : environment :=
  mkEnvironment (server_name_ e) (res_stream_threshold_ e) (iterate e) (Router.handle ro) (application_upgrade e).

Definition of_rules (e : environment) (c : option (request -> response -> response)) (rs : list BaseRule) : environment :=
  mkEnvironment (server_name_ e) (res_stream_threshold_ e) (iterate e) (fun req res => Built (respond c rs req res)) (application_upgrade e).

Lemma answers_rules e c rs ro x s : (forall req res, 0 <= req_method req -> Router.handle ro req res = Built (respond c rs req res)) ->
  answered_by (of_rules e c rs) x s -> answered_by (of_router e ro) x s.
Proof.
  intros Hro [? ? ? ? ? ? ? ? Happ ?]. split; try done. cbn [application of_router of_rules] in *. rewrite Hro; [done|].
  change (req_method (x_request x)) with (number_of (x_method x)). unfold number_of. lia.
Qed.

(** C11: From the bytes of requests to the bytes of responses.  The rules of the router
    are registered with it (no blueprints), can be told apart and begin with a slash
    ([routable]); the requests are written for HTTP/1.1 (not CONNECT), each with a
    [Host], without [Expect: 100-continue], with at most one header that means
    something to the parser; each arrives whole in one read of at most 4096 bytes, the
    peer still there, and the next only when the response to the last was written; the
    response that the list of the rules gives is one that is ended at once, keeps its
    body (so none to a HEAD) and its length header and is below the stream threshold
    ([answered_by]).  Then this can happen, never are two writes under way, and the
    connection writes for each request, in their order, the response of the list of
    the rules (the first rule that matches handles the request with the parameters of
    its URL, and otherwise it is redirected, or answered with an error), and reads on.
    What happens outside of this scope is in [HttpCases]. *)
Theorem routes_answered e c rs xs : routable (upgraded <$> rs) -> Forall (fun xs => answered_by (of_rules e c (upgraded <$> rs)) xs.1 xs.2) xs ->
  exists ro q k, router_validate (mkRouter c (per_methods_ new_router) rs []) = Built ro /\
  happens (of_router e ro) (exchanges_events xs) /\ writes_alone (of_router e ro) (exchanges_events xs) /\
  serve (of_router e ro) (exchanges_events xs) = Serves (q, k) /\ log (socket k) = AsyncReadSome :: exchanges_log e xs.
Proof.
  intros Hr Hxs. destruct (router_built c rs Hr) as (pms & Hv & Hl & Hp). set (ro := mkRouter c pms rs []) in *.
  assert (Hx : Forall (fun xs => answered_by (of_router e ro) xs.1 xs.2) xs).
  { eapply Forall_impl; [exact Hxs|]. intros [x s]. apply answers_rules. intros req res Hm. by apply handle_run. }
  pose proof start_waiting as Hs. unfold serve, happens, writes_alone. destruct (start _ _) as [q0 c0]. destruct Hs as [Hw Hl0].
  destruct (serve_exchanges (of_router e ro) xs q0 c0 Hx Hw) as (Hps & H1 & q & k & Hrun & _ & Hlog).
  exists ro, q, k. rewrite Hlog, Hl0. by split_and!.
Qed.

Lemma sample_by_rules : Forall (fun xs => answered_by (of_rules sample None (upgraded <$> sample_routes)) xs.1 xs.2) sample_exchanges.
Proof. sample_answered. Qed.

Lemma routes_answered_witness : exists ro q k, router_validate (mkRouter None (per_methods_ new_router) sample_routes []) = Built ro /\
  happens (of_router sample ro) (exchanges_events sample_exchanges) /\ writes_alone (of_router sample ro) (exchanges_events sample_exchanges) /\
  serve (of_router sample ro) (exchanges_events sample_exchanges) = Serves (q, k) /\ log (socket k) = AsyncReadSome :: exchanges_log sample sample_exchanges.
Proof. exact (routes_answered sample None sample_routes sample_exchanges sample_routable sample_by_rules). Defined.
