(* ===== verification/HttpCases.v ===== *)
(** * What connections do with some requests

    Whole runs of [serve], evaluated: an answer, an error, and the cases in which the
    client gets less than it should. *)

From S2P Require Import Prelude CInt CFloat CArray Multipart Query CNum HttpData Trie TrieSpec RuleTags Router HttpParser HttpRead RequestParser HttpConnection HttpLife.

Example answered : actions sample [http ["GET /7/ HTTP/1.1"; "Host: h"; ""]] = Some [AsyncReadSome;
  wrote ["HTTP/1.1 200 OK"; "Content-Length: 3"; "Server: Crow"; "Date: noon"; "Connection: Keep-Alive"; ""] "int"; AsyncReadSome].
Proof. by vm_compute. Qed.

Example no_host : actions sample [http ["GET /7/ HTTP/1.1"; "Connection: close"; ""]; Written true] = Some [AsyncReadSome;
  wrote ["HTTP/1.1 400 Bad Request"; "Content-Length: 17"; "Server: Crow"; "Date: noon"; "Connection: Keep-Alive"; ""; "400 Bad Request"] "";
  ShutdownWrite; CloseSocket; DeleteThis].
Proof. by vm_compute. Qed.

(** [clear()] leaves [skip_body] and [manual_length_header] of a [HEAD] behind: from
    then on, every response of the connection is without its body. *)
Example after_head : actions sample [http ["HEAD /7/ HTTP/1.1"; "Host: h"; ""]; Written true; http ["GET /7/ HTTP/1.1"; "Host: h"; ""]] =
  let reply := wrote ["HTTP/1.1 200 OK"; "Content-Length: 3"; "Server: Crow"; "Date: noon"; "Connection: Keep-Alive"; ""] "" in
  Some [AsyncReadSome; reply; AsyncReadSome; reply; AsyncReadSome].
Proof. by vm_compute. Qed.

(** The answer to [HEAD] for what is not there has a body, and says it has none. *)
Example head_body : actions (router_app (router_validate new_router)) [http ["HEAD /7/ HTTP/1.1"; "Host: h"; ""]] = Some [AsyncReadSome;
  wrote ["HTTP/1.1 404 Not Found"; "Content-Length: 0"; "Server: Crow"; "Date: noon"; "Connection: Keep-Alive"; ""; "404 Not Found"] "";
  AsyncReadSome].
Proof. by vm_compute. Qed.

(** [100 Continue] being written, the parser is cleared: the body that comes then is
    an error, and the socket is closed.  With a body that came with the headers,
    a second write is started while the first is under way. *)
Example continue_lost :
  let head := http ["POST /7/ HTTP/1.1"; "Host: h"; "Content-Length: 3"; "Expect: 100-continue"; ""] in
  actions sample [head; Written true; Received noon (of_text "xyz")] =
    Some [AsyncReadSome; wrote ["HTTP/1.1 100 Continue"; ""] ""; AsyncReadSome; ShutdownRead; CloseSocket; DeleteThis] /\
  actions sample [Received noon (http_lines ["POST /7/ HTTP/1.1"; "Host: h"; "Content-Length: 3"; "Expect: 100-continue"; ""] ++ of_text "xyz")] =
    Some [AsyncReadSome; wrote ["HTTP/1.1 100 Continue"; ""] "";
      wrote ["HTTP/1.1 200 OK"; "Content-Length: 3"; "Server: Crow"; "Date: noon"; "Connection: Keep-Alive"; ""] "int"; AsyncReadSome].
Proof. by vm_compute. Qed.

(** Whatever [handle_upgrade] answers is not sent. *)
Example upgrade_refused : actions sample [http ["GET /7/ HTTP/1.1"; "Host: h"; "Connection: Upgrade"; "Upgrade: websocket"; ""]] =
  Some [AsyncReadSome; DeleteThis].
Proof. by vm_compute. Qed.

(** A request that is read while the answer to the last is being written is dropped;
    a line feed behind a request answers it twice at a time. *)
Example dropped : actions sample [http ["GET /7/ HTTP/1.1"; "Host: h"; ""]; http ["GET /8/ HTTP/1.1"; "Host: h"; ""]; Written true] = Some [AsyncReadSome;
  wrote ["HTTP/1.1 200 OK"; "Content-Length: 3"; "Server: Crow"; "Date: noon"; "Connection: Keep-Alive"; ""] "int"; AsyncReadSome; AsyncReadSome].
Proof. by vm_compute. Qed.

Example answered_twice :
  match serve sample [Received noon (http_lines ["GET /7/ HTTP/1.1"; "Host: h"; ""] ++ [lf])] with
  | Serves (_, c) => writes (socket c) = 2%nat /\ log (socket c) = [AsyncReadSome;
      wrote ["HTTP/1.1 200 OK"; "Content-Length: 3"; "Server: Crow"; "Date: noon"; "Connection: Keep-Alive"; ""] "int";
      wrote ["HTTP/1.1 200 OK"; "connection: Keep-Alive"; "Content-Length: 3"; "Server: Crow"; "Date: noon"; "Connection: Keep-Alive"; ""] "int";
      AsyncReadSome]
  | _ => False
  end.
Proof. by vm_compute. Qed.

(** With two writes under way, the peer closes: the connection deletes itself when
    the first write has come to its end, and the second then uses it. *)
Example used_after :
  let vs := [Received noon (http_lines ["GET /7/ HTTP/1.1"; "Host: h"; ""] ++ [lf]); ReadFailed noon; Written false; Written false] in
  serve sample vs = Freed /\ happens sample vs.
Proof. vm_compute. split_and!; done || by intros [=]. Qed.

(** An application that ends its response later: by then, the connection of an
    HTTP/1.0 request is gone. *)
Definition patient : environment := mkEnvironment (of_text "Crow") 1048576 (fun hs => hs) (fun _ res => Built res) (fun _ res => Built (res, false)).

Example ended_later : actions patient [http ["GET / HTTP/1.1"; "Host: h"; ""]; Later noon (fun res => end_ (write (of_text "x") res)); Written true] =
  Some [AsyncReadSome;
    wrote ["HTTP/1.1 200 OK"; "connection: Keep-Alive"; "Content-Length: 1"; "Server: Crow"; "Date: noon"; "Connection: Keep-Alive"; ""] "x"; AsyncReadSome].
Proof. by vm_compute. Qed.

Example ended_too_late : serve patient [http ["GET / HTTP/1.0"; "Host: h"; ""]; Later noon end_] = Freed.
Proof. by vm_compute. Qed.

(** Two requests at once: the second is an error, which closes the socket; when the
    answer to the first is written without one, the connection stays for ever. *)
Example stranded :
  match serve greeter [Received noon (http_lines ["GET / HTTP/1.1"; "Host: h"; ""; "GET / HTTP/1.1"; "Host: h"; ""]); Written true] with
  | Serves (_, c) => (freed (socket c), reads (socket c), writes (socket c), deadline (socket c)) = (false, 0%nat, 0%nat, false)
  | _ => False
  end.
Proof. by vm_compute. Qed.
