(* ===== verification/TaskTimer.v ===== *)
(** * Deadlines: include/crow_all.h, crow::detail::task_timer

    Tasks in the order of their identifiers, which are [size_t] and are issued anew
    from 1 when no task is left; a tick calls those that are due.  The times are in
    nanoseconds; what a task does, does not concern the timer. *)

From S2P Require Import Prelude CInt.

Section timer.
Context {T : Type}.

Record task_timer := mkTimer { tasks_ : list (Z * (Z * T)); highest_id_ : Z; default_timeout_ : Z }.

Definition second : Z := 10 ^ 9.

(** [tasks_.erase(id)], [tasks_.insert]: a key that is there keeps its value. *)
Definition erase (id : Z) (ts : list (Z * (Z * T))) : list (Z * (Z * T)) := List.filter (fun x => negb (fst x =? id)) ts.

Fixpoint insert (id : Z) (v : Z * T) (ts : list (Z * (Z * T))) : list (Z * (Z * T)) :=
  match ts with
  | [] => [(id, v)]
  | (k, w) :: ts => if id <? k then (id, v) :: (k, w) :: ts else if id =? k then (k, w) :: ts else (k, w) :: insert id v ts
  end.

Definition cancel (id : Z) (tm : task_timer) : task_timer := mkTimer (erase id (tasks_ tm)) (highest_id_ tm) (default_timeout_ tm).

(** [schedule(task, timeout)], at the time [now], and [schedule(task)]; a timeout is
    converted to a [uint8_t]. *)
Definition schedule_in (timeout now : Z) (task : T) (tm : task_timer) : Z * task_timer :=
  let id := to_u64 (highest_id_ tm + 1) in
  (id, mkTimer (insert id (now + wrap_u 8 timeout * second, task) (tasks_ tm)) id (default_timeout_ tm)).

Definition schedule (now : Z) (task : T) (tm : task_timer) : Z * task_timer := schedule_in (default_timeout_ tm) now task tm.

Definition set_default_timeout (timeout : Z) (tm : task_timer) : task_timer := mkTimer (tasks_ tm) (highest_id_ tm) (wrap_u 8 timeout).

(** [process_tasks()]: the tasks called, and the timer after them. *)
Definition due (current_time : Z) (x : Z * (Z * T)) : bool := fst (snd x) <? current_time.

Definition process_tasks (current_time : Z) (tm : task_timer) : list (Z * T) * task_timer :=
  let finished := List.filter (due current_time) (tasks_ tm) in
  let ts := fold_left (fun ts x => erase (fst x) ts) finished (tasks_ tm) in
  ((fun x => (fst x, snd (snd x))) <$> finished, mkTimer ts (if ts is [] then 0 else highest_id_ tm) (default_timeout_ tm)).

(** ** What is done with a timer *)

Inductive operation := Cancel (id : Z) | Schedule (timeout now : Z) (task : T) | Tick (now : Z).

Definition apply (o : operation) (tm : task_timer) : task_timer :=
  match o with
  | Cancel id => cancel id tm
  | Schedule timeout now task => snd (schedule_in timeout now task tm)
  | Tick now => snd (process_tasks now tm)
  end.

(** The identifiers ascend up to [highest_id_], of which there are [spare] more. *)
Fixpoint ascending (low : Z) (ts : list (Z * (Z * T))) : Prop :=
  match ts with [] => True | x :: ts => low < fst x /\ ascending (fst x) ts end.

Record timer_ok (spare : nat) (tm : task_timer) : Prop := {
  ok_ascending : ascending 0 (tasks_ tm);
  ok_below : Forall (fun x => fst x <= highest_id_ tm) (tasks_ tm);
  ok_highest : 0 <= highest_id_ tm;
  ok_spare : highest_id_ tm + Z.of_nat spare < 2 ^ 64
}.

Lemma ascending_weaken low low' ts : low' <= low -> ascending low ts -> ascending low' ts.
Proof. destruct ts; [done|]. cbn. intros H [? ?]. split; [lia|done]. Qed.

Lemma ascending_above low ts : ascending low ts -> Forall (fun x => low < fst x) ts.
Proof.
  revert low. induction ts as [|x ts IH]; intros low; [by constructor|]. intros [Hx Ht]. constructor; [done|].
  eapply Forall_impl; [by apply IH|]. cbn. lia.
Qed.

Lemma ascending_filter f low ts : ascending low ts -> ascending low (List.filter f ts).
Proof.
  revert low. induction ts as [|x ts IH]; intros low; [done|]. intros [Hx Ht]. cbn.
  destruct (f x); [by split; [|apply IH]|]. apply IH. eapply ascending_weaken; [|done]. lia.
Qed.

Lemma ascending_nodup low ts : ascending low ts -> NoDup (fst <$> ts).
Proof.
  revert low. induction ts as [|x ts IH]; intros low; [by constructor|]. intros [Hx Ht]. rewrite fmap_cons. apply NoDup_cons.
  split; [|by eapply IH]. rewrite list_elem_of_fmap. intros (y & Hy & Hin). apply ascending_above in Ht.
  rewrite Forall_forall in Ht. specialize (Ht y Hin). cbn in Ht. lia.
Qed.

(** A new identifier goes behind the others. *)
Lemma insert_last id v low ts : ascending low ts -> Forall (fun x => fst x < id) ts -> low < id ->
  insert id v ts = ts ++ [(id, v)] /\ ascending low (insert id v ts).
Proof.
  revert low. induction ts as [|[k w] ts IH]; intros low; [done|]. intros [Hk Ht] Hf Hl. apply Forall_cons in Hf as [Hki Hf]. cbn in *.
  rewrite (proj2 (Z.ltb_ge _ _)), (proj2 (Z.eqb_neq _ _)) by lia. destruct (IH k Ht Hf Hki) as [-> Ha].
  split; [done|]. cbn. by split.
Qed.

Lemma keys_unique (ts : list (Z * (Z * T))) x y : NoDup (fst <$> ts) -> In x ts -> In y ts -> fst x = fst y -> x = y.
Proof.
  induction ts as [|z ts IH]; [done|]. rewrite fmap_cons. intros [Hz Hn]%NoDup_cons Hx Hy E.
  assert (Hin : forall w, In w ts -> fst w <> fst z).
  { intros w Hw Ew. apply Hz. rewrite <- Ew. apply list_elem_of_fmap. exists w. split; [done|]. by apply list_elem_of_In. }
  destruct Hx as [->|Hx], Hy as [->|Hy]; [done| | |by apply IH].
  - by destruct (Hin y Hy).
  - by destruct (Hin x Hx).
Qed.

(** What a tick leaves is what is not due. *)
Lemma erase_all now ts : NoDup (fst <$> ts) ->
  fold_left (fun ts x => erase (fst x) ts) (List.filter (due now) ts) ts = List.filter (fun x => negb (due now x)) ts.
Proof.
  assert (H : forall fs us : list (Z * (Z * T)), fold_left (fun ts x => erase (fst x) ts) fs us = List.filter (fun y => negb (existsb (fun x => fst y =? fst x) fs)) us).
  { intros fs. induction fs as [|x fs IH]; intros us; cbn.
    - induction us as [|y us IHu]; [done|]. cbn. by f_equal.
    - rewrite IH. unfold erase. induction us as [|y us IHu]; [done|]. cbn. destruct (fst y =? fst x); cbn; [done|].
      destruct (existsb _ fs); cbn; [done|]. by f_equal. }
  intros Hn. rewrite H. clear H. apply filter_ext_in. intros y Hy. f_equal.
  destruct (due now y) eqn:E.
  - apply existsb_exists. exists y. rewrite Z.eqb_refl. split; [|done]. by apply List.filter_In.
  - apply not_true_iff_false. intros Hx. apply existsb_exists in Hx as (x & Hin & Hk%Z.eqb_eq). apply List.filter_In in Hin as [Hin Hd].
    assert (x = y) by by apply (keys_unique ts). congruence.
Qed.

Lemma tick_leaves now tm n : timer_ok n tm -> tasks_ (snd (process_tasks now tm)) = List.filter (fun x => negb (due now x)) (tasks_ tm).
Proof. intros Ht. cbn. eapply erase_all, ascending_nodup, Ht. Qed.

Lemma timer_ok_cancel id n tm : timer_ok n tm -> timer_ok n (cancel id tm).
Proof.
  intros [Ha Hb Hh Hs]. split; cbn; [by apply ascending_filter| |done|done].
  apply List.Forall_forall. intros x [Hx _]%List.filter_In. rewrite List.Forall_forall in Hb. by apply Hb.
Qed.

Lemma timer_ok_tick now n tm : timer_ok n tm -> timer_ok n (snd (process_tasks now tm)).
Proof.
  intros Ht. pose proof (tick_leaves now tm n Ht) as Hl. destruct Ht as [Ha Hb Hh Hs].
  assert (Hb' : Forall (fun x => fst x <= highest_id_ tm) (List.filter (fun x => negb (due now x)) (tasks_ tm))).
  { apply List.Forall_forall. intros x [Hx _]%List.filter_In. rewrite List.Forall_forall in Hb. by apply Hb. }
  split.
  - rewrite Hl. by apply ascending_filter.
  - rewrite Hl. cbn in Hl |- *. rewrite Hl. by destruct (List.filter (fun x => negb (due now x)) (tasks_ tm)).
  - cbn. by destruct (fold_left _ _ _).
  - cbn. destruct (fold_left _ _ _); lia.
Qed.

Lemma schedule_ok timeout now task n tm : timer_ok (S n) tm ->
  fst (schedule_in timeout now task tm) = highest_id_ tm + 1 /\
  tasks_ (snd (schedule_in timeout now task tm)) = tasks_ tm ++ [(highest_id_ tm + 1, (now + wrap_u 8 timeout * second, task))] /\
  timer_ok n (snd (schedule_in timeout now task tm)).
Proof.
  intros [Ha Hb Hh Hs]. unfold schedule_in. cbn [fst snd tasks_ highest_id_].
  assert (to_u64 (highest_id_ tm + 1) = highest_id_ tm + 1) as -> by (unfold to_u64, wrap_u; rewrite Z.mod_small; lia).
  assert (Hlt : Forall (fun x => fst x < highest_id_ tm + 1) (tasks_ tm)) by (eapply Forall_impl; [exact Hb|]; cbn; lia).
  destruct (insert_last (highest_id_ tm + 1) (now + wrap_u 8 timeout * second, task) 0 (tasks_ tm) Ha Hlt) as [E Ha']; [lia|].
  split_and!; [done|done|]. split; cbn; [done| |lia|lia]. rewrite E. apply Forall_app. split; [|repeat constructor; cbn; lia].
  eapply Forall_impl; [exact Hb|]. cbn. lia.
Qed.

(** Nothing that happens meanwhile calls, or cancels, the task [id] that is due at [at_]. *)
Definition spares (id at_ : Z) (o : operation) : Prop :=
  match o with Cancel k => k <> id | Schedule _ _ _ => True | Tick now => now <= at_ end.

Definition is_schedule (o : operation) : bool := match o with Schedule _ _ _ => true | _ => false end.

Lemma kept_task os : forall n tm id at_ task, timer_ok (length (List.filter is_schedule os) + n) tm -> In (id, (at_, task)) (tasks_ tm) ->
  Forall (spares id at_) os -> let tm' := fold_left (fun tm o => apply o tm) os tm in timer_ok n tm' /\ In (id, (at_, task)) (tasks_ tm').
Proof.
  induction os as [|o os IH]; intros n tm id at_ task Ht Hin Hs; [done|]. apply Forall_cons in Hs as [Ho Hs]. cbn [fold_left].
  destruct o as [k|timeout now task'|now]; cbn [List.filter is_schedule length Nat.add] in Ht; apply IH; try done; cbn [apply].
  - by apply timer_ok_cancel.
  - apply List.filter_In. split; [done|]. cbn in *. by rewrite (proj2 (Z.eqb_neq _ _)).
  - by destruct (schedule_ok timeout now task' _ tm Ht) as (_ & _ & H).
  - destruct (schedule_ok timeout now task' _ tm Ht) as (_ & -> & _). apply in_app_iff. by left.
  - by apply timer_ok_tick.
  - rewrite (tick_leaves now tm _ Ht). apply List.filter_In. split; [done|]. unfold due. cbn in *. by rewrite (proj2 (Z.ltb_ge _ _)).
Qed.

Definition called_of (now : Z) (ts : list (Z * (Z * T))) : list (Z * T) := (fun x => (fst x, snd (snd x))) <$> List.filter (due now) ts.

Lemma called_none now id ts : id ∉ fst <$> ts -> List.filter (fun x => fst x =? id) (called_of now ts) = [].
Proof.
  induction ts as [|x ts IH]; [done|]. rewrite fmap_cons, not_elem_of_cons. intros [Hx Hi]. unfold called_of in *. cbn.
  destruct (due now x); [|by apply IH]. cbn. rewrite (proj2 (Z.eqb_neq _ _)); [by apply IH|]. by intros E.
Qed.

Lemma called_once now id at_ task ts : NoDup (fst <$> ts) -> In (id, (at_, task)) ts -> at_ < now ->
  List.filter (fun x => fst x =? id) (called_of now ts) = [(id, task)].
Proof.
  intros Hn Hin Ht. induction ts as [|x ts IH]; [done|]. rewrite fmap_cons in Hn. apply NoDup_cons in Hn as [Hx Hn].
  unfold called_of in *. cbn. destruct Hin as [->|Hin].
  - unfold due at 1. cbn in *. rewrite (proj2 (Z.ltb_lt _ _)) by done. cbn. rewrite Z.eqb_refl. f_equal. by apply called_none.
  - destruct (due now x); [|by apply IH]. cbn. rewrite (proj2 (Z.eqb_neq _ _)); [by apply IH|].
    intros E. apply Hx. rewrite E. apply list_elem_of_fmap. exists (id, (at_, task)). split; [done|]. by apply list_elem_of_In.
Qed.

(** C23: A task that is scheduled, while fewer than 2^64 identifiers are issued, is
    called, once, by the first tick after its time (the timeout, as an [uint8_t], after
    the call of [schedule]), and then is gone, unless its
    identifier is cancelled first; whatever else is scheduled, cancelled and called
    in between. *)
Theorem task_called timeout now task os tick n tm : timer_ok (S (length (List.filter is_schedule os) + n)) tm ->
  let '(id, tm1) := schedule_in timeout now task tm in let at_ := now + wrap_u 8 timeout * second in
  Forall (spares id at_) os -> at_ < tick ->
  let '(called, tm2) := process_tasks tick (fold_left (fun tm o => apply o tm) os tm1) in
  List.filter (fun x => fst x =? id) called = [(id, task)] /\ ~ In id (fst <$> tasks_ tm2).
Proof.
  intros Ht. destruct (schedule_ok timeout now task _ tm Ht) as (Hid & Hts & Hok). destruct (schedule_in timeout now task tm) as [id tm1].
  cbn [fst snd] in *. subst id. set (at_ := now + wrap_u 8 timeout * second) in *. intros Hs Htick.
  destruct (kept_task os n tm1 (highest_id_ tm + 1) at_ task Hok) as [Hok2 Hin]; [rewrite Hts; apply in_app_iff; right; by left|done|].
  set (tm2 := fold_left _ os tm1) in *. pose proof (tick_leaves tick tm2 n Hok2) as Hl.
  destruct (process_tasks tick tm2) as [called tm3] eqn:E. cbn [snd] in Hl. unfold process_tasks in E. injection E as <- _.
  assert (Hn : NoDup (fst <$> tasks_ tm2)) by (eapply ascending_nodup, Hok2).
  split; [by apply (called_once tick _ at_)|]. rewrite Hl. intros ([k [a t]] & Hk & Hf)%in_map_iff. cbn in Hk. subst k.
  apply List.filter_In in Hf as [Hf Hd]. pose proof (keys_unique _ _ _ Hn Hf Hin eq_refl) as [= -> ->].
  unfold due in Hd. cbn in Hd. by rewrite (proj2 (Z.ltb_lt _ _)) in Hd.
Qed.
End timer.
Arguments task_timer : clear implicits.
Arguments operation : clear implicits.

Definition fresh_timer : task_timer string := mkTimer [] 0 5.

Definition busy : list (operation string) := [Schedule 3 (2 * second) "b"; Tick (4 * second); Cancel 2; Tick (6 * second)]%string.

Lemma task_called_witness : let '(id, tm1) := schedule (1 * second) "a"%string fresh_timer in
  let '(called, tm2) := process_tasks (7 * second) (fold_left (fun tm o => apply o tm) busy tm1) in
  List.filter (fun x => fst x =? id) called = [(id, "a"%string)] /\ ~ In id (fst <$> tasks_ tm2).
Proof.
  apply (task_called 5 (1 * second) "a"%string busy (7 * second) 0 fresh_timer); [by split|by repeat constructor|done].
Defined.

(** A task was called, and its identifier is issued again: who cancels it late, as a
    connection does whose deadline has passed, cancels the task of another. *)
Example cancelled_for_another :
  let '(id, tm) := schedule 0 "a"%string fresh_timer in
  let '(_, tm) := process_tasks (6 * second) tm in
  let '(_, tm) := schedule (6 * second) "b"%string tm in
  process_tasks (20 * second) (cancel id tm) = ([], mkTimer [] 0 5).
Proof. by vm_compute. Qed.
